(* ===== verification/_CoqProject ===== *)
-Q . S2P
Prelude.v
CMonad.v
Conc.v
Bytes.v
Fcall.v
FcallSpec.v
FcallEnc.v
FcallDec.v
FcallThms.v
Stat.v
StatThms.v
Read9p.v
Block.v
BlockThms.v
Qio.v
QioThms.v
QioRead.v
QioProps.v
QioSync.v
Xalloc.v
XallocThms.v
XallocProps.v
Qlock.v
QlockThms.v
QlockProps.v
RWlockProps.v
Fgrp.v
FgrpThms.v
FgrpProps.v
Umem.v
UmemInv.v
UmemThms.v
UmemSafe.v
UmemProps.v
Utable.v
UtableProps.v
Avl.v
AvlHeap.v
AvlThms.v
AvlOps.v
AvlNav.v
AvlProps.v
Utf.v
UtfThms.v
UtfStr.v
UtfProps.v
Mp.v
MpVal.v
MpVec.v
MpMul.v
MpSafe.v
MpInt.v
MpAdd.v
MpProd.v
MpShift.v
MpDigdiv.v
MpDiv.v
MpLoop.v
MpSetup.v
MpQuot.v
MpRem.v
MpProps.v
MpDivProps.v
