(* ===== verification/Prelude.v ===== *)
(** * Jehanne: a verification development of the kernel's and libraries' core logic

    Jehanne is an operating system in C in the tradition of Plan 9: everything
    is a file served over the 9P2000 protocol.  A process holds descriptors;
    a descriptor names a channel; a channel reaches a server, in the kernel or
    over a connection that carries 9P messages; bytes in transit are kernel
    blocks in queues; the memory of a process is a set of segments whose tables
    name pages of one pool.  This development models the parts below that layer
    of commands and drivers, each from its source under [src/sys/src].

    *** Files

    - [Prelude]: machine integers ([u8] to [i64], wrap-around written out), list
      operations on integer positions, the tactics [wraps] and [dlia].
    - [CMonad]: a monad for C with early returns and undefined accesses, its
      triples, weakest preconditions ([wp]: no undefined access) and [pwp] (only
      runs that return).  [Conc]: programs of atomic actions that interleave,
      and the rule from one program's safety to that of every interleaving.
    - [Bytes], [Fcall], [FcallSpec], [FcallEnc], [FcallDec], [FcallThms]: the 9P
      message codec, [lib/9p2000/convM2S.c] and [convS2M.c], with the macros of
      [include/9P2000.h].  [Fcall] holds the code ([convM2S], [convS2M],
      [sizeS2M] and the readers and writers they call), [FcallSpec] the messages
      as values and the wire format [encode].
    - [Stat], [StatThms]: directory entries, [lib/c/9sys/convM2D.c], [convD2M.c].
    - [Read9p]: framing, [lib/9p2000/read9pmsg.c] and [lib/c/port/readn.c], over
      any descriptor that keeps the laws of the class the file states.
    - [Block], [BlockThms]: [kern/port/allocb.c] and the block operations of
      [kern/port/qio.c].  [Qio], [QioThms], [QioRead], [QioProps]: its queues;
      [QioSync]: a queue among sleeping and waking processes.
    - [Xalloc], [XallocThms], [XallocProps]: the boot allocator,
      [kern/port/xalloc.c].
    - [Qlock], [QlockThms], [QlockProps], [RWlockProps]: [kern/port/qlock.c].
    - [Fgrp], [FgrpThms], [FgrpProps]: descriptor tables and channel counts,
      [kern/port/sysfile.c], [pgrp.c], [devself.c], [ref.c] and [cclose].
    - [Umem], [UmemInv], [UmemThms], [UmemSafe], [UmemProps]: the pool of user
      pages; [Utable], [UtableProps]: the page tables; [kern/port/umem/pages.c].
    - [Avl], [AvlHeap], [AvlThms], [AvlOps], [AvlNav], [AvlProps]: balanced trees
      with parent pointers and walks, [lib/avl/avl.c].
    - [Utf], [UtfThms], [UtfStr], [UtfProps]: UTF-8, [lib/c/port/rune.c] and the
      routines on strings of runes in bytes ([utflen.c], [utfnlen.c], [utfrune.c],
      [utfrrune.c], [utfutf.c], [utfecpy.c], with [strchr.c] and [strstr.c]).
    - [Mp]: multiple precision integers, [lib/mp/port]: arrays of 32-bit digits in
      objects with a sign, a length and flags.  [MpVal]: the value of an array;
      [MpVec], [MpMul], [MpSafe]: the vector routines; [MpInt]: well-formed
      objects; [MpAdd], [MpProd], [MpShift]: sums, products and shifts;
      [MpDigdiv], [MpDiv], [MpLoop], [MpSetup], [MpQuot], [MpRem]: division, from
      two digits by one to [mpdiv] and [mpmod]; [MpProps], [MpDivProps].

    *** What the theorems show

    Codecs (C1-C8).  On every buffer the decoder stays inside it, accepts
    exactly the encodings and terminates; encoding is the wire format; the two
    are inverse, in place as well; [convS2M] stores outside its buffer for the
    last 22 values of a count, and truncates the length of a long string.
    [read9pmsg] delivers one message however the stream is cut.

    Blocks and queues (C9-C12).  Every operation is given by the byte string it
    keeps and by the number of live blocks; a queue's counters are the sizes of
    its blocks after every operation and its bytes come out in order; a
    reader asleep always has its wakeup coming, in every interleaving.  What the
    code gets wrong is proved too: [qproduce_leak], [pullupqueue_counters].

    The boot allocator (C13-C14).  First fit, the round trip, ownership of every
    byte by a hole, a block or a recorded leak, and the division of memory at
    boot.

    Locks (C15-C17).  [QLock], with its queue of pointers, refines an owner and a
    list of waiters; [RWlock] excludes; the panics of the unlocks cannot happen.

    Descriptor tables (C18-C19).  The descriptor chosen, [dup] on every branch,
    and the equality between a channel's count and the descriptors that name it
    in every reachable state of tables shared and copied.

    Pages (C20-C23).  Reference counts are the slots that name a page, for all
    interleavings of the atomic actions of the routines; copy on write gives a
    page of one's own; a table maps an address to the slot of its page; the
    size limits of a table; what a clone that runs out of memory leaves.

    AVL trees (C24-C28).  Rotations, insertion and deletion in the heap make
    the balanced tree of the sorted list with a node inserted or deleted, with
    right parent pointers, in every reachable state; searching is scanning
    that list; walks visit it in order.

    UTF-8 (C29-C32).  [chartorune] decides exactly the encodings, and with
    [runetochar] is a round trip; searching a string for a string of runes finds
    the first place where its bytes are; a bounded copy keeps whole runes.

    Multiple precision (C33-C40).  Products are exact, below and above the size
    where Karatsuba's method starts, and equal to the schoolbook's; sums and
    differences are exact, with operands that may be the result; the normal form
    is canonical; shifts are products and quotients by powers of two.  Each round
    of the long division finds the next digit of the quotient, the trial corrected
    at most twice before the subtraction and once after it ([MpDiv.round_ok]), so
    that [mpdiv] is truncated division on each of its paths, frees its temporary
    objects and changes nothing else; the hypotheses of the theorem are what the
    code gets wrong without them.  [mpmod] gives the residue, but for negative
    multiples of the modulus; and the comparison without branches is wrong on
    equal numbers of different lengths.

    *** Bounds and fuel

    Loops over lists, blocks, holes and map entries are structural; the loops of
    the codecs over names, qids and strings are recursions on what is left to
    read.  [readn] runs at most once per byte asked for, [qread] again once per
    block, [qwrite] and [qiwrite] once per byte, the walks along the queue of
    a lock once per process, the loops on a tree at most once per node, a loop
    over a string at most once per byte and the zero that ends it; [mpvecmul]
    splits its operands at most once per digit and one more, a trial quotient is
    tested three times, and a digit's bits are looked at 32 times.  This fuel is
    part of the definitions ([length], [to_nat] of a count, the number of
    processes), and the theorems state the result of the call without a
    condition on the fuel.  Integers keep the
    width of their C type where the code can wrap; where a theorem excludes the
    wrap, the bound is its hypothesis: buffers shorter than 2^31 or 2^32
    bytes, fewer references to an object than an [int] holds.

    *** Not modelled

    Sections under a spin lock run as one action; the spin locks themselves,
    interrupts and the scheduler's queues are not modelled, nor the machine's
    page tables, caches and mappings of pages into the kernel.  Messages and
    statistics that are only printed are left out.  Whether a call to the kernel
    heap succeeds is an argument of the routine that makes it.  A channel's
    device ([devtab]) is not run when it closes.  Segments, program images, page
    faults, alarms and the name space are not modelled, nor are path names,
    tokens and number conversions in the C library, nor exponentiation, inverses,
    random numbers and conversions to strings and bytes in [lib/mp].  In
    [mpdigdiv] the shift of [1] to the sign bit of an [int] is taken to give the
    word with that bit alone, as the compilers in use do.  Drivers, the IP stack,
    graphics, cryptography, file servers and commands are outside this
    development. *)
From stdpp Require Export base list numbers.
From Stdlib Require Export ZArith Lia.
Global Open Scope Z_scope.

(** ** Machine integers *)

Definition u8 (x : Z) : Z := x mod 2 ^ 8.
Definition u16 (x : Z) : Z := x mod 2 ^ 16.
Definition u32 (x : Z) : Z := x mod 2 ^ 32.
Definition u64 (x : Z) : Z := x mod 2 ^ 64.
Definition i32 (x : Z) : Z := (x + 2 ^ 31) mod 2 ^ 32 - 2 ^ 31.
Definition i64 (x : Z) : Z := (x + 2 ^ 63) mod 2 ^ 64 - 2 ^ 63.

(** The powers are folded to literals so that [lia] decides goals about them. *)
Ltac wraps :=
  unfold u8, u16, u32, u64, i32, i64 in *;
  change (2 ^ 8) with 256 in *; change (2 ^ 16) with 65536 in *;
  change (2 ^ 31) with 2147483648 in *; change (2 ^ 32) with 4294967296 in *;
  change (2 ^ 63) with 9223372036854775808 in *;
  change (2 ^ 64) with 18446744073709551616 in *.

(** [lia] for goals with a division or a remainder by a literal. *)
Ltac dlia := Z.div_mod_to_equations; lia.

Lemma u8_range x : 0 <= u8 x < 256.
Proof. wraps. dlia. Qed.
Lemma u16_range x : 0 <= u16 x < 65536.
Proof. wraps. dlia. Qed.
Lemma u32_range x : 0 <= u32 x < 4294967296.
Proof. wraps. dlia. Qed.
Lemma u64_range x : 0 <= u64 x < 18446744073709551616.
Proof. wraps. dlia. Qed.
Lemma u8_id x : 0 <= x < 256 -> u8 x = x.
Proof. wraps. dlia. Qed.
Lemma u16_id x : 0 <= x < 65536 -> u16 x = x.
Proof. wraps. dlia. Qed.
Lemma u32_id x : 0 <= x < 4294967296 -> u32 x = x.
Proof. wraps. dlia. Qed.
Lemma u64_id x : 0 <= x < 18446744073709551616 -> u64 x = x.
Proof. wraps. dlia. Qed.
Lemma i32_id x : -2147483648 <= x < 2147483648 -> i32 x = x.
Proof. wraps. dlia. Qed.

Lemma u16_u16 x : u16 (u16 x) = u16 x.
Proof. wraps. dlia. Qed.
Lemma u8_u8 x : u8 (u8 x) = u8 x.
Proof. wraps. dlia. Qed.
Lemma i64_id x : -9223372036854775808 <= x < 9223372036854775808 -> i64 x = x.
Proof. wraps. dlia. Qed.

(** [a | b << k] for a low part [a] that fits in [k] bits is a sum. *)
Lemma lor_shiftl_add a b k :
  0 <= k -> 0 <= a < 2 ^ k -> Z.lor a (Z.shiftl b k) = a + b * 2 ^ k.
Proof.
  intros Hk Ha. rewrite <- Z.shiftl_mul_pow2 by lia.
  rewrite <- Z.lxor_lor, <- Z.add_nocarry_lxor; [done| |].
  all: apply Z.bits_inj'; intros n Hn;
    rewrite Z.land_spec, Z.bits_0, Z.shiftl_spec by lia;
    destruct (Z.lt_ge_cases n k);
    [rewrite (Z.testbit_neg_r b) by lia; apply andb_false_r|];
    rewrite <- (Z.mod_small a (2 ^ k)), Z.mod_pow2_bits_high by lia; done.
Qed.

(** ** Lengths and positions as integers

    C counts bytes with integers, so lengths, offsets and sub-ranges of lists
    are taken at [Z].  *)

Definition zlen {A} (l : list A) : Z := Z.of_nat (length l).
Definition zget {A} (l : list A) (i : Z) : option A :=
  if i <? 0 then None else l !! Z.to_nat i.
Definition slice {A} (p n : Z) (l : list A) : list A :=
  take (Z.to_nat n) (drop (Z.to_nat p) l).
(** [blit p s l] overwrites [l] from position [p] with the bytes [s]
    ([memmove] of [s] to [l + p]). *)
Definition blit {A} (p : Z) (s l : list A) : list A :=
  take (Z.to_nat p) l ++ s ++ drop (Z.to_nat p + length s)%nat l.
Lemma blit_0 {A} (s l : list A) : blit 0 s l = s ++ drop (length s) l.
Proof. done. Qed.
Lemma blit_nil {A} p (l : list A) : blit p [] l = l.
Proof. unfold blit. cbn. rewrite Nat.add_0_r. apply take_drop. Qed.

Section zlists.
Context {A : Type}.
Implicit Types (l s r : list A) (p q n i : Z).

Lemma zlen_nil : zlen (@nil A) = 0.
Proof. done. Qed.
Lemma zlen_cons (x : A) l : zlen (x :: l) = zlen l + 1.
Proof. unfold zlen. simpl. lia. Qed.
Lemma zlen_app l r : zlen (l ++ r) = zlen l + zlen r.
Proof. unfold zlen. rewrite length_app. lia. Qed.
Lemma zlen_nonneg l : 0 <= zlen l.
Proof. unfold zlen. lia. Qed.
Lemma zlen_0_inv l : zlen l = 0 -> l = [].
Proof. destruct l; [done|]. rewrite zlen_cons. pose proof (zlen_nonneg l). lia. Qed.
Lemma zlen_slice p n l :
  0 <= p -> 0 <= n -> p + n <= zlen l -> zlen (slice p n l) = n.
Proof. unfold zlen, slice. rewrite length_take, length_drop. lia. Qed.
Lemma zlen_blit p s l :
  0 <= p -> p + zlen s <= zlen l -> zlen (blit p s l) = zlen l.
Proof.
  unfold zlen, blit. rewrite !length_app, length_take, length_drop. lia.
Qed.

Lemma zget_Some i l : 0 <= i < zlen l -> is_Some (zget l i).
Proof.
  unfold zget, zlen. intros. destruct (Z.ltb_spec i 0); [lia|].
  apply lookup_lt_is_Some. lia.
Qed.

Lemma lookup_blit p s l (i : nat) :
  0 <= p -> p + zlen s <= zlen l ->
  blit p s l !! i =
    if decide (Z.of_nat i < p) then l !! i
    else if decide (Z.of_nat i < p + zlen s) then s !! (i - Z.to_nat p)%nat
    else l !! i.
Proof.
  unfold zlen, blit. intros Hp Hs.
  case_decide; [|case_decide].
  - rewrite lookup_app_l by (rewrite length_take; lia).
    apply lookup_take_lt. lia.
  - rewrite lookup_app_r by (rewrite length_take; lia).
    rewrite length_take, lookup_app_l by lia. f_equal. lia.
  - rewrite lookup_app_r by (rewrite length_take; lia).
    rewrite length_take, lookup_app_r by lia. rewrite lookup_drop. f_equal. lia.
Qed.

Lemma lookup_slice p n l (i : nat) :
  (Z.of_nat i < n) -> slice p n l !! i = l !! (Z.to_nat p + i)%nat.
Proof.
  intros. unfold slice. rewrite lookup_take_lt by lia. apply lookup_drop.
Qed.

Lemma slice_all l n : n = zlen l -> slice 0 n l = l.
Proof. intros ->. unfold slice, zlen. rewrite drop_0, take_ge by lia. done. Qed.
Lemma slice_0 p l : slice p 0 l = [].
Proof. done. Qed.
Lemma slice_nil p n : slice p n (@nil A) = [].
Proof. unfold slice. by rewrite drop_nil, take_nil. Qed.
Lemma slice_app p n m l :
  0 <= p -> 0 <= n -> 0 <= m ->
  slice p (n + m) l = slice p n l ++ slice (p + n) m l.
Proof.
  intros. unfold slice.
  replace (Z.to_nat (n + m)) with (Z.to_nat n + Z.to_nat m)%nat by lia.
  rewrite <- take_take_drop. do 2 f_equal. rewrite drop_drop. f_equal. lia.
Qed.
Lemma slice_slice p n q m l :
  0 <= p -> 0 <= q -> 0 <= m -> q + m <= n ->
  slice q m (slice p n l) = slice (p + q) m l.
Proof.
  intros. apply list_eq. intros i. destruct (Z.lt_ge_cases (Z.of_nat i) m).
  - rewrite !lookup_slice by lia. f_equal. lia.
  - unfold slice. rewrite !lookup_ge_None_2; rewrite ?length_take; lia || done.
Qed.
Lemma slice_app_l p n l r :
  0 <= p -> p + n <= zlen l -> slice p n (l ++ r) = slice p n l.
Proof.
  unfold slice, zlen. intros.
  destruct (Z.lt_ge_cases 0 n); [|by replace (Z.to_nat n) with 0%nat by lia].
  rewrite drop_app_le, take_app_le; [done| |lia]. rewrite length_drop. lia.
Qed.
Lemma slice_app_r p n l r :
  zlen l <= p -> slice p n (l ++ r) = slice (p - zlen l) n r.
Proof.
  unfold slice, zlen. intros. rewrite drop_app_ge by lia. do 2 f_equal. lia.
Qed.
End zlists.

(** ** Ownership of a range of a byte array *)

(** [pts buf p bs]: the array [buf] holds the bytes [bs] from offset [p]. *)
Definition pts {A} (buf : list A) (p : Z) (bs : list A) : Prop :=
  0 <= p /\ p + zlen bs <= zlen buf /\
  forall i, (i < length bs)%nat -> buf !! (Z.to_nat p + i)%nat = bs !! i.

Section pts.
Context {A : Type}.
Implicit Types (buf bs s : list A) (p q : Z).

Lemma pts_pos buf p bs : pts buf p bs -> 0 <= p.
Proof. by intros (? & _). Qed.
Lemma pts_bound buf p bs : pts buf p bs -> p + zlen bs <= zlen buf.
Proof. by intros (_ & ? & _). Qed.

Lemma pts_slice buf p bs : pts buf p bs -> slice p (zlen bs) buf = bs.
Proof.
  intros (Hp & Hb & Hi). apply list_eq. intros i.
  destruct (decide (i < length bs)%nat) as [Hlt|Hge].
  - rewrite lookup_slice by (unfold zlen; lia). auto.
  - rewrite (lookup_ge_None_2 bs) by lia. apply lookup_ge_None_2.
    unfold slice. rewrite length_take. unfold zlen in *. lia.
Qed.
Lemma slice_pts buf p n :
  0 <= p -> 0 <= n -> p + n <= zlen buf -> pts buf p (slice p n buf).
Proof.
  intros. split_and!; [done|by rewrite zlen_slice|].
  intros i Hi. rewrite lookup_slice; [done|].
  unfold slice in Hi. rewrite length_take in Hi. lia.
Qed.

Lemma pts_app buf p bs s :
  pts buf p (bs ++ s) <-> pts buf p bs /\ pts buf (p + zlen bs) s.
Proof.
  unfold pts. rewrite zlen_app. pose proof (zlen_nonneg bs). pose proof (zlen_nonneg s).
  split.
  - intros (? & ? & Hi). split_and!; try lia.
    + intros i ?. rewrite Hi by (rewrite length_app; lia). by rewrite lookup_app_l.
    + intros i ?. specialize (Hi (length bs + i)%nat).
      rewrite lookup_app_r in Hi by lia.
      replace (Z.to_nat (p + zlen bs) + i)%nat with (Z.to_nat p + (length bs + i))%nat
        by (unfold zlen; lia).
      rewrite Hi by (rewrite length_app; lia). f_equal. lia.
  - intros ((? & ? & Hl) & (? & ? & Hr)). split_and!; [lia..|].
    intros i Hi. rewrite length_app in Hi.
    destruct (decide (i < length bs)%nat).
    + rewrite lookup_app_l by lia. auto.
    + rewrite lookup_app_r by lia. rewrite <- Hr by lia. f_equal. unfold zlen. lia.
Qed.

Lemma pts_nil buf p : 0 <= p <= zlen buf -> pts buf p [].
Proof. intros. split_and!; rewrite ?zlen_nil; [lia..|]. simpl. intros; lia. Qed.

Lemma pts_all bs : pts bs 0 bs.
Proof. split_and!; [lia..|]. done. Qed.

Lemma pts_zget buf p bs i : pts buf p bs -> 0 <= i < zlen bs -> zget buf (p + i) = zget bs i.
Proof.
  intros (? & ? & Hi) ?. unfold zget, zlen in *.
  destruct (Z.ltb_spec (p + i) 0), (Z.ltb_spec i 0); try lia.
  rewrite <- Hi by lia. f_equal. lia.
Qed.

Lemma pts_blit_same buf p s :
  0 <= p -> p + zlen s <= zlen buf -> pts (blit p s buf) p s.
Proof.
  intros. split_and!; [done|by rewrite zlen_blit|]. intros i Hi.
  rewrite lookup_blit by done. unfold zlen in *.
  repeat case_decide; try lia. f_equal. lia.
Qed.

Lemma pts_blit_other buf p s q bs :
  0 <= p -> p + zlen s <= zlen buf ->
  q + zlen bs <= p \/ p + zlen s <= q ->
  pts buf q bs -> pts (blit p s buf) q bs.
Proof.
  intros ?? Hd (? & ? & Hi). split_and!; [done|by rewrite zlen_blit|].
  intros i Hlt. rewrite lookup_blit by done. unfold zlen in *.
  repeat case_decide; try lia; auto.
Qed.

Lemma pts_inj buf p bs s : pts buf p bs -> pts buf p s -> zlen bs = zlen s -> bs = s.
Proof. intros Hl%pts_slice Hr%pts_slice E. congruence. Qed.

Lemma pts_full buf bs : pts buf 0 bs -> zlen bs = zlen buf -> buf = bs.
Proof. intros H%pts_slice E. rewrite E in H. by rewrite slice_all in H. Qed.
End pts.

Arguments u8 : simpl never.
Arguments u16 : simpl never.
Arguments u32 : simpl never.
Arguments u64 : simpl never.
Arguments i32 : simpl never.
Arguments i64 : simpl never.
Arguments zlen : simpl never.
Arguments zget : simpl never.
Arguments slice : simpl never.
Arguments blit : simpl never.

(** ** Automation shared by the components *)

Create HintDb jeh.
Create Rewrite HintDb zlen.
#[export] Hint Resolve zlen_nonneg u8_range u16_range u32_range u64_range : jeh.
#[export] Hint Rewrite @zlen_nil @zlen_cons @zlen_app : zlen.

(** [zl] normalises list lengths and calls [lia] with the bounds that hold for
    every length. *)
Ltac zlen_facts :=
  repeat match goal with
  | |- context [zlen ?l] =>
      lazymatch goal with H : 0 <= zlen l |- _ => fail | _ => pose proof (zlen_nonneg l) end
  | _ : context [zlen ?l] |- _ =>
      lazymatch goal with H : 0 <= zlen l |- _ => fail | _ => pose proof (zlen_nonneg l) end
  end.
Ltac zl := autorewrite with zlen in *; zlen_facts; lia.

(** Opens every conjunction and existential of the context. *)
Ltac destr :=
  repeat match goal with
  | H : _ /\ _ |- _ => destruct H
  | H : exists _, _ |- _ => destruct H
  end.

(** Case analysis on the boolean tests the source's [if]s become. *)
Ltac tests :=
  repeat match goal with
  | |- context [Z.eqb ?a ?b] => destruct (Z.eqb_spec a b)
  | |- context [Z.leb ?a ?b] => destruct (Z.leb_spec a b)
  | |- context [Z.ltb ?a ?b] => destruct (Z.ltb_spec a b)
  | |- context [Z.gtb ?a ?b] => rewrite (Z.gtb_ltb a b)
  | |- context [Z.geb ?a ?b] => rewrite (Z.geb_leb a b)
  end; try lia.
