(* ===== verification/CMonad.v ===== *)
(** * A monad for fragments of C

    [M S A] is the meaning of a statement sequence that reads and changes a
    store [S]: it falls through with a value ([Ok]), leaves the enclosing
    function early with a return value ([Ret], C's [return v] in the middle of
    a body), or performs an access the language leaves undefined ([Ub]: a read
    or write outside the object).  The triples below are the program logic the
    codecs are verified with; a triple holds only of a run without [Ub]. *)
From S2P Require Import Prelude.

Inductive Res (A : Type) : Type :=
| Ok (a : A)
| Ret (v : Z)
| Ub.
Arguments Ok {A} a.
Arguments Ret {A} v.
Arguments Ub {A}.

Definition M (S A : Type) : Type := S -> Res A * S.

#[export] Instance M_ret {S} : MRet (M S) := fun A a s => (Ok a, s).
#[export] Instance M_bind {S} : MBind (M S) := fun A B f m s =>
  match m s with
  | (Ok a, s') => f a s'
  | (Ret v, s') => (Ret v, s')
  | (Ub, s') => (Ub, s')
  end.

Definition leave {S A} (v : Z) : M S A := fun s => (Ret v, s).
Definition undefined {S A} : M S A := fun s => (Ub, s).
Definition gets {S A} (f : S -> A) : M S A := fun s => (Ok (f s), s).
Definition modify {S} (f : S -> S) : M S () := fun s => (Ok tt, f s).
Definition of_option {S A} (o : option A) : M S A :=
  match o with Some a => mret a | None => undefined end.
(** [if(b) return v;] *)
Definition return_if {S} (b : bool) (v : Z) : M S () :=
  if b then leave v else mret tt.

(** The value a function body returns: falling off the end with [Ok v] and
    [return v] are the same. *)
Definition returned (r : Res Z) : option Z :=
  match r with Ok v => Some v | Ret v => Some v | Ub => None end.

Section triple.
Context {S : Type}.

Definition triple {A} (P : S -> Prop) (m : M S A)
    (Q : A -> S -> Prop) (R : Z -> S -> Prop) : Prop :=
  forall s, P s ->
    match m s with
    | (Ok a, s') => Q a s'
    | (Ret v, s') => R v s'
    | (Ub, _) => False
    end.

Lemma triple_ret {A} (a : A) (Q : A -> S -> Prop) R : triple (Q a) (mret a) Q R.
Proof. by intros s. Qed.

Lemma triple_bind {A B} (m : M S A) (f : A -> M S B) P Q Q' R :
  triple P m Q' R -> (forall a, triple (Q' a) (f a) Q R) -> triple P (m ≫= f) Q R.
Proof.
  intros Hm Hf s Hs. specialize (Hm s Hs). unfold mbind, M_bind.
  destruct (m s) as [[a|v|] s']; [by apply Hf|done|done].
Qed.

Lemma triple_weaken {A} (m : M S A) (P P' : S -> Prop) (Q Q' : A -> S -> Prop)
    (R R' : Z -> S -> Prop) :
  triple P m Q R ->
  (forall s, P' s -> P s) -> (forall a s, Q a s -> Q' a s) ->
  (forall v s, R v s -> R' v s) -> triple P' m Q' R'.
Proof.
  intros Hm HP HQ HR s Hs. specialize (Hm s (HP s Hs)).
  destruct (m s) as [[a|v|] s']; auto.
Qed.

Lemma triple_pre {A} (m : M S A) (P P' : S -> Prop) Q R :
  triple P m Q R -> (forall s, P' s -> P s) -> triple P' m Q R.
Proof. intros Hm HP s Hs. apply Hm. auto. Qed.

Lemma triple_leave {A} v (R : Z -> S -> Prop) (Q : A -> S -> Prop) :
  triple (R v) (leave v) Q R.
Proof. by intros s. Qed.

Lemma triple_modify f (Q : () -> S -> Prop) R :
  triple (fun s => Q tt (f s)) (modify f) Q R.
Proof. by intros s. Qed.

Lemma triple_gets {A} (f : S -> A) (Q : A -> S -> Prop) R :
  triple (fun s => Q (f s) s) (gets f) Q R.
Proof. by intros s. Qed.

(** [if(b) return v;] continues under the negated test. *)
Lemma triple_return_if (b : bool) v (P : S -> Prop) (R : Z -> S -> Prop) :
  (forall s, P s -> b = true -> R v s) ->
  triple P (return_if b v) (fun _ s => P s /\ b = false) R.
Proof. intros HR s Hs. destruct b; simpl; auto. Qed.

Lemma triple_fact {A} (m : M S A) (F : Prop) (P : S -> Prop) Q R :
  (F -> triple P m Q R) -> triple (fun s => P s /\ F) m Q R.
Proof. intros H s [Hs HF]. by apply H. Qed.
End triple.

(** Runs: rewriting a bind along a known result of its first part. *)
Lemma bind_ok {S A B} (m : M S A) (f : A -> M S B) s a s' :
  m s = (Ok a, s') -> (m ≫= f) s = f a s'.
Proof. intros H. unfold mbind, M_bind. by rewrite H. Qed.
Lemma bind_ret {S A B} (m : M S A) (f : A -> M S B) s v s' :
  m s = (Ret v, s') -> (m ≫= f) s = (Ret v, s').
Proof. intros H. unfold mbind, M_bind. by rewrite H. Qed.
Lemma bind_ub {S A B} (m : M S A) (f : A -> M S B) s s' :
  m s = (Ub, s') -> (m ≫= f) s = (Ub, s').
Proof. intros H. unfold mbind, M_bind. by rewrite H. Qed.

Lemma bind_gets {S A B} (g : S -> A) (f : A -> M S B) s : (gets g ≫= f) s = f (g s) s.
Proof. done. Qed.
Lemma bind_mret {S A B} (a : A) (f : A -> M S B) s : (mret a ≫= f) s = f a s.
Proof. done. Qed.
Lemma bind_modify {S B} (g : S -> S) (f : () -> M S B) s : (modify g ≫= f) s = f tt (g s).
Proof. done. Qed.
Lemma bind_of_option {S A B} (o : option A) a (f : A -> M S B) s :
  o = Some a -> (of_option o ≫= f) s = f a s.
Proof. by intros ->. Qed.
Lemma bind_continue {S B} (b : bool) v (f : () -> M S B) s :
  b = false -> (return_if b v ≫= f) s = f tt s.
Proof. by intros ->. Qed.

Lemma return_if_false {S} (b : bool) v (s : S) : b = false -> return_if b v s = (Ok tt, s).
Proof. by intros ->. Qed.
Lemma return_if_true {S} (b : bool) v (s : S) : b = true -> return_if b v s = (Ret v, s).
Proof. by intros ->. Qed.


(** ** Weakest preconditions

    [wp m Q R s]: the run of [m] from [s] performs no undefined access, its
    result and store satisfy [Q] when it falls through and [R] when it leaves. *)
Definition wp {S A} (m : M S A) (Q : A -> S -> Prop) (R : Z -> S -> Prop) (s : S) : Prop :=
  match m s with
  | (Ok a, s') => Q a s'
  | (Ret v, s') => R v s'
  | (Ub, _) => False
  end.

Section wp.
Context {S : Type}.

Lemma wp_triple {A} (P : S -> Prop) (m : M S A) Q R :
  triple P m Q R <-> forall s, P s -> wp m Q R s.
Proof. done. Qed.
Lemma wp_ret {A} (a : A) (Q : A -> S -> Prop) R s : Q a s -> wp (mret a) Q R s.
Proof. done. Qed.
Lemma wp_leave {A} v (Q : A -> S -> Prop) (R : Z -> S -> Prop) s : R v s -> wp (leave v) Q R s.
Proof. done. Qed.
Lemma wp_bind {A B} (m : M S A) (f : A -> M S B) Q R s :
  wp m (fun a s' => wp (f a) Q R s') R s -> wp (m ≫= f) Q R s.
Proof. unfold wp, mbind, M_bind. by destruct (m s) as [[a|v|] s']. Qed.
Lemma wp_assoc {A B C} (m : M S A) (f : A -> M S B) (g : B -> M S C) Q R s :
  wp ((m ≫= f) ≫= g) Q R s -> wp (m ≫= fun a => f a ≫= g) Q R s.
Proof. unfold wp, mbind, M_bind. by destruct (m s) as [[a|v|] s']. Qed.
Lemma wp_mono {A} (m : M S A) (Q Q' : A -> S -> Prop) (R R' : Z -> S -> Prop) s :
  wp m Q R s -> (forall a s', Q a s' -> Q' a s') -> (forall v s', R v s' -> R' v s') ->
  wp m Q' R' s.
Proof. unfold wp. destruct (m s) as [[a|v|] s']; auto. Qed.
Lemma wp_of_option {A} (o : option A) a (Q : A -> S -> Prop) R s :
  o = Some a -> Q a s -> wp (of_option o) Q R s.
Proof. by intros ->. Qed.
Lemma wp_gets {A} (f : S -> A) (Q : A -> S -> Prop) R s : Q (f s) s -> wp (gets f) Q R s.
Proof. done. Qed.
Lemma wp_modify f (Q : () -> S -> Prop) R s : Q tt (f s) -> wp (modify f) Q R s.
Proof. done. Qed.
Lemma wp_run {A} (m : M S A) Q R s :
  wp m Q R s -> (exists a s', m s = (Ok a, s') /\ Q a s') \/ (exists v s', m s = (Ret v, s') /\ R v s').
Proof. unfold wp. destruct (m s) as [[a|v|] s']; [by eauto..|done]. Qed.
Lemma wp_at {A} (m : M S A) Q R s a s' : wp m Q R s -> m s = (Ok a, s') -> Q a s'.
Proof. intros E Er. unfold wp in E. by rewrite Er in E. Qed.
Lemma wp_run_ok {A} (m : M S A) Q s :
  wp m Q (fun _ _ => False) s -> exists a s', m s = (Ok a, s') /\ Q a s'.
Proof. unfold wp. destruct (m s) as [[a|v|] s']; [by eauto|done|done]. Qed.
Lemma wp_total {A} (m : M S A) (Q : A -> S -> Prop) s a s' :
  m s = (Ok a, s') -> Q a s' -> wp m Q (fun _ _ => False) s.
Proof. unfold wp. by intros ->. Qed.
End wp.

(** ** Runs that return

    [pwp m Q s]: what holds of the result and the store when [m] falls through;
    it says nothing of the other runs. *)
Definition pwp {S A} (m : M S A) (Q : A -> S -> Prop) (s : S) : Prop := forall a s', m s = (Ok a, s') -> Q a s'.

Section pwp.
Context {S : Type}.

Lemma pwp_bind {A B} (m : M S A) (f : A -> M S B) Q s : pwp m (fun a s' => pwp (f a) Q s') s -> pwp (m ≫= f) Q s.
Proof. intros H b s' E. unfold mbind, M_bind in E. destruct (m s) as [[a|v|] s1] eqn:E1; [|done|done]. by apply (H a s1). Qed.
Lemma pwp_ret {A} (a : A) (Q : A -> S -> Prop) s : Q a s -> pwp (mret a) Q s.
Proof. intros H b s' E. by injection E as <- <-. Qed.
Lemma pwp_gets {A} (f : S -> A) (Q : A -> S -> Prop) s : Q (f s) s -> pwp (gets f) Q s.
Proof. intros H b s' E. by injection E as <- <-. Qed.
Lemma pwp_modify f (Q : () -> S -> Prop) s : Q tt (f s) -> pwp (modify f) Q s.
Proof. intros H b s' E. by injection E as <- <-. Qed.
Lemma pwp_of_option {A} (o : option A) (Q : A -> S -> Prop) s : (forall a, o = Some a -> Q a s) -> pwp (of_option o) Q s.
Proof. intros H b s' E. destruct o; [|done]. injection E as <- <-. by apply H. Qed.
Lemma pwp_leave {A} v (Q : A -> S -> Prop) s : pwp (leave v) Q s.
Proof. intros a s' E. done. Qed.
Lemma pwp_undefined {A} (Q : A -> S -> Prop) s : pwp undefined Q s.
Proof. intros a s' E. done. Qed.
Lemma pwp_mono {A} (m : M S A) (Q Q' : A -> S -> Prop) s : pwp m Q s -> (forall a s', Q a s' -> Q' a s') -> pwp m Q' s.
Proof. intros H HQ a s' E. by apply HQ, H. Qed.
Lemma wp_pwp {A} (m : M S A) (Q Q' : A -> S -> Prop) R s : wp m Q R s -> pwp m Q' s -> wp m (fun a s' => Q a s' /\ Q' a s') R s.
Proof. unfold wp, pwp. intros H H'. destruct (m s) as [[a|v|] s']; auto. Qed.
End pwp.
