(* ===== verification/Conc.v ===== *)
(** * Programs that run interleaved

    A [Prog S A] is a sequence of atomic actions on a shared store [S]: each
    changes the store and says what the program does next from what it read.
    A section under a lock, a compare-and-swap, an exchange or a single load or
    store is one action; between two of them any other program may run.
    [safe] is the proof rule: a program owns a list of tokens, every action it
    takes from a store where the invariant holds of its tokens and of everybody
    else's keeps the invariant, and it never crashes.  [pool_sound] says that
    programs that are safe on their own are safe in every interleaving. *)
From S2P Require Import Prelude CMonad.
From stdpp Require Import list relations.

Inductive Prog (S A : Type) : Type :=
| Done (a : A)
| Crash
| Act (f : S -> S) (k : S -> Prog S A).
Arguments Done {S A} a.
Arguments Crash {S A}.
Arguments Act {S A} f k.

#[export] Instance Prog_ret {S} : MRet (Prog S) := fun A a => Done a.
#[export] Instance Prog_bind {S} : MBind (Prog S) := fun A B f =>
  fix go p :=
    match p with
    | Done a => f a
    | Crash => Crash
    | Act g k => Act g (fun s => go (k s))
    end.

(** A fragment of C that runs without interruption; leaving it by [panic] or by
    an undefined access crashes. *)
Definition atomic {S A} (m : M S A) : Prog S A :=
  Act (fun s => snd (m s)) (fun s => match fst (m s) with Ok a => Done a | _ => Crash end).

(** A run alone. *)
Fixpoint run {S A} (p : Prog S A) (s : S) : option A * S :=
  match p with
  | Done a => (Some a, s)
  | Crash => (None, s)
  | Act f k => run (k s) (f s)
  end.

Lemma run_bind {S A B} (p : Prog S A) (f : A -> Prog S B) s :
  run (p ≫= f) s = match run p s with (Some a, s') => run (f a) s' | (None, s') => (None, s') end.
Proof.
  revert s. induction p as [a| |g k IH]; intros s; try done. change (run (k s ≫= f) (g s) = match run (k s) (g s) with
    (Some a, s') => run (f a) s' | (None, s') => (None, s') end). apply IH.
Qed.
Lemma run_atomic {S A} (m : M S A) s :
  run (atomic m) s = (match fst (m s) with Ok a => Some a | _ => None end, snd (m s)).
Proof. unfold atomic. cbn. by destruct (fst (m s)). Qed.

(** ** The proof rule *)

Section safe.
Context {S Tok : Type} (inv : S -> list Tok -> Prop) (cap : nat).
Hypothesis inv_perm : forall σ t t', t ≡ₚ t' -> inv σ t -> inv σ t'.

(** The program holds at most [K] tokens, [t] now, and ends with those of [Q]. *)
Fixpoint safe {A} (K : nat) (p : Prog S A) (t : list Tok) (Q : A -> list Tok -> Prop) : Prop :=
  (length t <= K)%nat /\
  match p with
  | Done a => Q a t
  | Crash => False
  | Act f k => forall σ F, inv σ (t ++ F) -> (length (t ++ F) <= cap)%nat ->
      exists t', inv (f σ) (t' ++ F) /\ safe K (k σ) t' Q
  end.

Lemma safe_len {A} K (p : Prog S A) t Q : safe K p t Q -> (length t <= K)%nat.
Proof using. destruct p; by intros [? _]. Qed.

Lemma safe_mono {A} K K' (p : Prog S A) t (Q Q' : A -> list Tok -> Prop) :
  (K <= K')%nat -> (forall a t, Q a t -> Q' a t) -> safe K p t Q -> safe K' p t Q'.
Proof using.
  intros HK HQ. revert t. induction p as [a| |f k IH]; intros t [Hl Hp]; (split; [lia|]); auto.
  intros σ F Hi Hc. destruct (Hp σ F Hi Hc) as (t' & Hi' & Hs). exists t'. split; [done|]. by apply IH.
Qed.

Lemma safe_bind {A B} K (p : Prog S A) (f : A -> Prog S B) t Q' Q :
  safe K p t Q' -> (forall a t, (length t <= K)%nat -> Q' a t -> safe K (f a) t Q) -> safe K (p ≫= f) t Q.
Proof using.
  intros Hp Hf. revert t Hp. induction p as [a| |g k IH]; intros t [Hl Hp]; [by apply Hf|done|].
  split; [done|]. intros σ F Hi Hc. destruct (Hp σ F Hi Hc) as (t' & Hi' & Hs). exists t'. split; [done|]. by apply IH.
Qed.

Lemma safe_frame {A} K (p : Prog S A) t r Q :
  safe K p t Q -> safe (K + length r) p (t ++ r) (fun a t' => exists t0, t' = t0 ++ r /\ Q a t0).
Proof using.
  revert t. induction p as [a| |f k IH]; intros t [Hl Hp]; (split; [rewrite length_app; lia|]); [by exists t|done|].
  intros σ F. rewrite <- app_assoc. intros Hi Hc. destruct (Hp σ (r ++ F) Hi Hc) as (t' & Hi' & Hs).
  exists (t' ++ r). rewrite <- app_assoc. split; [done|]. by apply IH.
Qed.

Lemma safe_perm {A} K (p : Prog S A) t t' Q :
  (forall a t t', t ≡ₚ t' -> Q a t -> Q a t') -> t ≡ₚ t' -> safe K p t Q -> safe K p t' Q.
Proof using inv_perm.
  intros HQ Ht. revert t t' Ht. destruct p as [a| |f k]; intros t t' Ht [Hl Hp]; (split; [by rewrite <- Ht|]); [by eapply HQ|done|].
  intros σ F Hi Hc. destruct (Hp σ F) as (t1 & Hi' & Hs); [|by rewrite Ht|by exists t1].
  eapply inv_perm; [|exact Hi]. by rewrite Ht.
Qed.

Lemma safe_done {A} K (a : A) t (Q : A -> list Tok -> Prop) : (length t <= K)%nat -> Q a t -> safe K (mret a) t Q.
Proof using. by split. Qed.

(** One atomic action. *)
Lemma safe_atomic {A} K (m : M S A) t (Q : A -> list Tok -> Prop) :
  (length t <= K)%nat ->
  (forall σ F, inv σ (t ++ F) -> (length (t ++ F) <= cap)%nat ->
     wp m (fun a σ' => exists t', (length t' <= K)%nat /\ inv σ' (t' ++ F) /\ Q a t') (fun _ _ => False) σ) ->
  safe K (atomic m) t Q.
Proof using.
  intros Hl Hm. split; [done|]. intros σ F Hi Hc. specialize (Hm σ F Hi Hc). unfold wp in Hm.
  destruct (m σ) as [[a|v|] σ']; [|done|done]. destruct Hm as (t' & Hl' & Hi' & HQ). exists t'. split; [done|]. by split.
Qed.

(** ** Interleavings *)

Definition pstep {A} (c c' : S * list (Prog S A)) : Prop :=
  exists (i : nat) f k, snd c !! i = Some (Act f k) /\ c' = (f (fst c), <[i := k (fst c)]> (snd c)).

Definition pool_ok {A} (K n : nat) (Q : nat -> A -> list Tok -> Prop) (c : S * list (Prog S A)) : Prop :=
  exists ts, length ts = n /\ length (snd c) = n /\ inv (fst c) (concat ts) /\
    forall i p t, snd c !! i = Some p -> ts !! i = Some t -> safe K p t (Q i).

Lemma concat_insert_perm {A} (ts : list (list A)) (i : nat) t t' :
  ts !! i = Some t -> exists F, concat ts ≡ₚ t ++ F /\ concat (<[i := t']> ts) ≡ₚ t' ++ F.
Proof using.
  intros Hi. exists (concat (take i ts) ++ concat (drop (Datatypes.S i) ts)).
  rewrite (insert_take_drop ts i t') by (by eapply lookup_lt_Some).
  rewrite <- (take_drop_middle ts i t) at 1 by done. rewrite !concat_app. cbn. rewrite !app_assoc.
  by rewrite (Permutation_app_comm (concat (take i ts)) t), (Permutation_app_comm (concat (take i ts)) t').
Qed.

Lemma concat_length_le {A} K (ts : list (list A)) :
  (forall t, t ∈ ts -> (length t <= K)%nat) -> (length (concat ts) <= K * length ts)%nat.
Proof using.
  induction ts as [|t ts IH]; intros H; cbn; [lia|]. rewrite length_app.
  specialize (H t (list_elem_of_here _ _)) as H1. assert (length (concat ts) <= K * length ts)%nat; [|lia].
  apply IH. intros x Hx. apply H. by right.
Qed.

Lemma pool_step {A} K n Q (c c' : S * list (Prog S A)) :
  (K * n <= cap)%nat -> pool_ok K n Q c -> pstep c c' -> pool_ok K n Q c'.
Proof using inv_perm.
  intros Hcap (ts & Ht & Hp & Hi & Hs) (i & f & k & Ei & ->). destruct c as [σ ps]. cbn [fst snd] in *.
  destruct (lookup_lt_is_Some_2 ts i) as [t Et]; [apply lookup_lt_Some in Ei; lia|].
  destruct (Hs i _ t Ei Et) as [Hl Hact]. assert (length (concat ts) <= cap)%nat as Hc.
  { etrans; [apply (concat_length_le K)|by rewrite Ht]. intros x Hx. apply list_elem_of_lookup in Hx as [j Hj].
    destruct (lookup_lt_is_Some_2 ps j) as [q Eq]; [apply lookup_lt_Some in Hj; lia|]. by eapply safe_len, Hs. }
  destruct (concat_insert_perm ts i t t Et) as (F & HF & _). destruct (Hact σ F) as (t' & Hi' & Hs').
  - by eapply inv_perm.
  - by rewrite <- HF.
  - exists (<[i := t']> ts). cbn [fst snd]. rewrite !length_insert. split; [done|split; [done|split]].
    + destruct (concat_insert_perm ts i t t' Et) as (F' & HF1 & HF2). eapply inv_perm; [symmetry; exact HF2|].
      eapply inv_perm; [|exact Hi']. apply Permutation_app_head, (Permutation_app_inv_l t). by rewrite <- HF.
    + intros j q u Hq Hu. apply list_lookup_insert_Some in Hq as [(<- & <- & _)|(Hne & Hq)].
      * rewrite list_lookup_insert_eq in Hu by (by eapply lookup_lt_Some). by injection Hu as <-.
      * rewrite list_lookup_insert_ne in Hu by done. by apply Hs.
Qed.

Lemma pool_sound {A} K n Q (c c' : S * list (Prog S A)) :
  (K * n <= cap)%nat -> pool_ok K n Q c -> rtc pstep c c' -> pool_ok K n Q c'.
Proof using inv_perm. intros Hcap Hok Hr. induction Hr as [|c1 c2 c3 Hst _ IH]; [done|]. apply IH. by eapply pool_step. Qed.

(** In a reachable configuration no program has crashed, and the tokens at the
    end are those of the programs' postconditions. *)
Lemma pool_not_crash {A} K n Q (c : S * list (Prog S A)) (i : nat) : pool_ok K n Q c -> snd c !! i <> Some Crash.
Proof using.
  intros (ts & Ht & Hp & _ & Hs) E. destruct (lookup_lt_is_Some_2 ts i) as [t Et]; [apply lookup_lt_Some in E; lia|].
  by destruct (Hs i _ t E Et).
Qed.
End safe.
