(* ===== verification/Bytes.v ===== *)
(** * Byte buffers and the little-endian macros of [sys/include/9P2000.h]

    A buffer is the list of its bytes; [GBITn]/[PBITn] are the macros, on the
    bytes they read and write.  The shifts and the widths are the macros': the
    32-bit forms are [int] expressions (so a set top bit makes them negative),
    the low half of [GBIT64] is cast to [uint32_t], the high half to [int64_t]. *)
From S2P Require Import Prelude.

Definition GBIT8 (b0 : Z) : Z := b0.
Definition GBIT16 (b0 b1 : Z) : Z := Z.lor b0 (Z.shiftl b1 8).
Definition GBIT32 (b0 b1 b2 b3 : Z) : Z :=
  i32 (Z.lor (Z.lor (Z.lor b0 (Z.shiftl b1 8)) (Z.shiftl b2 16)) (Z.shiftl b3 24)).
Definition GBIT64 (b0 b1 b2 b3 b4 b5 b6 b7 : Z) : Z :=
  Z.lor (u32 (GBIT32 b0 b1 b2 b3)) (Z.shiftl (GBIT32 b4 b5 b6 b7) 32).

Definition PBIT8 (v : Z) : list Z := [u8 v].
Definition PBIT16 (v : Z) : list Z := [u8 v; u8 (Z.shiftr v 8)].
Definition PBIT32 (v : Z) : list Z :=
  [u8 v; u8 (Z.shiftr v 8); u8 (Z.shiftr v 16); u8 (Z.shiftr v 24)].
Definition PBIT64 (v : Z) : list Z :=
  [u8 v; u8 (Z.shiftr v 8); u8 (Z.shiftr v 16); u8 (Z.shiftr v 24);
   u8 (Z.shiftr v 32); u8 (Z.shiftr v 40); u8 (Z.shiftr v 48); u8 (Z.shiftr v 56)].

Definition BIT8SZ : Z := 1.
Definition BIT16SZ : Z := 2.
Definition BIT32SZ : Z := 4.
Definition BIT64SZ : Z := 8.
Definition QIDSZ : Z := BIT8SZ + BIT32SZ + BIT64SZ.

Definition byte_ok (b : Z) : Prop := 0 <= b < 256.
Abbreviation bytes_ok := (Forall byte_ok).

(** Reads through a pointer at offset [p] of the buffer; [None] is a read
    outside it. *)
Definition get8 (buf : list Z) (p : Z) : option Z := GBIT8 <$> zget buf p.
Definition get16 (buf : list Z) (p : Z) : option Z :=
  b0 ← zget buf p; b1 ← zget buf (p + 1); Some (GBIT16 b0 b1).
Definition get32 (buf : list Z) (p : Z) : option Z :=
  b0 ← zget buf p; b1 ← zget buf (p + 1); b2 ← zget buf (p + 2); b3 ← zget buf (p + 3);
  Some (GBIT32 b0 b1 b2 b3).
Definition get64 (buf : list Z) (p : Z) : option Z :=
  b0 ← zget buf p; b1 ← zget buf (p + 1); b2 ← zget buf (p + 2); b3 ← zget buf (p + 3);
  b4 ← zget buf (p + 4); b5 ← zget buf (p + 5); b6 ← zget buf (p + 6); b7 ← zget buf (p + 7);
  Some (GBIT64 b0 b1 b2 b3 b4 b5 b6 b7).

(** A store of the bytes [s] at [p]; [None] when any of them falls outside. *)
Definition put (p : Z) (s buf : list Z) : option (list Z) :=
  if (0 <=? p) && (p + zlen s <=? zlen buf) then Some (blit p s buf) else None.
(** A load of [n] bytes at [p] ([memmove]'s source range). *)
Definition load (p n : Z) (buf : list Z) : option (list Z) :=
  if (0 <=? p) && (0 <=? n) && (p + n <=? zlen buf) then Some (slice p n buf) else None.

(** [strlen] at offset [p]: the bytes before the first NUL, [None] when the
    scan runs off the end of the object. *)
Fixpoint to_nul (l : list Z) : option (list Z) :=
  match l with
  | [] => None
  | b :: l' => if b =? 0 then Some [] else cons b <$> to_nul l'
  end.
Definition cstr (buf : list Z) (p : Z) : option (list Z) :=
  if (0 <=? p) && (p <=? zlen buf) then to_nul (drop (Z.to_nat p) buf) else None.

(** ** Lemmas *)

Lemma zlen_PBIT8 v : zlen (PBIT8 v) = 1.
Proof. done. Qed.
Lemma zlen_PBIT16 v : zlen (PBIT16 v) = 2.
Proof. done. Qed.
Lemma zlen_PBIT32 v : zlen (PBIT32 v) = 4.
Proof. done. Qed.
Lemma zlen_PBIT64 v : zlen (PBIT64 v) = 8.
Proof. done. Qed.
#[export] Hint Rewrite zlen_PBIT8 zlen_PBIT16 zlen_PBIT32 zlen_PBIT64 : zlen.

Lemma u8_byte v : byte_ok (u8 v).
Proof. apply u8_range. Qed.
#[export] Hint Resolve u8_byte : jeh.
Lemma bytes_PBIT8 v : bytes_ok (PBIT8 v).
Proof. repeat constructor; apply u8_range. Qed.
Lemma bytes_PBIT16 v : bytes_ok (PBIT16 v).
Proof. repeat constructor; apply u8_range. Qed.
Lemma bytes_PBIT32 v : bytes_ok (PBIT32 v).
Proof. repeat constructor; apply u8_range. Qed.
Lemma bytes_PBIT64 v : bytes_ok (PBIT64 v).
Proof. repeat constructor; apply u8_range. Qed.
#[export] Hint Resolve bytes_PBIT8 bytes_PBIT16 bytes_PBIT32 bytes_PBIT64 : jeh.

(** The macros as arithmetic on bytes. *)
Lemma GBIT16_add b0 b1 : byte_ok b0 -> GBIT16 b0 b1 = b0 + b1 * 256.
Proof. intros H. unfold GBIT16. by rewrite lor_shiftl_add by (unfold byte_ok in H; lia). Qed.
Lemma GBIT32_add b0 b1 b2 b3 :
  byte_ok b0 -> byte_ok b1 -> byte_ok b2 ->
  GBIT32 b0 b1 b2 b3 = i32 (b0 + b1 * 256 + b2 * 65536 + b3 * 16777216).
Proof.
  unfold byte_ok, GBIT32. intros.
  rewrite (lor_shiftl_add b0), (lor_shiftl_add _ b2), (lor_shiftl_add _ b3); done || lia.
Qed.
Lemma GBIT64_add b0 b1 b2 b3 b4 b5 b6 b7 :
  GBIT64 b0 b1 b2 b3 b4 b5 b6 b7 =
  u32 (GBIT32 b0 b1 b2 b3) + GBIT32 b4 b5 b6 b7 * 4294967296.
Proof.
  unfold GBIT64. pose proof (u32_range (GBIT32 b0 b1 b2 b3)).
  by rewrite lor_shiftl_add by lia.
Qed.

Lemma GBIT8_PBIT8 v : GBIT8 (u8 v) = u8 v.
Proof. done. Qed.
Lemma GBIT16_PBIT16 v : GBIT16 (u8 v) (u8 (Z.shiftr v 8)) = u16 v.
Proof.
  rewrite GBIT16_add by apply u8_range. rewrite Z.shiftr_div_pow2 by lia.
  wraps. dlia.
Qed.
Lemma GBIT32_PBIT32 v :
  GBIT32 (u8 v) (u8 (Z.shiftr v 8)) (u8 (Z.shiftr v 16)) (u8 (Z.shiftr v 24)) = i32 v.
Proof.
  rewrite GBIT32_add by apply u8_range. rewrite !Z.shiftr_div_pow2 by lia.
  change (2 ^ 16) with 65536. change (2 ^ 24) with 16777216. wraps. dlia.
Qed.
Lemma u32_i32 v : u32 (i32 v) = u32 v.
Proof. wraps. dlia. Qed.
Lemma u64_i64 v : u64 (i64 v) = u64 v.
Proof. wraps. dlia. Qed.
Lemma GBIT64_PBIT64 v :
  GBIT64 (u8 v) (u8 (Z.shiftr v 8)) (u8 (Z.shiftr v 16)) (u8 (Z.shiftr v 24))
    (u8 (Z.shiftr v 32)) (u8 (Z.shiftr v 40)) (u8 (Z.shiftr v 48)) (u8 (Z.shiftr v 56))
  = i64 v.
Proof.
  rewrite GBIT64_add, GBIT32_PBIT32, u32_i32.
  pose proof (GBIT32_PBIT32 (Z.shiftr v 32)) as E.
  rewrite !Z.shiftr_shiftr in E by lia.
  change (32 + 8) with 40 in E. change (32 + 16) with 48 in E. change (32 + 24) with 56 in E.
  rewrite E.
  rewrite Z.shiftr_div_pow2 by lia. wraps. dlia.
Qed.

Lemma PBIT64_u64 v : PBIT64 (u64 v) = PBIT64 v.
Proof.
  unfold PBIT64. rewrite !Z.shiftr_div_pow2 by lia.
  change (2 ^ 32) with 4294967296 in *. change (2 ^ 16) with 65536.
  change (2 ^ 24) with 16777216. change (2 ^ 40) with 1099511627776.
  change (2 ^ 48) with 281474976710656. change (2 ^ 56) with 72057594037927936.
  repeat (apply f_equal2; [wraps; dlia|]). done.
Qed.

(** Reads of a range whose content is known. *)
Section reads.
Context (buf : list Z) (p : Z).

Lemma get8_pts v : pts buf p (PBIT8 v) -> get8 buf p = Some (u8 v).
Proof.
  intros H. unfold get8. rewrite <- (Z.add_0_r p) at 1.
  by rewrite (pts_zget _ _ _ 0 H).
Qed.
Lemma get16_pts v : pts buf p (PBIT16 v) -> get16 buf p = Some (u16 v).
Proof.
  intros H. unfold get16. rewrite <- (Z.add_0_r p) at 1.
  rewrite (pts_zget _ _ _ 0 H), (pts_zget _ _ _ 1 H) by done. simpl.
  by rewrite GBIT16_PBIT16.
Qed.
Lemma get32_pts v : pts buf p (PBIT32 v) -> get32 buf p = Some (i32 v).
Proof.
  intros H. unfold get32. rewrite <- (Z.add_0_r p) at 1.
  rewrite (pts_zget _ _ _ 0 H), (pts_zget _ _ _ 1 H), (pts_zget _ _ _ 2 H),
    (pts_zget _ _ _ 3 H) by done. simpl.
  by rewrite GBIT32_PBIT32.
Qed.
Lemma get64_pts v : pts buf p (PBIT64 v) -> get64 buf p = Some (i64 v).
Proof.
  intros H. unfold get64. rewrite <- (Z.add_0_r p) at 1.
  rewrite (pts_zget _ _ _ 0 H), (pts_zget _ _ _ 1 H), (pts_zget _ _ _ 2 H),
    (pts_zget _ _ _ 3 H), (pts_zget _ _ _ 4 H), (pts_zget _ _ _ 5 H),
    (pts_zget _ _ _ 6 H), (pts_zget _ _ _ 7 H) by done. simpl.
  by rewrite GBIT64_PBIT64.
Qed.
End reads.

(** Reads of a range that is inside the buffer: they succeed and give a value
    of the macro's type. *)
Section in_bounds.
Context (buf : list Z) (Hbytes : bytes_ok buf).

Lemma zget_byte p : 0 <= p < zlen buf -> exists b, zget buf p = Some b /\ byte_ok b.
Proof using Hbytes.
  intros H. destruct (zget_Some p buf H) as [b Hb]. exists b. split; [done|].
  unfold zget in Hb. destruct (p <? 0); [done|].
  by eapply Forall_lookup_1 in Hb.
Qed.
Ltac zget_bytes :=
  repeat match goal with
  | |- context [zget buf ?q] =>
      let b := fresh "b" in
      destruct (zget_byte q) as (b & -> & ?); [lia|]; cbn [mbind option_bind]
  end.
Lemma get8_ok p : 0 <= p -> p + 1 <= zlen buf -> exists v, get8 buf p = Some v /\ 0 <= v < 256.
Proof using Hbytes.
  intros ??. destruct (zget_byte p) as (b & Hb & ?); [lia|].
  unfold get8. rewrite Hb. by exists b.
Qed.
Lemma get16_ok p :
  0 <= p -> p + 2 <= zlen buf -> exists v, get16 buf p = Some v /\ 0 <= v < 65536.
Proof using Hbytes.
  intros ??. unfold get16. zget_bytes.
  eexists. split; [done|]. rewrite GBIT16_add by done. unfold byte_ok in *. lia.
Qed.
Lemma get32_ok p :
  0 <= p -> p + 4 <= zlen buf ->
  exists v, get32 buf p = Some v /\ -2147483648 <= v < 2147483648.
Proof using Hbytes.
  intros ??. unfold get32. zget_bytes. eexists. split; [done|]. unfold GBIT32. wraps. dlia.
Qed.
Lemma get64_ok p : 0 <= p -> p + 8 <= zlen buf -> exists v, get64 buf p = Some v.
Proof using Hbytes.
  intros ??. unfold get64. zget_bytes. by eexists.
Qed.
End in_bounds.

Lemma put_ok p s buf : 0 <= p -> p + zlen s <= zlen buf -> put p s buf = Some (blit p s buf).
Proof. intros. unfold put. by destruct (Z.leb_spec 0 p), (Z.leb_spec (p + zlen s) (zlen buf)); try lia. Qed.
Lemma put_Some p s buf buf' :
  put p s buf = Some buf' -> 0 <= p /\ p + zlen s <= zlen buf /\ buf' = blit p s buf.
Proof.
  unfold put. destruct (Z.leb_spec 0 p), (Z.leb_spec (p + zlen s) (zlen buf)); naive_solver.
Qed.
Lemma load_ok p n buf :
  0 <= p -> 0 <= n -> p + n <= zlen buf -> load p n buf = Some (slice p n buf).
Proof. intros. unfold load. tests. done. Qed.
Lemma load_pts p bs buf : pts buf p bs -> load p (zlen bs) buf = Some bs.
Proof.
  intros H. rewrite load_ok; eauto using zlen_nonneg, pts_pos, pts_bound.
  by rewrite (pts_slice _ _ _ H).
Qed.

Lemma to_nul_app s r : Forall (fun b => b <> 0) s -> to_nul (s ++ 0 :: r) = Some s.
Proof.
  induction 1 as [|b s Hb _ IH]; simpl; [done|].
  destruct (Z.eqb_spec b 0); [done|]. by rewrite IH.
Qed.
Lemma to_nul_Some l s :
  to_nul l = Some s -> Forall (fun b => b <> 0) s /\ exists r, l = s ++ 0 :: r.
Proof.
  revert s. induction l as [|b l IH]; intros s; simpl; [done|].
  destruct (Z.eqb_spec b 0) as [->|Hb].
  - intros [= <-]. split; [constructor|]. by exists l.
  - intros (s' & Hs & ->)%fmap_Some. destruct (IH _ Hs) as (? & r & ->).
    split; [by constructor|]. by exists r.
Qed.
Lemma cstr_pts buf p s :
  Forall (fun b => b <> 0) s -> pts buf p (s ++ [0]) -> cstr buf p = Some s.
Proof.
  intros Hs H. unfold cstr. pose proof (pts_pos _ _ _ H). pose proof (pts_bound _ _ _ H).
  rewrite zlen_app in *. pose proof (zlen_nonneg s). change (zlen [0]) with 1 in *. tests. simpl.
  rewrite <- (take_drop (length (s ++ [0])) (drop (Z.to_nat p) buf)).
  pose proof (pts_slice _ _ _ H) as E. unfold slice, zlen in E.
  rewrite Nat2Z.id in E. rewrite E, <- app_assoc. by apply to_nul_app.
Qed.
Lemma to_nul_pts o s :
  Forall (fun b => b <> 0) s -> pts o 0 (s ++ [0]) -> to_nul o = Some s.
Proof.
  intros Hs H. pose proof (cstr_pts _ _ _ Hs H) as E. unfold cstr in E.
  pose proof (zlen_nonneg o). destruct (Z.leb_spec 0 (zlen o)); [|lia].
  by rewrite drop_0 in E.
Qed.
Lemma cstr_Some buf p s :
  cstr buf p = Some s -> Forall (fun b => b <> 0) s /\ pts buf p (s ++ [0]).
Proof.
  unfold cstr. destruct (Z.leb_spec 0 p), (Z.leb_spec p (zlen buf)); simpl; try done.
  intros (Hs & r & E)%to_nul_Some. split; [done|].
  assert (drop (Z.to_nat p) buf = (s ++ [0]) ++ r) as E' by by rewrite <- app_assoc.
  rewrite <- (take_drop (Z.to_nat p) buf), E'.
  assert (length (take (Z.to_nat p) buf) = Z.to_nat p) as El
    by (rewrite length_take; unfold zlen in *; lia).
  split_and!; [done| |].
  - unfold zlen. rewrite !length_app, El. lia.
  - intros i Hi. rewrite lookup_app_r, El by lia.
    rewrite lookup_app_l by lia. f_equal. lia.
Qed.

Arguments PBIT8 : simpl never.
Arguments PBIT16 : simpl never.
Arguments PBIT32 : simpl never.
Arguments PBIT64 : simpl never.

(** Results of writing bytes are bytes. *)
Lemma bytes_blit p s buf : bytes_ok buf -> bytes_ok s -> bytes_ok (blit p s buf).
Proof. intros. unfold blit. apply Forall_app. split; [by apply Forall_take|].
  apply Forall_app. split; [done|by apply Forall_drop]. Qed.
Lemma bytes_slice p n buf : bytes_ok buf -> bytes_ok (slice p n buf).
Proof. intros. unfold slice. by apply Forall_take, Forall_drop. Qed.
#[export] Hint Resolve bytes_blit bytes_slice : jeh.
