(* ===== verification/Fcall.v ===== *)
(** * The 9P2000 message codec: [sys/src/lib/9p2000/convM2S.c], [convS2M.c]

    The message buffer is a list of bytes and a pointer into it is its offset
    from [ap]; [nil] is [None].  [convM2S] changes the buffer (it moves every
    string down over its count to make room for the NUL) and leaves pointers
    into it in the [Fcall], so both are the store of its monad. *)
From S2P Require Import Prelude CMonad Bytes.

(** ** Data *)

Inductive NinepMsgType : Type :=
| Tversion | Rversion | Tauth | Rauth | Tattach | Rattach | Terror | Rerror
| Tflush | Rflush | Twalk | Rwalk | Topen | Ropen | Tcreate | Rcreate
| Tread | Rread | Twrite | Rwrite | Tclunk | Rclunk | Tremove | Rremove
| Tstat | Rstat | Twstat | Rwstat.

#[export] Instance NinepMsgType_eq_dec : EqDecision NinepMsgType.
Proof. solve_decision. Defined.

Definition all_msgtypes : list NinepMsgType :=
  [Tversion; Rversion; Tauth; Rauth; Tattach; Rattach; Terror; Rerror; Tflush; Rflush;
   Twalk; Rwalk; Topen; Ropen; Tcreate; Rcreate; Tread; Rread; Twrite; Rwrite;
   Tclunk; Rclunk; Tremove; Rremove; Tstat; Rstat; Twstat; Rwstat].

(** The enumerators' values: 100, 101, ... in the order of the declaration. *)
Definition msgtype_to_Z (t : NinepMsgType) : Z :=
  100 + match t with
  | Tversion => 0 | Rversion => 1 | Tauth => 2 | Rauth => 3 | Tattach => 4 | Rattach => 5
  | Terror => 6 | Rerror => 7 | Tflush => 8 | Rflush => 9 | Twalk => 10 | Rwalk => 11
  | Topen => 12 | Ropen => 13 | Tcreate => 14 | Rcreate => 15 | Tread => 16 | Rread => 17
  | Twrite => 18 | Rwrite => 19 | Tclunk => 20 | Rclunk => 21 | Tremove => 22 | Rremove => 23
  | Tstat => 24 | Rstat => 25 | Twstat => 26 | Rwstat => 27
  end.

Definition msgtype_of_Z (v : Z) : option NinepMsgType := zget all_msgtypes (v - 100).

Definition MAXWELEM : Z := 16.

(** A [char*]/[uint8_t*] member: [nil], a pointer to an object of its own that
    holds the bytes [o], or a pointer into the message buffer. *)
Inductive charp : Type :=
| Nil
| Ext (o : list Z)
| At (off : Z).

#[export] Instance charp_eq_dec : EqDecision charp.
Proof. solve_decision. Defined.

Record Qid : Type := mkQid { q_type : Z; q_vers : Z; q_path : Z }.
#[export] Instance Qid_eq_dec : EqDecision Qid.
Proof. solve_decision. Defined.
Definition qid0 : Qid := mkQid 0 0 0.

(** The anonymous union of [Fcall], a constructor per anonymous struct. *)
Inductive Fcall_u : Type :=
| UVersion (msize : Z) (version : charp)
| UFlush (oldtag : Z)
| UError (ename : charp)
| UQid (qid : Qid) (iounit : Z)
| UAqid (aqid : Qid)
| UAuth (afid : Z) (uname aname : charp)
| UFile (perm : Z) (name : charp) (mode : Z)
| UWalk (newfid nwname : Z) (wname : list charp)
| UWqid (nwqid : Z) (wqid : list Qid)
| UIo (offset count : Z) (data : charp)
| UStat (nstat : Z) (stat : charp).

Record Fcall : Type := mkFcall {
  f_type : Z;
  f_fid : Z;
  f_tag : Z;
  f_u : Fcall_u
}.

(** Assignments to members.  Storing to a member of a struct of the union that
    is not the one last stored to makes that struct current; its other members
    are then whatever bytes are there, given here as zero and [nil]. *)
Definition set_type (v : Z) (f : Fcall) : Fcall := mkFcall v (f_fid f) (f_tag f) (f_u f).
Definition set_fid (v : Z) (f : Fcall) : Fcall := mkFcall (f_type f) v (f_tag f) (f_u f).
Definition set_tag (v : Z) (f : Fcall) : Fcall := mkFcall (f_type f) (f_fid f) v (f_u f).
Definition set_u (u : Fcall_u) (f : Fcall) : Fcall := mkFcall (f_type f) (f_fid f) (f_tag f) u.

Definition no_wname : list charp := replicate 16 Nil.
Definition no_wqid : list Qid := replicate 16 qid0.

Definition cur_version (u : Fcall_u) : Z * charp :=
  match u with UVersion v s => (v, s) | _ => (0, Nil) end.
Definition cur_qid (u : Fcall_u) : Qid * Z :=
  match u with UQid q n => (q, n) | _ => (qid0, 0) end.
Definition cur_auth (u : Fcall_u) : Z * charp * charp :=
  match u with UAuth v n a => (v, n, a) | _ => (0, Nil, Nil) end.
Definition cur_file (u : Fcall_u) : Z * charp * Z :=
  match u with UFile p n m => (p, n, m) | _ => (0, Nil, 0) end.
Definition cur_walk (u : Fcall_u) : Z * Z * list charp :=
  match u with UWalk x n w => (x, n, w) | _ => (0, 0, no_wname) end.
Definition cur_wqid (u : Fcall_u) : Z * list Qid :=
  match u with UWqid n w => (n, w) | _ => (0, no_wqid) end.
Definition cur_io (u : Fcall_u) : Z * Z * charp :=
  match u with UIo o c d => (o, c, d) | _ => (0, 0, Nil) end.
Definition cur_stat (u : Fcall_u) : Z * charp :=
  match u with UStat n s => (n, s) | _ => (0, Nil) end.

Definition set_msize v f := set_u (UVersion v (cur_version (f_u f)).2) f.
Definition set_version s f := set_u (UVersion (cur_version (f_u f)).1 s) f.
Definition set_oldtag v f := set_u (UFlush v) f.
Definition set_ename s f := set_u (UError s) f.
Definition set_qid q f := set_u (UQid q (cur_qid (f_u f)).2) f.
Definition set_iounit n f := set_u (UQid (cur_qid (f_u f)).1 n) f.
Definition set_aqid q f := set_u (UAqid q) f.
Definition set_afid v f := set_u (UAuth v (cur_auth (f_u f)).1.2 (cur_auth (f_u f)).2) f.
Definition set_uname s f := set_u (UAuth (cur_auth (f_u f)).1.1 s (cur_auth (f_u f)).2) f.
Definition set_aname s f := set_u (UAuth (cur_auth (f_u f)).1.1 (cur_auth (f_u f)).1.2 s) f.
Definition set_perm v f := set_u (UFile v (cur_file (f_u f)).1.2 (cur_file (f_u f)).2) f.
Definition set_name s f := set_u (UFile (cur_file (f_u f)).1.1 s (cur_file (f_u f)).2) f.
Definition set_mode v f := set_u (UFile (cur_file (f_u f)).1.1 (cur_file (f_u f)).1.2 v) f.
Definition set_newfid v f := set_u (UWalk v (cur_walk (f_u f)).1.2 (cur_walk (f_u f)).2) f.
Definition set_nwname v f := set_u (UWalk (cur_walk (f_u f)).1.1 v (cur_walk (f_u f)).2) f.
Definition set_wname (i : nat) s f :=
  let '(x, n, w) := cur_walk (f_u f) in set_u (UWalk x n (<[i := s]> w)) f.
Definition set_nwqid v f := set_u (UWqid v (cur_wqid (f_u f)).2) f.
Definition set_wqid (i : nat) q f :=
  let '(n, w) := cur_wqid (f_u f) in set_u (UWqid n (<[i := q]> w)) f.
Definition set_offset v f := set_u (UIo v (cur_io (f_u f)).1.2 (cur_io (f_u f)).2) f.
Definition set_count v f := set_u (UIo (cur_io (f_u f)).1.1 v (cur_io (f_u f)).2) f.
Definition set_data s f := set_u (UIo (cur_io (f_u f)).1.1 (cur_io (f_u f)).1.2 s) f.
Definition set_nstat v f := set_u (UStat v (cur_stat (f_u f)).2) f.
Definition set_stat s f := set_u (UStat (cur_stat (f_u f)).1 s) f.

(** ** [convM2S] *)

Definition St : Type := list Z * Fcall.
Definition rd8 (p : Z) : M St Z := b ← gets fst; of_option (get8 b p).
Definition rd16 (p : Z) : M St Z := b ← gets fst; of_option (get16 b p).
Definition rd32 (p : Z) : M St Z := b ← gets fst; of_option (get32 b p).
Definition rd64 (p : Z) : M St Z := b ← gets fst; of_option (get64 b p).
(** [f->member = v] *)
Definition setf (g : Fcall -> Fcall) : M St () := modify (fun st => (fst st, g (snd st))).
(** [memmove(p, q, n)] inside the buffer, and stores of bytes at [p]. *)
Definition wr (p : Z) (s : list Z) : M St () :=
  fun st => match put p s (fst st) with
            | Some b => (Ok tt, (b, snd st))
            | None => (Ub, st)
            end.
Definition move (p q n : Z) : M St () :=
  b ← gets fst; s ← of_option (load q n b); wr p s.

Definition gstring (p ep : Z) (set : charp -> Fcall -> Fcall) : M St (option Z) :=
  if ep <? p + BIT16SZ then mret None else
  n ← rd16 p;
  if n <? 0 then mret None else
  let p := p + (BIT16SZ - 1) in
  if ep <? p + n + 1 then mret None else
  move p (p + 1) n;;
  wr (p + n) [0];;
  setf (set (At p));;
  mret (Some (p + (n + 1))).

Definition gqid (p ep : Z) (set : Qid -> Fcall -> Fcall) : M St (option Z) :=
  if ep <? p + QIDSZ then mret None else
  t ← rd8 p;
  v ← rd32 (p + BIT8SZ);
  w ← rd64 (p + BIT8SZ + BIT32SZ);
  setf (set (mkQid t (u32 v) (u64 w)));;
  mret (Some (p + BIT8SZ + BIT32SZ + BIT64SZ)).

(** [for(i=0; i<f->nwname; i++){ p = gstring(...); if(p == nil) break; }] with
    [k] iterations left. *)
Fixpoint gnames (k i : nat) (p ep : Z) : M St (option Z) :=
  match k with
  | O => mret (Some p)
  | S k' =>
      o ← gstring p ep (set_wname i);
      match o with None => mret None | Some p' => gnames k' (S i) p' ep end
  end.

Fixpoint gqids (k i : nat) (p ep : Z) : M St (option Z) :=
  match k with
  | O => mret (Some p)
  | S k' =>
      o ← gqid p ep (set_wqid i);
      match o with None => mret None | Some p' => gqids k' (S i) p' ep end
  end.

(** [if(p+n > ep) return 0;] *)
Definition need (p n ep : Z) : M St () := return_if (ep <? p + n) 0.

(** The [T] cases of the switch; the result is the pointer after it. *)
Definition m2s_T (t : NinepMsgType) (p ep : Z) : M St (option Z) :=
  match t with
  | Tversion =>
      need p BIT32SZ ep;;
      v ← rd32 p; setf (set_msize (u32 v));;
      gstring (p + BIT32SZ) ep set_version
  | Tflush =>
      need p BIT16SZ ep;;
      v ← rd16 p; setf (set_oldtag (u16 v));;
      mret (Some (p + BIT16SZ))
  | Tauth =>
      need p BIT32SZ ep;;
      v ← rd32 p; setf (set_afid (u32 v));;
      o ← gstring (p + BIT32SZ) ep set_uname;
      match o with None => mret None | Some p => gstring p ep set_aname end
  | Tattach =>
      need p BIT32SZ ep;;
      v ← rd32 p; setf (set_fid (u32 v));;
      let p := p + BIT32SZ in
      need p BIT32SZ ep;;
      v ← rd32 p; setf (set_afid (u32 v));;
      o ← gstring (p + BIT32SZ) ep set_uname;
      match o with None => mret None | Some p => gstring p ep set_aname end
  | Twalk =>
      need p (BIT32SZ + BIT32SZ + BIT16SZ) ep;;
      v ← rd32 p; setf (set_fid (u32 v));;
      let p := p + BIT32SZ in
      v ← rd32 p; setf (set_newfid (u32 v));;
      let p := p + BIT32SZ in
      n ← rd16 p; setf (set_nwname (u16 n));;
      let p := p + BIT16SZ in
      return_if (MAXWELEM <? u16 n) 0;;
      gnames (Z.to_nat (u16 n)) 0 p ep
  | Topen =>
      need p (BIT32SZ + BIT8SZ) ep;;
      v ← rd32 p; setf (set_fid (u32 v));;
      let p := p + BIT32SZ in
      m ← rd8 p; setf (set_mode (u8 m));;
      mret (Some (p + BIT8SZ))
  | Tcreate =>
      need p BIT32SZ ep;;
      v ← rd32 p; setf (set_fid (u32 v));;
      o ← gstring (p + BIT32SZ) ep set_name;
      match o with
      | None => mret None
      | Some p =>
          need p (BIT32SZ + BIT8SZ) ep;;
          v ← rd32 p; setf (set_perm (u32 v));;
          let p := p + BIT32SZ in
          m ← rd8 p; setf (set_mode (u8 m));;
          mret (Some (p + BIT8SZ))
      end
  | Tread =>
      need p (BIT32SZ + BIT64SZ + BIT32SZ) ep;;
      v ← rd32 p; setf (set_fid (u32 v));;
      let p := p + BIT32SZ in
      v ← rd64 p; setf (set_offset v);;
      let p := p + BIT64SZ in
      v ← rd32 p; setf (set_count (u32 v));;
      mret (Some (p + BIT32SZ))
  | Twrite =>
      need p (BIT32SZ + BIT64SZ + BIT32SZ) ep;;
      v ← rd32 p; setf (set_fid (u32 v));;
      let p := p + BIT32SZ in
      v ← rd64 p; setf (set_offset v);;
      let p := p + BIT64SZ in
      c ← rd32 p; setf (set_count (u32 c));;
      let p := p + BIT32SZ in
      need p (u32 c) ep;;
      setf (set_data (At p));;
      mret (Some (p + u32 c))
  | Tclunk | Tremove =>
      need p BIT32SZ ep;;
      v ← rd32 p; setf (set_fid (u32 v));;
      mret (Some (p + BIT32SZ))
  | Tstat =>
      need p BIT32SZ ep;;
      v ← rd32 p; setf (set_fid (u32 v));;
      mret (Some (p + BIT32SZ))
  | Twstat =>
      need p (BIT32SZ + BIT16SZ) ep;;
      v ← rd32 p; setf (set_fid (u32 v));;
      let p := p + BIT32SZ in
      n ← rd16 p; setf (set_nstat (u16 n));;
      let p := p + BIT16SZ in
      need p (u16 n) ep;;
      setf (set_stat (At p));;
      mret (Some (p + u16 n))
  | _ => leave 0
  end.

(** The [R] cases of the switch. *)
Definition m2s_R (t : NinepMsgType) (p ep : Z) : M St (option Z) :=
  match t with
  | Rversion =>
      need p BIT32SZ ep;;
      v ← rd32 p; setf (set_msize (u32 v));;
      gstring (p + BIT32SZ) ep set_version
  | Rerror => gstring p ep set_ename
  | Rflush => mret (Some p)
  | Rauth => gqid p ep set_aqid
  | Rattach => gqid p ep set_qid
  | Rwalk =>
      need p BIT16SZ ep;;
      n ← rd16 p; setf (set_nwqid (u16 n));;
      let p := p + BIT16SZ in
      return_if (MAXWELEM <? u16 n) 0;;
      gqids (Z.to_nat (u16 n)) 0 p ep
  | Ropen | Rcreate =>
      o ← gqid p ep set_qid;
      match o with
      | None => mret None
      | Some p =>
          need p BIT32SZ ep;;
          v ← rd32 p; setf (set_iounit (u32 v));;
          mret (Some (p + BIT32SZ))
      end
  | Rread =>
      need p BIT32SZ ep;;
      c ← rd32 p; setf (set_count (u32 c));;
      let p := p + BIT32SZ in
      need p (u32 c) ep;;
      setf (set_data (At p));;
      mret (Some (p + u32 c))
  | Rwrite =>
      need p BIT32SZ ep;;
      v ← rd32 p; setf (set_count (u32 v));;
      mret (Some (p + BIT32SZ))
  | Rclunk | Rremove => mret (Some p)
  | Rstat =>
      need p BIT16SZ ep;;
      n ← rd16 p; setf (set_nstat (u16 n));;
      let p := p + BIT16SZ in
      need p (u16 n) ep;;
      setf (set_stat (At p));;
      mret (Some (p + u16 n))
  | Rwstat => mret (Some p)
  | _ => leave 0
  end.

Definition is_T (t : NinepMsgType) : bool := Z.even (msgtype_to_Z t).
Definition m2s_switch (ty p ep : Z) : M St (option Z) :=
  match msgtype_of_Z ty with
  | None => leave 0
  | Some t => if is_T t then m2s_T t p ep else m2s_R t p ep
  end.

(** [convM2S(ap, nap, f)] with [ap] at offset 0 of the buffer. *)
Definition convM2S (nap : Z) : M St Z :=
  let p := 0 in
  let ep := p + nap in
  need p (BIT32SZ + BIT8SZ + BIT16SZ) ep;;
  sz ← rd32 p;
  let size := u32 sz in
  let p := p + BIT32SZ in
  return_if (size <? BIT32SZ + BIT8SZ + BIT16SZ) 0;;
  ty ← rd8 p; setf (set_type (u8 ty));;
  let p := p + BIT8SZ in
  tg ← rd16 p; setf (set_tag (u16 tg));;
  let p := p + BIT16SZ in
  o ← m2s_switch (u8 ty) p ep;
  match o with
  | None => mret 0
  | Some p =>
      if ep <? p then mret 0 else
      if 0 + size =? p then mret size else mret 0
  end.

(** ** [sizeS2M] and [convS2M] *)

(** Reads of members: undefined when another struct of the union is current. *)
Definition f_version f := match f_u f with UVersion v s => Some (v, s) | _ => None end.
Definition f_oldtag f := match f_u f with UFlush v => Some v | _ => None end.
Definition f_ename f := match f_u f with UError s => Some s | _ => None end.
Definition f_qid f := match f_u f with UQid q n => Some (q, n) | _ => None end.
Definition f_rqid f := match f_u f with UQid q _ => Some q | _ => None end.
Definition f_aqid f := match f_u f with UAqid q => Some q | _ => None end.
Definition f_auth f := match f_u f with UAuth v u a => Some (v, u, a) | _ => None end.
Definition f_file f := match f_u f with UFile p n m => Some (p, n, m) | _ => None end.
Definition f_walk f := match f_u f with UWalk x n w => Some (x, n, w) | _ => None end.
Definition f_wqid f := match f_u f with UWqid n w => Some (n, w) | _ => None end.
Definition f_io f := match f_u f with UIo o c d => Some (o, c, d) | _ => None end.
Definition f_stat f := match f_u f with UStat n s => Some (n, s) | _ => None end.

(** The bytes [strlen] counts, and a [memmove] source of [n] bytes. *)
Definition c_str (buf : list Z) (s : charp) : option (list Z) :=
  match s with Nil => None | Ext o => to_nul o | At q => cstr buf q end.
Definition c_mem (buf : list Z) (s : charp) (n : Z) : option (list Z) :=
  match s with
  | Nil => if n =? 0 then Some [] else None
  | Ext o => load 0 n o
  | At q => load q n buf
  end.

Definition stringsz (buf : list Z) (s : charp) : option Z :=
  match s with
  | Nil => Some BIT16SZ
  | _ => b ← c_str buf s; Some (u32 (BIT16SZ + zlen b))
  end.

(** [for(i=0; i<f->nwname; i++) n += stringsz(f->wname[i]);] with [k]
    iterations left; [wname] has [MAXWELEM] elements. *)
Fixpoint names_size (buf : list Z) (w : list charp) (k i : nat) (n : Z) : option Z :=
  match k with
  | O => Some n
  | S k' =>
      s ← w !! i;
      z ← stringsz buf s;
      names_size buf w k' (S i) (u32 (n + z))
  end.

Definition sizeS2M (buf : list Z) (f : Fcall) : option Z :=
  let n := BIT32SZ + BIT8SZ + BIT16SZ in
  match msgtype_of_Z (f_type f) with
  | None | Some Terror => Some 0
  | Some t =>
      match t with
      | Tversion | Rversion =>
          '(_, s) ← f_version f; z ← stringsz buf s; Some (u32 (n + BIT32SZ + z))
      | Tflush => Some (u32 (n + BIT16SZ))
      | Tauth =>
          '(_, u, a) ← f_auth f; z ← stringsz buf u; y ← stringsz buf a;
          Some (u32 (u32 (n + BIT32SZ + z) + y))
      | Tattach =>
          '(_, u, a) ← f_auth f; z ← stringsz buf u; y ← stringsz buf a;
          Some (u32 (u32 (n + BIT32SZ + BIT32SZ + z) + y))
      | Twalk =>
          '(_, k, w) ← f_walk f;
          names_size buf w (Z.to_nat k) 0 (u32 (n + BIT32SZ + BIT32SZ + BIT16SZ))
      | Topen => Some (u32 (n + BIT32SZ + BIT8SZ))
      | Tcreate =>
          '(_, s, _) ← f_file f; z ← stringsz buf s;
          Some (u32 (u32 (n + BIT32SZ + z) + BIT32SZ + BIT8SZ))
      | Tread => Some (u32 (n + BIT32SZ + BIT64SZ + BIT32SZ))
      | Twrite =>
          '(_, c, _) ← f_io f; Some (u32 (n + BIT32SZ + BIT64SZ + BIT32SZ + c))
      | Tclunk | Tremove => Some (u32 (n + BIT32SZ))
      | Tstat => Some (u32 (n + BIT32SZ))
      | Twstat => '(k, _) ← f_stat f; Some (u32 (n + BIT32SZ + BIT16SZ + k))
      | Rerror => s ← f_ename f; z ← stringsz buf s; Some (u32 (n + z))
      | Rflush => Some n
      | Rauth => Some (u32 (n + QIDSZ))
      | Rattach => Some (u32 (n + QIDSZ))
      | Rwalk => '(k, _) ← f_wqid f; Some (u32 (n + BIT16SZ + k * QIDSZ))
      | Ropen | Rcreate => Some (u32 (n + QIDSZ + BIT32SZ))
      | Rread => '(_, c, _) ← f_io f; Some (u32 (n + BIT32SZ + c))
      | Rwrite => Some (u32 (n + BIT32SZ))
      | Rclunk => Some n
      | Rremove => Some n
      | Rstat => '(k, _) ← f_stat f; Some (u32 (n + BIT16SZ + k))
      | Rwstat => Some n
      | Terror => Some 0
      end
  end.

(** The store of [convS2M] is the buffer; [f] is only read. *)
Definition wb (p : Z) (s : list Z) : M (list Z) () :=
  fun b => match put p s b with Some b' => (Ok tt, b') | None => (Ub, b) end.
(** [memmove(p, s, n)] *)
Definition movs (p : Z) (s : charp) (n : Z) : M (list Z) () :=
  b ← gets id; d ← of_option (c_mem b s n); wb p d.
Definition memb {A} (o : option A) : M (list Z) A := of_option o.

Definition pstring (p : Z) (s : charp) : M (list Z) Z :=
  match s with
  | Nil => wb p (PBIT16 0);; mret (p + BIT16SZ)
  | _ =>
      b ← gets id;
      c ← of_option (c_str b s);
      let n := u32 (zlen c) in
      movs (p + BIT16SZ) s n;;
      wb p (PBIT16 n);;
      mret (p + (n + BIT16SZ))
  end.

Definition pqid (p : Z) (q : Qid) : M (list Z) Z :=
  wb p (PBIT8 (q_type q));;
  let p := p + BIT8SZ in
  wb p (PBIT32 (q_vers q));;
  let p := p + BIT32SZ in
  wb p (PBIT64 (q_path q));;
  mret (p + BIT64SZ).

Fixpoint pnames (w : list charp) (k i : nat) (p : Z) : M (list Z) Z :=
  match k with
  | O => mret p
  | S k' => s ← memb (w !! i); p ← pstring p s; pnames w k' (S i) p
  end.

Fixpoint pqids (w : list Qid) (k i : nat) (p : Z) : M (list Z) Z :=
  match k with
  | O => mret p
  | S k' => q ← memb (w !! i); p ← pqid p q; pqids w k' (S i) p
  end.

(** The [T] cases of [convS2M]'s switch. *)
Definition s2m_T (t : NinepMsgType) (f : Fcall) (p : Z) : M (list Z) Z :=
  match t with
  | Tversion =>
      '(v, s) ← memb (f_version f);
      wb p (PBIT32 v);;
      pstring (p + BIT32SZ) s
  | Tflush =>
      v ← memb (f_oldtag f);
      wb p (PBIT16 v);;
      mret (p + BIT16SZ)
  | Tauth =>
      '(v, u, a) ← memb (f_auth f);
      wb p (PBIT32 v);;
      p ← pstring (p + BIT32SZ) u;
      pstring p a
  | Tattach =>
      '(v, u, a) ← memb (f_auth f);
      wb p (PBIT32 (f_fid f));;
      let p := p + BIT32SZ in
      wb p (PBIT32 v);;
      p ← pstring (p + BIT32SZ) u;
      pstring p a
  | Twalk =>
      '(x, k, w) ← memb (f_walk f);
      wb p (PBIT32 (f_fid f));;
      let p := p + BIT32SZ in
      wb p (PBIT32 x);;
      let p := p + BIT32SZ in
      wb p (PBIT16 k);;
      let p := p + BIT16SZ in
      return_if (MAXWELEM <? k) 0;;
      pnames w (Z.to_nat k) 0 p
  | Topen =>
      '(_, _, m) ← memb (f_file f);
      wb p (PBIT32 (f_fid f));;
      let p := p + BIT32SZ in
      wb p (PBIT8 m);;
      mret (p + BIT8SZ)
  | Tcreate =>
      '(v, s, m) ← memb (f_file f);
      wb p (PBIT32 (f_fid f));;
      p ← pstring (p + BIT32SZ) s;
      wb p (PBIT32 v);;
      let p := p + BIT32SZ in
      wb p (PBIT8 m);;
      mret (p + BIT8SZ)
  | Tread =>
      '(o, c, _) ← memb (f_io f);
      wb p (PBIT32 (f_fid f));;
      let p := p + BIT32SZ in
      wb p (PBIT64 o);;
      let p := p + BIT64SZ in
      wb p (PBIT32 c);;
      mret (p + BIT32SZ)
  | Twrite =>
      '(o, c, d) ← memb (f_io f);
      wb p (PBIT32 (f_fid f));;
      let p := p + BIT32SZ in
      wb p (PBIT64 o);;
      let p := p + BIT64SZ in
      wb p (PBIT32 c);;
      let p := p + BIT32SZ in
      movs p d c;;
      mret (p + c)
  | Tclunk | Tremove =>
      wb p (PBIT32 (f_fid f));;
      mret (p + BIT32SZ)
  | Tstat =>
      wb p (PBIT32 (f_fid f));;
      mret (p + BIT32SZ)
  | Twstat =>
      '(n, s) ← memb (f_stat f);
      wb p (PBIT32 (f_fid f));;
      let p := p + BIT32SZ in
      wb p (PBIT16 n);;
      let p := p + BIT16SZ in
      movs p s n;;
      mret (p + n)
  | _ => leave 0
  end.

(** The [R] cases. *)
Definition s2m_R (t : NinepMsgType) (f : Fcall) (p : Z) : M (list Z) Z :=
  match t with
  | Rversion =>
      '(v, s) ← memb (f_version f);
      wb p (PBIT32 v);;
      pstring (p + BIT32SZ) s
  | Rerror => s ← memb (f_ename f); pstring p s
  | Rflush => mret p
  | Rauth => q ← memb (f_aqid f); pqid p q
  | Rattach => q ← memb (f_rqid f); pqid p q
  | Rwalk =>
      '(k, w) ← memb (f_wqid f);
      wb p (PBIT16 k);;
      let p := p + BIT16SZ in
      return_if (MAXWELEM <? k) 0;;
      pqids w (Z.to_nat k) 0 p
  | Ropen | Rcreate =>
      '(q, n) ← memb (f_qid f);
      p ← pqid p q;
      wb p (PBIT32 n);;
      mret (p + BIT32SZ)
  | Rread =>
      '(_, c, d) ← memb (f_io f);
      wb p (PBIT32 c);;
      let p := p + BIT32SZ in
      movs p d c;;
      mret (p + c)
  | Rwrite =>
      '(_, c, _) ← memb (f_io f);
      wb p (PBIT32 c);;
      mret (p + BIT32SZ)
  | Rclunk => mret p
  | Rremove => mret p
  | Rstat =>
      '(n, s) ← memb (f_stat f);
      wb p (PBIT16 n);;
      let p := p + BIT16SZ in
      movs p s n;;
      mret (p + n)
  | Rwstat => mret p
  | _ => leave 0
  end.

Definition s2m_switch (f : Fcall) (p : Z) : M (list Z) Z :=
  match msgtype_of_Z (f_type f) with
  | None => leave 0
  | Some t => if is_T t then s2m_T t f p else s2m_R t f p
  end.

(** [convS2M(f, ap, nap)] with [ap] at offset 0 of the buffer. *)
Definition convS2M (f : Fcall) (nap : Z) : M (list Z) Z :=
  b ← gets id;
  size ← memb (sizeS2M b f);
  return_if (size =? 0) 0;;
  return_if (nap <? size) 0;;
  let p := 0 in
  wb p (PBIT32 size);;
  let p := p + BIT32SZ in
  wb p (PBIT8 (f_type f));;
  let p := p + BIT8SZ in
  wb p (PBIT16 (f_tag f));;
  let p := p + BIT16SZ in
  p ← s2m_switch f p;
  if negb (size =? p - 0) then mret 0 else mret size.
