(* ===== verification/FcallSpec.v ===== *)
(** * What the 9P2000 codec promises

    [Msg] is a protocol message as a value, [encode] its wire format, and
    [holds buf f m] says that the [Fcall] [f] (whose pointers may point into
    [buf]) describes the message [m]. *)
From S2P Require Import Prelude CMonad Bytes Fcall.

(** Message bodies; strings are the bytes between count and next field. *)
Inductive Msg : Type :=
| MTversion (msize : Z) (version : list Z)
| MRversion (msize : Z) (version : list Z)
| MTflush (oldtag : Z)
| MTauth (afid : Z) (uname aname : list Z)
| MTattach (fid afid : Z) (uname aname : list Z)
| MTwalk (fid newfid : Z) (wname : list (list Z))
| MTopen (fid mode : Z)
| MTcreate (fid : Z) (name : list Z) (perm mode : Z)
| MTread (fid offset count : Z)
| MTwrite (fid offset : Z) (data : list Z)
| MTclunk (fid : Z)
| MTremove (fid : Z)
| MTstat (fid : Z)
| MTwstat (fid : Z) (stat : list Z)
| MRerror (ename : list Z)
| MRflush
| MRauth (aqid : Qid)
| MRattach (qid : Qid)
| MRwalk (wqid : list Qid)
| MRopen (qid : Qid) (iounit : Z)
| MRcreate (qid : Qid) (iounit : Z)
| MRread (data : list Z)
| MRwrite (count : Z)
| MRclunk
| MRremove
| MRstat (stat : list Z)
| MRwstat.

Definition msg_type (m : Msg) : NinepMsgType :=
  match m with
  | MTversion _ _ => Tversion | MRversion _ _ => Rversion | MTflush _ => Tflush
  | MTauth _ _ _ => Tauth | MTattach _ _ _ _ => Tattach | MTwalk _ _ _ => Twalk
  | MTopen _ _ => Topen | MTcreate _ _ _ _ => Tcreate | MTread _ _ _ => Tread
  | MTwrite _ _ _ => Twrite | MTclunk _ => Tclunk | MTremove _ => Tremove
  | MTstat _ => Tstat | MTwstat _ _ => Twstat | MRerror _ => Rerror | MRflush => Rflush
  | MRauth _ => Rauth | MRattach _ => Rattach | MRwalk _ => Rwalk | MRopen _ _ => Ropen
  | MRcreate _ _ => Rcreate | MRread _ => Rread | MRwrite _ => Rwrite | MRclunk => Rclunk
  | MRremove => Rremove | MRstat _ => Rstat | MRwstat => Rwstat
  end.

Definition estr (s : list Z) : list Z := PBIT16 (zlen s) ++ s.
Definition eqid (q : Qid) : list Z := PBIT8 (q_type q) ++ PBIT32 (q_vers q) ++ PBIT64 (q_path q).

Arguments estr : simpl never.
Arguments eqid : simpl never.

Definition encode_body (m : Msg) : list Z :=
  match m with
  | MTversion v s | MRversion v s => PBIT32 v ++ estr s
  | MTflush t => PBIT16 t
  | MTauth v u a => PBIT32 v ++ estr u ++ estr a
  | MTattach f v u a => PBIT32 f ++ PBIT32 v ++ estr u ++ estr a
  | MTwalk f n w => PBIT32 f ++ PBIT32 n ++ PBIT16 (zlen w) ++ concat (estr <$> w)
  | MTopen f m => PBIT32 f ++ PBIT8 m
  | MTcreate f s p m => PBIT32 f ++ estr s ++ PBIT32 p ++ PBIT8 m
  | MTread f o c => PBIT32 f ++ PBIT64 o ++ PBIT32 c
  | MTwrite f o d => PBIT32 f ++ PBIT64 o ++ PBIT32 (zlen d) ++ d
  | MTclunk f | MTremove f | MTstat f => PBIT32 f
  | MTwstat f s => PBIT32 f ++ PBIT16 (zlen s) ++ s
  | MRerror s => estr s
  | MRauth q | MRattach q => eqid q
  | MRwalk w => PBIT16 (zlen w) ++ concat (eqid <$> w)
  | MRopen q n | MRcreate q n => eqid q ++ PBIT32 n
  | MRread d => PBIT32 (zlen d) ++ d
  | MRwrite c => PBIT32 c
  | MRstat s => PBIT16 (zlen s) ++ s
  | MRflush | MRclunk | MRremove | MRwstat => []
  end.

(** size[4] type[1] tag[2] body *)
Definition encode (tag : Z) (m : Msg) : list Z :=
  PBIT32 (7 + zlen (encode_body m)) ++ PBIT8 (msgtype_to_Z (msg_type m)) ++ PBIT16 tag
  ++ encode_body m.

(** ** Messages whose fields fit their widths *)

Definition w32 (v : Z) : Prop := 0 <= v < 2 ^ 32.
Definition w16 (v : Z) : Prop := 0 <= v < 2 ^ 16.
Definition w8 (v : Z) : Prop := 0 <= v < 2 ^ 8.
Definition wi64 (v : Z) : Prop := - 2 ^ 63 <= v < 2 ^ 63.
Definition wstr (s : list Z) : Prop := bytes_ok s /\ zlen s < 2 ^ 16.
Definition wqid (q : Qid) : Prop :=
  w8 (q_type q) /\ w32 (q_vers q) /\ 0 <= q_path q < 2 ^ 64.
Definition wdata (d : list Z) : Prop := bytes_ok d /\ zlen d < 2 ^ 32.

Definition wf_msg (m : Msg) : Prop :=
  match m with
  | MTversion v s | MRversion v s => w32 v /\ wstr s
  | MTflush t => w16 t
  | MTauth v u a => w32 v /\ wstr u /\ wstr a
  | MTattach f v u a => w32 f /\ w32 v /\ wstr u /\ wstr a
  | MTwalk f n w => w32 f /\ w32 n /\ zlen w <= MAXWELEM /\ Forall wstr w
  | MTopen f m => w32 f /\ w8 m
  | MTcreate f s p m => w32 f /\ wstr s /\ w32 p /\ w8 m
  | MTread f o c => w32 f /\ wi64 o /\ w32 c
  | MTwrite f o d => w32 f /\ wi64 o /\ wdata d
  | MTclunk f | MTremove f | MTstat f => w32 f
  | MTwstat f s => w32 f /\ wstr s
  | MRerror s => wstr s
  | MRauth q | MRattach q => wqid q
  | MRwalk w => zlen w <= MAXWELEM /\ Forall wqid w
  | MRopen q n | MRcreate q n => wqid q /\ w32 n
  | MRread d => wdata d
  | MRwrite c => w32 c
  | MRstat s => wstr s
  | MRflush | MRclunk | MRremove | MRwstat => True
  end.

(** ** An [Fcall] that describes a message

    [sptr buf P c s]: the [char*] [c] points to the string [s] NUL-terminated;
    a pointer into the buffer points at or after [P], the position the string
    has in the message.  [mptr] is the same for data with a count. *)
Definition sptr (buf : list Z) (P : Z) (c : charp) (s : list Z) : Prop :=
  match c with
  | Nil => s = []
  | Ext o => pts o 0 (s ++ [0])
  | At q => P <= q /\ pts buf q (s ++ [0])
  end.
Definition mptr (buf : list Z) (P : Z) (c : charp) (d : list Z) : Prop :=
  match c with
  | Nil => d = []
  | Ext o => pts o 0 d
  | At q => P <= q /\ pts buf q d
  end.

(** Consecutive strings of a [Twalk], from position [P] and index [i]. *)
Fixpoint sptrs (buf : list Z) (P : Z) (w : list charp) (i : nat) (ss : list (list Z)) : Prop :=
  match ss with
  | [] => True
  | s :: ss' =>
      (exists c, w !! i = Some c /\ sptr buf P c s) /\
      sptrs buf (P + zlen (estr s)) w (S i) ss'
  end.

Definition holds_body (buf : list Z) (f : Fcall) (m : Msg) : Prop :=
  match m with
  | MTversion v s | MRversion v s => exists c, f_u f = UVersion v c /\ sptr buf 11 c s
  | MTflush t => f_u f = UFlush t
  | MTauth v u a =>
      exists c d, f_u f = UAuth v c d /\ sptr buf 11 c u /\ sptr buf (11 + zlen (estr u)) d a
  | MTattach fd v u a =>
      f_fid f = fd /\
      exists c d, f_u f = UAuth v c d /\ sptr buf 15 c u /\ sptr buf (15 + zlen (estr u)) d a
  | MTwalk fd n w =>
      f_fid f = fd /\ exists cs, f_u f = UWalk n (zlen w) cs /\ sptrs buf 17 cs 0 w
  | MTopen fd m => f_fid f = fd /\ exists p c, f_u f = UFile p c m
  | MTcreate fd s p m => f_fid f = fd /\ exists c, f_u f = UFile p c m /\ sptr buf 11 c s
  | MTread fd o n => f_fid f = fd /\ exists c, f_u f = UIo o n c
  | MTwrite fd o d => f_fid f = fd /\ exists c, f_u f = UIo o (zlen d) c /\ mptr buf 23 c d
  | MTclunk fd | MTremove fd | MTstat fd => f_fid f = fd
  | MTwstat fd s => f_fid f = fd /\ exists c, f_u f = UStat (zlen s) c /\ mptr buf 13 c s
  | MRerror s => exists c, f_u f = UError c /\ sptr buf 7 c s
  | MRauth q => f_u f = UAqid q
  | MRattach q => exists n, f_u f = UQid q n
  | MRwalk w => exists qs, f_u f = UWqid (zlen w) qs /\ take (length w) qs = w
  | MRopen q n | MRcreate q n => f_u f = UQid q n
  | MRread d => exists o c, f_u f = UIo o (zlen d) c /\ mptr buf 11 c d
  | MRwrite n => exists o c, f_u f = UIo o n c
  | MRstat s => exists c, f_u f = UStat (zlen s) c /\ mptr buf 9 c s
  | MRflush | MRclunk | MRremove | MRwstat => True
  end.

Definition holds (buf : list Z) (f : Fcall) (tag : Z) (m : Msg) : Prop :=
  f_type f = msgtype_to_Z (msg_type m) /\ f_tag f = tag /\ holds_body buf f m.

(** The strings of a message, and messages whose strings hold no NUL (a C
    string cannot). *)
Definition msg_strings (m : Msg) : list (list Z) :=
  match m with
  | MTversion _ s | MRversion _ s => [s]
  | MTauth _ u a => [u; a]
  | MTattach _ _ u a => [u; a]
  | MTwalk _ _ w => w
  | MTcreate _ s _ _ => [s]
  | MRerror s => [s]
  | _ => []
  end.
Definition no_nul (s : list Z) : Prop := Forall (fun b => b <> 0) s.
Definition c_strings (m : Msg) : Prop := Forall no_nul (msg_strings m).
