(* ===== verification/FcallEnc.v ===== *)
(** * [sizeS2M] and [convS2M] write the wire format

    The store during [convS2M] is always the original buffer with a prefix of
    the message written over it, [blit 0 pre b0]; each statement that writes a
    field extends the prefix. *)
From S2P Require Import Prelude CMonad Bytes Fcall FcallSpec.

(** ** Emitting a field *)

Lemma blit_snoc (pre s b : list Z) p :
  p = zlen pre -> blit p s (blit 0 pre b) = blit 0 (pre ++ s) b.
Proof.
  intros ->. rewrite !blit_0. unfold blit, zlen. rewrite Nat2Z.id, take_app_length.
  rewrite drop_app_ge, drop_drop, <- app_assoc, length_app by lia.
  do 3 f_equal. lia.
Qed.

(** A field written after the bytes that follow it. *)
Lemma blit_blit_front (a s b : list Z) p q :
  0 <= p -> q = p + zlen a -> q + zlen s <= zlen b ->
  blit p a (blit q s b) = blit p (a ++ s) b.
Proof.
  intros Hp -> Hb. pose proof (zlen_nonneg a). pose proof (zlen_nonneg s).
  apply list_eq. intros i.
  rewrite (lookup_blit p (a ++ s)), (lookup_blit p a) by (rewrite ?zlen_blit; zl).
  rewrite lookup_blit, zlen_app by lia. unfold zlen in *.
  repeat case_decide; try lia; rewrite ?lookup_app_l, ?lookup_app_r by lia; try done.
  f_equal. lia.
Qed.

(** A field written after the bytes before it. *)
Lemma blit_tail (a s b : list Z) p :
  0 <= p -> p + zlen a + zlen s <= zlen b ->
  blit (p + zlen a) s (blit p a b) = blit p (a ++ s) b.
Proof.
  intros Hp Hb. pose proof (zlen_nonneg a). pose proof (zlen_nonneg s).
  apply list_eq. intros i.
  rewrite (lookup_blit p (a ++ s)), (lookup_blit (p + zlen a) s) by (rewrite ?zlen_blit; zl).
  rewrite lookup_blit, zlen_app by lia. unfold zlen in *.
  repeat case_decide; try lia; rewrite ?lookup_app_l, ?lookup_app_r by lia; try done.
  f_equal. lia.
Qed.

Section emit.
Context (b0 pre : list Z) (p : Z) (Hp : p = zlen pre).

Lemma zlen_pre s : zlen pre + s <= zlen b0 -> 0 <= s -> zlen (blit 0 pre b0) = zlen b0.
Proof using. intros. apply zlen_blit; lia. Qed.

Lemma wb_emit s :
  zlen pre + zlen s <= zlen b0 ->
  wb p s (blit 0 pre b0) = (Ok tt, blit 0 (pre ++ s) b0).
Proof using Hp.
  intros H. unfold wb. rewrite put_ok.
  - by rewrite blit_snoc.
  - zl.
  - rewrite (zlen_pre (zlen s)); zl.
Qed.

Lemma pts_emit q bs : zlen pre <= q -> zlen pre <= zlen b0 ->
  pts b0 q bs -> pts (blit 0 pre b0) q bs.
Proof using. intros. apply pts_blit_other; zl || done. Qed.

(** [memmove(p, d, n)] of a counted field. *)
Lemma movs_emit P c d :
  mptr b0 P c d -> zlen pre <= P -> zlen pre + zlen d <= zlen b0 ->
  movs p c (zlen d) (blit 0 pre b0) = (Ok tt, blit 0 (pre ++ d) b0).
Proof using Hp.
  intros Hc HP Hb. unfold movs. rewrite bind_gets.
  assert (c_mem (id (blit 0 pre b0)) c (zlen d) = Some d) as ->.
  { destruct c as [|o|q]; simpl in *.
    - by rewrite Hc.
    - by apply load_pts.
    - destruct Hc. apply load_pts, pts_emit; zl || done. }
  by apply wb_emit.
Qed.

Lemma movs_emit_str P c d q :
  sptr b0 P c d -> c <> Nil -> zlen pre <= P -> no_nul d ->
  zlen pre <= q -> q + zlen d <= zlen b0 ->
  movs q c (zlen d) (blit 0 pre b0) = (Ok tt, blit q d (blit 0 pre b0)).
Proof using.
  intros Hc Hn HP Hd Hq Hb. unfold movs. rewrite bind_gets.
  assert (c_mem (id (blit 0 pre b0)) c (zlen d) = Some d) as ->.
  { destruct c as [|o|r]; simpl in *; [done| |].
    - by apply load_pts, (pts_app _ _ _ [0]).
    - destruct Hc as [? [? _]%pts_app]. apply load_pts, pts_emit; zl || done. }
  unfold of_option, mret, M_ret, wb, mbind, M_bind.
  rewrite put_ok; [done|zl|]. rewrite (zlen_pre (zlen d)); zl.
Qed.

Lemma c_str_emit P c s :
  sptr b0 P c s -> c <> Nil -> zlen pre <= P -> zlen pre <= zlen b0 -> no_nul s ->
  c_str (blit 0 pre b0) c = Some s.
Proof using.
  intros Hc ? HP Hb Hs. destruct c as [|o|q]; simpl in *; [done| |].
  - by apply to_nul_pts.
  - destruct Hc as [? Hc]. apply cstr_pts; [done|]. apply pts_emit; zl || done.
Qed.

Lemma pstring_emit P c s :
  sptr b0 P c s -> zlen pre <= P -> no_nul s -> zlen s < 4294967296 ->
  zlen pre + zlen (estr s) <= zlen b0 ->
  pstring p c (blit 0 pre b0) = (Ok (p + zlen (estr s)), blit 0 (pre ++ estr s) b0).
Proof using Hp.
  intros Hc HP Hs Hl Hb. unfold estr in Hb. autorewrite with zlen in Hb. zlen_facts.
  destruct (decide (c = Nil)) as [->|Hn].
  { simpl in Hc. subst s. simpl. rewrite (bind_ok _ _ _ _ _ (wb_emit (PBIT16 0) Hb)). done. }
  assert (pstring p c (blit 0 pre b0) =
    (movs (p + BIT16SZ) c (zlen s);; wb p (PBIT16 (zlen s));;
     mret (p + (zlen s + BIT16SZ))) (blit 0 pre b0)) as ->.
  { pose proof (c_str_emit P c s Hc Hn HP ltac:(zl) Hs) as Hcs.
    destruct c; [done| |]; unfold pstring;
      rewrite bind_gets; unfold id; rewrite Hcs; simpl; rewrite bind_mret;
      rewrite (u32_id (zlen s)) by zl; done. }
  erewrite bind_ok; [|eapply movs_emit_str; eauto; unfold BIT16SZ; zl].
  rewrite (bind_ok _ _ _ tt (blit 0 (pre ++ estr s) b0)).
  - f_equal. unfold mret, M_ret, estr, BIT16SZ. do 2 f_equal. zl.
  - assert (zlen (blit (p + BIT16SZ) s (blit 0 pre b0)) = zlen b0) as E
      by (rewrite !zlen_blit; unfold BIT16SZ; rewrite ?(zlen_pre 0); zl).
    unfold wb. rewrite put_ok by (rewrite ?E; zl). f_equal.
    rewrite blit_blit_front by (rewrite ?(zlen_pre 0); unfold BIT16SZ; zl).
    by apply blit_snoc.
Qed.
End emit.

Lemma zlen_estr s : zlen (estr s) = 2 + zlen s.
Proof. unfold estr. zl. Qed.
Lemma zlen_eqid q : zlen (eqid q) = 13.
Proof. done. Qed.
Lemma zlen_eqids w : zlen (concat (eqid <$> w)) = 13 * zlen w.
Proof.
  induction w as [|q w IH]; [done|]. rewrite fmap_cons. cbn [concat].
  rewrite zlen_app, IH, zlen_eqid, zlen_cons. lia.
Qed.
#[export] Hint Rewrite zlen_estr zlen_eqid zlen_eqids : zlen.

(** Side conditions on positions: constants unfolded, lengths normalised. *)
Ltac bits := unfold QIDSZ, BIT8SZ, BIT16SZ, BIT32SZ, BIT64SZ in *.
Ltac pos := bits; autorewrite with zlen in *; zlen_facts; lia.

(** Runs one writing statement at the head of the program. *)
Ltac emit_step :=
  first
  [ erewrite bind_ok; [|apply wb_emit; [solve [pos]|solve [pos]]]
  | erewrite bind_ok; [|eapply pstring_emit; [solve [pos]|eassumption|solve [pos]|assumption|solve [pos]|solve [pos]]]
  | erewrite bind_ok; [|eapply movs_emit; [solve [pos]|eassumption|solve [pos]|solve [pos]]]
  | rewrite bind_continue by (apply Z.ltb_ge; assumption) ].

Ltac emit_done :=
  unfold mret, M_ret; rewrite <- ?app_assoc; f_equal; f_equal; pos.

Lemma pqid_emit b0 pre p q :
  p = zlen pre -> zlen pre + 13 <= zlen b0 ->
  pqid p q (blit 0 pre b0) = (Ok (p + 13), blit 0 (pre ++ eqid q) b0).
Proof.
  intros -> Hb. unfold pqid. do 3 emit_step. emit_done.
Qed.

Ltac emit_step' :=
  first [emit_step | erewrite bind_ok; [|eapply pqid_emit; solve [pos]]].

Lemma pqids_emit b0 w p pre i (qs : list Qid) :
  p = zlen pre ->
  zlen pre + zlen (concat (eqid <$> qs)) <= zlen b0 ->
  (forall j, (j < length qs)%nat -> w !! (i + j)%nat = qs !! j) ->
  pqids w (length qs) i p (blit 0 pre b0) =
    (Ok (p + zlen (concat (eqid <$> qs))), blit 0 (pre ++ concat (eqid <$> qs)) b0).
Proof.
  revert p pre i. induction qs as [|q qs IH]; intros p pre i Hp Hb Hw; rewrite ?fmap_cons in *; cbn [concat length pqids] in *.
  { unfold fmap; simpl. rewrite app_nil_r. unfold mret, M_ret. do 2 f_equal. pos. }
  pose proof (Hw 0%nat ltac:(simpl; lia)) as H0. rewrite Nat.add_0_r in H0.
  unfold memb. rewrite (bind_of_option _ _ _ _ H0).
  erewrite bind_ok; [|apply pqid_emit; pos].
  rewrite IH; [|pos|pos|].
  - rewrite <- app_assoc. do 2 f_equal. pos.
  - intros j Hj. specialize (Hw (S j) ltac:(simpl; lia)). simpl in Hw.
    by rewrite Nat.add_succ_r in Hw.
Qed.

Lemma pnames_emit b0 w p pre P i ss :
  p = zlen pre -> zlen pre <= P ->
  zlen pre + zlen (concat (estr <$> ss)) <= zlen b0 ->
  zlen (concat (estr <$> ss)) < 4294967296 ->
  Forall no_nul ss -> sptrs b0 P w i ss ->
  pnames w (length ss) i p (blit 0 pre b0) =
    (Ok (p + zlen (concat (estr <$> ss))), blit 0 (pre ++ concat (estr <$> ss)) b0).
Proof.
  intros Hp HP. revert p pre P i Hp HP.
  induction ss as [|s ss IH]; intros p pre P i Hp HP Hb Hl Hn Hw; rewrite ?fmap_cons in *;
    cbn [concat length pnames sptrs] in *.
  { unfold fmap; simpl. rewrite app_nil_r. unfold mret, M_ret. do 2 f_equal. pos. }
  inversion_clear Hn. destruct Hw as [(c & Hc & Hs) Hw].
  unfold memb. rewrite (bind_of_option _ _ _ _ Hc).
  erewrite bind_ok; [|eapply pstring_emit; [pos|done|pos|done|pos|pos]].
  erewrite IH; [| | |pos|pos|done|exact Hw]; [|pos|pos].
  rewrite <- app_assoc. do 2 f_equal. pos.
Qed.

Lemma msgtype_of_to t : msgtype_of_Z (msgtype_to_Z t) = Some t.
Proof. by destruct t. Qed.

Lemma to_nat_zlen {A} (l : list A) : Z.to_nat (zlen l) = length l.
Proof. unfold zlen. lia. Qed.
Lemma take_lookups {A} (w l : list A) :
  take (length w) l = w -> forall j, (j < length w)%nat -> l !! (0 + j)%nat = w !! j.
Proof. intros E j Hj. rewrite <- E. by rewrite lookup_take_lt. Qed.

Ltac eval_is_T :=
  repeat match goal with
  | |- context [is_T ?t] =>
      let b := eval vm_compute in (is_T t) in change (is_T t) with b; cbv iota
  end.

(** The switch writes the body of the message [f] holds. *)
Lemma s2m_switch_emit b0 f m pre :
  f_type f = msgtype_to_Z (msg_type m) ->
  holds_body b0 f m -> c_strings m ->
  match m with MTwalk _ _ w => zlen w <= MAXWELEM | MRwalk w => zlen w <= MAXWELEM | _ => True end ->
  zlen pre = 7 -> 7 + zlen (encode_body m) <= zlen b0 -> 7 + zlen (encode_body m) < 4294967296 ->
  s2m_switch f 7 (blit 0 pre b0) =
    (Ok (7 + zlen (encode_body m)), blit 0 (pre ++ encode_body m) b0).
Proof.
  intros Ht Hh Hc Hmax Hpre Hb Hl. unfold s2m_switch. rewrite Ht, msgtype_of_to.
  destruct m; cbn [msg_type] in *; eval_is_T; unfold c_strings in Hc;
    cbn [holds_body encode_body msg_strings s2m_T s2m_R] in *; destr;
    unfold memb, f_version, f_oldtag, f_ename, f_qid, f_rqid, f_aqid, f_auth, f_file, f_walk,
      f_wqid, f_io, f_stat;
    repeat match goal with H : f_u f = _ |- _ => rewrite H; clear H end;
    try rewrite bind_of_option with (1 := eq_refl);
    repeat match goal with
    | H : Forall no_nul (_ :: _) |- _ => inversion_clear H
    | H : f_fid f = _ |- _ => rewrite H; clear H
    end.
  all: repeat emit_step'; rewrite ?to_nat_zlen.
  all: etrans;
    [first [ eapply pstring_emit; [pos|eassumption|pos|assumption|pos|pos]
           | eapply pnames_emit; [pos| |pos|pos|eassumption|eassumption]; pos
           | eapply pqid_emit; pos
           | eapply pqids_emit; [pos|pos|by eauto using take_lookups]
           | reflexivity ]
    | unfold mret, M_ret; rewrite <- ?app_assoc, ?app_nil_r; f_equal; f_equal; pos ].
Qed.

(** ** Sizes *)

Lemma stringsz_ok b P c s :
  sptr b P c s -> no_nul s -> 2 + zlen s < 4294967296 ->
  stringsz b c = Some (2 + zlen s).
Proof.
  intros Hc Hs Hl. pose proof (zlen_nonneg s).
  destruct c as [|o|q]; simpl in *.
  - by subst s.
  - rewrite (to_nul_pts _ _ Hs Hc). simpl. bits. by rewrite u32_id by lia.
  - destruct Hc as [_ Hc]. rewrite (cstr_pts _ _ _ Hs Hc). simpl. bits.
    by rewrite u32_id by lia.
Qed.

Lemma names_size_ok b P w i n ss :
  sptrs b P w i ss -> Forall no_nul ss -> 0 <= n ->
  n + zlen (concat (estr <$> ss)) < 4294967296 ->
  names_size b w (length ss) i n = Some (n + zlen (concat (estr <$> ss))).
Proof.
  revert P i n. induction ss as [|s ss IH]; intros P i n Hw Hn H0 Hl;
    rewrite ?fmap_cons in *; cbn [concat length names_size sptrs] in *.
  { unfold fmap; simpl. f_equal. zl. }
  inversion_clear Hn. destruct Hw as [(c & Hc & Hs) Hw].
  rewrite Hc. cbn [mbind option_bind].
  rewrite (stringsz_ok _ _ _ _ Hs) by (done || pos). cbn [mbind option_bind].
  rewrite u32_id by pos. rewrite (IH _ _ _ Hw) by (done || pos). f_equal. pos.
Qed.

Lemma sizeS2M_ok b f tag m :
  holds b f tag m -> c_strings m -> 7 + zlen (encode_body m) < 4294967296 ->
  sizeS2M b f = Some (7 + zlen (encode_body m)).
Proof.
  intros (Ht & _ & Hh) Hc Hl. unfold sizeS2M. rewrite Ht, msgtype_of_to.
  unfold f_version, f_oldtag, f_ename, f_qid, f_rqid, f_aqid, f_auth, f_file, f_walk,
      f_wqid, f_io, f_stat, c_strings in *.
  destruct m; cbn [msg_type holds_body encode_body msg_strings] in *; destr;
    repeat match goal with
    | H : f_u f = _ |- _ => rewrite H; clear H
    | H : Forall no_nul (_ :: _) |- _ => inversion_clear H
    end; cbn [mbind option_bind].
  all: repeat match goal with
       | H : sptr ?b _ ?c _ |- context [stringsz ?b ?c] =>
           rewrite (stringsz_ok _ _ _ _ H) by (assumption || pos); cbn [mbind option_bind]
       end.
  all: rewrite ?to_nat_zlen.
  all: try (erewrite names_size_ok; [|eassumption|assumption|rewrite u32_id; pos|rewrite u32_id; pos]).
  all: rewrite ?u32_id by (rewrite ?u32_id by pos; pos); f_equal; pos.
Qed.

(** A walk or walk reply names at most [MAXWELEM] elements. *)
Definition elems_ok (m : Msg) : Prop :=
  match m with
  | MTwalk _ _ w => zlen w <= MAXWELEM
  | MRwalk w => zlen w <= MAXWELEM
  | _ => True
  end.

Lemma zlen_encode tag m : zlen (encode tag m) = 7 + zlen (encode_body m).
Proof. unfold encode. zl. Qed.

Lemma convS2M_emit b f tag m nap :
  holds b f tag m -> c_strings m -> elems_ok m -> zlen (encode tag m) < 4294967296 ->
  nap <= zlen b ->
  convS2M f nap b =
    if nap <? zlen (encode tag m) then (Ret 0, b)
    else (Ok (zlen (encode tag m)), blit 0 (encode tag m) b).
Proof.
  intros Hh Hc He. rewrite zlen_encode. intros Hl Hn.
  unfold convS2M. rewrite bind_gets. unfold id, memb.
  rewrite (bind_of_option _ _ _ _ (sizeS2M_ok _ _ _ _ Hh Hc Hl)).
  pose proof (zlen_nonneg (encode_body m)).
  rewrite bind_continue by (apply Z.eqb_neq; lia).
  destruct (Z.ltb_spec nap (7 + zlen (encode_body m))); [done|].
  rewrite bind_continue by done.
  rewrite <- (blit_nil 0 b) at 1. destruct Hh as (Ht & Htag & Hh).
  do 3 emit_step. bits. rewrite Z.add_0_l. change (4 + 1 + 2) with 7. simpl app.
  erewrite bind_ok; [|apply s2m_switch_emit; eauto; pos].
  rewrite Z.sub_0_r, Z.eqb_refl. simpl. unfold mret, M_ret.
  do 2 f_equal. unfold encode. by rewrite Ht, Htag.
Qed.
