(* ===== verification/FcallDec.v ===== *)
(** * [convM2S] parses exactly the wire format

    Running lemmas: what each reader does on a buffer whose next bytes are
    known.  Splitting lemmas: what the next bytes can be.  The first give
    completeness, the second soundness, of the parser. *)
From S2P Require Import Prelude CMonad Bytes Fcall FcallSpec FcallEnc.

(** ** Frames: the part of the buffer a reader may change *)

Definition frame (lo hi : Z) (b b' : list Z) : Prop :=
  zlen b' = zlen b /\
  forall i : nat, Z.of_nat i < lo \/ hi <= Z.of_nat i -> b' !! i = b !! i.

Lemma frame_refl lo hi b : frame lo hi b b.
Proof. done. Qed.
Lemma frame_trans lo hi b b' b'' : frame lo hi b b' -> frame lo hi b' b'' -> frame lo hi b b''.
Proof. intros [E1 F1] [E2 F2]. split; [lia|]. intros i Hi. by rewrite F2, F1. Qed.
Lemma frame_widen lo hi lo' hi' b b' :
  frame lo hi b b' -> lo' <= lo -> hi <= hi' -> frame lo' hi' b b'.
Proof. intros [E F] ??. split; [done|]. intros i Hi. apply F. lia. Qed.
Lemma frame_blit p s b :
  0 <= p -> p + zlen s <= zlen b -> frame p (p + zlen s) b (blit p s b).
Proof.
  intros. split; [by rewrite zlen_blit|]. intros i Hi. rewrite lookup_blit by done.
  repeat case_decide; done || lia.
Qed.
Lemma frame_pts lo hi b b' q bs :
  frame lo hi b b' -> q + zlen bs <= lo \/ hi <= q -> pts b q bs -> pts b' q bs.
Proof.
  intros [E F] Hd (? & ? & Hi). split_and!; [done|lia|].
  intros i Hlt. rewrite F; [auto|]. unfold zlen in *. lia.
Qed.
(** A NUL-terminated string that ends before the changed range. *)
Definition sptr_in (b : list Z) (P hi : Z) (c : charp) (s : list Z) : Prop :=
  exists q, c = At q /\ P <= q /\ q + zlen s + 1 <= hi /\ pts b q (s ++ [0]).
Lemma sptr_in_frame lo hi b b' P e c s :
  frame lo hi b b' -> e <= lo -> sptr_in b P e c s -> sptr_in b' P e c s.
Proof.
  intros F He (q & -> & ? & ? & Hp). exists q. split_and!; try done.
  eapply frame_pts; [done| |done]. left. zl.
Qed.
Lemma sptr_in_sptr b P e c s : sptr_in b P e c s -> sptr b P c s.
Proof. by intros (q & -> & ? & ? & ?). Qed.

(** ** Running lemmas *)

Section run.
Context (b : list Z) (f : Fcall).

Lemma run_need {B} p n ep (k : () -> M St B) :
  p + n <= ep -> (need p n ep ≫= k) (b, f) = k tt (b, f).
Proof. intros. apply bind_continue. apply Z.ltb_ge. lia. Qed.
Lemma run_setf {B} g (k : () -> M St B) : (setf g ≫= k) (b, f) = k tt (b, g f).
Proof. done. Qed.
Lemma run_rd8 {B} p v (k : Z -> M St B) :
  pts b p (PBIT8 v) -> (rd8 p ≫= k) (b, f) = k (u8 v) (b, f).
Proof.
  intros H. unfold rd8, mbind, M_bind, gets, of_option. simpl.
  by rewrite (get8_pts _ _ _ H).
Qed.
Lemma run_rd16 {B} p v (k : Z -> M St B) :
  pts b p (PBIT16 v) -> (rd16 p ≫= k) (b, f) = k (u16 v) (b, f).
Proof.
  intros H. unfold rd16, mbind, M_bind, gets, of_option. simpl.
  by rewrite (get16_pts _ _ _ H).
Qed.
Lemma run_rd32 {B} p v (k : Z -> M St B) :
  pts b p (PBIT32 v) -> (rd32 p ≫= k) (b, f) = k (i32 v) (b, f).
Proof.
  intros H. unfold rd32, mbind, M_bind, gets, of_option. simpl.
  by rewrite (get32_pts _ _ _ H).
Qed.
Lemma run_rd64 {B} p v (k : Z -> M St B) :
  pts b p (PBIT64 v) -> (rd64 p ≫= k) (b, f) = k (i64 v) (b, f).
Proof.
  intros H. unfold rd64, mbind, M_bind, gets, of_option. simpl.
  by rewrite (get64_pts _ _ _ H).
Qed.

Lemma run_gstring p ep set s :
  pts b p (estr s) -> zlen s < 65536 -> p + zlen (estr s) <= ep ->
  gstring p ep set (b, f) =
    (Ok (Some (p + zlen (estr s))), (blit (p + 1) (s ++ [0]) b, set (At (p + 1)) f)).
Proof.
  intros H Hl He. unfold gstring. pose proof (pts_pos _ _ _ H). pose proof (pts_bound _ _ _ H).
  apply pts_app in H as [Hc Hs]. autorewrite with zlen in *. zlen_facts. bits.
  destruct (Z.ltb_spec ep (p + 2)); [lia|].
  rewrite (run_rd16 _ _ _ Hc), u16_id by lia.
  destruct (Z.ltb_spec (zlen s) 0); [lia|]. replace (p + (2 - 1)) with (p + 1) by lia.
  destruct (Z.ltb_spec ep (p + 1 + zlen s + 1)); [lia|].
  replace (p + 1 + 1) with (p + 2) by lia.
  unfold move. rewrite (bind_ok _ _ _ tt (blit (p + 1) s b, f)).
  2: { rewrite bind_gets. simpl fst. rewrite (load_pts _ _ _ Hs), (bind_of_option _ _ _ _ eq_refl).
       unfold wr. simpl. rewrite put_ok by zl. done. }
  rewrite (bind_ok _ _ _ tt (blit (p + 1) (s ++ [0]) b, f)).
  2: { unfold wr. simpl. rewrite put_ok by (rewrite ?zlen_blit; zl). by rewrite blit_tail by zl. }
  unfold setf, modify, mbind, M_bind, mret, M_ret. simpl. do 3 f_equal. lia.
Qed.
End run.

Lemma gstring_runs b f p ep set s :
  pts b p (estr s) -> wstr s -> p + zlen (estr s) <= ep ->
  exists b', frame (p + 1) (p + zlen (estr s)) b b' /\
    sptr_in b' p (p + zlen (estr s)) (At (p + 1)) s /\
    gstring p ep set (b, f) = (Ok (Some (p + zlen (estr s))), (b', set (At (p + 1)) f)).
Proof.
  intros H [_ Hl] He. pose proof (pts_pos _ _ _ H). pose proof (pts_bound _ _ _ H).
  eexists. split_and!; [| |by apply run_gstring].
  - eapply frame_widen; [apply frame_blit|reflexivity|]; zl.
  - exists (p + 1). split_and!; [done|lia|zl|]. apply pts_blit_same; zl.
Qed.

Lemma run_gqid b f p ep set q :
  pts b p (eqid q) -> wqid q -> p + 13 <= ep ->
  gqid p ep set (b, f) = (Ok (Some (p + 13)), (b, set q f)).
Proof.
  intros H (Ht & Hv & Hw) He. unfold eqid in H. unfold w8, w32 in *.
  apply pts_app in H as [H1 H]. apply pts_app in H as [H2 H3].
  unfold gqid. destruct (Z.ltb_spec ep (p + QIDSZ)); [unfold QIDSZ in *; bits; lia|].
  rewrite (run_rd8 _ _ _ _ _ H1), (run_rd32 _ _ _ _ _ H2), (run_rd64 _ _ _ _ _ H3), run_setf.
  rewrite u32_i32, u64_i64, u8_id, u32_id, u64_id by lia.
  unfold mret, M_ret. bits. destruct q; simpl. do 3 f_equal. lia.
Qed.

Lemma set_u_id f u : f_u f = u -> set_u u f = f.
Proof. destruct f; simpl. by intros <-. Qed.

Lemma run_gnames ss : forall b f i p ep x n w,
  pts b p (concat (estr <$> ss)) -> Forall wstr ss ->
  p + zlen (concat (estr <$> ss)) <= ep ->
  f_u f = UWalk x n w -> (i + length ss <= length w)%nat ->
  exists b' w',
    gnames (length ss) i p ep (b, f) =
      (Ok (Some (p + zlen (concat (estr <$> ss)))), (b', set_u (UWalk x n w') f)) /\
    (forall j, (j < i)%nat -> w' !! j = w !! j) /\
    frame (p + 1) (p + zlen (concat (estr <$> ss))) b b' /\
    sptrs b' p w' i ss.
Proof.
  induction ss as [|s ss IH]; intros b f i p ep x n w Hp Hw He Hf Hi;
    rewrite ?fmap_cons in *; cbn [concat length gnames sptrs] in *.
  { exists b, w. split_and!; try done. unfold mret, M_ret. rewrite (set_u_id _ _ Hf).
    change (concat (estr <$> [])) with (@nil Z). do 3 f_equal. zl. }
  inversion_clear Hw. apply pts_app in Hp as [Hp Hr].
  destruct (gstring_runs b f p ep (set_wname i) s) as (b1 & F1 & P1 & E1); [done..|pos|].
  rewrite (bind_ok _ _ _ _ _ E1). cbv beta iota. pose proof (frame_pts _ _ _ _ _ _ F1 (or_intror (Z.le_refl _)) Hr) as Hr1.
  destruct (IH b1 (set_wname i (At (p + 1)) f) (S i) (p + zlen (estr s)) ep x n
    (<[i := At (p + 1)]> w)) as (b' & w' & E & Hw' & F2 & Hs); try done.
  { pos. } { unfold set_wname. by rewrite Hf. } { rewrite length_insert. lia. }
  exists b', w'. split_and!.
  - rewrite E. unfold set_wname. rewrite Hf. simpl. do 3 f_equal. pos.
  - intros j Hj. rewrite Hw' by lia. by rewrite list_lookup_insert_ne by lia.
  - eapply frame_trans; (eapply frame_widen; [eassumption|pos..]).
  - exists (At (p + 1)). split.
    + rewrite Hw' by lia. apply list_lookup_insert_eq. lia.
    + eapply sptr_in_sptr, sptr_in_frame; [eassumption| |eassumption]. pos.
  - done.
Qed.

Lemma run_gqids qs : forall b f i p ep n w,
  pts b p (concat (eqid <$> qs)) -> Forall wqid qs ->
  p + 13 * zlen qs <= ep ->
  f_u f = UWqid n w -> (i + length qs <= length w)%nat ->
  exists w',
    gqids (length qs) i p ep (b, f) =
      (Ok (Some (p + 13 * zlen qs)), (b, set_u (UWqid n w') f)) /\
    (forall j, (j < i)%nat -> w' !! j = w !! j) /\
    (forall j, (j < length qs)%nat -> w' !! (i + j)%nat = qs !! j).
Proof.
  induction qs as [|q qs IH]; intros b f i p ep n w Hp Hw He Hf Hi;
    rewrite ?fmap_cons in *; cbn [concat length gqids] in *.
  { exists w. split_and!; try done; [|intros; lia]. unfold mret, M_ret.
    rewrite (set_u_id _ _ Hf). do 3 f_equal. zl. }
  inversion_clear Hw. apply pts_app in Hp as [Hp Hr].
  erewrite bind_ok; [|apply run_gqid; [eassumption|done|zl]]. cbv beta iota.
  destruct (IH b (set_wqid i q f) (S i) (p + 13) ep n (<[i := q]> w)) as (w' & E & Hw' & Hs);
    try done.
  { zl. } { unfold set_wqid. by rewrite Hf. } { rewrite length_insert. lia. }
  exists w'. split_and!.
  - rewrite E. unfold set_wqid. rewrite Hf. simpl. do 3 f_equal. zl.
  - intros j Hj. rewrite Hw' by lia. by rewrite list_lookup_insert_ne by lia.
  - intros [|j] Hj.
    + rewrite Nat.add_0_r, Hw' by lia. simpl. apply list_lookup_insert_eq. lia.
    + rewrite Nat.add_succ_r. apply Hs. lia.
Qed.

(** ** Bodies: the bytes of a body are parsed to the message they encode *)

(** The arrays of the union have [MAXWELEM] elements. *)
Definition fcall_ok (f : Fcall) : Prop :=
  match f_u f with
  | UWalk _ _ w => length w = 16%nat
  | UWqid _ w => length w = 16%nat
  | _ => True
  end.

Definition m2s_case (t : NinepMsgType) (p ep : Z) : M St (option Z) :=
  if is_T t then m2s_T t p ep else m2s_R t p ep.

Ltac split_pts :=
  repeat match goal with
  | H : pts _ _ (_ ++ _) |- _ => apply pts_app in H as [? ?]
  | H : pts _ _ (encode_body _) |- _ => progress cbn [encode_body] in H
  end.

(** Executes reads whose bytes are in the context. *)
Ltac run_step :=
  first
  [ rewrite run_need by pos
  | rewrite run_setf
  | erewrite run_rd8 by eassumption
  | erewrite run_rd16 by eassumption
  | erewrite run_rd32 by eassumption
  | erewrite run_rd64 by eassumption
  | erewrite bind_ok; [|eapply run_gqid; [eassumption|assumption|pos]]; cbv beta iota ].

Ltac widths :=
  unfold w32, w16, w8, wi64 in *;
  change (2 ^ 32) with 4294967296 in *; change (2 ^ 16) with 65536 in *;
  change (2 ^ 8) with 256 in *; change (2 ^ 63) with 9223372036854775808 in *;
  zlen_facts;
  repeat first
  [ rewrite u32_i32 | rewrite u16_u16 | rewrite u8_u8
  | rewrite u32_id by lia
  | rewrite u16_id by lia
  | rewrite u8_id by lia
  | rewrite i64_id by lia ].

(** Executes a [gstring]: names the new buffer and carries over to it what is
    known of the bytes after the string. *)
Ltac run_gstring_step :=
  match goal with
  | |- context [gstring ?p ?ep ?set] =>
      match goal with
      | |- context [(?b, ?f)] =>
          let b' := fresh "b" in let F := fresh "F" in let P := fresh "P" in
          let E := fresh "E" in
          edestruct (gstring_runs b f p ep set) as (b' & F & P & E);
            [eassumption|split; eassumption|pos|];
          first [rewrite (bind_ok _ _ _ _ _ E) | rewrite E]; cbv beta iota; clear E;
          repeat match goal with
          | H : pts b _ _ |- _ => apply (frame_pts _ _ _ _ _ _ F) in H; [|right; pos]
          end
      end
  end.

(** What a body parse leaves: the pointer after the body, a buffer changed only
    inside the body, the header fields as they were, and the message. *)
Definition parsed (b : list Z) (f : Fcall) (m : Msg) (r : Res (option Z) * St) : Prop :=
  exists b' f',
    r = (Ok (Some (7 + zlen (encode_body m))), (b', f')) /\
    frame 7 (7 + zlen (encode_body m)) b b' /\
    f_type f' = f_type f /\ f_tag f' = f_tag f /\ holds_body b' f' m.

Lemma cur_walk_length f : fcall_ok f -> length (cur_walk (f_u f)).2 = 16%nat.
Proof. unfold fcall_ok. by destruct (f_u f). Qed.
Lemma cur_wqid_length f : fcall_ok f -> length (cur_wqid (f_u f)).2 = 16%nat.
Proof. unfold fcall_ok. by destruct (f_u f). Qed.
Lemma lookups_take {A} (w l : list A) :
  (forall j, (j < length w)%nat -> l !! (0 + j)%nat = w !! j) -> take (length w) l = w.
Proof.
  intros H. apply list_eq. intros j. destruct (decide (j < length w)%nat).
  - rewrite lookup_take_lt by done. by apply H.
  - rewrite lookup_take_ge, lookup_ge_None_2 by lia. done.
Qed.

Lemma parsed_intro b f m p b' f' :
  p = 7 + zlen (encode_body m) ->
  frame 7 (7 + zlen (encode_body m)) b b' ->
  f_type f' = f_type f -> f_tag f' = f_tag f -> holds_body b' f' m ->
  parsed b f m (Ok (Some p), (b', f')).
Proof. intros -> ????. by exists b', f'. Qed.

(** A pointer the parser left, in the final buffer. *)
Ltac solve_sptr :=
  match goal with
  | P : sptr_in ?b _ _ _ ?s |- sptr ?b _ _ ?s =>
      eapply sptr_in_sptr; exact P
  | P : sptr_in ?b _ _ _ ?s, F : frame _ _ ?b ?b' |- sptr ?b' _ _ ?s =>
      eapply sptr_in_sptr, (sptr_in_frame _ _ _ _ _ _ _ _ F); [|exact P]; pos
  end.
Ltac solve_frame :=
  first
  [ apply frame_refl
  | eapply frame_widen; [eassumption|pos|pos]
  | eapply frame_trans; (eapply frame_widen; [eassumption|pos|pos]) ].
Ltac solve_holds :=
  cbn [holds_body];
  repeat first [ reflexivity | solve_sptr | assumption | pos | eexists | split ].

Ltac to_result E :=
  match type of E with _ = ?r =>
    match goal with |- parsed _ _ _ ?x => replace x with r by (symmetry; exact E) end
  end.

Lemma m2s_run b f m ep :
  fcall_ok f -> wf_msg m -> pts b 7 (encode_body m) ->
  7 + zlen (encode_body m) <= ep -> ep <= zlen b ->
  parsed b f m (m2s_case (msg_type m) 7 ep (b, f)).
Proof.
  intros Hf Hwf Hp He Hb. unfold m2s_case.
  destruct m; cbn [msg_type wf_msg] in *; eval_is_T; cbn [m2s_T m2s_R]; destr;
    split_pts; cbn [encode_body] in *; unfold wstr, wdata, MAXWELEM in *; destr;
    widths; repeat (run_step; widths); repeat (run_gstring_step; repeat (run_step; widths));
    unfold mret, M_ret.
  all: try (apply parsed_intro; cbn [encode_body];
            [pos|solve_frame|reflexivity|reflexivity|solve [solve_holds]]).
  - rewrite bind_continue by (apply Z.ltb_ge; lia). rewrite to_nat_zlen.
    pose proof (cur_walk_length f Hf).
    edestruct (run_gnames wname b (set_nwname (zlen wname) (set_newfid newfid (set_fid fid f)))) with (i := 0%nat) (ep := ep)
      as (b' & w' & E & _ & F & Hs); [eassumption|eassumption|pos|reflexivity|simpl; unfold zlen in *; lia|].
    to_result E. apply parsed_intro; cbn [encode_body];
      [pos|solve_frame|reflexivity|reflexivity|]. split; [done|]. by exists w'.
  - erewrite run_gqid by (eassumption || pos).
    apply parsed_intro; cbn [encode_body]; [pos|solve_frame|done..].
  - erewrite run_gqid by (eassumption || pos).
    apply parsed_intro; cbn [encode_body]; [pos|solve_frame|done..|]. by eexists.
  - rewrite bind_continue by (apply Z.ltb_ge; lia). rewrite to_nat_zlen.
    pose proof (cur_wqid_length f Hf).
    edestruct (run_gqids wqid b (set_nwqid (zlen wqid) f)) with (i := 0%nat) (ep := ep)
      as (w' & E & _ & Hs); [eassumption|eassumption|pos|reflexivity|simpl; unfold zlen in *; lia|].
    to_result E. apply parsed_intro; cbn [encode_body];
      [pos|solve_frame|reflexivity|reflexivity|]. exists w'. split; [done|].
    by apply lookups_take.
Qed.

(** ** Splitting lemmas: what the next bytes of a buffer can be *)

Section split.
Context (b : list Z) (Hb : bytes_ok b).

Lemma bytes_split p n :
  0 <= p -> 0 <= n -> p + n <= zlen b -> exists d, zlen d = n /\ bytes_ok d /\ pts b p d.
Proof using Hb.
  intros. exists (slice p n b). split_and!.
  - by apply zlen_slice.
  - by apply bytes_slice.
  - by apply slice_pts.
Qed.

Lemma rd8_split p : 0 <= p -> p + 1 <= zlen b -> exists v, w8 v /\ pts b p (PBIT8 v).
Proof using Hb.
  intros H1 H2. destruct (bytes_split p 1 H1 ltac:(lia) H2) as (d & Hl & Hd & Hp).
  destruct d as [|v [|]]; try (zl). inversion_clear Hd.
  exists v. split; [done|]. unfold PBIT8. by rewrite u8_id.
Qed.
Lemma rd16_split p : 0 <= p -> p + 2 <= zlen b -> exists v, w16 v /\ pts b p (PBIT16 v).
Proof using Hb.
  intros H1 H2. destruct (bytes_split p 2 H1 ltac:(lia) H2) as (d & Hl & Hd & Hp).
  destruct d as [|x [|y [|]]]; try (zl).
  apply Forall_cons_1 in Hd as [Hx [Hy _]%Forall_cons_1]. unfold byte_ok in *.
  exists (x + y * 256). split; [unfold w16; lia|]. unfold PBIT16.
  rewrite Z.shiftr_div_pow2 by lia.
  replace (u8 (x + y * 256)) with x by (wraps; dlia).
  replace (u8 ((x + y * 256) / 2 ^ 8)) with y by (wraps; dlia). done.
Qed.
Lemma rd32_split p : 0 <= p -> p + 4 <= zlen b -> exists v, w32 v /\ pts b p (PBIT32 v).
Proof using Hb.
  intros H1 H2.
  destruct (rd16_split p H1 ltac:(lia)) as (lo & Hlo & Pl).
  destruct (rd16_split (p + 2) ltac:(lia) ltac:(lia)) as (hi & Hhi & Ph).
  unfold w16 in *. exists (lo + hi * 65536). split; [unfold w32; lia|].
  replace (PBIT32 (lo + hi * 65536)) with (PBIT16 lo ++ PBIT16 hi).
  { apply pts_app. by split. }
  unfold PBIT32, PBIT16. rewrite !Z.shiftr_div_pow2 by lia.
  change (2 ^ 16) with 65536 in *. change (2 ^ 24) with 16777216. simpl.
  repeat (f_equal; try (wraps; dlia)).
Qed.
Lemma rd64_split p : 0 <= p -> p + 8 <= zlen b -> exists v, wi64 v /\ pts b p (PBIT64 v).
Proof using Hb.
  intros H1 H2.
  destruct (rd32_split p H1 ltac:(lia)) as (lo & Hlo & Pl).
  destruct (rd32_split (p + 4) ltac:(lia) ltac:(lia)) as (hi & Hhi & Ph).
  unfold w32 in *. exists (i64 (lo + hi * 4294967296)).
  split; [unfold wi64, i64; pose proof (Z.mod_pos_bound (lo + hi * 4294967296 + 2 ^ 63) (2 ^ 64)); lia|].
  replace (PBIT64 _) with (PBIT32 lo ++ PBIT32 hi).
  { apply pts_app. by split. }
  unfold PBIT64, PBIT32. rewrite !Z.shiftr_div_pow2 by lia.
  change (2 ^ 32) with 4294967296 in *. change (2 ^ 16) with 65536.
  change (2 ^ 24) with 16777216. change (2 ^ 40) with 1099511627776.
  change (2 ^ 48) with 281474976710656. change (2 ^ 56) with 72057594037927936.
  cbn [app]. repeat (apply f_equal2; [wraps; dlia|]). done.
Qed.

Lemma gstring_split f p ep set :
  0 <= p -> ep <= zlen b ->
  gstring p ep set (b, f) = (Ok None, (b, f)) \/
  exists s, wstr s /\ pts b p (estr s) /\ p + zlen (estr s) <= ep.
Proof using Hb.
  intros H1 H2. unfold gstring. bits.
  destruct (Z.ltb_spec ep (p + 2)); [by left|].
  destruct (rd16_split p) as (n & Hn & Pn); [lia..|]. unfold w16 in Hn.
  change (2 ^ 16) with 65536 in *.
  rewrite (run_rd16 _ _ _ _ _ Pn), u16_id by lia.
  destruct (Z.ltb_spec n 0); [lia|].
  destruct (Z.ltb_spec ep (p + (2 - 1) + n + 1)); [by left|].
  right. destruct (bytes_split (p + 2) n) as (s & Hl & Hs & Ps); [lia..|].
  exists s. subst n. split_and!; [split; [done|lia]| |zl]. apply pts_app. by split.
Qed.

Lemma gqid_split f p ep set :
  0 <= p -> ep <= zlen b ->
  gqid p ep set (b, f) = (Ok None, (b, f)) \/
  exists q, wqid q /\ pts b p (eqid q) /\ p + 13 <= ep.
Proof using Hb.
  intros H1 H2. unfold gqid. destruct (Z.ltb_spec ep (p + QIDSZ)); [by left|].
  unfold QIDSZ in *. bits. right.
  destruct (rd8_split p) as (t & Ht & Pt); [lia..|].
  destruct (rd32_split (p + 1)) as (v & Hv & Pv); [lia..|].
  destruct (rd64_split (p + 5)) as (w & Hw & Pw); [lia..|].
  exists (mkQid t v (u64 w)). split_and!; [|unfold eqid; cbn [q_type q_vers q_path]|lia].
  - split_and!; [done|done|apply u64_range|apply u64_range].
  - rewrite !pts_app. split_and!; [done|done|]. change (p + zlen (PBIT8 t) + zlen (PBIT32 v)) with (p + 1 + 4).
    replace (p + 1 + 4) with (p + 5) by lia. by rewrite PBIT64_u64.
Qed.
End split.

Lemma frame_sym lo hi b b' : frame lo hi b b' -> frame lo hi b' b.
Proof. intros [E F]. split; [done|]. intros i Hi. by rewrite F. Qed.

Lemma estr_bytes s : wstr s -> bytes_ok (estr s).
Proof. intros [Hs _]. unfold estr. apply Forall_app. auto with jeh. Qed.

(** Names: after [k] of them, or out of buffer. *)
Lemma gnames_split k : forall b f i p ep x n w,
  bytes_ok b -> 0 <= p -> p <= ep -> ep <= zlen b ->
  f_u f = UWalk x n w -> (i + k <= length w)%nat ->
  (exists st, gnames k i p ep (b, f) = (Ok None, st)) \/
  exists ss, length ss = k /\ Forall wstr ss /\ pts b p (concat (estr <$> ss)) /\
    p + zlen (concat (estr <$> ss)) <= ep.
Proof.
  induction k as [|k IH]; intros b f i p ep x n w Hb H1 H2 H3 Hf Hi; cbn [gnames].
  { right. exists []. split_and!; try done.
    - apply pts_nil. zl.
    - change (concat (estr <$> [])) with (@nil Z). zl. }
  destruct (gstring_split b Hb f p ep (set_wname i) H1 H3) as [E|(s & Hs & Hp & He)].
  { left. rewrite (bind_ok _ _ _ _ _ E). by eexists. }
  destruct (gstring_runs b f p ep (set_wname i) s) as (b1 & F1 & P1 & E1); [done..|].
  rewrite (bind_ok _ _ _ _ _ E1). cbv beta iota.
  destruct (IH b1 (set_wname i (At (p + 1)) f) (S i) (p + zlen (estr s)) ep x n
    (<[i := At (p + 1)]> w)) as [[st E]|(ss & Hl & Hw & Hp' & He')].
  - assert (b1 = blit (p + 1) (s ++ [0]) b) as ->.
    { destruct Hs. rewrite (run_gstring _ _ _ _ _ s) in E1 by done. by simplify_eq. }
    apply bytes_blit; [done|]. destruct Hs. apply Forall_app. split; [done|].
    by repeat constructor.
  - pos.
  - done.
  - destruct F1 as [-> _]. done.
  - unfold set_wname. by rewrite Hf.
  - rewrite length_insert. lia.
  - left. rewrite E. by eexists.
  - right. exists (s :: ss). rewrite fmap_cons. cbn [concat length]. split_and!.
    + by rewrite Hl.
    + by constructor.
    + apply pts_app. split; [done|].
      eapply frame_pts; [apply frame_sym; exact F1| |exact Hp']. right. lia.
    + pos.
Qed.

Lemma gqids_split k : forall b f i p ep n w,
  bytes_ok b -> 0 <= p -> p <= ep -> ep <= zlen b ->
  f_u f = UWqid n w -> (i + k <= length w)%nat ->
  (exists st, gqids k i p ep (b, f) = (Ok None, st)) \/
  exists qs, length qs = k /\ Forall wqid qs /\ pts b p (concat (eqid <$> qs)) /\
    p + zlen (concat (eqid <$> qs)) <= ep.
Proof.
  induction k as [|k IH]; intros b f i p ep n w Hb H1 H2 H3 Hf Hi; cbn [gqids].
  { right. exists []. split_and!; try done.
    - apply pts_nil. zl.
    - change (concat (eqid <$> [])) with (@nil Z). zl. }
  destruct (gqid_split b Hb f p ep (set_wqid i) H1 H3) as [E|(q & Hq & Hp & He)].
  { left. rewrite (bind_ok _ _ _ _ _ E). by eexists. }
  rewrite (bind_ok _ _ _ _ _ (run_gqid b f p ep (set_wqid i) q Hp Hq He)). cbv beta iota.
  destruct (IH b (set_wqid i q f) (S i) (p + 13) ep n (<[i := q]> w))
    as [[st E]|(qs & Hl & Hw & Hp' & He')]; [done|lia|lia|done| | | |].
  - unfold set_wqid. by rewrite Hf.
  - rewrite length_insert. lia.
  - left. rewrite E. by eexists.
  - right. exists (q :: qs). rewrite fmap_cons. cbn [concat length]. split_and!.
    + by rewrite Hl.
    + by constructor.
    + apply pts_app. by split.
    + zl.
Qed.

(** ** Soundness of a body parse *)

(** The parse of a body failed: the function returns 0 or the pointer is nil. *)
Definition failed (r : Res (option Z) * St) : Prop :=
  match r.1 with Ret v => v = 0 | Ok None => True | _ => False end.

Section soundness.
Context (b : list Z) (ep : Z).
Context (Hb : bytes_ok b) (Hep : ep <= zlen b).

(** Either the parse failed or the bytes are the body of a message. *)
Definition sound (t : NinepMsgType) (r : Res (option Z) * St) : Prop :=
  failed r \/
  exists m, msg_type m = t /\ pts b 7 (encode_body m) /\
    7 + zlen (encode_body m) <= ep /\ wf_msg m.

(** The current buffer [c]: as the original one from [q] on. *)
Definition ahead (q : Z) (c : list Z) : Prop := frame 0 q b c /\ bytes_ok c.

Lemma ahead_pts q c p bs : ahead q c -> q <= p -> pts c p bs -> pts b p bs.
Proof using.
  intros [F _] Hq. apply (frame_pts _ _ _ _ _ _ (frame_sym _ _ _ _ F)). by right.
Qed.
Lemma ahead_len q c : ahead q c -> ep <= zlen c.
Proof using Hep. intros [[E _] _]. lia. Qed.

Lemma sound_need t p n st k :
  (p + n <= ep -> sound t (k tt st)) -> sound t ((need p n ep ≫= k) st).
Proof using.
  intros H. unfold need. destruct (Z.ltb_spec ep (p + n)).
  - left. by rewrite (bind_ret _ _ _ _ _ (return_if_true _ _ _ eq_refl)).
  - rewrite bind_continue by done. auto.
Qed.

Context (q : Z) (c : list Z) (f : Fcall) (Hc : ahead q c).

Lemma sound_rd8 t p k :
  q <= p -> 0 <= p -> p + 1 <= ep ->
  (forall v, w8 v -> pts b p (PBIT8 v) -> sound t (k v (c, f))) ->
  sound t ((rd8 p ≫= k) (c, f)).
Proof using Hc Hep.
  intros Hq H1 H2 H. pose proof (ahead_len _ _ Hc).
  destruct (rd8_split c (proj2 Hc) p) as (v & Hv & Hp); [lia..|].
  rewrite (run_rd8 _ _ _ _ _ Hp). unfold w8 in *. rewrite u8_id by lia.
  apply H; [done|]. by eapply ahead_pts.
Qed.
Lemma sound_rd16 t p k :
  q <= p -> 0 <= p -> p + 2 <= ep ->
  (forall v, w16 v -> pts b p (PBIT16 v) -> sound t (k v (c, f))) ->
  sound t ((rd16 p ≫= k) (c, f)).
Proof using Hc Hep.
  intros Hq H1 H2 H. pose proof (ahead_len _ _ Hc).
  destruct (rd16_split c (proj2 Hc) p) as (v & Hv & Hp); [lia..|].
  rewrite (run_rd16 _ _ _ _ _ Hp). unfold w16 in *. rewrite u16_id by lia.
  apply H; [done|]. by eapply ahead_pts.
Qed.
Lemma sound_rd32 t p k :
  q <= p -> 0 <= p -> p + 4 <= ep ->
  (forall v, w32 v -> pts b p (PBIT32 v) -> sound t (k (i32 v) (c, f))) ->
  sound t ((rd32 p ≫= k) (c, f)).
Proof using Hc Hep.
  intros Hq H1 H2 H. pose proof (ahead_len _ _ Hc).
  destruct (rd32_split c (proj2 Hc) p) as (v & Hv & Hp); [lia..|].
  rewrite (run_rd32 _ _ _ _ _ Hp). apply H; [done|]. by eapply ahead_pts.
Qed.
Lemma sound_rd64 t p k :
  q <= p -> 0 <= p -> p + 8 <= ep ->
  (forall v, wi64 v -> pts b p (PBIT64 v) -> sound t (k v (c, f))) ->
  sound t ((rd64 p ≫= k) (c, f)).
Proof using Hc Hep.
  intros Hq H1 H2 H. pose proof (ahead_len _ _ Hc).
  destruct (rd64_split c (proj2 Hc) p) as (v & Hv & Hp); [lia..|].
  rewrite (run_rd64 _ _ _ _ _ Hp). unfold wi64 in *. rewrite i64_id by lia.
  apply H; [done|]. by eapply ahead_pts.
Qed.
Lemma sound_setf t g k : sound t (k tt (c, g f)) -> sound t ((setf g ≫= k) (c, f)).
Proof using. done. Qed.

(** A qid or a string, whatever is done with the pointer after it. *)
Lemma sound_gqid t p set (w : Res (option Z) * St -> Res (option Z) * St) :
  q <= p -> 0 <= p ->
  (forall i, wqid i -> pts b p (eqid i) -> p + 13 <= ep ->
     sound t (w (Ok (Some (p + 13)), (c, set i f)))) ->
  (forall st, sound t (w (Ok None, st))) ->
  sound t (w (gqid p ep set (c, f))).
Proof using Hc Hep.
  intros Hq H1 H H0. pose proof (ahead_len _ _ Hc).
  destruct (gqid_split c (proj2 Hc) f p ep set H1) as [E|(i & Hi & Hp & He)]; [lia| |].
  - rewrite E. apply H0.
  - rewrite (run_gqid c f p ep set i Hp Hi He). apply H; [done| |done]. by eapply ahead_pts.
Qed.
Lemma sound_gstring t p set (w : Res (option Z) * St -> Res (option Z) * St) :
  q <= p -> 0 <= p ->
  (forall s c', wstr s -> pts b p (estr s) -> p + zlen (estr s) <= ep ->
     ahead (p + zlen (estr s)) c' ->
     sound t (w (Ok (Some (p + zlen (estr s))), (c', set (At (p + 1)) f)))) ->
  (forall st, sound t (w (Ok None, st))) ->
  sound t (w (gstring p ep set (c, f))).
Proof using Hc Hep.
  intros Hq H1 H H0. pose proof (ahead_len _ _ Hc). destruct Hc as [Fc Hbc].
  destruct (gstring_split c Hbc f p ep set H1) as [E|(s & Hs & Hp & He)]; [lia| |].
  { rewrite E. apply H0. }
  pose proof (pts_bound _ _ _ Hp).
  rewrite (run_gstring c f p ep set s) by (done || apply Hs).
  apply H; [done|by eapply ahead_pts|done|]. split.
  - eapply frame_trans; [eapply frame_widen; [exact Fc|lia|pos]|].
    eapply frame_widen; [apply frame_blit|..]; pos.
  - apply bytes_blit; [done|]. apply Forall_app. split; [apply Hs|by repeat constructor].
Qed.

Lemma sound_gqid_bind t p set k :
  q <= p -> 0 <= p ->
  (forall i, wqid i -> pts b p (eqid i) -> p + 13 <= ep ->
     sound t (k (Some (p + 13)) (c, set i f))) ->
  (forall st, sound t (k None st)) ->
  sound t ((gqid p ep set ≫= k) (c, f)).
Proof using Hc Hep.
  apply (sound_gqid t p set (fun r => match r with
    | (Ok a, s') => k a s' | (Ret v, s') => (Ret v, s') | (Ub, s') => (Ub, s') end)).
Qed.
Lemma sound_gstring_bind t p set k :
  q <= p -> 0 <= p ->
  (forall s c', wstr s -> pts b p (estr s) -> p + zlen (estr s) <= ep ->
     ahead (p + zlen (estr s)) c' ->
     sound t (k (Some (p + zlen (estr s))) (c', set (At (p + 1)) f))) ->
  (forall st, sound t (k None st)) ->
  sound t ((gstring p ep set ≫= k) (c, f)).
Proof using Hc Hep.
  apply (sound_gstring t p set (fun r => match r with
    | (Ok a, s') => k a s' | (Ret v, s') => (Ret v, s') | (Ub, s') => (Ub, s') end)).
Qed.
End soundness.

Lemma ahead_refl b : bytes_ok b -> ahead b 7 b.
Proof. by split. Qed.

(** Follows the parse statement by statement. *)
Ltac sound_step :=
  match goal with
  | |- sound _ _ _ ((need _ _ _ ≫= _) _) => apply sound_need; intros ?
  | |- sound _ _ _ ((setf _ ≫= _) _) => apply sound_setf
  | |- sound _ _ _ ((rd8 _ ≫= _) _) =>
      eapply sound_rd8; [pos|eassumption|pos|pos|pos|]; intros ? ? ?
  | |- sound _ _ _ ((rd16 _ ≫= _) _) =>
      eapply sound_rd16; [pos|eassumption|pos|pos|pos|]; intros ? ? ?
  | |- sound _ _ _ ((rd32 _ ≫= _) _) =>
      eapply sound_rd32; [pos|eassumption|pos|pos|pos|]; intros ? ? ?
  | |- sound _ _ _ ((rd64 _ ≫= _) _) =>
      eapply sound_rd64; [pos|eassumption|pos|pos|pos|]; intros ? ? ?
  | |- sound _ _ _ ((gqid _ _ _ ≫= _) _) =>
      eapply sound_gqid_bind; [pos|eassumption|pos|pos| |intros ?; by left];
      intros ? ? ? ?; cbv beta iota
  | |- sound _ _ _ ((gstring _ _ _ ≫= _) _) =>
      eapply sound_gstring_bind; [pos|eassumption|pos|pos| |intros ?; by left];
      intros ? ? ? ? ? ?; cbv beta iota
  | |- sound _ _ _ (gqid _ _ _ _) =>
      eapply (sound_gqid _ _ ltac:(eassumption)) with (w := fun r => r);
      [eassumption|pos|pos| |intros ?; by left]; intros ? ? ? ?
  | |- sound _ _ _ (gstring _ _ _ _) =>
      eapply (sound_gstring _ _ ltac:(eassumption)) with (w := fun r => r);
      [eassumption|pos|pos| |intros ?; by left]; intros ? ? ? ? ? ?
  end.

(** The bytes seen are the body of [m]. *)
Tactic Notation "body_is" uconstr(m) :=
  right; eapply (ex_intro _ m); split; [reflexivity|];
  cbn [wf_msg encode_body]; rewrite ?pts_app;
  split; [split_and?; eassumption|]; split; [pos|split_and?; first [eassumption|lia|split; [assumption|lia]]].

(** Names the data a checked count covers. *)
Ltac name_data b Hb p n :=
  let d := fresh "d" in let E := fresh "E" in
  destruct (bytes_split b Hb p n) as (d & E & ? & ?); [pos|pos|pos|]; subst n.
Ltac data_of b Hb :=
  unfold w32, w16 in *; change (2 ^ 32) with 4294967296 in *; change (2 ^ 16) with 65536 in *;
  match goal with
  | H : ?p + u32 (i32 ?v) <= _ |- _ =>
      rewrite u32_i32, u32_id in H by lia; name_data b Hb p v
  | H : ?p + u16 ?v <= _ |- _ => rewrite u16_id in H by lia; name_data b Hb p v
  end.

Lemma m2s_sound b f ep t :
  bytes_ok b -> 7 <= ep -> ep <= zlen b -> fcall_ok f ->
  sound b ep t (m2s_case t 7 ep (b, f)).
Proof.
  intros Hb H7 Hep Hf. pose proof (ahead_refl b Hb) as Ha. unfold m2s_case.
  destruct t; eval_is_T; cbn [m2s_T m2s_R]; repeat sound_step.
  - body_is (MTversion _ _).
  - body_is (MRversion _ _).
  - body_is (MTauth _ _ _).
  - body_is (MRauth _).
  - body_is (MTattach _ _ _ _).
  - body_is (MRattach _).
  - by left.
  - body_is (MRerror _).
  - body_is (MTflush _).
  - right. exists MRflush. split_and!; [done|apply pts_nil; pos|pos|done].
  - unfold w16 in *. rewrite u16_id by lia. unfold return_if.
    destruct (Z.ltb_spec MAXWELEM v1); [by left|]. rewrite bind_mret.
    pose proof (cur_walk_length f Hf). unfold MAXWELEM in *.
    match goal with |- context [gnames ?k ?i ?p ep (b, ?g)] =>
      edestruct (gnames_split k b g i p ep)
        as [[st E]|(ss & Hl & Hs & Hp & He)];
        [exact Hb|pos|pos|exact Hep|reflexivity|simpl; lia|by rewrite E; left|]
    end.
    assert (v1 = zlen ss) as -> by (unfold zlen; lia).
    body_is (MTwalk _ _ ss).
  - unfold w16 in *. rewrite u16_id by lia. unfold return_if.
    destruct (Z.ltb_spec MAXWELEM v); [by left|]. rewrite bind_mret.
    pose proof (cur_wqid_length f Hf). unfold MAXWELEM in *.
    match goal with |- context [gqids ?k ?i ?p ep (b, ?g)] =>
      edestruct (gqids_split k b g i p ep)
        as [[st E]|(ss & Hl & Hs & Hp & He)];
        [exact Hb|pos|pos|exact Hep|reflexivity|simpl; lia|by rewrite E; left|]
    end.
    assert (v = zlen ss) as -> by (unfold zlen; lia).
    body_is (MRwalk ss).
  - body_is (MTopen _ _).
  - body_is (MRopen _ _).
  - body_is (MTcreate _ _ _ _).
  - body_is (MRcreate _ _).
  - body_is (MTread _ _ _).
  - data_of b Hb. body_is (MRread d).
  - data_of b Hb. body_is (MTwrite _ _ d).
  - body_is (MRwrite _).
  - body_is (MTclunk _).
  - right. exists MRclunk. split_and!; [done|apply pts_nil; pos|pos|done].
  - body_is (MTremove _).
  - right. exists MRremove. split_and!; [done|apply pts_nil; pos|pos|done].
  - body_is (MTstat _).
  - data_of b Hb. body_is (MRstat d).
  - data_of b Hb. body_is (MTwstat _ d).
  - right. exists MRwstat. split_and!; [done|apply pts_nil; pos|pos|done].
Qed.
