(* ===== verification/FcallThms.v ===== *)
(** * Correctness of the 9P2000 codec *)
From S2P Require Import Prelude CMonad Bytes Fcall FcallSpec FcallEnc FcallDec.

(** ** Whole messages *)

Lemma encode_split tag m b :
  pts b 0 (encode tag m) ->
  pts b 0 (PBIT32 (7 + zlen (encode_body m))) /\
  pts b 4 (PBIT8 (msgtype_to_Z (msg_type m))) /\
  pts b 5 (PBIT16 tag) /\ pts b 7 (encode_body m).
Proof. unfold encode. rewrite !pts_app. tauto. Qed.

Lemma encode_join tag m b :
  pts b 0 (PBIT32 (7 + zlen (encode_body m))) ->
  pts b 4 (PBIT8 (msgtype_to_Z (msg_type m))) ->
  pts b 5 (PBIT16 tag) -> pts b 7 (encode_body m) -> pts b 0 (encode tag m).
Proof. unfold encode. rewrite !pts_app. tauto. Qed.

Lemma msgtype_of_Some v t : msgtype_of_Z v = Some t -> v = msgtype_to_Z t.
Proof.
  unfold msgtype_of_Z, zget. destruct (Z.ltb_spec (v - 100) 0); [done|].
  intros E. enough (msgtype_to_Z t = 100 + Z.of_nat (Z.to_nat (v - 100))) by lia.
  revert E. generalize (Z.to_nat (v - 100)) as n.
  intros n. do 28 (destruct n as [|n]; [intros [= <-]; done|]). done.
Qed.

Lemma msgtype_byte t : 0 <= msgtype_to_Z t < 256.
Proof. by destruct t. Qed.

(** The prefix of the buffer is the message and the rest is untouched. *)
Lemma frame_restore b b' e :
  pts b 0 e -> frame 7 (zlen e) b b' \/ frame 0 (zlen e) b b' -> 0 <= zlen e ->
  blit 0 e b' = b.
Proof.
  intros Hp Hf He. assert (frame 0 (zlen e) b b') as [E F]
    by (destruct Hf; [by eapply frame_widen|done]).
  pose proof (pts_bound _ _ _ Hp). apply list_eq. intros i.
  rewrite lookup_blit by lia. case_decide; [lia|]. case_decide.
  - rewrite Nat.sub_0_r. destruct Hp as (_ & _ & Hi). symmetry.
    apply (Hi i). unfold zlen in *; lia.
  - apply F. lia.
Qed.

Lemma convM2S_run b f tag m nap :
  fcall_ok f -> wf_msg m -> w16 tag -> pts b 0 (encode tag m) ->
  zlen (encode tag m) <= nap -> nap <= zlen b -> nap < 4294967296 ->
  exists b' f',
    convM2S nap (b, f) = (Ok (zlen (encode tag m)), (b', f')) /\
    holds b' f' tag m /\ blit 0 (encode tag m) b' = b /\ zlen b' = zlen b.
Proof.
  intros Hf Hw Ht Hp Hl Hn Hn'.
  destruct (encode_split _ _ _ Hp) as (Hs & Hty & Htg & Hbody).
  rewrite zlen_encode in Hl |- *. pose proof (zlen_nonneg (encode_body m)).
  set (g := set_tag tag (set_type (msgtype_to_Z (msg_type m)) f)).
  destruct (m2s_run b g m nap) as (b' & f' & E & F & Ety & Etg & Hh); try done.
  exists b', f'. split_and!.
  - unfold convM2S. rewrite run_need by (bits; lia).
    rewrite (run_rd32 _ _ _ _ _ Hs), u32_i32, u32_id by lia.
    rewrite bind_continue by (apply Z.ltb_ge; bits; lia).
    change (0 + BIT32SZ) with 4. rewrite (run_rd8 _ _ _ _ _ Hty), run_setf.
    rewrite u8_u8, (u8_id (msgtype_to_Z _)) by apply msgtype_byte.
    change (4 + BIT8SZ) with 5. rewrite (run_rd16 _ _ _ _ _ Htg), run_setf.
    unfold w16 in Ht. rewrite u16_u16, u16_id by lia. change (5 + BIT16SZ) with 7.
    unfold m2s_switch. rewrite msgtype_of_to. fold (m2s_case (msg_type m) 7 (0 + nap)).
    rewrite Z.add_0_l. rewrite (bind_ok _ _ _ _ _ E). cbv beta iota.
    destruct (Z.ltb_spec nap (7 + zlen (encode_body m))); [lia|].
    by rewrite Z.eqb_refl.
  - split_and!; [by rewrite Ety|by rewrite Etg|done].
  - apply frame_restore; [done| |apply zlen_nonneg]. rewrite zlen_encode. by left.
  - apply F.
Qed.

Lemma wf_elems_ok m : wf_msg m -> elems_ok m.
Proof. destruct m; simpl; intros; destr; done. Qed.

(** The message at the front of the buffer, or a return of 0. *)
Lemma convM2S_sound b f nap :
  bytes_ok b -> fcall_ok f -> 0 <= nap -> nap <= zlen b ->
  returned (convM2S nap (b, f)).1 = Some 0 \/
  exists tag m, w16 tag /\ wf_msg m /\ pts b 0 (encode tag m) /\ zlen (encode tag m) <= nap.
Proof.
  intros Hb Hf H0 Hn. unfold convM2S, need. rewrite !Z.add_0_l. bits.
  destruct (Z.ltb_spec nap (4 + 1 + 2)) as [|H7]; [by left|]. rewrite bind_continue by done.
  destruct (rd32_split b Hb 0) as (sz & Hsz & Ps); [lia..|]. unfold w32 in Hsz.
  rewrite (run_rd32 _ _ _ _ _ Ps), u32_i32, u32_id by lia.
  destruct (Z.ltb_spec sz (4 + 1 + 2)) as [|Hsz7]; [by left|]. rewrite bind_continue by done.
  destruct (rd8_split b Hb 4) as (ty & Hty & Pty); [lia..|]. unfold w8 in Hty.
  rewrite (run_rd8 _ _ _ _ _ Pty), run_setf, u8_u8, u8_id by lia.
  change (4 + 1) with 5. destruct (rd16_split b Hb 5) as (tg & Htg & Ptg); [lia..|].
  pose proof Htg as Hw. unfold w16 in Htg.
  rewrite (run_rd16 _ _ _ _ _ Ptg), run_setf, u16_u16, u16_id by lia.
  change (5 + 2) with 7. unfold m2s_switch.
  destruct (msgtype_of_Z ty) as [t|] eqn:Et; [|by left].
  apply msgtype_of_Some in Et as ->. fold (m2s_case t 7 nap).
  set (g := set_tag tg _). assert (fcall_ok g) as Hg by done.
  destruct (m2s_sound b g nap t Hb H7 Hn Hg) as [Hfail|(m & <- & Pm & Lm & Wm)].
  { left. unfold failed in Hfail. unfold mbind, M_bind.
    destruct (m2s_case t 7 nap (b, g)) as [[[p|]|v|] st]; simpl in *; try done. by subst v. }
  destruct (m2s_run b g m nap Hg Wm Pm Lm Hn) as (b' & f' & E & _).
  rewrite (bind_ok _ _ _ _ _ E). cbv beta iota.
  destruct (Z.ltb_spec nap (7 + zlen (encode_body m))); [by left|].
  destruct (Z.eqb_spec (0 + sz) (7 + zlen (encode_body m))) as [Es|]; [|by left].
  rewrite Z.add_0_l in Es. subst sz.
  right. exists tg, m. split_and!; [done|done|by apply encode_join|by rewrite zlen_encode].
Qed.

(** ** Properties *)

(** C1. [convM2S] decides the wire format: on every buffer of bytes (whatever a
    peer sent) it runs without an access outside the buffer and either the
    first [nap] bytes begin with the encoding of a message, which it returns
    the length of and leaves in [f] (strings NUL-terminated in place, the rest
    of the buffer as it was), or they do not and it returns 0. *)
Theorem convM2S_decides b f nap :
  bytes_ok b -> fcall_ok f -> 0 <= nap < 2 ^ 32 -> nap <= zlen b ->
  (exists tag m b' f',
      w16 tag /\ wf_msg m /\ pts b 0 (encode tag m) /\ zlen (encode tag m) <= nap /\
      convM2S nap (b, f) = (Ok (zlen (encode tag m)), (b', f')) /\
      holds b' f' tag m /\ blit 0 (encode tag m) b' = b) \/
  (returned (convM2S nap (b, f)).1 = Some 0 /\
   forall tag m, w16 tag -> wf_msg m -> pts b 0 (encode tag m) -> nap < zlen (encode tag m)).
Proof.
  intros Hb Hf [H0 Hn32] Hn. change (2 ^ 32) with 4294967296 in *.
  destruct (convM2S_sound b f nap Hb Hf H0 Hn) as [E|(tag & m & Ht & Hw & Hp & Hl)].
  - right. split; [done|]. intros tag m Ht Hw Hp. apply Z.nle_gt. intros Hl.
    destruct (convM2S_run b f tag m nap) as (b' & f' & E' & _); try done.
    rewrite E' in E. simpl in E. rewrite zlen_encode in E.
    pose proof (zlen_nonneg (encode_body m)). injection E. lia.
  - left. destruct (convM2S_run b f tag m nap) as (b' & f' & ? & ? & ? & _); try done.
    by exists tag, m, b', f'.
Qed.

Definition fcall0 : Fcall := mkFcall 0 0 0 (UFlush 0).
Definition tflush_bytes : list Z := [9; 0; 0; 0; 108; 3; 0; 7; 1].

Lemma convM2S_decides_witness :
  (bytes_ok tflush_bytes /\ fcall_ok fcall0 /\ 0 <= 9 < 2 ^ 32 /\ 9 <= zlen tflush_bytes) /\
  exists tag m b' f',
    w16 tag /\ wf_msg m /\ pts tflush_bytes 0 (encode tag m) /\ zlen (encode tag m) <= 9 /\
    convM2S 9 (tflush_bytes, fcall0) = (Ok (zlen (encode tag m)), (b', f')) /\
    holds b' f' tag m /\ blit 0 (encode tag m) b' = tflush_bytes.
Proof.
  assert (bytes_ok tflush_bytes) as Hb by (repeat constructor; unfold byte_ok; lia).
  assert (0 <= 9 < 2 ^ 32) as Hn by done.
  assert (9 <= zlen tflush_bytes) as Hl by done.
  split; [exact (conj Hb (conj I (conj Hn Hl)))|].
  destruct (convM2S_decides tflush_bytes fcall0 9 Hb I Hn Hl) as [H|[H _]]; [exact H|].
  vm_compute in H. discriminate H.
Defined.

(** C2. [convS2M] implements the wire format: for an [Fcall] that describes a
    message whose strings are C strings, [sizeS2M] is the length of the
    encoding, and [convS2M] writes exactly the encoding over the front of the
    buffer, or changes nothing and returns 0 when [nap] is too small. *)
Theorem convS2M_encodes b f tag m nap :
  holds b f tag m -> c_strings m -> elems_ok m ->
  zlen (encode tag m) < 2 ^ 32 -> nap <= zlen b ->
  sizeS2M b f = Some (zlen (encode tag m)) /\
  convS2M f nap b =
    if nap <? zlen (encode tag m) then (Ret 0, b)
    else (Ok (zlen (encode tag m)), blit 0 (encode tag m) b).
Proof.
  intros Hh Hc He Hl Hn. split; [|by apply convS2M_emit].
  rewrite zlen_encode in *. by apply (sizeS2M_ok b f tag m).
Qed.

Definition fc_version : Fcall := mkFcall 100 0 65535 (UVersion 8192 (Ext [57; 80; 0])).
Definition m_version : Msg := MTversion 8192 [57; 80].

Lemma convS2M_encodes_witness :
  (holds (replicate 16 0) fc_version 65535 m_version /\ c_strings m_version /\
   zlen (encode 65535 m_version) < 2 ^ 32) /\
  convS2M fc_version 16 (replicate 16 0) =
    (Ok 15, [15; 0; 0; 0; 100; 255; 255; 0; 32; 0; 0; 2; 0; 57; 80; 0]).
Proof.
  assert (holds (replicate 16 0) fc_version 65535 m_version) as Hh.
  { split_and!; try done. exists (Ext [57; 80; 0]). split; [done|apply pts_all]. }
  assert (c_strings m_version) as Hc by (repeat constructor; done).
  assert (zlen (encode 65535 m_version) < 2 ^ 32) as Hl by done.
  split; [exact (conj Hh (conj Hc Hl))|].
  destruct (convS2M_encodes (replicate 16 0) fc_version 65535 m_version 16 Hh Hc I Hl)
    as [_ E]; [done|]. rewrite E. vm_compute. reflexivity.
Defined.

(** C3. Decoding then encoding in place is the identity on the buffer: on a
    buffer that starts with a message whose strings hold no NUL, [convM2S]
    succeeds, and [convS2M] of the [Fcall] it fills, run on the buffer it left
    (the strings of the [Fcall] point into that very buffer), restores every
    byte. *)
Theorem convM2S_convS2M_inplace b f tag m nap :
  fcall_ok f -> wf_msg m -> w16 tag -> c_strings m -> pts b 0 (encode tag m) ->
  zlen (encode tag m) <= nap -> nap <= zlen b -> nap < 2 ^ 32 ->
  exists b' f',
    convM2S nap (b, f) = (Ok (zlen (encode tag m)), (b', f')) /\
    convS2M f' nap b' = (Ok (zlen (encode tag m)), b).
Proof.
  intros Hf Hw Ht Hc Hp Hl Hn Hn32.
  destruct (convM2S_run b f tag m nap) as (b' & f' & E & Hh & Hr & El); try done.
  exists b', f'. split; [done|].
  rewrite (convS2M_emit b' f' tag m nap Hh Hc (wf_elems_ok m Hw)) by lia.
  destruct (Z.ltb_spec nap (zlen (encode tag m))); [lia|]. by rewrite Hr.
Qed.

Definition tversion_bytes : list Z := [15; 0; 0; 0; 100; 255; 255; 0; 32; 0; 0; 2; 0; 57; 80; 77].

Lemma convM2S_convS2M_inplace_witness :
  (wf_msg m_version /\ c_strings m_version /\ pts tversion_bytes 0 (encode 65535 m_version)) /\
  exists b' f',
    convM2S 16 (tversion_bytes, fcall0) = (Ok 15, (b', f')) /\
    b' <> tversion_bytes /\ convS2M f' 16 b' = (Ok 15, tversion_bytes).
Proof.
  assert (wf_msg m_version) as Hw by (split; [done|split; [repeat constructor; done|done]]).
  assert (c_strings m_version) as Hc by (repeat constructor; done).
  assert (pts tversion_bytes 0 (encode 65535 m_version)) as Hp.
  { split_and!; [done|done|]. intros i Hi. do 15 (destruct i; [done|]).
    exfalso. vm_compute in Hi. lia. }
  split; [exact (conj Hw (conj Hc Hp))|].
  destruct (convM2S_convS2M_inplace tversion_bytes fcall0 65535 m_version 16 I Hw)
    as (b' & f' & E1 & E2); try done.
  exists b', f'. vm_compute in E1. injection E1 as <- <-.
  split; [vm_compute; reflexivity|]. split; [discriminate|exact E2].
Defined.

(** C4. Encoding then decoding is the identity on messages: what [convS2M]
    wrote for an [Fcall] describing [m], [convM2S] reads back as [m]. *)
Theorem convS2M_convM2S b f g tag m nap :
  holds b f tag m -> c_strings m -> wf_msg m -> w16 tag -> fcall_ok g ->
  zlen (encode tag m) <= nap -> nap <= zlen b -> nap < 2 ^ 32 ->
  exists b1 b2 f2,
    convS2M f nap b = (Ok (zlen (encode tag m)), b1) /\
    convM2S nap (b1, g) = (Ok (zlen (encode tag m)), (b2, f2)) /\
    holds b2 f2 tag m.
Proof.
  intros Hh Hc Hw Ht Hg Hl Hn Hn32. pose proof (zlen_nonneg (encode tag m)).
  rewrite (convS2M_emit b f tag m nap Hh Hc (wf_elems_ok m Hw)) by lia.
  destruct (Z.ltb_spec nap (zlen (encode tag m))); [lia|].
  destruct (convM2S_run (blit 0 (encode tag m) b) g tag m nap)
    as (b2 & f2 & E & Hh2 & _); try done.
  - apply pts_blit_same; lia.
  - by rewrite zlen_blit by lia.
  - by eexists _, b2, f2.
Qed.

Lemma convS2M_convM2S_witness :
  (holds (replicate 16 0) fc_version 65535 m_version /\ c_strings m_version /\
   wf_msg m_version) /\
  exists b1 b2 f2,
    convS2M fc_version 16 (replicate 16 0) = (Ok 15, b1) /\
    convM2S 16 (b1, fcall0) = (Ok 15, (b2, f2)) /\ holds b2 f2 65535 m_version.
Proof.
  assert (holds (replicate 16 0) fc_version 65535 m_version) as Hh.
  { split_and!; try done. exists (Ext [57; 80; 0]). split; [done|apply pts_all]. }
  assert (c_strings m_version) as Hc by (repeat constructor; done).
  assert (wf_msg m_version) as Hw by (split; [done|split; [repeat constructor; done|done]]).
  split; [exact (conj Hh (conj Hc Hw))|].
  apply (convS2M_convM2S (replicate 16 0) fc_version fcall0 65535 m_version 16 Hh Hc Hw); done.
Defined.

(** ** Limits of the encoder *)

Lemma wb_cases p s b :
  wb p s b = (Ub, b) \/ exists b', wb p s b = (Ok tt, b') /\ zlen b' = zlen b.
Proof.
  unfold wb. destruct (put p s b) as [b'|] eqn:E; [|by left]. right. exists b'.
  apply put_Some in E as (? & ? & ->). split; [done|]. by apply zlen_blit.
Qed.

(** Follows stores that may be out of bounds until one is. *)
Ltac wb_step :=
  match goal with
  | |- (((wb ?p ?s) ≫= _) ?b).1 = Ub =>
      let b' := fresh "b" in let E := fresh "E" in let L := fresh "L" in
      destruct (wb_cases p s b) as [E|(b' & E & L)];
      [rewrite (bind_ub _ _ _ _ E); reflexivity | rewrite (bind_ok _ _ _ _ _ E)]
  end.

(** C5. [sizeS2M] adds the count of a [Twrite] modulo 2^32 and nothing checks
    the sum: with a count in the last 22 values of [uint32_t] the size wraps to
    at most 22 bytes, passes the test against [nap], and [convS2M] copies the
    data over the end of the buffer. *)
Theorem convS2M_count_overflow b f o c d nap :
  f_type f = msgtype_to_Z Twrite -> f_u f = UIo o c d ->
  2 ^ 32 - 23 < c < 2 ^ 32 -> nap = zlen b -> c + 23 - 2 ^ 32 <= nap < 2 ^ 32 ->
  sizeS2M b f = Some (c + 23 - 2 ^ 32) /\ (convS2M f nap b).1 = Ub.
Proof.
  intros Ht Hu Hc -> Hn.
  assert (sizeS2M b f = Some (c + 23 - 2 ^ 32)) as Es.
  { unfold sizeS2M. rewrite Ht. simpl. unfold f_io. rewrite Hu. simpl. f_equal.
    unfold u32. bits. symmetry. apply (Z.mod_unique_pos _ _ 1); lia. }
  split; [done|]. unfold convS2M. rewrite bind_gets. unfold id, memb.
  rewrite (bind_of_option _ _ _ _ Es).
  rewrite bind_continue by (apply Z.eqb_neq; lia).
  rewrite bind_continue by (apply Z.ltb_ge; lia).
  do 3 wb_step. unfold s2m_switch. rewrite Ht, msgtype_of_to. eval_is_T.
  assert (forall k : Z -> M (list Z) Z, ((s2m_T Twrite f 7 ≫= k) b2).1 = Ub) as H; [|apply H].
  intros k. enough ((s2m_T Twrite f 7 b2).1 = Ub) as E'.
  { unfold mbind, M_bind. destruct (s2m_T Twrite f 7 b2) as [r st]. simpl in E'. by subst r. }
  cbn [s2m_T]. unfold memb, f_io. rewrite Hu. rewrite (bind_of_option _ _ _ _ eq_refl).
  do 3 wb_step. unfold movs. unfold mbind at 1, M_bind at 1. rewrite bind_gets. unfold id.
  destruct (c_mem b5 d c) as [dd|] eqn:Ed; [|done].
  assert (zlen dd = c) as Hl.
  { destruct d as [|od|q]; simpl in Ed.
    - destruct (Z.eqb_spec c 0); [lia|done].
    - unfold load in Ed. destruct (_ && _) eqn:T; [|done]. injection Ed as <-.
      apply andb_prop in T as [T1 T2%Z.leb_le]. apply andb_prop in T1 as [T0%Z.leb_le T1%Z.leb_le].
      by apply zlen_slice.
    - unfold load in Ed. destruct (_ && _) eqn:T; [|done]. injection Ed as <-.
      apply andb_prop in T as [T1 T2%Z.leb_le]. apply andb_prop in T1 as [T0%Z.leb_le T1%Z.leb_le].
      by apply zlen_slice. }
  rewrite (bind_of_option _ _ _ _ eq_refl). unfold wb, put.
  destruct (Z.leb_spec (7 + BIT32SZ + BIT64SZ + BIT32SZ + zlen dd) (zlen b5)); [bits; lia|].
  by rewrite andb_false_r.
Qed.

Definition fc_huge : Fcall := mkFcall 118 1 1 (UIo 0 (2 ^ 32 - 1) (At 0)).

Lemma convS2M_count_overflow_witness :
  (2 ^ 32 - 23 < 2 ^ 32 - 1 < 2 ^ 32 /\ zlen (replicate 100 0) = 100) /\
  sizeS2M (replicate 100 0) fc_huge = Some 22 /\
  (convS2M fc_huge 100 (replicate 100 0)).1 = Ub.
Proof.
  split; [done|].
  destruct (convS2M_count_overflow (replicate 100 0) fc_huge 0 (2 ^ 32 - 1) (At 0) 100)
    as [E1 E2]; try done.
Defined.

Lemma PBIT16_u16 v : PBIT16 (u16 v) = PBIT16 v.
Proof.
  unfold PBIT16. rewrite !Z.shiftr_div_pow2 by lia.
  repeat (apply f_equal2; [wraps; dlia|]). done.
Qed.

(** A string of 64K bytes or more is not representable: [convS2M] writes an
    [Rerror] that carries one without complaint (only the low 16 bits of its
    length are stored) and [convM2S] refuses the message it wrote. *)
Theorem convS2M_long_string s fid tag g nap b :
  no_nul s -> bytes_ok s -> 2 ^ 16 <= zlen s -> w16 tag -> fcall_ok g ->
  9 + zlen s <= nap -> nap <= zlen b -> nap < 2 ^ 32 ->
  exists b1,
    convS2M (mkFcall (msgtype_to_Z Rerror) fid tag (UError (Ext (s ++ [0])))) nap b =
      (Ok (9 + zlen s), b1) /\
    returned (convM2S nap (b1, g)).1 = Some 0.
Proof.
  intros Hs Hby Hl Ht Hg Hn Hb Hn32. change (2 ^ 16) with 65536 in *.
  change (2 ^ 32) with 4294967296 in *. set (f := mkFcall _ _ _ _).
  assert (zlen (encode tag (MRerror s)) = 9 + zlen s) as El
    by (rewrite zlen_encode; cbn [encode_body]; zl).
  assert (holds b f tag (MRerror s)) as Hh.
  { split_and!; [done|done|]. eexists. split; [done|apply pts_all]. }
  rewrite (convS2M_emit b f tag (MRerror s) nap Hh) by (repeat constructor; done || lia).
  rewrite El. destruct (Z.ltb_spec nap (9 + zlen s)); [lia|].
  eexists. split; [done|]. set (b1 := blit 0 _ b).
  assert (pts b1 0 (encode tag (MRerror s))) as Hp by (apply pts_blit_same; lia).
  destruct (encode_split _ _ _ Hp) as (Ps & Pty & Ptg & Pb).
  cbn [encode_body] in *. rewrite zlen_estr in Ps.
  set (s' := take (Z.to_nat (u16 (zlen s))) s).
  pose proof (u16_range (zlen s)).
  assert (zlen s' = u16 (zlen s)) as Ls'.
  { unfold s', zlen. rewrite length_take. unfold zlen in *. lia. }
  assert (pts b1 7 (estr s')) as Pb'.
  { unfold estr in *. rewrite Ls', PBIT16_u16. apply pts_app in Pb as [P1 P2].
    apply pts_app. split; [done|].
    rewrite <- (take_drop (Z.to_nat (u16 (zlen s))) s) in P2. by apply pts_app in P2 as [? _]. }
  unfold convM2S. rewrite run_need by (bits; lia).
  rewrite (run_rd32 _ _ _ _ _ Ps), u32_i32, u32_id by lia.
  rewrite bind_continue by (apply Z.ltb_ge; bits; lia).
  change (0 + BIT32SZ) with 4. rewrite (run_rd8 _ _ _ _ _ Pty), run_setf.
  change (4 + BIT8SZ) with 5. rewrite (run_rd16 _ _ _ _ _ Ptg), run_setf.
  change (5 + BIT16SZ) with 7. change (u8 (u8 (msgtype_to_Z _))) with 107.
  unfold m2s_switch. change (msgtype_of_Z 107) with (Some Rerror). cbv beta iota. eval_is_T.
  cbn [m2s_R].
  assert (7 + zlen (estr s') <= 0 + nap) as Lr by (rewrite zlen_estr; lia).
  rewrite (bind_ok _ _ _ _ _ (run_gstring _ _ 7 _ _ s' Pb' ltac:(lia) Lr)).
  cbv beta iota. rewrite zlen_estr, Ls'. destruct (Z.ltb_spec (0 + nap) (7 + (2 + u16 (zlen s)))); [done|].
  destruct (Z.eqb_spec (0 + (7 + (2 + zlen s))) (7 + (2 + u16 (zlen s)))); [lia|done].
Qed.

Lemma zlen_replicate {A} (n : Z) (x : A) : 0 <= n -> zlen (replicate (Z.to_nat n) x) = n.
Proof. intros. unfold zlen. rewrite length_replicate. lia. Qed.

Lemma convS2M_long_string_witness :
  let s := replicate (Z.to_nat 65540) 65 in
  (2 ^ 16 <= zlen s /\ no_nul s) /\
  exists b1,
    convS2M (mkFcall 107 0 7 (UError (Ext (s ++ [0])))) 65549 (replicate (Z.to_nat 65549) 0) =
      (Ok 65549, b1) /\
    returned (convM2S 65549 (b1, fcall0)).1 = Some 0.
Proof.
  intros s.
  assert (no_nul s) as Hs by (apply Forall_replicate; done).
  assert (bytes_ok s) as Hb by (apply Forall_replicate; done).
  assert (zlen s = 65540) as El by (apply zlen_replicate; lia).
  assert (2 ^ 16 <= zlen s) as Hl by (rewrite El; done).
  assert (zlen (replicate (Z.to_nat 65549) 0) = 65549) as Eb by (apply zlen_replicate; lia).
  revert Eb. generalize (replicate (Z.to_nat 65549) 0) as b. intros b Eb. clearbody s.
  split; [exact (conj Hl Hs)|].
  destruct (convS2M_long_string s 0 7 fcall0 65549 b Hs Hb Hl)
    as (b1 & E & H); [done|exact I|lia|lia|done|].
  rewrite El in E. exists b1. exact (conj E H).
Defined.
