(* ===== verification/Stat.v ===== *)
(** * The stat codec: [sys/src/lib/c/9sys/convM2D.c], [convD2M.c]

    The strings of a [Dir] are [nil], objects of their own, or pointers into
    the caller's string buffer [strs]. *)
From S2P Require Import Prelude CMonad Bytes Fcall.

(** ** Data *)

Record Dir : Type := mkDir {
  d_type : Z;
  d_dev : Z;
  d_qid : Qid;
  d_mode : Z;
  d_atime : Z;
  d_mtime : Z;
  d_length : Z;
  d_name : charp;
  d_uid : charp;
  d_gid : charp;
  d_muid : charp
}.

Definition STATFIXLEN : Z :=
  BIT16SZ + QIDSZ + 5 * BIT16SZ + 4 * BIT32SZ + 1 * BIT64SZ.

(** ** [statcheck] *)

(** Pure reads of a buffer that is not written. *)
Definition rd {S} (o : option Z) : M S Z := of_option o.

(** [for(i = 0; i < 4; i++){ ... }] with [k] iterations left; the result is
    [buf] after the loop. *)
Fixpoint statcheck_loop (b : list Z) (k : nat) (buf ebuf : Z) : M () Z :=
  match k with
  | O => mret buf
  | S k' =>
      return_if (ebuf <? buf + BIT16SZ) (-1);;
      n ← rd (get16 b buf);
      statcheck_loop b k' (buf + (BIT16SZ + n)) ebuf
  end.

Definition statcheck (b : list Z) (nbuf : Z) : M () Z :=
  let buf := 0 in
  let ebuf := buf + nbuf in
  return_if (nbuf <? STATFIXLEN) (-1);;
  n ← rd (get16 b buf);
  return_if (negb (nbuf =? BIT16SZ + n)) (-1);;
  buf ← statcheck_loop b 4 (buf + (STATFIXLEN - 4 * BIT16SZ)) ebuf;
  if negb (buf =? ebuf) then mret (-1) else mret 0.

(** ** [convM2D] *)

(** The store: the caller's string buffer, if there is one, and [*d]. *)
Definition StD : Type := option (list Z) * Dir.
Definition setd (g : Dir -> Dir) : M StD () := modify (fun st => (fst st, g (snd st))).
(** Stores of bytes at offset [q] of [strs]. *)
Definition ws (q : Z) (s : list Z) : M StD () :=
  fun st => match fst st with
            | None => (Ub, st)
            | Some o => match put q s o with
                        | Some o' => (Ok tt, (Some o', snd st))
                        | None => (Ub, st)
                        end
            end.

(** The loop over the four strings: [p] in the message, [strs] the offset in
    the string buffer, [sv] the pointers recorded so far. *)
Fixpoint m2d_strings (b : list Z) (k : nat) (p ebuf strs : Z) (sv : list charp)
    : M StD (Z * list charp) :=
  match k with
  | O => mret (p, sv)
  | S k' =>
      return_if (ebuf <? p + BIT16SZ) 0;;
      ns ← rd (get16 b p);
      return_if (ns <? 0) 0;;
      let p := p + BIT16SZ in
      return_if (ebuf <? p + ns) 0;;
      o ← gets fst;
      match o with
      | Some _ =>
          s ← of_option (load p ns b);
          ws strs s;;
          ws (strs + ns) [0];;
          m2d_strings b k' (p + ns) ebuf (strs + ns + 1) (sv ++ [At strs])
      | None => m2d_strings b k' (p + ns) ebuf strs sv
      end
  end.

Definition nullstring : charp := Ext [0].

Definition set_names (n u g m : charp) (d : Dir) : Dir :=
  mkDir (d_type d) (d_dev d) (d_qid d) (d_mode d) (d_atime d) (d_mtime d) (d_length d) n u g m.
Definition set_fixed (t v : Z) (q : Qid) (mo a mt l : Z) (d : Dir) : Dir :=
  mkDir t v q mo a mt l (d_name d) (d_uid d) (d_gid d) (d_muid d).

(** The fixed part is read into [*d] before any string is looked at. *)
Definition convM2D (b : list Z) (nbuf : Z) : M StD Z :=
  return_if (nbuf <? STATFIXLEN) 0;;
  let p := 0 in
  let ebuf := p + nbuf in
  let p := p + BIT16SZ in
  ty ← rd (get16 b p);
  let p := p + BIT16SZ in
  dev ← rd (get32 b p);
  let p := p + BIT32SZ in
  qt ← rd (get8 b p);
  let p := p + BIT8SZ in
  qv ← rd (get32 b p);
  let p := p + BIT32SZ in
  qp ← rd (get64 b p);
  let p := p + BIT64SZ in
  mode ← rd (get32 b p);
  let p := p + BIT32SZ in
  atime ← rd (get32 b p);
  let p := p + BIT32SZ in
  mtime ← rd (get32 b p);
  let p := p + BIT32SZ in
  len ← rd (get64 b p);
  let p := p + BIT64SZ in
  setd (set_fixed (u16 ty) (u32 dev) (mkQid (u8 qt) (u32 qv) (u64 qp)) (u32 mode)
          (u32 atime) (u32 mtime) len);;
  '(p, sv) ← m2d_strings b 4 p ebuf 0 [];
  o ← gets fst;
  match o with
  | Some _ =>
      match sv with
      | [s0; s1; s2; s3] => setd (set_names s0 s1 s2 s3)
      | _ => undefined
      end
  | None => setd (set_names nullstring nullstring nullstring nullstring)
  end;;
  mret (p - 0).

(** ** [sizeD2M] and [convD2M] *)

(** [if(sv[i]) ns = strlen(sv[i]); else ns = 0]; [strlen] returns an [int]. *)
Definition strlen0 (sbuf : list Z) (s : charp) : option Z :=
  match s with Nil => Some 0 | _ => c ← c_str sbuf s; Some (i32 (zlen c)) end.

Definition sizeD2M (sbuf : list Z) (d : Dir) : option Z :=
  n0 ← strlen0 sbuf (d_name d);
  n1 ← strlen0 sbuf (d_uid d);
  n2 ← strlen0 sbuf (d_gid d);
  n3 ← strlen0 sbuf (d_muid d);
  Some (u32 (STATFIXLEN + (0 + n0 + n1 + n2 + n3))).

(** One iteration of the loop that writes the strings. *)
Definition d2m_string (sbuf : list Z) (ebuf : Z) (p : Z) (s : charp) (ns : Z) : M (list Z) Z :=
  return_if (ebuf <? p + ns + BIT16SZ) 0;;
  wb p (PBIT16 ns);;
  let p := p + BIT16SZ in
  (if ns =? 0 then mret tt else c ← of_option (c_mem sbuf s ns); wb p c);;
  mret (p + ns).

Definition convD2M (sbuf : list Z) (d : Dir) (nbuf : Z) : M (list Z) Z :=
  return_if (nbuf <? BIT16SZ) 0;;
  let p := 0 in
  let ebuf := p + nbuf in
  n0 ← of_option (strlen0 sbuf (d_name d));
  n1 ← of_option (strlen0 sbuf (d_uid d));
  n2 ← of_option (strlen0 sbuf (d_gid d));
  n3 ← of_option (strlen0 sbuf (d_muid d));
  let ss := STATFIXLEN + (0 + n0 + n1 + n2 + n3) in
  wb p (PBIT16 (ss - BIT16SZ));;
  let p := p + BIT16SZ in
  return_if (nbuf <? u32 ss) BIT16SZ;;
  wb p (PBIT16 (d_type d));;
  let p := p + BIT16SZ in
  wb p (PBIT32 (d_dev d));;
  let p := p + BIT32SZ in
  wb p (PBIT8 (q_type (d_qid d)));;
  let p := p + BIT8SZ in
  wb p (PBIT32 (q_vers (d_qid d)));;
  let p := p + BIT32SZ in
  wb p (PBIT64 (q_path (d_qid d)));;
  let p := p + BIT64SZ in
  wb p (PBIT32 (d_mode d));;
  let p := p + BIT32SZ in
  wb p (PBIT32 (d_atime d));;
  let p := p + BIT32SZ in
  wb p (PBIT32 (d_mtime d));;
  let p := p + BIT32SZ in
  wb p (PBIT64 (d_length d));;
  let p := p + BIT64SZ in
  p ← d2m_string sbuf ebuf p (d_name d) n0;
  p ← d2m_string sbuf ebuf p (d_uid d) n1;
  p ← d2m_string sbuf ebuf p (d_gid d) n2;
  p ← d2m_string sbuf ebuf p (d_muid d) n3;
  if negb (ss =? p - 0) then mret 0 else mret (p - 0).
