(* ===== verification/StatThms.v ===== *)
(** * The stat codec is correct

    [DirV] is a directory entry as a value and [stat_bytes] its wire format;
    [statcheck] decides it, [convM2D] parses it, [convD2M] prints it. *)
From S2P Require Import Prelude CMonad Bytes Fcall FcallSpec FcallEnc FcallDec Stat.

(** ** The wire format *)

Record DirV : Type := mkDirV {
  v_type : Z; v_dev : Z; v_qid : Qid; v_mode : Z; v_atime : Z; v_mtime : Z; v_length : Z;
  v_name : list Z; v_uid : list Z; v_gid : list Z; v_muid : list Z
}.

Definition fixed_bytes (v : DirV) : list Z :=
  PBIT16 (v_type v) ++ PBIT32 (v_dev v) ++ eqid (v_qid v) ++ PBIT32 (v_mode v)
  ++ PBIT32 (v_atime v) ++ PBIT32 (v_mtime v) ++ PBIT64 (v_length v).
Definition v_strings (v : DirV) : list (list Z) := [v_name v; v_uid v; v_gid v; v_muid v].
Definition stat_body (v : DirV) : list Z := fixed_bytes v ++ concat (estr <$> v_strings v).
Definition stat_bytes (v : DirV) : list Z := PBIT16 (zlen (stat_body v)) ++ stat_body v.

Definition wf_fixed (v : DirV) : Prop :=
  w16 (v_type v) /\ w32 (v_dev v) /\ wqid (v_qid v) /\ w32 (v_mode v) /\ w32 (v_atime v) /\
  w32 (v_mtime v) /\ wi64 (v_length v).
Definition wf_dir (v : DirV) : Prop := wf_fixed v /\ Forall wstr (v_strings v).

(** A [Dir] that describes the entry [v], its pointers into [sbuf] or to
    objects of their own. *)
Definition holds_fixed (d : Dir) (v : DirV) : Prop :=
  d_type d = v_type v /\ d_dev d = v_dev v /\ d_qid d = v_qid v /\ d_mode d = v_mode v /\
  d_atime d = v_atime v /\ d_mtime d = v_mtime v /\ d_length d = v_length v.
Definition d_names (d : Dir) : list charp := [d_name d; d_uid d; d_gid d; d_muid d].
Definition names_hold (sbuf : list Z) (cs : list charp) (ss : list (list Z)) : Prop :=
  Forall2 (sptr sbuf 0) cs ss.
Definition holds_dir (sbuf : list Z) (d : Dir) (v : DirV) : Prop :=
  holds_fixed d v /\ names_hold sbuf (d_names d) (v_strings v).

Lemma zlen_fixed v : zlen (fixed_bytes v) = 39.
Proof. done. Qed.
#[export] Hint Rewrite zlen_fixed : zlen.

(** ** [statcheck] *)

Lemma get16_at b p v : pts b p (PBIT16 v) -> w16 v -> get16 b p = Some v.
Proof. intros H ?. rewrite (get16_pts _ _ _ H), u16_id; [done|]. unfold w16 in *. lia. Qed.

Lemma concat_estr_cons s ss : concat (estr <$> s :: ss) = estr s ++ concat (estr <$> ss).
Proof. done. Qed.

(** A loop over [k] counted strings from [p]: it stops at the end of the buffer
    or has passed [k] strings that lie inside it. *)
Lemma statcheck_loop_spec b ebuf : bytes_ok b -> ebuf <= zlen b -> forall k p,
  0 <= p ->
  statcheck_loop b k p ebuf () = (Ret (-1), ()) \/
  exists ns, statcheck_loop b k p ebuf () = (Ok ns, ()) /\
    (ns <= ebuf -> exists ss, length ss = k /\ Forall wstr ss /\
       ns = p + zlen (concat (estr <$> ss)) /\ pts b p (concat (estr <$> ss))).
Proof.
  intros Hb He. induction k as [|k IH]; intros p Hp; cbn [statcheck_loop].
  { right. exists p. split; [done|]. intros. exists []. split_and!; try done.
    - change (concat (estr <$> [])) with (@nil Z). zl.
    - apply pts_nil. lia. }
  destruct (Z.ltb_spec ebuf (p + BIT16SZ)); [by left|]. bits. rewrite bind_continue by done.
  destruct (rd16_split b Hb p) as (n & Hn & Pn); [lia..|]. unfold rd.
  rewrite (bind_of_option _ _ _ _ (get16_at _ _ _ Pn Hn)). unfold w16 in Hn.
  destruct (IH (p + (2 + n))) as [->|(ns & -> & H')]; [lia|by left|]. right.
  exists ns. split; [done|]. intros Hns. destruct (H' Hns) as (ss & Hl & Hw & -> & Hpt).
  destruct (bytes_split b Hb (p + 2) n) as (s & Hs & Hby & Ps);
    [lia..|pose proof (zlen_nonneg (concat (estr <$> ss))); lia|].
  subst n. assert (pts b p (estr s)) as Pe by (apply pts_app; by split).
  exists (s :: ss). split_and!.
  - simpl. by rewrite Hl.
  - constructor; [|done]. split; [done|lia].
  - rewrite concat_estr_cons. pos.
  - rewrite concat_estr_cons. apply pts_app. split; [done|]. rewrite zlen_estr. done.
Qed.

Lemma statcheck_loop_run b ebuf ss : Forall wstr ss -> forall p,
  pts b p (concat (estr <$> ss)) -> p + zlen (concat (estr <$> ss)) <= ebuf ->
  statcheck_loop b (length ss) p ebuf () = (Ok (p + zlen (concat (estr <$> ss))), ()).
Proof.
  induction 1 as [|s ss [Hb Hl] _ IH]; intros p Hp He; cbn [statcheck_loop length].
  { unfold mret, M_ret. do 2 f_equal. change (concat (estr <$> [])) with (@nil Z). zl. }
  rewrite concat_estr_cons in *. apply pts_app in Hp as [[Hc Hs]%pts_app Hr].
  rewrite bind_continue by (apply Z.ltb_ge; pos). unfold rd.
  rewrite (bind_of_option _ _ _ _ (get16_at _ _ _ Hc ltac:(unfold w16; zl))).
  rewrite zlen_estr in Hr. bits. rewrite IH; [|exact Hr|pos]. do 2 f_equal. pos.
Qed.

(** The fixed part of any buffer is the fixed part of some entry. *)
Lemma fixed_split b : bytes_ok b -> 41 <= zlen b ->
  forall n u g m, exists v, wf_fixed v /\ pts b 2 (fixed_bytes v) /\ v_strings v = [n; u; g; m].
Proof.
  intros Hb Hl n u g m.
  destruct (rd16_split b Hb 2) as (ty & ? & P1); [lia..|].
  destruct (rd32_split b Hb 4) as (dev & ? & P2); [lia..|].
  destruct (rd8_split b Hb 8) as (qt & ? & P3); [lia..|].
  destruct (rd32_split b Hb 9) as (qv & ? & P4); [lia..|].
  destruct (rd64_split b Hb 13) as (qp & ? & P5); [lia..|].
  destruct (rd32_split b Hb 21) as (mo & ? & P6); [lia..|].
  destruct (rd32_split b Hb 25) as (at' & ? & P7); [lia..|].
  destruct (rd32_split b Hb 29) as (mt & ? & P8); [lia..|].
  destruct (rd64_split b Hb 33) as (len & ? & P9); [lia..|].
  exists (mkDirV ty dev (mkQid qt qv (u64 qp)) mo at' mt len n u g m). split_and!; try done.
  - unfold wf_fixed, wqid. cbn. split_and!; try done; apply u64_range.
  - unfold fixed_bytes, eqid. cbn [v_type v_dev v_qid v_mode v_atime v_mtime v_length q_type q_vers q_path].
    rewrite PBIT64_u64, !pts_app.
    repeat match goal with |- context [zlen (?f ?v)] =>
      let n := eval vm_compute in (zlen (f 0)) in change (zlen (f v)) with n end.
    simpl. split_and!; done.
Qed.

(** ** [convM2D] *)

Lemma estr_count b p s : pts b p (estr s) -> wstr s -> get16 b p = Some (zlen s).
Proof. intros [H _]%pts_app [_ ?]. apply get16_at; [done|]. unfold w16. zl. Qed.

(** Room for the strings and their NULs. *)
Definition room (n : Z) (o : option (list Z)) : Prop :=
  match o with Some so => n <= zlen so | None => True end.

(** What the loop leaves in the string buffer from offset [q] on. *)
Definition strs_hold (q : Z) (o o' : option (list Z)) (cs : list charp) (ss : list (list Z)) : Prop :=
  match o with
  | None => o' = None /\ cs = []
  | Some so => exists so', o' = Some so' /\ zlen so' = zlen so /\ frame q (zlen so) so so' /\
                 names_hold so' cs ss
  end.

Lemma ws_ok q s so d :
  0 <= q -> q + zlen s <= zlen so -> ws q s (Some so, d) = (Ok tt, (Some (blit q s so), d)).
Proof. intros. unfold ws. simpl. by rewrite put_ok. Qed.

Lemma m2d_strings_spec b ebuf : bytes_ok b -> ebuf <= zlen b -> forall k p q sv o d,
  0 <= p <= ebuf -> 0 <= q -> room (q + (ebuf - p)) o ->
  ((exists o', m2d_strings b k p ebuf q sv (o, d) = (Ret 0, (o', d))) /\
   forall ss, length ss = k -> Forall wstr ss -> pts b p (concat (estr <$> ss)) ->
     ebuf < p + zlen (concat (estr <$> ss))) \/
  exists ss cs o', length ss = k /\ Forall wstr ss /\ pts b p (concat (estr <$> ss)) /\
    p + zlen (concat (estr <$> ss)) <= ebuf /\
    m2d_strings b k p ebuf q sv (o, d) =
      (Ok (p + zlen (concat (estr <$> ss)), sv ++ cs), (o', d)) /\
    strs_hold q o o' cs ss.
Proof.
  intros Hb He. induction k as [|k IH]; intros p q sv o d Hp Hq Hr; cbn [m2d_strings].
  { right. exists [], [], o. change (concat (estr <$> [])) with (@nil Z). split_and!; try done.
    - apply pts_nil. lia.
    - zl.
    - rewrite app_nil_r. unfold mret, M_ret. do 3 f_equal. zl.
    - destruct o as [so|]; [|done]. exists so. split_and!; try done. constructor. }
  destruct (Z.ltb_spec ebuf (p + BIT16SZ)) as [Hs|Hs].
  { left. split; [by eexists|]. intros [|s ss] [=] Hw _. rewrite concat_estr_cons. pos. }
  bits. rewrite bind_continue by done.
  destruct (rd16_split b Hb p) as (n & Hn & Pn); [lia..|]. pose proof (get16_at _ _ _ Pn Hn) as Eg.
  unfold rd. rewrite (bind_of_option _ _ _ _ Eg). unfold w16 in Hn.
  rewrite bind_continue by (apply Z.ltb_ge; lia).
  assert (forall s ss, wstr s -> pts b p (concat (estr <$> s :: ss)) ->
            zlen s = n /\ pts b (p + 2 + n) (concat (estr <$> ss))) as Hhd.
  { intros s ss Hw Hpt. rewrite concat_estr_cons in Hpt. apply pts_app in Hpt as [H1 H2].
    rewrite (estr_count _ _ _ H1 Hw) in Eg. injection Eg as Eg. split; [done|].
    rewrite zlen_estr in H2. subst n. replace (p + 2 + zlen s) with (p + (2 + zlen s)) by lia. done. }
  destruct (Z.ltb_spec ebuf (p + 2 + n)) as [Hs2|Hs2].
  { left. split; [by eexists|]. intros [|s ss] [=] Hw Hpt. apply Forall_cons_1 in Hw as [Hw _].
    destruct (Hhd _ _ Hw Hpt). rewrite concat_estr_cons. pos. }
  rewrite bind_continue by done. rewrite bind_gets. cbn [fst].
  destruct (bytes_split b Hb (p + 2) n) as (s & Hs3 & Hby & Ps); [lia..|].
  assert (wstr s) as Hws by (split; [done|lia]).
  assert (pts b p (estr s)) as Pe by (apply pts_app; subst n; by split).
  assert (forall q' sv' o', 0 <= q' -> room (q' + (ebuf - (p + 2 + n))) o' ->
    ((exists o'', m2d_strings b k (p + 2 + n) ebuf q' sv' (o', d) = (Ret 0, (o'', d))) /\
     forall ss, length ss = S k -> Forall wstr ss -> pts b p (concat (estr <$> ss)) ->
       ebuf < p + zlen (concat (estr <$> ss))) \/
    exists ss cs o'', length ss = k /\ Forall wstr ss /\
      pts b p (concat (estr <$> s :: ss)) /\ p + zlen (concat (estr <$> s :: ss)) <= ebuf /\
      m2d_strings b k (p + 2 + n) ebuf q' sv' (o', d) =
        (Ok (p + zlen (concat (estr <$> s :: ss)), sv' ++ cs), (o'', d)) /\
      strs_hold q' o' o'' cs ss) as Htl.
  { intros q' sv' o' Hq' Hr'.
    destruct (IH (p + 2 + n) q' sv' o' d) as [[H1 H2]|(ss & cs & o'' & Hl & Hw & Hpt & Hle & E & Hh)];
      [lia|done|done| |].
    - left. split; [done|]. intros [|s1 ss] [=] Hw Hpt. apply Forall_cons_1 in Hw as [Hw1 Hw].
      destruct (Hhd _ _ Hw1 Hpt) as [? Hpt']. specialize (H2 ss ltac:(lia) Hw Hpt').
      rewrite concat_estr_cons. pos.
    - right. exists ss, cs, o''. rewrite concat_estr_cons. split_and!; try done.
      + apply pts_app. split; [done|]. rewrite zlen_estr, Hs3. by rewrite Z.add_assoc.
      + pos.
      + rewrite E. do 3 f_equal. pos. }
  destruct o as [so|].
  - simpl in Hr. pose proof (load_pts _ _ _ Ps) as El. rewrite Hs3 in El.
    rewrite (bind_of_option _ _ _ _ El).
    rewrite (bind_ok _ _ _ _ _ (ws_ok q s so d Hq ltac:(lia))).
    rewrite (bind_ok _ _ _ _ _ (ws_ok (q + n) [0] (blit q s so) d ltac:(lia)
               ltac:(rewrite zlen_blit by lia; change (zlen [0]) with 1; lia))).
    rewrite <- Hs3, blit_tail by (change (zlen [0]) with 1; lia). rewrite Hs3.
    set (so1 := blit q (s ++ [0]) so).
    assert (zlen (s ++ [0]) = n + 1) as L1 by zl.
    assert (zlen so1 = zlen so) as L2 by (apply zlen_blit; lia).
    destruct (Htl (q + n + 1) (sv ++ [At q]) (Some so1)) as
      [[[o' E] Hno]|(ss & cs & o' & Hl & Hw & Hpt & Hle & E & Hh)]; [lia|simpl; lia| |].
    + left. split; [by exists o'|done].
    + right. exists (s :: ss), (At q :: cs), o'. split_and!; try done.
      * simpl. lia.
      * by constructor.
      * rewrite E. by rewrite <- app_assoc.
      * destruct Hh as (so' & -> & Hz & Hf & Hn'). exists so'. split_and!; [done|lia| |].
        -- eapply frame_trans; [eapply frame_widen; [apply frame_blit|..]|
             eapply frame_widen; [eassumption|..]]; lia.
        -- constructor; [|done]. split; [lia|]. eapply frame_pts; [exact Hf| |].
           ++ left. lia.
           ++ apply pts_blit_same; lia.
  - destruct (Htl q sv None) as
      [[[o' E] Hno]|(ss & cs & o' & Hl & Hw & Hpt & Hle & E & Hh)]; [done|done| |].
    + left. split; [by exists o'|done].
    + right. exists (s :: ss), cs, o'. split_and!; try done.
      * simpl. lia.
      * by constructor.
Qed.

(** The entry with the strings [ss]. *)
Definition with_strings (v : DirV) (ss : list (list Z)) : DirV :=
  match ss with
  | [n; u; g; m] =>
      mkDirV (v_type v) (v_dev v) (v_qid v) (v_mode v) (v_atime v) (v_mtime v) (v_length v) n u g m
  | _ => v
  end.

Lemma v_strings_length v : length (v_strings v) = 4%nat.
Proof. done. Qed.
Lemma four_strings {A} (ss : list A) : length ss = 4%nat -> exists a b c d, ss = [a; b; c; d].
Proof. destruct ss as [|a [|b [|c [|d []]]]]; try done. intros _. by exists a, b, c, d. Qed.

(** Reading the fixed part. *)
Lemma convM2D_fixed b nbuf o d v :
  wf_fixed v -> pts b 2 (fixed_bytes v) -> 49 <= nbuf ->
  convM2D b nbuf (o, d) =
    ('(p, sv) ← m2d_strings b 4 41 nbuf 0 [];
     o ← gets fst;
     match o with
     | Some _ =>
         match sv with
         | [s0; s1; s2; s3] => setd (set_names s0 s1 s2 s3)
         | _ => undefined
         end
     | None => setd (set_names nullstring nullstring nullstring nullstring)
     end;;
     mret (p - 0)) (o, set_fixed (v_type v) (v_dev v) (v_qid v) (v_mode v) (v_atime v)
                         (v_mtime v) (v_length v) d).
Proof.
  intros (Hty & Hdev & (Hqt & Hqv & Hqp) & Hmo & Hat & Hmt & Hlen) Hp Hn.
  unfold convM2D. rewrite bind_continue by (apply Z.ltb_ge; done).
  unfold fixed_bytes, eqid in Hp. rewrite !pts_app in Hp.
  destruct Hp as (P1 & P2 & (P3 & P4 & P5) & P6 & P7 & P8 & P9).
  autorewrite with zlen in *. bits.
  unfold rd. rewrite (bind_of_option _ _ _ _ (get16_pts _ _ _ P1)).
  rewrite (bind_of_option _ _ _ _ (get32_pts _ _ _ P2)).
  rewrite (bind_of_option _ _ _ _ (get8_pts _ _ _ P3)).
  rewrite (bind_of_option _ _ _ _ (get32_pts _ _ _ P4)).
  rewrite (bind_of_option _ _ _ _ (get64_pts _ _ _ P5)).
  rewrite (bind_of_option _ _ _ _ (get32_pts _ _ _ P6)).
  rewrite (bind_of_option _ _ _ _ (get32_pts _ _ _ P7)).
  rewrite (bind_of_option _ _ _ _ (get32_pts _ _ _ P8)).
  rewrite (bind_of_option _ _ _ _ (get64_pts _ _ _ P9)).
  unfold w16, w32, w8, wi64 in *. change (2 ^ 32) with 4294967296 in *.
  change (2 ^ 63) with 9223372036854775808 in *.
  rewrite !u32_i32, !u64_i64, !u16_u16, !u8_u8.
  rewrite (u16_id (v_type v)), (u8_id (q_type _)), (u64_id (q_path _)), !u32_id, i64_id by done.
  destruct v as [? ? [] ? ? ? ? ? ? ? ?]. reflexivity.
Qed.

(** The four names after a successful call: pointers into the string buffer, or
    the empty string when the caller gave none. *)
Definition names_read (o o' : option (list Z)) (d : Dir) (v : DirV) : Prop :=
  match o with
  | None => o' = None /\ d_names d = replicate 4 nullstring
  | Some so => exists so', o' = Some so' /\ zlen so' = zlen so /\
                 names_hold so' (d_names d) (v_strings v)
  end.

Lemma convM2D_cases b nbuf o d :
  bytes_ok b -> 0 <= nbuf <= zlen b -> room nbuf o ->
  (exists v o' d', wf_dir v /\ pts b 2 (stat_body v) /\ 2 + zlen (stat_body v) <= nbuf /\
     convM2D b nbuf (o, d) = (Ok (2 + zlen (stat_body v)), (o', d')) /\
     holds_fixed d' v /\ names_read o o' d' v) \/
  (returned (convM2D b nbuf (o, d)).1 = Some 0 /\
   forall v, wf_dir v -> pts b 2 (stat_body v) -> nbuf < 2 + zlen (stat_body v)).
Proof.
  intros Hb Hn Hr. destruct (Z.lt_ge_cases nbuf 49) as [Hlt|Hge].
  { right. split; [unfold convM2D; destruct (Z.ltb_spec nbuf STATFIXLEN); [done|unfold STATFIXLEN in *; bits; unfold QIDSZ in *; bits; lia]|].
    intros v _ _. unfold stat_body. autorewrite with zlen. unfold v_strings.
    rewrite !concat_estr_cons. change (concat (estr <$> [])) with (@nil Z). zl. }
  destruct (fixed_split b Hb ltac:(lia) [] [] [] []) as (v & Hv & Pv & _).
  rewrite (convM2D_fixed b nbuf o d v Hv Pv Hge).
  destruct (m2d_strings_spec b nbuf Hb ltac:(lia) 4 41 0 [] o
    (set_fixed (v_type v) (v_dev v) (v_qid v) (v_mode v) (v_atime v) (v_mtime v) (v_length v) d))
    as [[[o' E] Hno]|(ss & cs & o' & Hl & Hw & Hpt & Hle & E & Hh)];
    [lia|lia|destruct o; simpl in *; lia| |].
  - right. rewrite (bind_ret _ _ _ _ _ E). split; [done|].
    intros v' [_ Hs] Hp. unfold stat_body in *. apply pts_app in Hp as [_ Hp].
    change (2 + zlen (fixed_bytes v')) with 41 in Hp. specialize (Hno _ (v_strings_length v') Hs Hp).
    zl.
  - left. exists (with_strings v ss), o'. rewrite (bind_ok _ _ _ _ _ E). cbv beta iota.
    rewrite bind_gets. cbn [fst].
    destruct (four_strings ss Hl) as (n & u & g & m & ->). cbn [with_strings].
    assert (zlen (stat_body (with_strings v [n; u; g; m])) = 39 + zlen (concat (estr <$> [n; u; g; m]))) as Hz.
    { unfold stat_body. autorewrite with zlen. done. }
    cbn [with_strings] in Hz. rewrite Hz.
    assert (wf_dir (with_strings v [n; u; g; m]) /\ pts b 2 (stat_body (with_strings v [n; u; g; m])))
      as [Hwd Hpb].
    { split; [by split|]. unfold stat_body. apply pts_app. by split. }
    destruct o as [so|]; [destruct Hh as (so' & -> & Hz' & Hf & Hns)|destruct Hh as [-> ->]].
    + pose proof (Forall2_length Hns) as Hcl.
      rewrite Hl in Hcl; destruct (four_strings cs Hcl) as (c0 & c1 & c2 & c3 & ->).
      eexists. split_and!; [exact Hwd|exact Hpb|lia| | |].
      * cbn [app]. unfold setd. rewrite bind_modify. unfold mret, M_ret. simpl fst. simpl snd. do 3 f_equal. lia.
      * done.
      * exists so'. split_and!; done.
    + eexists. split_and!; [exact Hwd|exact Hpb|lia| | |].
      * cbn [app]. unfold setd. rewrite bind_modify. unfold mret, M_ret. simpl fst. simpl snd. do 3 f_equal. lia.
      * done.
      * split; done.
Qed.

(** ** [statcheck] *)

Lemma zlen_stat_bytes v : zlen (stat_bytes v) = 41 + zlen (concat (estr <$> v_strings v)).
Proof. unfold stat_bytes, stat_body. autorewrite with zlen. lia. Qed.

Lemma statcheck_cases b nbuf :
  bytes_ok b -> 0 <= nbuf <= zlen b ->
  (returned (statcheck b nbuf ()).1 = Some 0 /\
   exists v, wf_dir v /\ pts b 0 (stat_bytes v) /\ zlen (stat_bytes v) = nbuf) \/
  (returned (statcheck b nbuf ()).1 = Some (-1) /\
   forall v, wf_dir v -> pts b 0 (stat_bytes v) -> nbuf < 2 ^ 16 + 2 -> zlen (stat_bytes v) <> nbuf).
Proof.
  intros Hb Hn. unfold statcheck. destruct (Z.ltb_spec nbuf STATFIXLEN) as [Hlt|Hge].
  { right. split; [done|]. intros v _ _ _. rewrite zlen_stat_bytes. unfold v_strings.
    rewrite !concat_estr_cons. change (concat (estr <$> [])) with (@nil Z).
    change STATFIXLEN with 49 in *. zl. }
  rewrite bind_continue by done. change STATFIXLEN with 49 in *. bits.
  destruct (rd16_split b Hb 0) as (n & Hnn & Pn); [lia..|]. unfold rd.
  rewrite (bind_of_option _ _ _ _ (get16_at _ _ _ Pn Hnn)).
  assert (forall v, pts b 0 (stat_bytes v) -> nbuf < 2 ^ 16 + 2 -> zlen (stat_bytes v) = nbuf -> n + 2 = nbuf) as Hlen.
  { intros v [Hp _]%pts_app Hs Hz. pose proof (get16_at _ _ _ Pn Hnn) as E.
    unfold stat_bytes in Hz. autorewrite with zlen in Hz. zlen_facts.
    rewrite (get16_at _ _ _ Hp) in E; [injection E; lia|unfold w16; lia]. }
  destruct (Z.eqb_spec nbuf (2 + n)) as [->|Hne]; cbn [negb].
  2: { right. split; [done|]. intros v _ Hp Hs Hz. pose proof (Hlen v Hp Hs Hz). lia. }
  rewrite bind_continue by done. change (0 + (49 - 4 * 2)) with 41.
  destruct (statcheck_loop_spec b (0 + (2 + n)) Hb ltac:(lia) 4 41) as [E|(ns & E & Hspec)]; [lia| |].
  - right. rewrite (bind_ret _ _ _ _ _ E). split; [done|].
    intros v [_ Hs] Hp Hs2 Hz. rewrite zlen_stat_bytes in Hz. unfold stat_bytes, stat_body in Hp.
    rewrite !pts_app in Hp. destruct Hp as (_ & _ & Hp). autorewrite with zlen in Hp.
    rewrite (statcheck_loop_run b (0 + (2 + n)) (v_strings v) Hs) in E; [done|exact Hp|lia].
  - rewrite (bind_ok _ _ _ _ _ E). destruct (Z.eqb_spec ns (0 + (2 + n))) as [->|Hns]; cbn [negb].
    + left. split; [done|]. destruct (Hspec ltac:(lia)) as (ss & Hl & Hw & Hz & Hp).
      destruct (four_strings ss Hl) as (nm & u & g & m & ->).
      destruct (fixed_split b Hb ltac:(lia) nm u g m) as (v & Hv & Pv & Ev). exists v.
      rewrite zlen_stat_bytes, Ev. split_and!; [split; [done|by rewrite Ev]| |lia].
      assert (pts b 2 (stat_body v)) as Pb.
      { unfold stat_body. apply pts_app. split; [done|]. by rewrite Ev. }
      unfold stat_bytes. apply pts_app. split; [|exact Pb].
      replace (zlen (stat_body v)) with n; [done|]. unfold stat_body. autorewrite with zlen.
      rewrite Ev. lia.
    + right. split; [done|]. intros v [_ Hs] Hp Hs2 Hz. rewrite zlen_stat_bytes in Hz.
      unfold stat_bytes, stat_body in Hp. rewrite !pts_app in Hp. destruct Hp as (_ & _ & Hp).
      autorewrite with zlen in Hp.
      rewrite (statcheck_loop_run b (0 + (2 + n)) (v_strings v) Hs) in E; [|exact Hp|lia].
      apply Hns. assert (ns = 41 + zlen (concat (estr <$> v_strings v))) as -> by congruence. lia.
Qed.

(** ** [convD2M] *)

Lemma strlen0_ok sbuf c s :
  sptr sbuf 0 c s -> no_nul s -> zlen s < 2 ^ 31 -> strlen0 sbuf c = Some (zlen s).
Proof.
  intros Hc Hs Hl. assert (strlen0 sbuf c = if decide (c = Nil) then Some 0 else Some (i32 (zlen s))) as ->.
  { destruct c as [|o|q]; cbn [strlen0 sptr c_str] in *; [done| |].
    - by rewrite (to_nul_pts _ _ Hs Hc).
    - destruct Hc. by rewrite (cstr_pts _ _ _ Hs). }
  case_decide as E; [subst c; simpl in Hc; by subst s|].
  rewrite i32_id; [done|]. change (2 ^ 31) with 2147483648 in *. zl.
Qed.

Lemma c_mem_ok sbuf c s : sptr sbuf 0 c s -> c_mem sbuf c (zlen s) = Some s.
Proof.
  destruct c as [|o|q]; simpl.
  - by intros ->.
  - intros [H _]%pts_app. by apply load_pts.
  - intros [_ [H _]%pts_app]. by apply load_pts.
Qed.

Lemma d2m_string_emit sbuf b0 pre p ebuf c s :
  p = zlen pre -> sptr sbuf 0 c s -> p + zlen s + 2 <= ebuf -> ebuf <= zlen b0 ->
  d2m_string sbuf ebuf p c (zlen s) (blit 0 pre b0) =
    (Ok (p + zlen (estr s)), blit 0 (pre ++ estr s) b0).
Proof.
  intros Hp Hc He Hb. unfold d2m_string. bits. rewrite bind_continue by (apply Z.ltb_ge; lia).
  erewrite bind_ok; [|apply wb_emit; [exact Hp|zl]].
  destruct (Z.eqb_spec (zlen s) 0) as [E|E].
  - apply zlen_0_inv in E as ->. rewrite bind_mret. unfold mret, M_ret.
    unfold estr. do 2 f_equal. zl.
  - rewrite (c_mem_ok _ _ _ Hc). erewrite bind_ok; [|rewrite (bind_of_option _ _ _ _ eq_refl);
      apply wb_emit; zl]. rewrite <- app_assoc. unfold mret, M_ret. unfold estr. do 2 f_equal. zl.
Qed.

Lemma sizeD2M_ok sbuf d v :
  holds_dir sbuf d v -> Forall no_nul (v_strings v) -> zlen (stat_bytes v) < 2 ^ 31 ->
  sizeD2M sbuf d = Some (zlen (stat_bytes v)).
Proof.
  intros [_ Hn] Hs Hl. change (2 ^ 31) with 2147483648 in Hl.
  unfold v_strings in *. rewrite !Forall_cons_iff in Hs. destruct Hs as (S0 & S1 & S2 & S3 & _).
  inversion_clear Hn as [|? ? ? ? N0 Hn1]. inversion_clear Hn1 as [|? ? ? ? N1 Hn2].
  inversion_clear Hn2 as [|? ? ? ? N2 Hn3]. inversion_clear Hn3 as [|? ? ? ? N3 _].
  rewrite zlen_stat_bytes in *. unfold v_strings in *. rewrite !concat_estr_cons in *.
  change (concat (estr <$> [])) with (@nil Z) in *. autorewrite with zlen in *. zlen_facts.
  unfold sizeD2M.
  rewrite (strlen0_ok _ _ _ N0), (strlen0_ok _ _ _ N1), (strlen0_ok _ _ _ N2), (strlen0_ok _ _ _ N3)
    by (done || lia).
  cbn [mbind option_bind]. change STATFIXLEN with 49. f_equal. rewrite u32_id; lia.
Qed.

Lemma convD2M_emit sbuf d v nbuf b :
  holds_dir sbuf d v -> Forall no_nul (v_strings v) -> zlen (stat_bytes v) < 2 ^ 31 ->
  nbuf <= zlen b ->
  convD2M sbuf d nbuf b =
    if nbuf <? 2 then (Ret 0, b)
    else if nbuf <? zlen (stat_bytes v) then (Ret 2, blit 0 (PBIT16 (zlen (stat_body v))) b)
    else (Ok (zlen (stat_bytes v)), blit 0 (stat_bytes v) b).
Proof.
  intros [Hfx Hn] Hs Hl Hb. change (2 ^ 31) with 2147483648 in Hl.
  pose proof (zlen_stat_bytes v) as Hz.
  assert (zlen (stat_body v) = zlen (stat_bytes v) - 2) as Hzb by (unfold stat_bytes; zl).
  unfold v_strings in *. rewrite !Forall_cons_iff in Hs. destruct Hs as (S0 & S1 & S2 & S3 & _).
  inversion_clear Hn as [|? ? ? ? N0 Hn1]. inversion_clear Hn1 as [|? ? ? ? N1 Hn2].
  inversion_clear Hn2 as [|? ? ? ? N2 Hn3]. inversion_clear Hn3 as [|? ? ? ? N3 _].
  rewrite !concat_estr_cons in *.
  change (concat (estr <$> [])) with (@nil Z) in *. autorewrite with zlen in Hz. zlen_facts.
  unfold convD2M. bits. destruct (Z.ltb_spec nbuf 2) as [Hlt|Hge]; [done|].
  rewrite bind_continue by done.
  rewrite (strlen0_ok _ _ _ N0), (strlen0_ok _ _ _ N1), (strlen0_ok _ _ _ N2), (strlen0_ok _ _ _ N3)
    by (done || lia).
  rewrite !(bind_of_option _ _ _ _ eq_refl). change STATFIXLEN with 49.
  set (ss := 49 + (0 + zlen (v_name v) + zlen (v_uid v) + zlen (v_gid v) + zlen (v_muid v))).
  assert (ss = zlen (stat_bytes v)) as Ess by (unfold ss; lia).
  rewrite (bind_ok _ _ _ tt (blit 0 (PBIT16 (ss - 2)) b)).
  2: { unfold wb. rewrite put_ok; [done|lia|]. zl. }
  rewrite u32_id by lia. rewrite Ess.
  destruct (Z.ltb_spec nbuf (zlen (stat_bytes v))) as [Hlt|Hge2].
  { rewrite Hzb. done. }
  rewrite bind_continue by done.
  destruct Hfx as (-> & -> & -> & -> & -> & -> & ->).
  do 9 emit_step.
  repeat (erewrite bind_ok; [|apply d2m_string_emit; [solve [pos]|eassumption|pos|pos]]).
  match goal with |- context [negb (_ =? ?q)] => replace q with (zlen (stat_bytes v)) by pos end.
  rewrite Z.eqb_refl. cbn [negb].
  assert (stat_bytes v = PBIT16 (zlen (stat_bytes v) - 2) ++ stat_body v) as E
    by (rewrite <- Hzb; done).
  unfold mret, M_ret. rewrite <- !app_assoc. rewrite E at 4.
  unfold stat_body, fixed_bytes, eqid, v_strings.
  rewrite <- !app_assoc, !concat_estr_cons. change (concat (estr <$> [])) with (@nil Z).
  by rewrite app_nil_r.
Qed.

(** ** Reading what was written *)

Lemma stat_bytes_ok v : wf_dir v -> bytes_ok (stat_bytes v).
Proof.
  intros [_ Hs]. unfold stat_bytes, stat_body, fixed_bytes, eqid.
  rewrite !Forall_app. split_and!; auto with jeh.
  induction Hs as [|s ss Hs _ IH]; [constructor|]. rewrite concat_estr_cons.
  apply Forall_app. split; [by apply estr_bytes|done].
Qed.

(** The strings after the fixed part are determined by the bytes. *)
Lemma estrs_inj b ss : Forall wstr ss -> forall ss' p, Forall wstr ss' ->
  length ss = length ss' ->
  pts b p (concat (estr <$> ss)) -> pts b p (concat (estr <$> ss')) -> ss = ss'.
Proof.
  induction 1 as [|s ss Hs _ IH]; intros [|s' ss'] p Hw' [=] Hp Hp'; [done|].
  apply Forall_cons_1 in Hw' as [Hs' Hw']. rewrite concat_estr_cons in *.
  apply pts_app in Hp as [H1 H2]. apply pts_app in Hp' as [H1' H2'].
  pose proof (estr_count _ _ _ H1 Hs) as E. rewrite (estr_count _ _ _ H1' Hs') in E.
  injection E as E. rewrite !zlen_estr, E in *.
  apply pts_app in H1 as [_ H1]. apply pts_app in H1' as [_ H1'].
  f_equal; [by eapply pts_inj|by eapply IH].
Qed.

Lemma convM2D_read b nbuf so g v :
  bytes_ok b -> wf_dir v -> pts b 0 (stat_bytes v) -> zlen (stat_bytes v) <= nbuf ->
  nbuf <= zlen b -> nbuf <= zlen so ->
  exists so' d',
    convM2D b nbuf (Some so, g) = (Ok (zlen (stat_bytes v)), (Some so', d')) /\
    holds_dir so' d' v.
Proof.
  intros Hb Hw [_ Hp]%pts_app Hn Hnb Hso. change (0 + zlen (PBIT16 _)) with 2 in Hp.
  pose proof (zlen_nonneg (stat_bytes v)).
  assert (zlen (stat_bytes v) = 2 + zlen (stat_body v)) as Hz by (unfold stat_bytes; zl).
  assert (49 <= nbuf) as Hn49.
  { rewrite zlen_stat_bytes in *. unfold v_strings in *. rewrite !concat_estr_cons in *.
    change (concat (estr <$> [])) with (@nil Z) in *. zl. }
  pose proof Hw as [Hf Hs]. unfold stat_body in Hp. apply pts_app in Hp as [Pf Ps].
  change (2 + zlen (fixed_bytes v)) with 41 in Ps.
  rewrite (convM2D_fixed b nbuf (Some so) g v Hf Pf Hn49).
  destruct (m2d_strings_spec b nbuf Hb ltac:(lia) 4 41 0 [] (Some so)
    (set_fixed (v_type v) (v_dev v) (v_qid v) (v_mode v) (v_atime v) (v_mtime v) (v_length v) g))
    as [[_ Hno]|(ss & cs & o' & Hl & Hwt & Hpt & Hle & E & Hh)]; [lia|lia|simpl; lia| |].
  { specialize (Hno _ (v_strings_length v) Hs Ps). rewrite zlen_stat_bytes in Hn. lia. }
  assert (ss = v_strings v) as -> by (by eapply estrs_inj).
  destruct Hh as (so' & -> & Hz' & _ & Hns). rewrite (bind_ok _ _ _ _ _ E). cbv beta iota.
  pose proof (Forall2_length Hns) as Hcl. rewrite v_strings_length in Hcl.
  destruct (four_strings cs Hcl) as (c0 & c1 & c2 & c3 & ->).
  rewrite bind_gets. cbn [fst app]. unfold setd. rewrite bind_modify. unfold mret, M_ret.
  eexists so', _. split.
  - simpl fst. simpl snd. do 2 f_equal. rewrite zlen_stat_bytes. lia.
  - split; done.
Qed.

(** ** Properties *)

(** C6. [convM2D] decides the wire format: on every buffer of bytes it runs
    without an access outside the buffer or the string buffer and either
    returns the length of an entry that starts the buffer (whatever its count
    field says), with [*d] describing it and its strings NUL-terminated in
    [strs], or the buffer starts with no entry that ends before [nbuf] and it
    returns 0. *)
Theorem convM2D_decides b nbuf o d :
  bytes_ok b -> 0 <= nbuf <= zlen b -> room nbuf o ->
  (exists v o' d', wf_dir v /\ pts b 2 (stat_body v) /\ 2 + zlen (stat_body v) <= nbuf /\
     convM2D b nbuf (o, d) = (Ok (2 + zlen (stat_body v)), (o', d')) /\
     holds_fixed d' v /\ names_read o o' d' v) \/
  (returned (convM2D b nbuf (o, d)).1 = Some 0 /\
   forall v, wf_dir v -> pts b 2 (stat_body v) -> nbuf < 2 + zlen (stat_body v)).
Proof. apply convM2D_cases. Qed.

Definition dir0 : Dir := mkDir 0 0 qid0 0 0 0 0 Nil Nil Nil Nil.
Definition v0 : DirV := mkDirV 1 2 (mkQid 3 4 5) 6 7 8 (-9) [97; 98] [99] [] [100].
Definition v0_bytes : list Z :=
  [51; 0; 1; 0; 2; 0; 0; 0; 3; 4; 0; 0; 0; 5; 0; 0; 0; 0; 0; 0; 0; 6; 0; 0; 0; 7; 0; 0; 0;
   8; 0; 0; 0; 247; 255; 255; 255; 255; 255; 255; 255; 2; 0; 97; 98; 1; 0; 99; 0; 0; 1; 0; 100].

Lemma v0_bytes_ok : bytes_ok v0_bytes.
Proof. repeat constructor; unfold byte_ok; lia. Qed.

Lemma convM2D_decides_witness :
  (bytes_ok v0_bytes /\ 0 <= 53 <= zlen v0_bytes /\ room 53 (Some (replicate 60 1))) /\
  exists v o' d', wf_dir v /\ pts v0_bytes 2 (stat_body v) /\ 2 + zlen (stat_body v) <= 53 /\
     convM2D v0_bytes 53 (Some (replicate 60 1), dir0) =
       (Ok (2 + zlen (stat_body v)), (o', d')) /\
     holds_fixed d' v /\ names_read (Some (replicate 60 1)) o' d' v.
Proof.
  assert (0 <= 53 <= zlen v0_bytes) as Hn by done.
  assert (room 53 (Some (replicate 60 1))) as Hr by done.
  split; [exact (conj v0_bytes_ok (conj Hn Hr))|].
  destruct (convM2D_decides v0_bytes 53 (Some (replicate 60 1)) dir0 v0_bytes_ok Hn Hr)
    as [H|[H _]]; [exact H|].
  vm_compute in H. discriminate H.
Defined.

(** [statcheck] returns 0 exactly when the buffer is one entry whose count
    field and strings add up to [nbuf], and -1 otherwise, reading nothing
    outside the buffer. *)
Theorem statcheck_decides b nbuf :
  bytes_ok b -> 0 <= nbuf <= zlen b -> nbuf < 2 ^ 16 + 2 ->
  returned (statcheck b nbuf ()).1 = Some 0 /\
    (exists v, wf_dir v /\ pts b 0 (stat_bytes v) /\ zlen (stat_bytes v) = nbuf) \/
  returned (statcheck b nbuf ()).1 = Some (-1) /\
    (forall v, wf_dir v -> pts b 0 (stat_bytes v) -> zlen (stat_bytes v) <> nbuf).
Proof. intros Hb Hn Hs. destruct (statcheck_cases b nbuf Hb Hn) as [?|[? ?]]; auto. Qed.

Lemma statcheck_decides_witness :
  (bytes_ok v0_bytes /\ 0 <= 53 <= zlen v0_bytes /\ 53 < 2 ^ 16 + 2) /\
  exists v, wf_dir v /\ pts v0_bytes 0 (stat_bytes v) /\ zlen (stat_bytes v) = 53.
Proof.
  assert (0 <= 53 <= zlen v0_bytes) as Hn by done.
  assert (53 < 2 ^ 16 + 2) as Hs by done.
  split; [exact (conj v0_bytes_ok (conj Hn Hs))|].
  destruct (statcheck_decides v0_bytes 53 v0_bytes_ok Hn Hs) as [[_ H]|[H _]]; [exact H|].
  vm_compute in H. discriminate H.
Defined.

(** C7. [convD2M] implements the wire format on every branch: it refuses a
    buffer without room for a count; with room for the count but not for the
    entry it stores the count alone and returns [BIT16SZ]; otherwise it writes
    exactly the entry.  [sizeD2M] is the length it writes. *)
Theorem convD2M_encodes sbuf d v nbuf b :
  holds_dir sbuf d v -> Forall no_nul (v_strings v) -> zlen (stat_bytes v) < 2 ^ 31 ->
  nbuf <= zlen b ->
  sizeD2M sbuf d = Some (zlen (stat_bytes v)) /\
  convD2M sbuf d nbuf b =
    if nbuf <? 2 then (Ret 0, b)
    else if nbuf <? zlen (stat_bytes v) then (Ret 2, blit 0 (PBIT16 (zlen (stat_body v))) b)
    else (Ok (zlen (stat_bytes v)), blit 0 (stat_bytes v) b).
Proof. intros. split; [by apply sizeD2M_ok|by apply convD2M_emit]. Qed.

Definition d0 : Dir :=
  mkDir 1 2 (mkQid 3 4 5) 6 7 8 (-9) (Ext [97; 98; 0]) (At 1) Nil (Ext [100; 0]).

Lemma d0_holds : holds_dir [1; 99; 0] d0 v0.
Proof.
  split; [done|]. repeat constructor; try done.
  all: intros i Hi; cbn in *; do 3 (destruct i; [done|]); exfalso; lia.
Qed.
Lemma v0_no_nul : Forall no_nul (v_strings v0).
Proof. repeat constructor; done. Qed.

Lemma convD2M_encodes_witness :
  (holds_dir [1; 99; 0] d0 v0 /\ zlen (stat_bytes v0) < 2 ^ 31) /\
  convD2M [1; 99; 0] d0 53 (replicate 53 0) = (Ok 53, v0_bytes) /\
  convD2M [1; 99; 0] d0 52 (replicate 4 1) = (Ret 2, [51; 0; 1; 1]).
Proof.
  assert (zlen (stat_bytes v0) < 2 ^ 31) as Hl by done.
  split; [exact (conj d0_holds Hl)|]. split.
  - destruct (convD2M_encodes [1; 99; 0] d0 v0 53 (replicate 53 0) d0_holds v0_no_nul Hl)
      as [_ E]; [done|]. rewrite E. vm_compute. reflexivity.
  - vm_compute. reflexivity.
Defined.

(** Round trip: for an entry with strings below 64K and without NULs, and a
    total that fits the count field, what [convD2M] writes passes [statcheck],
    and [convM2D] reads it back as the same entry. *)
Theorem convD2M_convM2D sbuf d v b nbuf so g :
  holds_dir sbuf d v -> Forall no_nul (v_strings v) -> wf_dir v ->
  zlen (stat_bytes v) < 2 ^ 16 + 2 -> bytes_ok b ->
  zlen (stat_bytes v) <= nbuf -> nbuf <= zlen b -> nbuf <= zlen so ->
  exists b' so' d',
    convD2M sbuf d nbuf b = (Ok (zlen (stat_bytes v)), b') /\
    returned (statcheck b' (zlen (stat_bytes v)) ()).1 = Some 0 /\
    convM2D b' nbuf (Some so, g) = (Ok (zlen (stat_bytes v)), (Some so', d')) /\
    holds_dir so' d' v.
Proof.
  intros Hd Hs Hw Hl Hb Hn Hnb Hso. pose proof (zlen_nonneg (stat_bytes v)).
  assert (2 <= zlen (stat_bytes v)) as Hl2 by (unfold stat_bytes; zl).
  rewrite (convD2M_emit sbuf d v nbuf b Hd Hs) by lia.
  destruct (Z.ltb_spec nbuf 2); [lia|]. destruct (Z.ltb_spec nbuf (zlen (stat_bytes v))); [lia|].
  set (b' := blit 0 (stat_bytes v) b).
  assert (bytes_ok b') as Hb'.
  { apply bytes_blit; [done|]. by apply stat_bytes_ok. }
  assert (pts b' 0 (stat_bytes v)) as Hp by (apply pts_blit_same; lia).
  assert (zlen b' = zlen b) as Hz by (apply zlen_blit; lia).
  destruct (convM2D_read b' nbuf so g v) as (so' & d' & E & Hh); try done; try lia.
  exists b', so', d'. split_and!; try done.
  destruct (statcheck_cases b' (zlen (stat_bytes v)) Hb') as [[? _]|[_ Hno]]; [lia|done|].
  by destruct (Hno v Hw Hp Hl).
Qed.

Lemma convD2M_convM2D_witness :
  (holds_dir [1; 99; 0] d0 v0 /\ wf_dir v0 /\ zlen (stat_bytes v0) < 2 ^ 16 + 2) /\
  exists b' so' d',
    convD2M [1; 99; 0] d0 60 (replicate 60 0) = (Ok 53, b') /\
    returned (statcheck b' 53 ()).1 = Some 0 /\
    convM2D b' 60 (Some (replicate 60 0), dir0) = (Ok 53, (Some so', d')) /\
    holds_dir so' d' v0.
Proof.
  assert (wf_dir v0) as Hw.
  { split; [|repeat constructor; unfold byte_ok; simpl; lia].
    unfold wf_fixed, wqid, w16, w32, w8, wi64, v0. simpl. lia. }
  assert (zlen (stat_bytes v0) < 2 ^ 16 + 2) as Hl by done.
  assert (bytes_ok (replicate 60 0)) as Hb by (apply Forall_replicate; unfold byte_ok; lia).
  split; [exact (conj d0_holds (conj Hw Hl))|].
  apply (convD2M_convM2D [1; 99; 0] d0 v0 (replicate 60 0) 60 (replicate 60 0) dir0
           d0_holds v0_no_nul Hw Hl Hb); done.
Defined.
