(* ===== verification/Read9p.v ===== *)
(** * Framing: [sys/src/lib/9p2000/read9pmsg.c] over [sys/src/lib/c/port/readn.c]

    A descriptor is what the [read] system call does with it: an interface,
    since what answers is another program.  The theorems are proved for every
    descriptor that keeps the interface's laws; a pipe-like one implements
    them. *)
From S2P Require Import Prelude CMonad Bytes Fcall FcallSpec FcallEnc FcallDec.

(** [read n f] is the count returned, the bytes stored, and the descriptor
    after the call.  [remaining] is what is left to read on it. *)
Class Descriptor (F : Type) := {
  read : Z -> F -> Z * list Z * F;
  remaining : F -> list Z
}.
(** [read(2)] of a positive count on a descriptor that does not fail: some of
    the next bytes, at least one unless none is left. *)
Class Reliable (F : Type) `{Descriptor F} := {
  read_some n f m bs f' :
    0 < n -> read n f = (m, bs, f') ->
    m = zlen bs /\ m <= n /\ remaining f = bs ++ remaining f' /\
    (m = 0 -> remaining f = [])
}.

Section framing.
Context {F : Type} `{Descriptor F}.

(** The store: the caller's buffer and the descriptor. *)
Definition StR : Type := list Z * F.
Definition sys_read (p n : Z) : M StR Z :=
  fun st =>
    let '(m, bs, fd') := read n (snd st) in
    match put p bs (fst st) with
    | Some b => (Ok m, (b, fd'))
    | None => (Ub, st)
    end.

(** [while(t < n){ ... }]; each round but the last reads at least a byte, so
    [n] rounds are enough. *)
Fixpoint readn_loop (fuel : nat) (a n t : Z) : M StR Z :=
  if negb (t <? n) then mret t else
  match fuel with
  | O => undefined
  | S fuel' =>
      m ← sys_read (a + t) (n - t);
      if m <=? 0 then (if t =? 0 then mret m else mret t)
      else readn_loop fuel' a n (t + m)
  end.
Definition readn (a n : Z) : M StR Z := readn_loop (Z.to_nat n) a n 0.

Definition read9pmsg (n : Z) : M StR Z :=
  m ← readn 0 BIT32SZ;
  (if negb (m =? BIT32SZ) then return_if (m <? 0) (-1);; leave 0 else mret tt);;
  b ← gets fst;
  len ← of_option (get32 b 0);
  return_if ((len <=? BIT32SZ) || (n <? u32 len)) (-1);;
  let len := len - BIT32SZ in
  m ← readn (0 + BIT32SZ) len;
  if m <? len then mret 0 else mret (BIT32SZ + m).

(** ** [readn] reads everything it can *)

Context `{!Reliable F}.

Lemma slice_front {A} (l r : list A) n :
  zlen l <= n -> slice 0 n (l ++ r) = l ++ slice 0 (n - zlen l) r.
Proof using.
  intros. pose proof (zlen_nonneg l).
  replace n with (zlen l + (n - zlen l)) at 1 by lia.
  rewrite slice_app by lia. rewrite slice_app_l, slice_all by lia.
  rewrite slice_app_r by lia. by rewrite Z.add_0_l, Z.sub_diag.
Qed.

Lemma readn_loop_spec b a n fuel : forall pre f,
  0 <= a -> a + n <= zlen b -> zlen pre <= n -> n - zlen pre <= Z.of_nat fuel ->
  exists f' k,
    k = Z.min (n - zlen pre) (zlen (remaining f)) /\
    readn_loop fuel a n (zlen pre) (blit a pre b, f) =
      (Ok (zlen pre + k), (blit a (pre ++ slice 0 k (remaining f)) b, f')) /\
    remaining f = slice 0 k (remaining f) ++ remaining f'.
Proof using Type*.
  induction fuel as [|fuel IH]; intros pre f Ha Hn Hp Hf; pose proof (zlen_nonneg pre);
    cbn [readn_loop].
  { destruct (Z.ltb_spec (zlen pre) n); [lia|]. cbn [negb]. exists f, 0.
    pose proof (zlen_nonneg (remaining f)). rewrite slice_0, app_nil_r, Z.add_0_r.
    split_and!; [lia|done|done]. }
  destruct (Z.ltb_spec (zlen pre) n) as [Hlt|Hge]; cbn [negb].
  2: { exists f, 0. pose proof (zlen_nonneg (remaining f)). rewrite slice_0, app_nil_r, Z.add_0_r.
    split_and!; [lia|done|done]. }
  destruct (read (n - zlen pre) f) as [[m bs] f1] eqn:Er.
  destruct (read_some (n - zlen pre) f m bs f1 ltac:(lia) Er) as (Em & Hm & Hr & Hend).
  pose proof (zlen_nonneg bs). pose proof (zlen_nonneg (remaining f1)).
  assert (sys_read (a + zlen pre) (n - zlen pre) (blit a pre b, f) =
            (Ok m, (blit a (pre ++ bs) b, f1))) as E.
  { unfold sys_read. cbn [fst snd]. rewrite Er, put_ok by (rewrite ?zlen_blit; lia).
    by rewrite blit_tail by lia. }
  rewrite (bind_ok _ _ _ _ _ E). destruct (Z.leb_spec m 0) as [Hz|Hz].
  - assert (bs = []) as -> by (apply zlen_0_inv; lia).
    rewrite (Hend ltac:(lia)) in *. simpl in Hr. exists f1, 0.
    rewrite slice_0, app_nil_r, Z.add_0_r. change (zlen (@nil Z)) with 0 in *.
    split_and!; [lia| |done]. destruct (Z.eqb_spec (zlen pre) 0); [|done].
    by replace m with (zlen pre) by lia.
  - destruct (IH (pre ++ bs) f1) as (f' & k & Ek & Erun & Erem); [lia|lia|zl|zl|].
    rewrite zlen_app in *.
    assert (slice 0 (m + k) (remaining f) = bs ++ slice 0 k (remaining f1)) as Esl.
    { rewrite Hr, slice_front by lia. do 2 f_equal. lia. }
    assert (zlen (remaining f) = m + zlen (remaining f1)) as Hz2 by (rewrite Hr; zl).
    exists f', (m + k). rewrite Esl. split_and!; [lia| |].
    + rewrite Em. rewrite Erun, <- app_assoc. do 2 f_equal. lia.
    + rewrite <- app_assoc, <- Erem. exact Hr.
Qed.

Lemma blit_empty {A} p (b : list A) : blit p [] b = b.
Proof using. unfold blit. simpl. rewrite Nat.add_0_r. apply take_drop. Qed.

Lemma readn_spec b a n f :
  0 <= a -> 0 <= n -> a + n <= zlen b ->
  exists f' k,
    k = Z.min n (zlen (remaining f)) /\
    readn a n (b, f) = (Ok k, (blit a (slice 0 k (remaining f)) b, f')) /\
    remaining f = slice 0 k (remaining f) ++ remaining f'.
Proof using Type*.
  intros Ha Hn Hb. destruct (readn_loop_spec b a n (Z.to_nat n) [] f) as (f' & k & Ek & Er & Em);
    [done|done|zl|zl|].
  rewrite zlen_nil, blit_empty in *. exists f', k. split_and!; [lia|done|done].
Qed.

(** C8. [read9pmsg] frames a byte stream whatever the sizes of the reads that
    deliver it: it reads exactly one message when the count at the front is
    legal and the bytes arrive, leaving the descriptor at the next message; it
    returns -1 after the count when the count is not legal for the buffer, and 0
    at the end of the stream, in the count or in the message. *)
Theorem read9pmsg_frames n b f :
  bytes_ok (remaining f) -> 4 <= n -> n <= zlen b -> n < 2 ^ 32 ->
  exists b' f',
    let R := remaining f in
    if zlen R <? 4 then read9pmsg n (b, f) = (Ret 0, (b', f')) /\ remaining f' = []
    else exists v, w32 v /\ pts R 0 (PBIT32 v) /\
      if (i32 v <=? 4) || (n <? v)
      then read9pmsg n (b, f) = (Ret (-1), (b', f')) /\ R = PBIT32 v ++ remaining f'
      else if zlen R <? v then read9pmsg n (b, f) = (Ok 0, (b', f')) /\ remaining f' = []
      else read9pmsg n (b, f) = (Ok v, (b', f')) /\
           b' = blit 0 (slice 0 v R) b /\ R = slice 0 v R ++ remaining f'.
Proof using Type*.
  intros Hby H4 Hn Hn32. change (2 ^ 32) with 4294967296 in *.
  pose proof (zlen_nonneg (remaining f)) as Hz.
  destruct (readn_spec b 0 BIT32SZ f) as (f1 & k & Ek & E1 & R1); bits; [lia..|].
  unfold read9pmsg. bits. rewrite (bind_ok _ _ _ _ _ E1).
  destruct (Z.ltb_spec (zlen (remaining f)) 4) as [Hs|Hs].
  { exists (blit 0 (slice 0 k (remaining f)) b), f1. cbv zeta.
    destruct (Z.eqb_spec k 4); [lia|]. cbn [negb].
    destruct (Z.ltb_spec k 0); [lia|]. split; [done|].
    rewrite slice_all in R1 by lia. rewrite <- (app_nil_r (remaining f)) in R1 at 1.
    by apply app_inv_head in R1. }
  assert (k = 4) as -> by lia. change (4 =? 4) with true. cbn [negb]. rewrite bind_mret, bind_gets. cbn [fst].
  destruct (rd32_split (remaining f) Hby 0) as (v & Hv & Pv); [lia..|].
  unfold w32 in *. change (2 ^ 32) with 4294967296 in *.
  assert (slice 0 4 (remaining f) = PBIT32 v) as E4 by apply (pts_slice _ _ _ Pv).
  rewrite E4 in *. set (b1 := blit 0 (PBIT32 v) b).
  assert (pts b1 0 (PBIT32 v)) as Pb by (apply pts_blit_same; [lia|zl]).
  rewrite (bind_of_option _ _ _ _ (get32_pts _ _ _ Pb)), u32_i32, u32_id by lia.
  destruct ((i32 v <=? 4) || (n <? v)) eqn:Ebad.
  { exists b1, f1. cbv zeta. exists v. split; [lia|]. split; [done|]. by rewrite Ebad. }
  rewrite bind_continue by done.
  apply orb_false_iff in Ebad as [Elo%Z.leb_gt Ehi%Z.ltb_ge].
  assert (i32 v = v) as Ei by (wraps; dlia). rewrite Ei in *.
  destruct (readn_spec b1 (0 + 4) (v - 4) f1) as (f2 & k & Ek2 & E2 & R2); [lia|lia| |].
  { unfold b1. rewrite zlen_blit by (rewrite ?zlen_PBIT32; lia). lia. }
  rewrite (bind_ok _ _ _ _ _ E2).
  assert (zlen (remaining f) = 4 + zlen (remaining f1)) as Hz1 by (rewrite R1 at 1; zl).
  pose proof (zlen_nonneg (remaining f1)) as Hz2.
  exists (blit (0 + 4) (slice 0 k (remaining f1)) b1), f2. cbv zeta. exists v. rewrite Ei.
  destruct (Z.leb_spec v 4); [lia|]. destruct (Z.ltb_spec n v); [lia|]. cbn [orb].
  split; [lia|]. split; [done|]. destruct (Z.ltb_spec (zlen (remaining f)) v) as [Hsh|Hfull].
  - destruct (Z.ltb_spec k (v - 4)); [|lia]. split; [done|].
    rewrite slice_all in R2 by lia. rewrite <- (app_nil_r (remaining f1)) in R2 at 1.
    by apply app_inv_head in R2.
  - assert (k = v - 4) as -> by lia. destruct (Z.ltb_spec (v - 4) (v - 4)); [lia|].
    assert (slice 0 v (remaining f) = PBIT32 v ++ slice 0 (v - 4) (remaining f1)) as Esl.
    { rewrite R1, slice_front by (rewrite zlen_PBIT32; lia). by rewrite zlen_PBIT32. }
    split_and!.
    + unfold mret, M_ret. do 2 f_equal. lia.
    + rewrite Esl. unfold b1. apply (blit_tail (PBIT32 v)); [lia|].
      rewrite zlen_PBIT32, zlen_slice by lia. lia.
    + rewrite Esl, <- app_assoc, <- R2. exact R1.
Qed.
End framing.

(** ** A pipe: the sizes of the writes show in the reads *)

Fixpoint pipe_next (cs : list (list Z)) : list (list Z) :=
  match cs with [] :: cs' => pipe_next cs' | _ => cs end.
#[export] Instance pipe : Descriptor (list (list Z)) := {
  read n cs :=
    match pipe_next cs with
    | [] => (0, [], [])
    | c :: cs' => let d := slice 0 n c in (zlen d, d, drop (Z.to_nat n) c :: cs')
    end;
  remaining cs := concat cs
}.

Lemma pipe_next_concat cs : concat (pipe_next cs) = concat cs.
Proof. by induction cs as [|[|? ?] ? IH]. Qed.
Lemma pipe_next_head cs c cs' : pipe_next cs = c :: cs' -> c <> [].
Proof. induction cs as [|[|? ?] ? IH]; simpl; naive_solver. Qed.

#[export] Instance pipe_reliable : Reliable (list (list Z)).
Proof.
  constructor. intros n cs m bs cs' Hn. simpl.
  rewrite <- (pipe_next_concat cs). destruct (pipe_next cs) as [|c cs1] eqn:E.
  { intros [= <- <- <-]. split_and!; done || lia. }
  apply pipe_next_head in E. intros [= <- <- <-].
  unfold slice. rewrite drop_0. simpl. split_and!; [done| | |].
  - unfold zlen. rewrite length_take. lia.
  - by rewrite app_assoc, take_drop.
  - intros H0%zlen_0_inv. destruct c; [done|].
    by destruct (Z.to_nat n) eqn:?; [lia|].
Qed.

Definition chunks0 : list (list Z) := [[9; 0]; [0; 0; 108]; []; [3; 0; 7; 1; 5; 0]].

Lemma read9pmsg_frames_witness :
  (bytes_ok (remaining chunks0) /\ 4 <= 16 <= zlen (replicate 16 0)) /\
  exists b' f',
    read9pmsg 16 (replicate 16 0, chunks0) = (Ok 9, (b', f')) /\
    b' = [9; 0; 0; 0; 108; 3; 0; 7; 1; 0; 0; 0; 0; 0; 0; 0] /\ remaining f' = [5; 0].
Proof.
  assert (bytes_ok (remaining chunks0)) as Hb by (repeat constructor; unfold byte_ok; lia).
  assert (4 <= 16) as H4 by lia. assert (16 <= zlen (replicate 16 0)) as H16 by discriminate.
  assert (16 < 2 ^ 32) as H32 by lia.
  split; [exact (conj Hb (conj H4 H16))|].
  destruct (read9pmsg_frames (H := pipe) 16 (replicate 16 0) chunks0 Hb H4 H16 H32)
    as (b' & f' & Hr).
  assert ((zlen (remaining chunks0) <? 4) = false) as E1 by reflexivity.
  assert ((zlen (remaining chunks0) <? 9) = false) as E2 by reflexivity.
  cbv zeta in Hr. rewrite E1 in Hr. destruct Hr as (v & Hv & Pv & Hr).
  assert (v = 9) as ->.
  { rewrite <- (u32_id v), <- u32_i32 by exact Hv. apply get32_pts in Pv.
    assert (get32 (remaining chunks0) 0 = Some 9) as E9 by reflexivity.
    rewrite E9 in Pv. injection Pv as <-. reflexivity. }
  assert ((i32 9 <=? 4) || (16 <? 9) = false) as E3 by reflexivity.
  rewrite E3, E2 in Hr. destruct Hr as (E & Eb & Er).
  exists b', f'. split; [exact E|]. split; [rewrite Eb; reflexivity|].
  assert (slice 0 9 (remaining chunks0) = [9; 0; 0; 0; 108; 3; 0; 7; 1]) as E4 by reflexivity.
  rewrite E4 in Er. symmetry. exact (f_equal (drop 9) Er).
Defined.
