(* ===== verification/Block.v ===== *)
(** * Blocks: [sys/src/kern/port/allocb.c] and the block operations of [qio.c]

    A [Block] is the bytes of its buffer, from [base] to [lim]; [rp] and [wp]
    are kept as offsets from [base], so [base] is 0 and [lim] the number of
    bytes.  A string of blocks linked by [next] is a list, [nil] the empty one;
    every operation consumes the string it is given, as the code does.  Every
    [memmove] is a checked load and store: one that leaves a buffer is [Ub]. *)
From S2P Require Import Prelude CMonad Bytes.

Record Block : Type := mkBlock {
  b_addr : Z;
  b_mem : list Z;
  b_rp : Z;
  b_wp : Z;
  b_flag : Z
}.

Definition b_lim (b : Block) : Z := zlen (b_mem b).
Definition BLEN (b : Block) : Z := b_wp b - b_rp b.
Definition BALLOC (b : Block) : Z := b_lim b - 0.

Definition set_rp (v : Z) (b : Block) : Block :=
  mkBlock (b_addr b) (b_mem b) v (b_wp b) (b_flag b).
Definition set_wp (v : Z) (b : Block) : Block :=
  mkBlock (b_addr b) (b_mem b) (b_rp b) v (b_flag b).
Definition set_mem (m : list Z) (b : Block) : Block :=
  mkBlock (b_addr b) m (b_rp b) (b_wp b) (b_flag b).
Definition set_flag (v : Z) (b : Block) : Block :=
  mkBlock (b_addr b) (b_mem b) (b_rp b) (b_wp b) v.

(** ** The kernel's allocator, as the blocks use it

    [mallocz n h] is an address and the bytes found there (it may return more
    than was asked for: [msize]), or nothing when memory is short. *)
Class Heap (H : Type) := {
  mallocz : Z -> H -> option (Z * list Z) * H;
  mfree : Z -> H -> H
}.
(** Its promise: at least [n] bytes at a non-negative address.  [nm] says
    whether it may fail; a theorem for an arbitrary [nm] covers both cases. *)
Class HeapOk (H : Type) `{Heap H} (nm : Prop) := {
  mallocz_ok n h :
    0 <= n ->
    match (mallocz n h).1 with
    | Some (a, mm) => 0 <= a /\ n <= zlen mm
    | None => nm
    end
}.

(** Ways a kernel routine does not come back to its caller. *)
Definition NoMem : Z := 1.
Definition Panic : Z := 2.

Definition Hdrspc : Z := 64.
Definition Tlrspc : Z := 16.
Definition BLOCKALIGN : Z := 8.
Definition sizeof_Block : Z := 128.
Definition BINTR : Z := 1.
(** [(s + (sz-1)) & ~(sz-1)] *)
Definition ROUND (s sz : Z) : Z := Z.land (s + (sz - 1)) (Z.lnot (sz - 1)).

Section block.
Context {H : Type} `{Heap H}.

(** The store: the allocator's state and the number of blocks that have been
    allocated and not freed. *)
Definition HS : Type := H * Z.

Definition malloc_block (n : Z) : M HS (option (Z * list Z)) :=
  fun st =>
    match mallocz n (fst st) with
    | (Some r, h) => (Ok (Some r), (h, snd st + 1))
    | (None, h) => (Ok None, (h, snd st))
    end.

Definition _allocb (size : Z) : M HS (option Block) :=
  let size := size + Tlrspc in
  o ← malloc_block (sizeof_Block + size + Hdrspc);
  match o with
  | None => mret None
  | Some (b, mm) =>
      let base := ROUND (b + sizeof_Block) BLOCKALIGN in
      let lim := Z.land (b + zlen mm) (Z.lnot (BLOCKALIGN - 1)) in
      let rp := lim - ROUND size BLOCKALIGN in
      if rp <? base then leave Panic else
      m ← of_option (load (base - b) (lim - base) mm);
      mret (Some (mkBlock b m (rp - base) (rp - base) 0))
  end.

(** [allocb] waits until there is memory, or panics where it must not wait: a
    call that finds none is not a call that returns. *)
Definition allocb (size : Z) : M HS Block :=
  o ← _allocb size;
  match o with Some b => mret b | None => leave NoMem end.

Definition iallocb (size : Z) : M HS (option Block) :=
  o ← _allocb size;
  match o with Some b => mret (Some (set_flag BINTR b)) | None => mret None end.

Definition freeb (b : Block) : M HS () :=
  modify (fun st => (mfree (b_addr b) (fst st), snd st - 1)).

Fixpoint freeblist (bl : list Block) : M HS () :=
  match bl with
  | [] => mret tt
  | b :: next => freeb b;; freeblist next
  end.

(** [memmove(dst->base + p, s, n)] with the bytes already read. *)
Definition bstore (b : Block) (p : Z) (s : list Z) : M HS Block :=
  m ← of_option (put p s (b_mem b)); mret (set_mem m b).
Definition bload (b : Block) (p n : Z) : M HS (list Z) := of_option (load p n (b_mem b)).

(** [memmove(dst->wp, src->rp, n); dst->wp += n] *)
Definition bcopy (dst src : Block) (n : Z) : M HS Block :=
  s ← bload src (b_rp src) n;
  d ← bstore dst (b_wp dst) s;
  mret (set_wp (b_wp d + n) d).
(** [memset(dst->wp, 0, n); dst->wp += n] *)
Definition bzero (dst : Block) (n : Z) : M HS Block :=
  d ← bstore dst (b_wp dst) (replicate (Z.to_nat n) 0);
  mret (set_wp (b_wp d + n) d).

Definition checkb (b : Block) : bool :=
  (0 <=? b_lim b) && (0 <=? b_rp b) && (0 <=? b_wp b) && (b_rp b <=? b_lim b) && (b_wp b <=? b_lim b).

Definition padblock (bl : list Block) (size : Z) : M HS (list Block) :=
  match bl with
  | [] => undefined
  | bp :: next =>
      if 0 <=? size then
        if size <=? b_rp bp - 0 then mret (set_rp (b_rp bp - size) bp :: next)
        else
          let n := BLEN bp in
          nbp ← allocb (size + n);
          let nbp := set_rp (b_rp nbp + size) nbp in
          let nbp := set_wp (b_rp nbp) nbp in
          nbp ← bcopy nbp bp n;
          let nbp := set_rp (b_rp nbp - size) nbp in
          freeb bp;;
          mret (nbp :: next)
      else
        let size := - size in
        if size <=? b_lim bp - b_wp bp then mret bl
        else
          let n := BLEN bp in
          nbp ← allocb (n + size);
          nbp ← bcopy nbp bp n;
          freeb bp;;
          mret (nbp :: next)
  end.

Fixpoint blocklen (bl : list Block) : Z :=
  match bl with [] => 0 | bp :: next => BLEN bp + blocklen next end.
Fixpoint blockalloclen (bl : list Block) : Z :=
  match bl with [] => 0 | bp :: next => BALLOC bp + blockalloclen next end.

(** The loop of [pullupblock]: [bp] is the first block, [rest] its [next]. *)
Fixpoint pullup_loop (bp : Block) (rest : list Block) (n : Z) : M HS (list Block) :=
  match rest with
  | [] => freeb bp;; mret []
  | nbp :: rest' =>
      let i := BLEN nbp in
      if n <? i then
        bp ← bcopy bp nbp n;
        mret (bp :: set_rp (b_rp nbp + n) nbp :: rest')
      else
        let i := if i <? 0 then 0 else i in
        bp ← bcopy bp nbp i;
        freeb nbp;;
        let n := n - i in
        if n =? 0 then mret (bp :: rest') else pullup_loop bp rest' n
  end.

Definition pullupblock (bl : list Block) (n : Z) : M HS (list Block) :=
  match bl with
  | [] => undefined
  | bp :: next =>
      if n <=? BLEN bp then mret bl
      else if b_lim bp - b_rp bp <? n then
        nbp ← allocb n;
        pullup_loop nbp bl (n - BLEN nbp)
      else pullup_loop bp next (n - BLEN bp)
  end.

Definition concatblock (bl : list Block) : M HS (list Block) :=
  match bl with
  | [] => undefined
  | [bp] => mret bl
  | _ => pullupblock bl (blocklen bl)
  end.

(** [while((l = BLEN(bp)) < offset){ ... }]: [l] is unsigned, so is the test. *)
Fixpoint trim_front (bl : list Block) (offset : Z) : M HS (list Block * Z) :=
  match bl with
  | [] => undefined
  | bp :: nb =>
      let l := u32 (BLEN bp) in
      if l <? u32 offset then freeb bp;; trim_front nb (i32 (offset - l))
      else mret (bl, offset)
  end.
(** [while((l = BLEN(bp)) < len){ ... }] and what follows it. *)
Fixpoint trim_back (bl : list Block) (len : Z) : M HS (list Block) :=
  match bl with
  | [] => undefined
  | bp :: next =>
      let l := u32 (BLEN bp) in
      if l <? u32 len then r ← trim_back next (i32 (len - l)); mret (bp :: r)
      else
        freeblist next;;
        mret [set_wp (b_wp bp - (BLEN bp - len)) bp]
  end.

Definition trimblock (bl : list Block) (offset len : Z) : M HS (list Block) :=
  if blocklen bl <? offset + len then freeblist bl;; mret []
  else
    '(bl, offset) ← trim_front bl offset;
    match bl with
    | [] => undefined
    | bp :: next => trim_back (set_rp (b_rp bp + offset) bp :: next) len
    end.

(** [for(; count > 0 && bp != nil; bp = bp->next){ ... }] *)
Fixpoint copy_loop (nbp : Block) (bl : list Block) (count : Z) : M HS (Block * Z) :=
  match bl with
  | [] => mret (nbp, count)
  | bp :: next =>
      if 0 <? count then
        let l := BLEN bp in
        let l := if count <? l then count else l in
        nbp ← bcopy nbp bp l;
        copy_loop nbp next (count - l)
      else mret (nbp, count)
  end.

Definition copyblock (bl : list Block) (count : Z) : M HS Block :=
  nbp ← allocb count;
  '(nbp, count) ← copy_loop nbp bl count;
  if 0 <? count then bzero nbp count else mret nbp.

Definition adjustblock (bl : list Block) (len : Z) : M HS (list Block) :=
  match bl with
  | [] => undefined
  | bp :: next =>
      if len <? 0 then freeb bp;; mret []
      else if b_lim bp <? b_rp bp + len then
        nbp ← copyblock bl len;
        freeblist bl;;
        mret [nbp]
      else
        let n := BLEN bp in
        bp ← (if n <? len then bstore bp (b_wp bp) (replicate (Z.to_nat (len - n)) 0) else mret bp);
        mret (set_wp (b_rp bp + len) bp :: next)
  end.

(** The loop while [*bph] is not nil and [count] not 0; a round uses up [count] or a
    block.  The result is the bytes thrown away and the new [*bph]. *)
Fixpoint pullblock (bl : list Block) (count : Z) : M HS (Z * list Block) :=
  match bl with
  | [] => mret (0, [])
  | bp :: next =>
      if count =? 0 then mret (0, bl)
      else
        let n := BLEN bp in
        let n := if count <? n then count else n in
        let bp := set_rp (b_rp bp + n) bp in
        if BLEN bp =? 0 then
          freeb bp;;
          '(k, r) ← pullblock next (count - n);
          mret (n + k, r)
        else mret (n, bp :: next)
  end.

Fixpoint packblock (bl : list Block) : M HS (list Block) :=
  match bl with
  | [] => mret []
  | nbp :: next =>
      let n := BLEN nbp in
      b ← (if Z.shiftl n 2 <? BALLOC nbp
           then l ← allocb n; l ← bcopy l nbp n; freeb nbp;; mret l
           else mret nbp);
      r ← packblock next;
      mret (b :: r)
  end.

(** Bytes of a string of blocks from an offset; [m] and [o] are unsigned. *)
Fixpoint readblist (bl : list Block) (n o : Z) : M HS (list Z) :=
  match bl with
  | [] => mret []
  | b :: next =>
      if 0 <? n then
        let m := u32 (BLEN b) in
        if m <=? o then readblist next n (o - m)
        else
          let m := m - o in
          let m := if n <? m then n else m in
          s ← bload b (b_rp b + o) m;
          r ← readblist next (n - m) 0;
          mret (s ++ r)
      else mret []
  end.

(** [splitblock(&a, n)]: the new [*h] and the block with the tail. *)
Definition splitblock (a : Block) (n : Z) : M HS (Block * Block) :=
  let m := BLEN a - n in
  if m <? n then
    b ← allocb m;
    b ← bcopy b a m;
    mret (b, set_rp (b_rp a + m) a)
  else
    b ← allocb n;
    let a := set_wp (b_wp a - n) a in
    s ← bload a (b_wp a) n;
    b ← bstore b (b_wp b) s;
    mret (a, set_wp (b_wp b + n) b).
End block.
