(* ===== verification/BlockThms.v ===== *)
(** * Block operations keep the bytes they say they keep

    Every operation is specified by what it does to the byte string a block
    list holds and to the number of live blocks.  [nm] says whether the
    allocator may fail; where it may, [allocb] may not come back. *)
From S2P Require Import Prelude CMonad Bytes Block.

(** ** Well-formed blocks and the bytes they hold *)

Definition wfb (b : Block) : Prop := 0 <= b_rp b <= b_wp b /\ b_wp b <= b_lim b.
Abbreviation wfbl := (Forall wfb).
Definition bdata (b : Block) : list Z := slice (b_rp b) (BLEN b) (b_mem b).
Definition bytes (bl : list Block) : list Z := concat (bdata <$> bl).

Lemma bytes_nil : bytes [] = [].
Proof. done. Qed.
Lemma bytes_cons b bl : bytes (b :: bl) = bdata b ++ bytes bl.
Proof. done. Qed.
Lemma bytes_app bl bl' : bytes (bl ++ bl') = bytes bl ++ bytes bl'.
Proof. unfold bytes. by rewrite fmap_app, concat_app. Qed.

Lemma wfb_checkb b : wfb b -> checkb b = true.
Proof. unfold wfb, checkb. intros ?. tests. Qed.

Lemma zlen_bdata b : wfb b -> zlen (bdata b) = BLEN b.
Proof. unfold wfb, b_lim, bdata, BLEN. intros ?. apply zlen_slice; lia. Qed.
Lemma blocklen_bytes bl : wfbl bl -> blocklen bl = zlen (bytes bl).
Proof.
  induction 1 as [|b bl Hb _ IH]; [done|]. cbn [blocklen]. rewrite bytes_cons, IH.
  pose proof (zlen_bdata b Hb). zl.
Qed.
Lemma wfb_BLEN b : wfb b -> 0 <= BLEN b.
Proof. unfold wfb, BLEN. lia. Qed.
Lemma wfb_BALLOC b : wfb b -> BLEN b <= BALLOC b.
Proof. unfold wfb, BLEN, BALLOC. lia. Qed.

Lemma slice_blit_end {A} (s l : list A) p q :
  0 <= p <= q -> q + zlen s <= zlen l ->
  slice p (q - p + zlen s) (blit q s l) = slice p (q - p) l ++ s.
Proof.
  intros Hp Hs. pose proof (zlen_nonneg s).
  apply pts_inj with (buf := blit q s l) (p := p).
  - apply slice_pts; [lia..|]. rewrite zlen_blit by lia. lia.
  - apply pts_app. rewrite zlen_slice by lia. split.
    + apply pts_blit_other; [lia|lia|rewrite zlen_slice by lia; lia|]. apply slice_pts; lia.
    + replace (p + (q - p)) with q by lia. apply pts_blit_same; lia.
  - rewrite zlen_app, !zlen_slice; rewrite ?zlen_blit by lia; lia.
Qed.

Lemma slice_take {A} (l : list A) p n m :
  0 <= m <= n -> take (Z.to_nat m) (slice p n l) = slice p m l.
Proof. intros. unfold slice. rewrite take_take. f_equal. lia. Qed.
Lemma slice_drop {A} (l : list A) p n m :
  0 <= p -> 0 <= m <= n -> drop (Z.to_nat m) (slice p n l) = slice (p + m) (n - m) l.
Proof.
  intros. unfold slice. rewrite skipn_firstn_comm, drop_drop. f_equal; [lia|f_equal; lia].
Qed.

(** Moving the read and write pointers. *)
Lemma bdata_rp b n : wfb b -> 0 <= n <= BLEN b ->
  wfb (set_rp (b_rp b + n) b) /\ bdata (set_rp (b_rp b + n) b) = drop (Z.to_nat n) (bdata b).
Proof.
  unfold wfb, bdata, BLEN, b_lim. intros. split; [simpl; lia|]. simpl.
  rewrite slice_drop by lia. f_equal. lia.
Qed.
Lemma bdata_wp b n : wfb b -> 0 <= n <= BLEN b ->
  wfb (set_wp (b_wp b - n) b) /\
  bdata (set_wp (b_wp b - n) b) = take (Z.to_nat (BLEN b - n)) (bdata b).
Proof.
  unfold wfb, bdata, BLEN, b_lim. intros. split; [simpl; lia|]. simpl.
  rewrite slice_take by lia. f_equal. lia.
Qed.
Lemma bdata_empty b : BLEN b = 0 -> bdata b = [].
Proof. unfold bdata. intros ->. done. Qed.
Lemma bdata_full b n : wfb b -> n = BLEN b -> take (Z.to_nat n) (bdata b) = bdata b.
Proof. intros Hb ->. apply take_ge. pose proof (zlen_bdata b Hb). unfold zlen in *. lia. Qed.

(** [s ++ r] cut at a length beyond [s]. *)
Lemma take_past {A} (s r : list A) n : zlen s <= n ->
  take (Z.to_nat n) (s ++ r) = s ++ take (Z.to_nat (n - zlen s)) r.
Proof. unfold zlen. intros. rewrite take_app_ge by lia. do 2 f_equal. lia. Qed.
Lemma take_within {A} (s r : list A) n : n <= zlen s ->
  take (Z.to_nat n) (s ++ r) = take (Z.to_nat n) s.
Proof. unfold zlen. intros. apply take_app_le. lia. Qed.
Lemma drop_past {A} (s r : list A) n : zlen s <= n ->
  drop (Z.to_nat n) (s ++ r) = drop (Z.to_nat (n - zlen s)) r.
Proof. unfold zlen. intros. rewrite drop_app_ge by lia. f_equal. lia. Qed.
Lemma drop_within {A} (s r : list A) n : n <= zlen s ->
  drop (Z.to_nat n) (s ++ r) = drop (Z.to_nat n) s ++ r.
Proof. unfold zlen. intros. apply drop_app_le. lia. Qed.
Lemma zlen_take {A} (l : list A) n : 0 <= n <= zlen l -> zlen (take (Z.to_nat n) l) = n.
Proof. unfold zlen. rewrite length_take. lia. Qed.
Lemma zlen_drop {A} (l : list A) n : 0 <= n <= zlen l -> zlen (drop (Z.to_nat n) l) = zlen l - n.
Proof. unfold zlen. rewrite length_drop. lia. Qed.

(** ** Allocation *)

Lemma land_align x : Z.land x (Z.lnot (BLOCKALIGN - 1)) = x - x mod 8.
Proof.
  change (BLOCKALIGN - 1) with (Z.ones 3). rewrite <- Z.ldiff_land, Z.ldiff_ones_r by lia.
  rewrite Z.shiftr_div_pow2, Z.shiftl_mul_pow2 by lia. change (2 ^ 3) with 8. dlia.
Qed.
Lemma ROUND_8 s : ROUND s BLOCKALIGN = s + 7 - (s + 7) mod 8.
Proof. unfold ROUND. by rewrite land_align. Qed.

(** What [_allocb] promises of a new block: it is empty, and [size] bytes and
    [Tlrspc] more fit behind [wp]. *)
Definition fresh (size : Z) (b : Block) : Prop :=
  wfb b /\ BLEN b = 0 /\ b_wp b + size + Tlrspc <= b_lim b /\ 43 <= b_rp b /\
  BALLOC b mod 8 = 0.

Section block_thms.
Context {H : Type} {HH : Heap H} {nm : Prop} {HO : HeapOk H nm}.
Implicit Types (st : HS (H := H)) (b : Block) (bl : list Block).

(** The only way not to come back: no memory, where that can happen. *)
Definition Rx : Z -> HS (H := H) -> Prop := fun v _ => v = NoMem /\ nm.

Lemma wp_allocb_opt size (Q : option Block -> HS -> Prop) R st :
  0 <= size ->
  (forall h, nm -> Q None (h, snd st)) ->
  (forall b h, fresh size b -> b_flag b = 0 -> Q (Some b) (h, snd st + 1)) ->
  wp (_allocb size) Q R st.
Proof using HO.
  intros Hs Hn Hok. unfold _allocb. apply wp_bind. unfold malloc_block, wp at 1.
  pose proof (mallocz_ok (nm := nm) (sizeof_Block + (size + Tlrspc) + Hdrspc) (fst st)) as Hm.
  destruct (mallocz _ (fst st)) as [[[a mm]|] h]; simpl in Hm.
  2: { apply wp_ret, Hn, Hm. unfold sizeof_Block, Tlrspc, Hdrspc. lia. }
  destruct Hm as [Ha Hl]; [unfold sizeof_Block, Tlrspc, Hdrspc; lia|].
  cbv zeta. rewrite !ROUND_8, land_align. unfold sizeof_Block, Tlrspc, Hdrspc in *.
  set (base := a + 128 + 7 - (a + 128 + 7) mod 8).
  set (lim := a + zlen mm - (a + zlen mm) mod 8).
  assert (a + 128 <= base <= a + 135) as Hb by (unfold base; dlia).
  assert (a + zlen mm - 7 <= lim <= a + zlen mm) as Hlim by (unfold lim; dlia).
  assert ((lim - base) mod 8 = 0) as Hmod by (unfold lim, base; dlia).
  set (rs := size + 16 + 7 - (size + 16 + 7) mod 8).
  assert (size + 16 <= rs <= size + 23) as Hr by (unfold rs; dlia).
  destruct (Z.ltb_spec (lim - rs) base); [lia|].
  apply wp_bind. eapply wp_of_option; [apply load_ok; lia|]. apply wp_ret, Hok; [|done].
  unfold fresh, wfb, BLEN, BALLOC, b_lim, Tlrspc. simpl.
  rewrite zlen_slice, Z.sub_0_r by lia. lia.
Qed.

Lemma wp_allocb size (Q : Block -> HS -> Prop) st :
  0 <= size ->
  (forall b h, fresh size b -> b_flag b = 0 -> Q b (h, snd st + 1)) ->
  wp (allocb size) Q Rx st.
Proof using HO.
  intros Hs Hok. unfold allocb. apply wp_bind, wp_allocb_opt; [done|by intros|].
  intros b h Hb Hf. apply wp_ret. auto.
Qed.

Lemma wp_iallocb size (Q : option Block -> HS -> Prop) R st :
  0 <= size ->
  (forall h, nm -> Q None (h, snd st)) ->
  (forall b h, fresh size b -> b_flag b = BINTR -> Q (Some b) (h, snd st + 1)) ->
  wp (iallocb size) Q R st.
Proof using HO.
  intros Hs Hn Hok. unfold iallocb. apply wp_bind, wp_allocb_opt; [done|auto|].
  intros b h Hb _. apply wp_ret, Hok; done.
Qed.

Lemma wp_freeb b (Q : () -> HS -> Prop) R st :
  (forall h, Q tt (h, snd st - 1)) -> wp (freeb b) Q R st.
Proof. intros HQ. unfold freeb. apply wp_modify, HQ. Qed.
Lemma wp_freeblist bl (Q : () -> HS -> Prop) R st :
  (forall h, Q tt (h, snd st - zlen bl)) -> wp (freeblist bl) Q R st.
Proof.
  revert st. induction bl as [|b bl IH]; intros st HQ; cbn [freeblist].
  - apply wp_ret. destruct st as [h n]. specialize (HQ h). simpl in *.
    by rewrite Z.sub_0_r in HQ.
  - apply wp_bind, wp_freeb. intros h. apply IH. intros h'. simpl.
    replace (snd st - 1 - zlen bl) with (snd st - zlen (b :: bl)) by zl. done.
Qed.

(** [d] is [b] with [s] appended. *)
Definition grown (b : Block) (s : list Z) (d : Block) : Prop :=
  wfb d /\ bdata d = bdata b ++ s /\ b_lim d = b_lim b /\ b_rp d = b_rp b /\
  b_wp d = b_wp b + zlen s /\ b_flag d = b_flag b.

Lemma wp_bstore_end b s (Q : Block -> HS -> Prop) R st :
  wfb b -> b_wp b + zlen s <= b_lim b ->
  (forall d, grown b s (set_wp (b_wp b + zlen s) d) -> b_rp d = b_rp b -> b_wp d = b_wp b -> Q d st) ->
  wp (bstore b (b_wp b) s) Q R st.
Proof.
  unfold wfb, b_lim. intros Hb Hn HQ. pose proof (zlen_nonneg s).
  unfold bstore. apply wp_bind.
  eapply wp_of_option; [apply put_ok; lia|]. apply wp_ret, HQ; [|done..].
  unfold grown, wfb, b_lim, bdata, BLEN. simpl. rewrite zlen_blit by lia.
  split_and!; try lia.
  replace (b_wp b + zlen s - b_rp b) with (b_wp b - b_rp b + zlen s) by lia.
  apply slice_blit_end; lia.
Qed.

Lemma wp_append b s (Q : Block -> HS -> Prop) R st n :
  wfb b -> n = zlen s -> b_wp b + n <= b_lim b ->
  (forall d, grown b s d -> Q d st) ->
  wp (d ← bstore b (b_wp b) s; mret (set_wp (b_wp d + n) d)) Q R st.
Proof.
  intros Hb -> Hn HQ. apply wp_bind, wp_bstore_end; [done|done|].
  intros d Hg _ E. apply wp_ret, HQ. by rewrite E.
Qed.

Lemma wp_bload b p n (Q : list Z -> HS -> Prop) R st :
  0 <= p -> 0 <= n -> p + n <= b_lim b -> Q (slice p n (b_mem b)) st -> wp (bload b p n) Q R st.
Proof. unfold b_lim, bload. intros. eapply wp_of_option; [by apply load_ok|done]. Qed.

Lemma wp_bcopy dst src n (Q : Block -> HS -> Prop) R st :
  wfb dst -> wfb src -> 0 <= n <= BLEN src -> b_wp dst + n <= b_lim dst ->
  (forall d, grown dst (take (Z.to_nat n) (bdata src)) d -> Q d st) ->
  wp (bcopy dst src n) Q R st.
Proof.
  intros Hd Hs Hn Hr HQ. pose proof (zlen_bdata src Hs) as Hl.
  unfold bcopy. apply wp_bind, wp_bload; unfold wfb, BLEN in *; [lia..|].
  apply wp_append; [done|rewrite zlen_slice; unfold b_lim in *; lia|done|].
  intros d Hg. apply HQ. unfold bdata, BLEN. by rewrite slice_take.
Qed.

Lemma wp_bzero dst n (Q : Block -> HS -> Prop) R st :
  wfb dst -> 0 <= n -> b_wp dst + n <= b_lim dst ->
  (forall d, grown dst (replicate (Z.to_nat n) 0) d -> Q d st) ->
  wp (bzero dst n) Q R st.
Proof.
  intros Hd Hn Hr HQ. unfold bzero.
  apply wp_append; [done|unfold zlen; rewrite length_replicate; lia|done|done].
Qed.

Lemma bdata_rp_back b n : wfb b -> 0 <= n <= b_rp b ->
  wfb (set_rp (b_rp b - n) b) /\
  exists pad, zlen pad = n /\ bdata (set_rp (b_rp b - n) b) = pad ++ bdata b.
Proof using.
  unfold wfb, bdata, BLEN, b_lim. simpl. intros. split; [lia|].
  exists (slice (b_rp b - n) n (b_mem b)). rewrite zlen_slice by lia. split; [done|].
  replace (b_wp b - (b_rp b - n)) with (n + (b_wp b - b_rp b)) by lia.
  rewrite slice_app by lia. do 2 f_equal. lia.
Qed.

Lemma fresh_empty size b : fresh size b -> bdata b = [].
Proof using. intros (_ & Hl & _). by apply bdata_empty. Qed.

Lemma wp_padblock bp next size (Q : list Block -> HS -> Prop) st :
  wfb bp ->
  (forall nbp st' pad, wfb nbp -> zlen pad = Z.max 0 size -> bdata nbp = pad ++ bdata bp ->
     - size <= b_lim nbp - b_wp nbp -> snd st' = snd st -> Q (nbp :: next) st') ->
  wp (padblock (bp :: next) size) Q Rx st.
Proof using HO.
  intros Hb HQ. pose proof (wfb_BLEN bp Hb). pose proof Hb as [? ?]. cbn [padblock].
  destruct (Z.leb_spec 0 size) as [Hs|Hs].
  - destruct (Z.leb_spec size (b_rp bp - 0)) as [Hr|Hr].
    + apply wp_ret. destruct (bdata_rp_back bp size) as (Hw & pad & Hp & Hd); [done|lia|].
      eapply HQ; [done| |exact Hd| |done]; [lia|]. unfold b_lim in *. simpl. lia.
    + apply wp_bind, wp_allocb; [lia|]. intros nbp h (Hf & Hl & Hroom & Hh & _) _.
      cbv zeta. unfold wfb, BLEN, b_lim, Tlrspc in *.
      set (n1 := set_wp (b_rp (set_rp (b_rp nbp + size) nbp)) (set_rp (b_rp nbp + size) nbp)).
      assert (wfb n1) as Hw1 by (unfold wfb, b_lim; simpl; lia).
      apply wp_bind, wp_bcopy; [done|done|unfold BLEN; lia|unfold b_lim; simpl; lia|].
      intros d (Hwd & Hd & Hlim & Hrp & Hwp & _). apply wp_bind, wp_freeb. intros h'.
      apply wp_ret. rewrite bdata_full in Hd, Hwp by done.
      rewrite (bdata_empty n1) in Hd by (unfold BLEN; simpl; lia).
      destruct (bdata_rp_back d size) as (Hw & pad & Hp & Hd'); [done|rewrite Hrp; simpl; lia|].
      rewrite zlen_bdata in Hwp by done. unfold BLEN, b_lim in *. simpl in *.
      eapply HQ; [done| |rewrite Hd', Hd; reflexivity| |]; unfold b_lim; simpl; lia.
  - destruct (Z.leb_spec (- size) (b_lim bp - b_wp bp)) as [Hr|Hr].
    + apply wp_ret. apply (HQ bp st []); [done|rewrite zlen_nil; lia|done|lia|done].
    + apply wp_bind, wp_allocb; [lia|]. intros nbp h (Hf & Hl & Hroom & Hh & _) _.
      unfold Tlrspc in *. apply wp_bind, wp_bcopy; [done|done|lia|lia|].
      intros d (Hwd & Hd & Hlim & Hrp & Hwp & _). apply wp_bind, wp_freeb. intros h'.
      apply wp_ret. rewrite bdata_full, (bdata_empty nbp) in Hd by done.
      rewrite bdata_full, zlen_bdata in Hwp by done.
      apply (HQ d _ []); [done|rewrite zlen_nil; lia|done|lia|simpl; lia].
Qed.

(** The loop of [pullupblock]: [bp] has room for the [n] bytes that are still
    to come from [rest]. *)
Lemma wp_pullup_loop rest : forall bp n (Q : list Block -> HS -> Prop) R st,
  wfb bp -> wfbl rest -> 0 < n -> b_wp bp + n <= b_lim bp ->
  (n <= zlen (bytes rest) -> forall d rest' st', wfbl (d :: rest') ->
     BLEN d = BLEN bp + n -> bytes (d :: rest') = bdata bp ++ bytes rest ->
     snd st' = snd st + zlen rest' - zlen rest -> Q (d :: rest') st') ->
  (zlen (bytes rest) < n -> forall st', snd st' = snd st - 1 - zlen rest -> Q [] st') ->
  wp (pullup_loop bp rest n) Q R st.
Proof using.
  induction rest as [|nbp rest IH]; intros bp n Q R st Hb Hr Hn Hroom HQ HQ0; cbn [pullup_loop].
  - apply wp_bind, wp_freeb. intros h. apply wp_ret, HQ0; [rewrite bytes_nil; zl|simpl; zl].
  - inversion_clear Hr as [|? ? Hnb Hr']. rewrite bytes_cons in *. pose proof (zlen_bdata nbp Hnb) as Hz.
    pose proof (wfb_BLEN nbp Hnb).
    destruct (Z.ltb_spec n (BLEN nbp)) as [Hlt|Hge].
    + apply wp_bind, wp_bcopy; [done|done|lia|lia|]. intros d (Hwd & Hd & Hlim & Hrp & Hwp & _).
      rewrite zlen_take in Hwp by lia. apply wp_ret.
      destruct (bdata_rp nbp n) as [Hw2 Hd2]; [done|lia|].
      apply HQ; [zl| |unfold BLEN in *; lia| |zl].
      * constructor; [done|by constructor].
      * rewrite !bytes_cons, Hd, Hd2, <- !app_assoc. f_equal. by rewrite app_assoc, take_drop.
    + destruct (Z.ltb_spec (BLEN nbp) 0); [lia|]. cbv zeta.
      apply wp_bind, wp_bcopy; [done|done|lia|lia|]. intros d (Hwd & Hd & Hlim & Hrp & Hwp & _).
      rewrite bdata_full in Hd, Hwp by done. apply wp_bind, wp_freeb. intros h.
      destruct (Z.eqb_spec (n - BLEN nbp) 0) as [E|E].
      * apply wp_ret, HQ; [zl| |unfold BLEN in *; lia| |simpl; zl].
        -- by constructor.
        -- by rewrite bytes_cons, Hd, app_assoc.
      * apply IH; [done|done|lia|lia| |].
        -- intros Hle d' rest' st' Hw' Hl' Hd' Hs'. apply HQ; [zl|done|unfold BLEN in *; lia| |].
           ++ by rewrite Hd', Hd, app_assoc.
           ++ simpl in Hs'. zl.
        -- intros Hlt st' Hs'. apply HQ0; [zl|]. simpl in Hs'. zl.
Qed.

Lemma wp_pullupblock bp next n (Q : list Block -> HS -> Prop) st :
  wfbl (bp :: next) -> 0 <= n ->
  (n <= zlen (bytes (bp :: next)) -> forall d rest st', wfbl (d :: rest) ->
     BLEN d = Z.max n (BLEN bp) -> bytes (d :: rest) = bytes (bp :: next) ->
     snd st' - snd st = zlen (d :: rest) - zlen (bp :: next) -> Q (d :: rest) st') ->
  (zlen (bytes (bp :: next)) < n -> forall st', snd st' - snd st = - zlen (bp :: next) -> Q [] st') ->
  wp (pullupblock (bp :: next) n) Q Rx st.
Proof using HO.
  intros Hw Hn HQ HQ0. inversion_clear Hw as [|? ? Hb Hr]. cbn [pullupblock].
  pose proof (zlen_bdata bp Hb) as Hz. rewrite bytes_cons in *. pose proof (zlen_nonneg (bytes next)).
  pose proof (wfb_BLEN bp Hb).
  destruct (Z.leb_spec n (BLEN bp)) as [Hle|Hgt].
  { apply wp_ret, HQ; [zl|by constructor|lia|done|lia]. }
  destruct (Z.ltb_spec (b_lim bp - b_rp bp) n) as [Hroom|Hroom].
  - apply wp_bind, wp_allocb; [lia|]. intros nbp h Hf _.
    pose proof (fresh_empty _ _ Hf) as He. destruct Hf as (Hf & Hl & Hr2 & _ & _). unfold Tlrspc in *.
    apply (wp_pullup_loop (bp :: next) nbp); [done|by constructor|lia|lia| |].
    + rewrite bytes_cons. intros Hle d rest st' Hw' Hd Hc Hs'. apply HQ; [zl|done|lia| |].
      * rewrite Hc, He. done.
      * simpl in Hs'. zl.
    + rewrite bytes_cons. intros Hlt st' Hs'. apply HQ0; [zl|]. simpl in Hs'. zl.
  - apply wp_pullup_loop; [done|done|lia|unfold BLEN in *; lia| |].
    + intros Hle d rest st' Hw' Hd Hc Hs'. apply HQ; [zl|done|lia|done|]. zl.
    + intros Hlt st' Hs'. apply HQ0; [zl|]. zl.
Qed.

Lemma wp_concatblock bp next (Q : list Block -> HS -> Prop) st :
  wfbl (bp :: next) ->
  (forall d rest st', wfbl (d :: rest) -> bdata d = bytes (bp :: next) ->
     bytes rest = [] -> snd st' - snd st = zlen (d :: rest) - zlen (bp :: next) ->
     Q (d :: rest) st') ->
  wp (concatblock (bp :: next)) Q Rx st.
Proof using HO.
  intros Hw HQ. destruct next as [|b2 next].
  { apply wp_ret. apply HQ; [done| |done|lia]. by rewrite bytes_cons, bytes_nil, app_nil_r. }
  change (concatblock (bp :: b2 :: next))
    with (pullupblock (bp :: b2 :: next) (blocklen (bp :: b2 :: next))).
  rewrite (blocklen_bytes (bp :: b2 :: next) Hw).
  pose proof (zlen_nonneg (bytes (b2 :: next))).
  apply wp_pullupblock; [done|apply zlen_nonneg| |lia].
  intros _ d rest st' Hw' Hd Hc Hs. pose proof Hw' as Hd'%Forall_inv.
  pose proof Hw as Hb%Forall_inv. pose proof (zlen_bdata _ Hd') as Hz. pose proof (zlen_bdata _ Hb) as Hzb.
  assert (zlen (bytes (d :: rest)) = zlen (bytes (bp :: b2 :: next))) as Hzz by by rewrite Hc.
  rewrite (bytes_cons d), (bytes_cons bp) in Hzz. rewrite (bytes_cons bp) in Hd.
  assert (bytes rest = []) as He by (apply zlen_0_inv; zl).
  apply HQ; [done| |done|done]. by rewrite <- Hc, bytes_cons, He, app_nil_r.
Qed.

(** ** Trimming *)

Lemma wp_trim_front bl : forall offset (Q : list Block * Z -> HS -> Prop) R st,
  wfbl bl -> zlen (bytes bl) < 2 ^ 31 -> 0 <= offset <= zlen (bytes bl) -> bl <> [] ->
  (forall bp next o st', wfbl (bp :: next) -> 0 <= o <= BLEN bp ->
     bytes bl = take (Z.to_nat offset) (bytes bl) ++ drop (Z.to_nat o) (bytes (bp :: next)) ->
     snd st' - snd st = zlen (bp :: next) - zlen bl -> Q (bp :: next, o) st') ->
  wp (trim_front bl offset) Q R st.
Proof using.
  change (2 ^ 31) with 2147483648.
  induction bl as [|bp nb IH]; intros offset Q R st Hw Hz Ho Hne HQ; [done|]. cbn [trim_front].
  pose proof Hw as [Hb Hw']%Forall_cons_1. pose proof (zlen_bdata bp Hb) as Hl.
  pose proof (wfb_BLEN bp Hb). rewrite bytes_cons, zlen_app in *. pose proof (zlen_nonneg (bytes nb)).
  cbv zeta. rewrite !u32_id by lia.
  destruct (Z.ltb_spec (BLEN bp) offset) as [Hlt|Hge].
  - apply wp_bind, wp_freeb. intros h. rewrite i32_id by lia.
    apply IH; [done|lia|lia| |].
    + intros ->. change (zlen (bytes [])) with 0 in *. lia.
    + intros b2 next o st' Hw2 Ho2 Hc Hs. apply HQ; [done|done| |simpl in Hs; zl].
      rewrite take_past by lia. rewrite Hl, <- app_assoc. f_equal. exact Hc.
  - apply wp_ret, HQ; [done|lia| |lia]. rewrite bytes_cons. by rewrite take_drop.
Qed.

Lemma wp_trim_back bl : forall len (Q : list Block -> HS -> Prop) R st,
  wfbl bl -> zlen (bytes bl) < 2 ^ 31 -> 0 <= len <= zlen (bytes bl) -> bl <> [] ->
  (forall r st', wfbl r -> r <> [] -> bytes r = take (Z.to_nat len) (bytes bl) ->
     snd st' - snd st = zlen r - zlen bl -> Q r st') ->
  wp (trim_back bl len) Q R st.
Proof using.
  change (2 ^ 31) with 2147483648.
  induction bl as [|bp next IH]; intros len Q R st Hw Hz Ho Hne HQ; [done|]. cbn [trim_back].
  pose proof Hw as [Hb Hw']%Forall_cons_1. pose proof (zlen_bdata bp Hb) as Hl.
  pose proof (wfb_BLEN bp Hb). rewrite bytes_cons, zlen_app in *. pose proof (zlen_nonneg (bytes next)).
  cbv zeta. rewrite !u32_id by lia.
  destruct (Z.ltb_spec (BLEN bp) len) as [Hlt|Hge].
  - rewrite i32_id by lia. apply wp_bind, IH; [done|lia|lia| |].
    + intros ->. change (zlen (bytes [])) with 0 in *. lia.
    + intros r st' Hw2 _ Hc Hs. apply wp_ret, HQ; [by constructor|done| |zl].
      rewrite bytes_cons, Hc, take_past by lia. by rewrite Hl.
  - apply wp_bind, wp_freeblist. intros h. apply wp_ret.
    destruct (bdata_wp bp (BLEN bp - len)) as [Hw2 Hd]; [done|lia|].
    apply HQ; [by constructor|done| |simpl; zl].
    rewrite bytes_cons, bytes_nil, app_nil_r, Hd, take_within by lia. do 2 f_equal. lia.
Qed.

Lemma wp_trimblock bl offset len (Q : list Block -> HS -> Prop) R st :
  wfbl bl -> zlen (bytes bl) < 2 ^ 31 -> 0 <= offset -> 0 <= len -> bl <> [] ->
  (forall r st', wfbl r ->
     bytes r = (if zlen (bytes bl) <? offset + len then [] else slice offset len (bytes bl)) ->
     (r = [] -> zlen (bytes bl) < offset + len) ->
     snd st' - snd st = zlen r - zlen bl -> Q r st') ->
  wp (trimblock bl offset len) Q R st.
Proof using.
  intros Hw Hz Ho Hl Hne HQ. unfold trimblock. rewrite blocklen_bytes by done.
  destruct (Z.ltb_spec (zlen (bytes bl)) (offset + len)) as [Hlt|Hge].
  { apply wp_bind, wp_freeblist. intros h. apply wp_ret, HQ; [constructor|done|done|simpl; zl]. }
  apply wp_bind, wp_trim_front; [done|done|lia|done|].
  intros bp next o st' Hw2 Ho2 Hc Hs. cbv beta iota.
  pose proof Hw2 as [Hb Hw']%Forall_cons_1. pose proof (zlen_bdata bp Hb) as Hzb.
  destruct (bdata_rp bp o) as [Hw3 Hd]; [done|lia|].
  assert (bytes (set_rp (b_rp bp + o) bp :: next) = drop (Z.to_nat offset) (bytes bl)) as Hc3.
  { rewrite bytes_cons, Hd, <- drop_within by lia. rewrite <- bytes_cons.
    apply (app_inv_head (take (Z.to_nat offset) (bytes bl))). by rewrite take_drop. }
  apply wp_trim_back; [by constructor| | |done|].
  - rewrite Hc3, zlen_drop by lia. lia.
  - rewrite Hc3, zlen_drop by lia. lia.
  - intros r st'' Hwr Hner Hcr Hsr. apply HQ; [done| |done|].
    + by rewrite Hcr, Hc3.
    + zl.
Qed.

(** ** Copying *)

(** The first [n] bytes of [l], zeros where it is shorter. *)
Definition take_zero (n : Z) (l : list Z) : list Z :=
  take (Z.to_nat n) (l ++ replicate (Z.to_nat (n - zlen l)) 0).

Lemma take_zero_short n l : zlen l <= n -> take_zero n l = l ++ replicate (Z.to_nat (n - zlen l)) 0.
Proof using.
  unfold take_zero, zlen. intros. apply take_ge. rewrite length_app, length_replicate. lia.
Qed.
Lemma take_zero_long n l : n <= zlen l -> take_zero n l = take (Z.to_nat n) l.
Proof using.
  unfold take_zero, zlen. intros. apply take_app_le. lia.
Qed.

Lemma wp_copy_loop bl : forall nbp count (Q : Block * Z -> HS -> Prop) R st,
  wfb nbp -> wfbl bl -> 0 <= count -> b_wp nbp + count <= b_lim nbp ->
  (forall d c, grown nbp (take (Z.to_nat count) (bytes bl)) d ->
     c = Z.max 0 (count - zlen (bytes bl)) -> Q (d, c) st) ->
  wp (copy_loop nbp bl count) Q R st.
Proof using.
  induction bl as [|bp next IH]; intros nbp count Q R st Hb Hw Hc Hroom HQ; cbn [copy_loop].
  { apply wp_ret, HQ; [|rewrite bytes_nil; change (zlen (@nil Z)) with 0; lia].
    unfold grown. rewrite bytes_nil, take_nil, app_nil_r. change (zlen (@nil Z)) with 0.
    split_and!; done || lia. }
  apply Forall_cons_1 in Hw as [Hbp Hw]. pose proof (wfb_BLEN bp Hbp). pose proof (zlen_bdata bp Hbp) as Hz.
  rewrite bytes_cons in *. pose proof (zlen_nonneg (bytes next)).
  destruct (Z.ltb_spec 0 count) as [Hpos|Hzero].
  2: { apply wp_ret, HQ; [|zl]. replace count with 0 by lia. unfold grown.
    rewrite take_0, app_nil_r. change (zlen (@nil Z)) with 0. split_and!; done || lia. }
  cbv zeta. set (l := if count <? BLEN bp then count else BLEN bp).
  assert (l = Z.min count (BLEN bp)) as Hl by (unfold l; destruct (Z.ltb_spec count (BLEN bp)); lia).
  apply wp_bind, wp_bcopy; [done|done|lia|lia|].
  intros d (Hwd & Hd & Hlim & Hrp & Hwp & Hfl). rewrite zlen_take in Hwp by lia.
  apply IH; [done|done|lia|lia|]. intros d' c (Hwd' & Hd' & Hlim' & Hrp' & Hwp' & Hfl') Hc'.
  assert (take (Z.to_nat count) (bdata bp ++ bytes next) =
          take (Z.to_nat l) (bdata bp) ++ take (Z.to_nat (count - l)) (bytes next)) as Et.
  { destruct (Z.le_gt_cases (BLEN bp) count).
    - replace l with (BLEN bp) by lia. rewrite bdata_full by done.
      rewrite take_past by lia. by rewrite Hz.
    - replace l with count by lia. rewrite take_within, Z.sub_diag, take_0, app_nil_r by lia. done. }
  apply HQ; [|zl]. unfold grown. rewrite Et. rewrite Hd', Hd, zlen_app, <- app_assoc.
  rewrite (zlen_take (bdata bp)) by lia. split_and!; try lia; done.
Qed.

Lemma wp_copyblock bl count (Q : Block -> HS -> Prop) st :
  wfbl bl -> 0 <= count ->
  (forall d st', wfb d -> bdata d = take_zero count (bytes bl) -> snd st' = snd st + 1 -> Q d st') ->
  wp (copyblock bl count) Q Rx st.
Proof using HO.
  intros Hw Hc HQ. unfold copyblock. apply wp_bind, wp_allocb; [done|].
  intros nbp h Hf _. pose proof (fresh_empty _ _ Hf) as He. destruct Hf as (Hb & Hl & Hroom & _ & _).
  unfold Tlrspc in *. apply wp_bind, wp_copy_loop; [done|done|done|lia|].
  intros d c (Hwd & Hd & Hlim & Hrp & Hwp & _) Hcc. cbv beta iota. rewrite He in Hd. simpl in Hd.
  destruct (Z.ltb_spec 0 c) as [Hpos|Hzero].
  - rewrite take_ge in Hd, Hwp by (unfold zlen in *; lia).
    apply wp_bzero; [done|lia|lia|]. intros d' (Hwd' & Hd' & _). apply HQ; [done| |done].
    rewrite Hd', Hd, take_zero_short by lia. do 3 f_equal. lia.
  - apply wp_ret, HQ; [done| |done]. by rewrite Hd, take_zero_long by lia.
Qed.

(** [adjustblock]: a string of [len] bytes, unless the first block has the room
    and already ends after them. *)
Lemma wp_adjustblock bp next len (Q : list Block -> HS -> Prop) st :
  wfbl (bp :: next) ->
  (forall r st', wfbl r ->
     match r with
     | [] => len < 0 /\ snd st' = snd st - 1
     | d :: rest =>
         0 <= len /\ snd st' - snd st = zlen rest - zlen next /\
         (rest = next /\ bdata d = take_zero len (bdata bp) \/
          rest = [] /\ bdata d = take_zero len (bytes (bp :: next)))
     end -> Q r st') ->
  wp (adjustblock (bp :: next) len) Q Rx st.
Proof using HO.
  intros Hw HQ. pose proof Hw as [Hb Hw']%Forall_cons_1. cbn [adjustblock].
  pose proof (zlen_bdata bp Hb) as Hz. pose proof (wfb_BLEN bp Hb).
  destruct (Z.ltb_spec len 0) as [Hneg|Hpos].
  { apply wp_bind, wp_freeb. intros h. apply wp_ret, HQ; [constructor|]. done. }
  destruct (Z.ltb_spec (b_lim bp) (b_rp bp + len)) as [Hbig|Hfits].
  - apply wp_bind, wp_copyblock; [done|done|]. intros d st' Hwd Hd Hs.
    apply wp_bind, wp_freeblist. intros h. apply wp_ret, HQ; [by repeat constructor; apply Hwd|].
    split; [done|]. split; [simpl; zl|]. by right.
  - apply wp_bind. destruct (Z.ltb_spec (BLEN bp) len) as [Hlt|Hge].
    + set (z := replicate (Z.to_nat (len - BLEN bp)) 0).
      assert (zlen z = len - BLEN bp) as Hzz by (unfold z, zlen; rewrite length_replicate; lia).
      unfold BLEN in *. apply wp_bstore_end; [done|lia|]. intros d (Hwd & Hd & _) Hrp Hwp.
      apply wp_ret. replace (b_rp d + len) with (b_wp bp + zlen z) by lia.
      apply HQ; [by constructor|]. split; [done|]. split; [lia|]. left. split; [done|].
      rewrite Hd, take_zero_short by lia. unfold z. by rewrite Hz.
    + apply wp_ret, wp_ret. destruct (bdata_wp bp (BLEN bp - len)) as [Hw2 Hd]; [done|lia|].
      replace (b_wp bp - (BLEN bp - len)) with (b_rp bp + len) in * by (unfold BLEN; lia).
      apply HQ; [by constructor|]. split; [done|]. split; [lia|]. left. split; [done|].
      rewrite Hd, take_zero_long by lia. do 2 f_equal. lia.
Qed.

Lemma wp_pullblock bl : forall count (Q : Z * list Block -> HS -> Prop) R st,
  wfbl bl -> 0 <= count ->
  (forall k r st', wfbl r -> k = Z.min count (zlen (bytes bl)) ->
     bytes r = drop (Z.to_nat count) (bytes bl) ->
     snd st' - snd st = zlen r - zlen bl -> Q (k, r) st') ->
  wp (pullblock bl count) Q R st.
Proof using.
  induction bl as [|bp next IH]; intros count Q R st Hw Hc HQ; cbn [pullblock].
  { apply wp_ret, HQ; [done| |by rewrite bytes_nil, drop_nil|lia].
    rewrite bytes_nil. change (zlen (@nil Z)) with 0. lia. }
  pose proof Hw as [Hb Hw']%Forall_cons_1. pose proof (zlen_bdata bp Hb) as Hz.
  pose proof (wfb_BLEN bp Hb). pose proof (zlen_nonneg (bytes next)).
  destruct (Z.eqb_spec count 0) as [->|Hne].
  { apply wp_ret, HQ; [done|rewrite bytes_cons; zl|done|lia]. }
  cbv zeta. rewrite bytes_cons in *. set (n := if count <? BLEN bp then count else BLEN bp).
  assert (n = Z.min count (BLEN bp)) as Hn by (unfold n; destruct (Z.ltb_spec count (BLEN bp)); lia).
  destruct (bdata_rp bp n) as [Hw2 Hd]; [done|lia|].
  assert (BLEN (set_rp (b_rp bp + n) bp) = BLEN bp - n) as HB by (unfold BLEN; simpl; lia).
  rewrite HB. destruct (Z.eqb_spec (BLEN bp - n) 0) as [E|E].
  - apply wp_bind, wp_freeb. intros h. apply wp_bind, IH; [done|lia|].
    intros k r st' Hwr Hk Hcr Hs. cbv beta iota. apply wp_ret, HQ; [done|zl| |simpl in Hs; zl].
    rewrite Hcr, drop_past by lia. do 2 f_equal. lia.
  - apply wp_ret, HQ; [by constructor|zl| |zl].
    rewrite bytes_cons, Hd, drop_within by lia. do 3 f_equal. lia.
Qed.

Lemma wp_packblock bl : forall (Q : list Block -> HS -> Prop) st,
  wfbl bl ->
  (forall r st', wfbl r -> bdata <$> r = bdata <$> bl -> snd st' = snd st -> Q r st') ->
  wp (packblock bl) Q Rx st.
Proof using HO.
  induction bl as [|nbp next IH]; intros Q st Hw HQ; cbn [packblock].
  { apply wp_ret, HQ; done. }
  apply Forall_cons_1 in Hw as [Hb Hw']. pose proof (wfb_BLEN nbp Hb).
  assert (forall b st1, wfb b -> bdata b = bdata nbp -> snd st1 = snd st ->
    wp (r ← packblock next; mret (b :: r)) Q Rx st1) as Hk.
  { intros b st1 Hwb Hdb Hs1. apply wp_bind, IH; [done|]. intros r st' Hwr Hcr Hs.
    apply wp_ret, HQ; [by constructor| |congruence]. rewrite !fmap_cons. by f_equal. }
  cbv zeta. apply wp_bind. destruct (Z.shiftl (BLEN nbp) 2 <? BALLOC nbp).
  - apply wp_bind, wp_allocb; [done|]. intros l h Hf _.
    pose proof (fresh_empty _ _ Hf) as He. destruct Hf as (Hl & _ & Hroom & _). unfold Tlrspc in *.
    apply wp_bind, wp_bcopy; [done|done|lia|lia|]. intros d (Hwd & Hd & _).
    apply wp_bind, wp_freeb. intros h'. apply wp_ret, Hk; [done| |simpl; lia].
    by rewrite Hd, He, bdata_full.
  - by apply wp_ret, Hk.
Qed.

Lemma wp_readblist bl : forall n o (Q : list Z -> HS -> Prop) R st,
  wfbl bl -> zlen (bytes bl) < 2 ^ 32 -> 0 <= n -> 0 <= o ->
  Q (take (Z.to_nat n) (drop (Z.to_nat o) (bytes bl))) st ->
  wp (readblist bl n o) Q R st.
Proof using.
  change (2 ^ 32) with 4294967296.
  induction bl as [|b next IH]; intros n o Q R st Hw Hz Hn Ho HQ; cbn [readblist].
  { apply wp_ret. by rewrite bytes_nil, drop_nil, take_nil in HQ. }
  apply Forall_cons_1 in Hw as [Hb Hw']. pose proof (zlen_bdata b Hb) as Hl.
  pose proof (wfb_BLEN b Hb). pose proof (zlen_nonneg (bytes next)).
  rewrite bytes_cons, zlen_app in *.
  destruct (Z.ltb_spec 0 n) as [Hpos|Hz0].
  2: { apply wp_ret. by replace (Z.to_nat n) with 0%nat in HQ by lia. }
  cbv zeta. rewrite u32_id by lia. destruct (Z.leb_spec (BLEN b) o) as [Hle|Hlt].
  - apply IH; [done|lia|lia|lia|]. rewrite drop_past in HQ by lia. by rewrite Hl in HQ.
  - set (m := if n <? BLEN b - o then n else BLEN b - o).
    assert (m = Z.min n (BLEN b - o)) as Hm by (unfold m; destruct (Z.ltb_spec n (BLEN b - o)); lia).
    unfold wfb, BLEN in *. apply wp_bind, wp_bload; [lia..|]. apply wp_bind, IH; [done|lia|lia|lia|].
    apply wp_ret. rewrite drop_within in HQ by lia.
    assert (slice (b_rp b + o) m (b_mem b) = take (Z.to_nat m) (drop (Z.to_nat o) (bdata b))) as Es.
    { unfold bdata, BLEN. rewrite slice_drop, slice_take by lia. done. }
    rewrite Es. pose proof (zlen_drop (bdata b) o ltac:(lia)) as Hzd.
    replace (drop (Z.to_nat 0) (bytes next)) with (bytes next) by done.
    destruct (Z.le_gt_cases n (BLEN b - o)).
    + replace m with n by (unfold BLEN in *; lia). rewrite Z.sub_diag, take_0, app_nil_r.
      rewrite take_within in HQ by (unfold BLEN in *; lia). done.
    + replace m with (BLEN b - o) by (unfold BLEN in *; lia).
      rewrite take_past in HQ by (unfold BLEN in *; lia). rewrite Hzd, Hl in HQ.
      rewrite (take_ge (drop _ _)) by (unfold zlen, BLEN in *; lia). done.
Qed.

Lemma wp_splitblock a n (Q : Block * Block -> HS -> Prop) st :
  wfb a -> 0 <= n <= BLEN a ->
  (forall h t st', wfb h -> wfb t -> bdata h ++ bdata t = bdata a -> BLEN t = n ->
     snd st' = snd st + 1 -> Q (h, t) st') ->
  wp (splitblock a n) Q Rx st.
Proof using HO.
  intros Ha Hn HQ. pose proof (zlen_bdata a Ha) as Hz. unfold splitblock. cbv zeta.
  destruct (Z.ltb_spec (BLEN a - n) n) as [Hlt|Hge].
  - apply wp_bind, wp_allocb; [lia|]. intros b h Hf _.
    pose proof (fresh_empty _ _ Hf) as He. destruct Hf as (Hb & _ & Hroom & _). unfold Tlrspc in *.
    apply wp_bind, wp_bcopy; [done|done|lia|lia|]. intros d (Hwd & Hd & _).
    destruct (bdata_rp a (BLEN a - n)) as [Hw2 Hd2]; [done|lia|].
    apply wp_ret, HQ; [done|done| |unfold BLEN; simpl; lia|done].
    rewrite Hd, He, Hd2. simpl. apply take_drop.
  - apply wp_bind, wp_allocb; [lia|]. intros b h Hf _.
    pose proof (fresh_empty _ _ Hf) as He. destruct Hf as (Hb & Hl0 & Hroom & _). unfold Tlrspc in *.
    destruct (bdata_wp a n) as [Hw2 Hd2]; [done|lia|].
    pose proof Ha as [? ?]. apply wp_bind, wp_bload; unfold BLEN, b_lim in *; simpl; [lia..|].
    set (s := slice (b_wp a - n) n (b_mem a)).
    assert (zlen s = n) as Hzs by (apply zlen_slice; lia).
    apply wp_bind, wp_bstore_end; [done|unfold b_lim; lia|]. intros d (Hwd & Hd & _) Hrp Hwp.
    rewrite Hzs, <- Hwp in *. apply wp_ret.
    apply HQ; [done|done| |simpl; lia|done].
    rewrite Hd2, Hd, He. simpl. unfold bdata, BLEN. rewrite slice_take by lia.
    replace (b_wp a - b_rp a) with ((b_wp a - b_rp a - n) + n) at 2 by lia.
    rewrite slice_app by lia. do 2 f_equal. lia.
Qed.
End block_thms.

(** ** An allocator: addresses go up, every request is met *)

#[export] Instance bump : Heap N := {
  mallocz n h := (Some (Z.of_N h, replicate (Z.to_nat n) 170), (h + Z.to_N n)%N);
  mfree _ h := h
}.
#[export] Instance bump_ok : HeapOk N False.
Proof.
  constructor. intros n h Hn. simpl. unfold zlen. rewrite length_replicate. lia.
Qed.

(** ** Properties *)

Section properties.
Context {H : Type} {HH : Heap H} {nm : Prop} {HO : HeapOk H nm}.

(** [allocb] on any allocator that keeps its promise: it does not panic and
    stores nothing outside the memory it was given; the block it returns is
    empty, its buffer is a multiple of the alignment, [size] bytes and [Tlrspc]
    more fit behind the write pointer and at least 43 bytes of header space lie
    before it; and one more block is live. *)
Theorem allocb_fresh size (st : HS (H := H)) :
  0 <= size ->
  wp (allocb size)
    (fun b st' => wfb b /\ BLEN b = 0 /\ b_wp b + size + Tlrspc <= b_lim b /\ 43 <= b_rp b /\
       BALLOC b mod BLOCKALIGN = 0 /\ snd st' = snd st + 1) (Rx (nm := nm)) st.
Proof using HO.
  intros Hs. apply wp_allocb; [done|]. intros b h (? & ? & ? & ? & ?) _. by split_and!.
Qed.


(** [trimblock] leaves exactly the [len] bytes from [offset] on, or nothing
    when the string is shorter, in a well-formed string, and frees every block
    it drops: the unsigned comparisons of its loops are harmless. *)
Theorem trimblock_slice bl offset len (st : HS (H := H)) :
  bl <> [] -> wfbl bl -> zlen (bytes bl) < 2 ^ 31 -> 0 <= offset -> 0 <= len ->
  wp (trimblock bl offset len)
    (fun r st' => wfbl r /\ snd st' - snd st = zlen r - zlen bl /\
       bytes r = if zlen (bytes bl) <? offset + len then [] else slice offset len (bytes bl))
    (fun _ _ => False) st.
Proof using.
  intros Hne Hw Hz Ho Hl. apply wp_trimblock; try done.
Qed.

(** [adjustblock] makes the first block hold exactly [len] bytes: the bytes
    it had, cut or zero-filled in place, or, when its buffer is too small, the
    bytes of the whole string, cut or zero-filled, in one new block; a negative
    length frees the block. *)
Theorem adjustblock_length bp next len (st : HS (H := H)) :
  wfbl (bp :: next) ->
  wp (adjustblock (bp :: next) len)
    (fun r st' => wfbl r /\
       match r with
       | [] => len < 0 /\ snd st' = snd st - 1
       | d :: rest =>
           0 <= len /\ BLEN d = len /\ snd st' - snd st = zlen rest - zlen next /\
           (rest = next /\ bdata d = take_zero len (bdata bp) \/
            rest = [] /\ bdata d = take_zero len (bytes (bp :: next)))
       end) (Rx (nm := nm)) st.
Proof using HO.
  intros Hw. apply wp_adjustblock; [done|]. intros [|d rest] st' Hwr Hr; [done|].
  split; [done|]. destruct Hr as (Hl & Hs & Hd). split_and!; [done| |done|done].
  rewrite <- zlen_bdata by by apply Forall_inv in Hwr.
  destruct Hd as [[_ ->]|[_ ->]]; unfold take_zero, zlen;
    rewrite length_take, length_app, length_replicate; lia.
Qed.

(** [padblock] adds [size] bytes in front of the first block's bytes, or
    makes [-size] bytes of room behind them, keeping those bytes and the rest
    of the string whether or not it has to move the block. *)
Theorem padblock_room bp next size (st : HS (H := H)) :
  wfbl (bp :: next) ->
  wp (padblock (bp :: next) size)
    (fun r st' => wfbl r /\ snd st' = snd st /\
       exists nbp pad, r = nbp :: next /\ bdata nbp = pad ++ bdata bp /\
         zlen pad = Z.max 0 size /\ - size <= b_lim nbp - b_wp nbp) (Rx (nm := nm)) st.
Proof using HO.
  intros [Hb Hw]%Forall_cons_1. apply wp_padblock; [done|].
  intros nbp st' pad Hwn Hp Hd Hr Hs. split_and!; [by constructor|done|]. by exists nbp, pad.
Qed.
End properties.

(** ** Witnesses *)

Definition blk (s : list Z) (rp wp : Z) : Block := mkBlock 0 s rp wp 0.
Definition bl0 : list Block := [blk [9; 1; 2; 9] 1 3; blk [3] 0 1; blk [9; 4; 5; 6] 1 4].
Definition st0 : HS (H := N) := (8192%N, 3).

Lemma bl0_wf : wfbl bl0.
Proof. repeat constructor; unfold b_lim, zlen; simpl; lia. Qed.

Lemma allocb_fresh_witness :
  0 <= 100 /\
  wp (allocb 100) (fun b st' => wfb b /\ BLEN b = 0 /\ b_wp b + 100 + Tlrspc <= b_lim b /\
     43 <= b_rp b /\ BALLOC b mod BLOCKALIGN = 0 /\ snd st' = 4) (fun _ _ => False) st0.
Proof.
  assert (0 <= 100) as Hs by lia. split; [exact Hs|].
  pose proof (allocb_fresh (HO := bump_ok) 100 st0 Hs) as E.
  eapply wp_mono; [exact E|intros b st' Q; exact Q|intros v st' [_ []]].
Defined.


Lemma trimblock_slice_witness :
  (bl0 <> [] /\ wfbl bl0 /\ zlen (bytes bl0) < 2 ^ 31) /\
  wp (trimblock bl0 1 3) (fun r st' => wfbl r /\ snd st' - 3 = zlen r - 3 /\ bytes r = [2; 3; 4])
    (fun _ _ => False) st0.
Proof.
  assert (bl0 <> []) as Hne by discriminate. assert (zlen (bytes bl0) < 2 ^ 31) as Hz by done.
  split; [exact (conj Hne (conj bl0_wf Hz))|].
  exact (trimblock_slice bl0 1 3 st0 Hne bl0_wf Hz ltac:(lia) ltac:(lia)).
Defined.

Lemma adjustblock_length_witness :
  wfbl bl0 /\
  exists d st', adjustblock bl0 5 st0 = (Ok [d], st') /\ bdata d = [1; 2; 3; 4; 5] /\
    BLEN d = 5 /\ snd st' = 1.
Proof.
  split; [exact bl0_wf|].
  assert (exists d st', adjustblock bl0 5 st0 = (Ok [d], st') /\ bdata d = [1; 2; 3; 4; 5] /\
    snd st' = 1) as (d & st' & E & Hd & Hs).
  { eexists _, _. split; [vm_compute; reflexivity|]. split; reflexivity. }
  exists d, st'. split; [exact E|]. split; [exact Hd|]. split; [|exact Hs].
  destruct (wp_at _ _ _ _ _ _ (adjustblock_length (HO := bump_ok) _ _ 5 st0 bl0_wf) E) as (_ & _ & Hb & _).
  exact Hb.
Defined.

Lemma padblock_room_witness :
  wfbl bl0 /\
  wp (padblock bl0 5) (fun r st' => snd st' = 3 /\ exists nbp pad, bdata nbp = pad ++ [1; 2] /\
     r = nbp :: tail bl0 /\ zlen pad = 5) (fun _ _ => False) st0.
Proof.
  split; [exact bl0_wf|].
  pose proof (padblock_room (HO := bump_ok) (blk [9; 1; 2; 9] 1 3)
    [blk [3] 0 1; blk [9; 4; 5; 6] 1 4] 5 st0 bl0_wf) as E.
  eapply wp_mono; [exact E| |intros v st' [_ []]].
  intros r st' (_ & Hs & nbp & pad & Hr & Hd & Hp & _). split; [exact Hs|].
  exists nbp, pad. split; [exact Hd|]. split; [exact Hr|exact Hp].
Defined.
