(* ===== verification/Qio.v ===== *)
(** * Kernel queues: [sys/src/kern/port/qio.c]

    A [Queue] is its blocks in order ([bfirst] is the head, [blast] the last
    block of a queue that is not empty) and its counters.  Between [ilock] and
    [iunlock] nothing else runs on the queue, so such a stretch is one run of
    the monad; what it does after the lock is released ([wakeup], [kick], the
    bypass, a process going to sleep) is the list of events it emits, in
    order.  A routine that sleeps leaves with [Sleeping]; the process resumes by
    running the routine again from the same place, its loop's head. *)
From S2P Require Import Prelude CMonad Bytes Block.

(** ** Data *)

Record Queue : Type := mkQueue {
  bfirst : list Block;
  q_len : Z;
  q_dlen : Z;
  q_limit : Z;
  q_inilim : Z;
  q_state : Z;
  q_noblock : Z;
  q_eof : Z;
  q_kick : bool;
  q_bypass : bool;
  q_err : list Z
}.

Definition Qstarve : Z := Z.shiftl 1 0.
Definition Qmsg : Z := Z.shiftl 1 1.
Definition Qclosed : Z := Z.shiftl 1 2.
Definition Qflow : Z := Z.shiftl 1 3.
Definition Qcoalesce : Z := Z.shiftl 1 4.
Definition Qkick : Z := Z.shiftl 1 5.

Definition Maxatomic : Z := 64 * 1024.
Definition ERRMAX : Z := 128.
(** "i/o on hungup channel" *)
Definition Ehungup : list Z :=
  [105; 47; 111; 32; 111; 110; 32; 104; 117; 110; 103; 117; 112; 32; 99; 104; 97; 110; 110; 101; 108].

Definition set_bfirst v q := mkQueue v (q_len q) (q_dlen q) (q_limit q) (q_inilim q) (q_state q)
  (q_noblock q) (q_eof q) (q_kick q) (q_bypass q) (q_err q).
Definition set_len v q := mkQueue (bfirst q) v (q_dlen q) (q_limit q) (q_inilim q) (q_state q)
  (q_noblock q) (q_eof q) (q_kick q) (q_bypass q) (q_err q).
Definition set_dlen v q := mkQueue (bfirst q) (q_len q) v (q_limit q) (q_inilim q) (q_state q)
  (q_noblock q) (q_eof q) (q_kick q) (q_bypass q) (q_err q).
Definition set_limit v q := mkQueue (bfirst q) (q_len q) (q_dlen q) v (q_inilim q) (q_state q)
  (q_noblock q) (q_eof q) (q_kick q) (q_bypass q) (q_err q).
Definition set_state v q := mkQueue (bfirst q) (q_len q) (q_dlen q) (q_limit q) (q_inilim q) v
  (q_noblock q) (q_eof q) (q_kick q) (q_bypass q) (q_err q).
Definition set_noblock v q := mkQueue (bfirst q) (q_len q) (q_dlen q) (q_limit q) (q_inilim q)
  (q_state q) v (q_eof q) (q_kick q) (q_bypass q) (q_err q).
Definition set_eof v q := mkQueue (bfirst q) (q_len q) (q_dlen q) (q_limit q) (q_inilim q)
  (q_state q) (q_noblock q) v (q_kick q) (q_bypass q) (q_err q).
Definition set_err v q := mkQueue (bfirst q) (q_len q) (q_dlen q) (q_limit q) (q_inilim q)
  (q_state q) (q_noblock q) (q_eof q) (q_kick q) (q_bypass q) v.

(** [q->state & bits], [q->state |= bits], [q->state &= ~bits] *)
Definition has (bits : Z) (q : Queue) : bool := negb (Z.land (q_state q) bits =? 0).
Definition raise_ (bits : Z) (q : Queue) : Queue := set_state (Z.lor (q_state q) bits) q.
Definition lower (bits : Z) (q : Queue) : Queue := set_state (Z.land (q_state q) (Z.lnot bits)) q.

(** [kstrcpy] of [chan.c] into a buffer of [ns] bytes; the strings are the
    bytes before the NUL. *)
Fixpoint utf8_back (t : list Z) (k : nat) : nat :=
  match k with
  | O => O
  | S k' => if Z.land (default 0 (t !! k')) 192 =? 128 then utf8_back t k' else k'
  end.
Definition kstrcpy (t : list Z) (ns : Z) : list Z :=
  if zlen t + 1 <=? ns then t
  else if ns <? 4 then take (Z.to_nat ns) t
  else take (utf8_back t (Z.to_nat (ns - 4))) t ++ [46; 46; 46].

(** ** The store and its primitives *)

Inductive Event : Type :=
| WakeR            (** [wakeup(&q->rr)] *)
| WakeW            (** [wakeup(&q->wr)] *)
| Kick             (** [q->kick(q->arg)] *)
| SleepW           (** [sleep(&q->wr, qnotfull, q)] *)
| Bypass (b : list Block).

(** Other ways not to come back: asleep on [rr], [error(q->err)]. *)
Definition Sleeping : Z := 3.
Definition Error : Z := 4.

Section qio.
Context {H : Type} `{Heap H}.

Record K : Type := mkK { k_hs : HS (H := H); k_q : Queue; k_ev : list Event }.

Definition lift {A} (m : M HS A) : M K A :=
  fun k => let '(r, hs) := m (k_hs k) in (r, mkK hs (k_q k) (k_ev k)).
Definition getq : M K Queue := gets k_q.
Definition updq (f : Queue -> Queue) : M K () := modify (fun k => mkK (k_hs k) (f (k_q k)) (k_ev k)).
Definition emit (e : Event) : M K () := modify (fun k => mkK (k_hs k) (k_q k) (k_ev k ++ [e])).
Definition when (b : bool) (m : M K ()) : M K () := if b then m else mret tt.

(** [if(q->state & bit){ q->state &= ~bit; dowakeup = 1; } else dowakeup = 0;] *)
Definition take_bit (bit : Z) : M K bool :=
  q ← getq; if has bit q then updq (lower bit);; mret true else mret false.

(** If the writer is flow controlled and [q->len] is below [thr], restart. *)
Definition unflow (thr : Z) : M K bool :=
  q ← getq;
  if has Qflow q && (q_len q <? thr) then updq (lower Qflow);; mret true else mret false.

(** ** Lists of blocks in a queue *)

Definition qaddlist (b : list Block) : M K Z :=
  match b with
  | [] => undefined
  | _ =>
      updq (fun q => set_dlen (q_dlen q + blocklen b)
        (set_len (q_len q + blockalloclen b) (set_bfirst (bfirst q ++ b) q)));;
      mret (blocklen b)
  end.

Definition qremove : M K (option Block) :=
  q ← getq;
  match bfirst q with
  | [] => mret None
  | b :: next =>
      updq (fun q => set_len (q_len q - BALLOC b) (set_dlen (q_dlen q - BLEN b) (set_bfirst next q)));;
      mret (Some b)
  end.

Definition qputback (b : Block) : M K () :=
  updq (fun q => set_dlen (q_dlen q + BLEN b)
    (set_len (q_len q + BALLOC b) (set_bfirst (b :: bfirst q) q))).

Definition pullupqueue (n : Z) : M K (list Block) :=
  q ← getq;
  match bfirst q with
  | [] => undefined
  | b :: _ =>
      if n <=? BLEN b then mret (bfirst q)
      else
        r ← lift (pullupblock (bfirst q) n);
        updq (set_bfirst r);;
        mret r
  end.

(** ** Non-blocking consumers *)

Definition qget : M K (option Block) :=
  q ← getq;
  match bfirst q with
  | [] => updq (raise_ Qstarve);; mret None
  | b :: next =>
      updq (set_bfirst next);;
      updq (fun q => set_len (q_len q - BALLOC b) q);;
      updq (fun q => set_dlen (q_dlen q - BLEN b) q);;
      q ← getq;
      dowakeup ← unflow (Z.quot (q_limit q) 2);
      when dowakeup (emit WakeW);;
      mret (Some b)
  end.

(** The loop of [qdiscard] over the queue's blocks [bl]; the blocks to free are
    collected in [tofree]. *)
Fixpoint qdiscard_loop (bl : list Block) (len sofar : Z) (tofree : list Block)
    : M K (Z * list Block) :=
  match bl with
  | [] => mret (sofar, tofree)
  | b :: next =>
      if sofar <? len then
        let n := BLEN b in
        if n <=? len - sofar then
          updq (fun q => set_dlen (q_dlen q - BLEN b) (set_len (q_len q - BALLOC b) (set_bfirst next q)));;
          qdiscard_loop next len (sofar + n) (b :: tofree)
        else
          let n := len - sofar in
          updq (fun q => set_dlen (q_dlen q - n) (set_bfirst (set_rp (b_rp b + n) b :: next) q));;
          mret (sofar + n, tofree)
      else mret (sofar, tofree)
  end.

Definition qdiscard (len : Z) : M K Z :=
  q ← getq;
  '(sofar, tofree) ← qdiscard_loop (bfirst q) len 0 [];
  q ← getq;
  dowakeup ← unflow (q_limit q);
  when dowakeup (emit WakeW);;
  lift (freeblist tofree);;
  mret sofar.

(** [qconsume]'s search for a block that is not empty. *)
Fixpoint consume_skip (bl tofree : list Block) : M K (option (Block * list Block) * list Block) :=
  match bl with
  | [] => updq (raise_ Qstarve);; mret (None, tofree)
  | b :: next =>
      if 0 <? BLEN b then mret (Some (b, next), tofree)
      else
        updq (fun q => set_len (q_len q - BALLOC b) (set_bfirst next q));;
        consume_skip next (b :: tofree)
  end.

(** The count returned and the bytes stored at [vp]. *)
Definition qconsume (len : Z) : M K (Z * list Z) :=
  q ← getq;
  '(o, tofree) ← consume_skip (bfirst q) [];
  '(r, tofree) ←
    (match o with
     | None => mret ((-1, []), tofree)
     | Some (b, next) =>
         let n := BLEN b in
         let len := if n <? len then n else len in
         s ← lift (bload b (b_rp b) len);
         let b := set_rp (b_rp b + len) b in
         updq (fun q => set_dlen (q_dlen q - len) (set_bfirst (b :: next) q));;
         q ← getq;
         if has Qmsg q || (len =? n) then
           updq (fun q => set_dlen (q_dlen q - BLEN b) (set_len (q_len q - BALLOC b) (set_bfirst next q)));;
           mret ((len, s), b :: tofree)
         else mret ((len, s), tofree)
     end);
  q ← getq;
  dowakeup ← unflow (Z.quot (q_limit q) 2);
  when dowakeup (emit WakeW);;
  lift (freeblist tofree);;
  mret r.

(** ** Non-blocking producers *)

Definition qpass_tail (b : list Block) : M K Z :=
  len ← qaddlist b;
  q ← getq;
  when (Z.quot (q_limit q) 2 <=? q_len q) (updq (raise_ Qflow));;
  dowakeup ← take_bit Qstarve;
  when dowakeup (emit WakeR);;
  mret len.

Definition qpass (b : list Block) : M K Z :=
  q ← getq;
  if q_limit q <=? q_len q then lift (freeblist b);; mret (-1)
  else if has Qclosed q then lift (freeblist b);; mret 0
  else qpass_tail b.

Definition qpassnolim (b : list Block) : M K Z :=
  q ← getq;
  if has Qclosed q then lift (freeblist b);; mret 0
  else qpass_tail b.

Definition qproduce (p : list Z) : M K Z :=
  let len := zlen p in
  o ← lift (iallocb len);
  match o with
  | None => mret 0
  | Some b =>
      q ← getq;
      if q_limit q <=? q_len q then updq (raise_ Qflow);; mret (-1)
      else
        b ← lift (bstore b (b_wp b) p);
        let b := set_wp (b_wp b + len) b in
        qaddlist [b];;
        dowakeup ← take_bit Qstarve;
        q ← getq;
        when (q_limit q <=? q_len q) (updq (raise_ Qflow));;
        when dowakeup (emit WakeR);;
        mret len
  end.

Definition qcopy (len offset : Z) : M K Block :=
  b ← lift (allocb len);
  q ← getq;
  s ← lift (readblist (bfirst q) len offset);
  b ← lift (bstore b (b_wp b) s);
  mret (set_wp (b_wp b + zlen s) b).

(** ** Opening, closing, state *)

(** A new queue; the fields the code leaves to [malloc]'s zeros are zero. *)
Definition qopen (limit msg : Z) (kick : bool) : Queue :=
  raise_ Qstarve (mkQueue [] 0 0 limit limit msg 0 0 kick false []).
Definition qbypass_ : Queue := mkQueue [] 0 0 0 0 0 0 0 false true [].

Definition notempty (q : Queue) : bool := has Qclosed q || negb (bool_decide (bfirst q = [])).
Definition qnotfull (q : Queue) : bool := (q_len q <? q_limit q) || has Qclosed q.

Definition qclose : M K () :=
  updq (raise_ Qclosed);;
  updq (lower (Z.lor Qflow Qstarve));;
  updq (set_err (kstrcpy Ehungup ERRMAX));;
  q ← getq;
  let bl := bfirst q in
  updq (fun q => set_noblock 0 (set_dlen 0 (set_len 0 (set_bfirst [] q))));;
  lift (freeblist bl);;
  emit WakeR;;
  emit WakeW.

(** [msg] is [nil] or the bytes of the string. *)
Definition qhangup (msg : option (list Z)) : M K () :=
  updq (raise_ Qclosed);;
  let msg := match msg with None => Ehungup | Some [] => Ehungup | Some s => s end in
  updq (set_err (kstrcpy msg ERRMAX));;
  emit WakeR;;
  emit WakeW.

Definition qisclosed (q : Queue) : Z := Z.land (q_state q) Qclosed.

Definition qreopen : M K () :=
  updq (lower Qclosed);;
  updq (raise_ Qstarve);;
  updq (set_eof 0);;
  updq (fun q => set_limit (q_inilim q) q).

Definition qlen (q : Queue) : Z := q_dlen q.
Definition qwindow (q : Queue) : Z :=
  let l := q_limit q - q_len q in if l <? 0 then 0 else l.
Definition qcanread (q : Queue) : bool := negb (bool_decide (bfirst q = [])).
Definition qsetlimit (limit : Z) : M K () := updq (set_limit limit).
Definition qnoblock (onoff : Z) : M K () := updq (set_noblock onoff).

Definition qflush : M K () :=
  q ← getq;
  let bl := bfirst q in
  updq (fun q => set_dlen 0 (set_len 0 (set_bfirst [] q)));;
  lift (freeblist bl);;
  emit WakeW.

Definition qfull (q : Queue) : Z := Z.land (q_state q) Qflow.
Definition qstate (q : Queue) : Z := q_state q.

(** ** Readers *)

(** 1: there is a block; 0: closed; -1: closed, and an error is due. *)
Definition qwait : M K Z :=
  q ← getq;
  match bfirst q with
  | _ :: _ => mret 1
  | [] =>
      if has Qclosed q then
        updq (fun q => set_eof (q_eof q + 1) q);;
        q ← getq;
        if 3 <? q_eof q then mret (-1)
        else if negb (bool_decide (q_err q = [])) && negb (bool_decide (q_err q = Ehungup))
        then mret (-1)
        else mret 0
      else
        updq (raise_ Qstarve);;
        leave Sleeping
  end.

Definition qwakeup_iunlock : M K () :=
  q ← getq;
  dowakeup ← unflow (Z.quot (q_limit q) 2);
  when dowakeup (when (q_kick q) (emit Kick);; emit WakeW).

Definition qbread (len : Z) : M K (option Block) :=
  r ← qwait;
  if r =? 0 then mret None
  else if r =? -1 then leave Error
  else
    o ← qremove;
    b ← of_option o;
    let n := BLEN b in
    q ← getq;
    b ←
      (if len <? n then
         let n := n - len in
         if negb (has Qmsg q) then
           '(b, t) ← lift (splitblock b n);
           qputback t;;
           mret b
         else mret (set_wp (b_wp b - n) b)
       else mret b);
    qwakeup_iunlock;;
    mret (Some b).

(** The gathering loop of a coalescing read: [bl] is the queue, [n] the bytes
    gathered so far; the blocks gathered and their bytes. *)
Fixpoint gather (bl : list Block) (len n : Z) : M K (list Block * Z) :=
  match bl with
  | [] => mret ([], n)
  | b :: next =>
      let m := BLEN b in
      qremove;;
      let n := n + m in
      if (len <=? n) || bool_decide (next = []) then mret ([b], n)
      else
        '(r, n) ← gather next len n;
        mret (b :: r, n)
  end.

(** [*last = head; qputback(q, tail)] for the last block of [first]. *)
Fixpoint split_last (first : list Block) (n : Z) : M K (list Block) :=
  match first with
  | [] => undefined
  | [b] => '(h, t) ← lift (splitblock b n); qputback t;; mret [h]
  | b :: r => r ← split_last r n; mret (b :: r)
  end.

(** From [again:] on.  Every [goto again] has removed a block, so the length of
    the queue and one more are enough rounds. *)
Fixpoint qread_again (fuel : nat) (len : Z) : M K (list Z) :=
  match fuel with
  | O => undefined
  | S fuel' =>
      r ← qwait;
      if r =? 0 then mret []
      else if r =? -1 then leave Error
      else
        q ← getq;
        match bfirst q with
        | [] => undefined
        | b :: _ =>
            if has Qcoalesce q && (BLEN b <=? 0) then
              o ← qremove;
              b ← of_option o;
              lift (freeb b);;
              qread_again fuel' len
            else
              '(first, n) ←
                (if has Qcoalesce q then gather (bfirst q) len 0
                 else o ← qremove; b ← of_option o; mret ([b], BLEN b));
              q ← getq;
              first ← (if (len <? n) && negb (has Qmsg q) then split_last first (n - len) else mret first);
              qwakeup_iunlock;;
              s ← lift (readblist first len 0);
              lift (freeblist first);;
              mret s
        end
  end.

(** The bytes stored at [vp]; their number is what [qread] returns. *)
Definition qread (len : Z) : M K (list Z) :=
  q ← getq; qread_again (S (length (bfirst q))) len.

(** ** Writers *)

(** One round of [qflow]: the process goes on, or it asks to be woken and
    sleeps on [wr], after which the loop starts over. *)
Definition qflow : M K () :=
  q ← getq;
  if negb (q_noblock q =? 0) || qnotfull q then mret tt
  else updq (raise_ Qflow);; emit SleepW.

(** [qbwrite] up to [qflow]; [None] where it returns without getting there. *)
Definition qbwrite_insert (b : list Block) : M K (Z * bool) :=
  q ← getq;
  if q_bypass q then
    let len := blocklen b in
    emit (Bypass b);;
    mret (len, false)
  else if has Qclosed q then lift (freeblist b);; leave Error
  else if (q_limit q <=? q_len q) && negb (q_noblock q =? 0) then
    let len := blocklen b in
    lift (freeblist b);;
    mret (len, false)
  else
    len ← qaddlist b;
    dowakeup ← take_bit Qstarve;
    q ← getq;
    when (q_kick q && (dowakeup || has Qkick q)) (emit Kick);;
    when dowakeup (emit WakeR);;
    mret (len, true).

Definition qbwrite (b : list Block) : M K Z :=
  '(len, flow) ← qbwrite_insert b;
  when flow qflow;;
  mret len.

(** [do{ ... }while(sofar < len && (q->state & Qmsg) == 0)]; a round adds at
    least a byte, so [len] rounds and one more are enough. *)
Fixpoint qwrite_loop (fuel : nat) (p : list Z) (sofar : Z) : M K () :=
  match fuel with
  | O => undefined
  | S fuel' =>
      let len := zlen p in
      let n := len - sofar in
      let n := if Maxatomic <? n then Maxatomic else n in
      b ← lift (allocb n);
      s ← of_option (load sofar n p);
      b ← lift (bstore b (b_wp b) s);
      let b := set_wp (b_wp b + n) b in
      k ← qbwrite [b];
      let sofar := sofar + k in
      q ← getq;
      if (sofar <? len) && negb (has Qmsg q) then qwrite_loop fuel' p sofar else mret tt
  end.

Definition qwrite (p : list Z) : M K Z :=
  q ← getq;
  when ((q_limit q <=? Z.quot (q_len q) 2) && (q_noblock q =? 0) && negb (q_bypass q)) qflow;;
  qwrite_loop (S (length p)) p 0;;
  mret (zlen p).

(** [dowakeup] is not reset between rounds. *)
Fixpoint qiwrite_loop (fuel : nat) (p : list Z) (sofar : Z) (dowakeup : bool) : M K Z :=
  match fuel with
  | O => undefined
  | S fuel' =>
      let len := zlen p in
      let n := len - sofar in
      let n := if Maxatomic <? n then Maxatomic else n in
      o ← lift (iallocb n);
      match o with
      | None => mret sofar
      | Some b =>
          s ← of_option (load sofar n p);
          b ← lift (bstore b (b_wp b) s);
          let b := set_wp (b_wp b + n) b in
          q ← getq;
          if has Qclosed q || (q_limit q <=? Z.quot (q_len q) 2) then
            lift (freeb b);; mret sofar
          else
            qaddlist [b];;
            w ← take_bit Qstarve;
            let dowakeup := dowakeup || w in
            q ← getq;
            when dowakeup (when (q_kick q) (emit Kick);; emit WakeR);;
            let sofar := sofar + n in
            q ← getq;
            if (sofar <? len) && negb (has Qmsg q)
            then qiwrite_loop fuel' p sofar dowakeup else mret sofar
      end
  end.
Definition qiwrite (p : list Z) : M K Z := qiwrite_loop (S (length p)) p 0 false.

(** [qfree] closes the queue and releases the [Queue] itself. *)
Definition qfree : M K () := qclose.
End qio.
