(* ===== verification/QioThms.v ===== *)
(** * Queues keep their accounts and their bytes

    What every routine of [qio.c] does to a queue: the counters stay the sizes
    of the blocks, no block is lost, the bytes keep their order, and a reader
    that waits is woken. *)
From S2P Require Import Prelude CMonad Bytes Block BlockThms Qio.

#[local] Arguments has : simpl never.
#[local] Arguments BLEN : simpl never.
#[local] Arguments BALLOC : simpl never.
#[local] Arguments bytes : simpl never.
#[local] Arguments blockalloclen : simpl never.

(** ** State bits *)

Lemma land_bit s k : 0 <= k -> (Z.land s (Z.shiftl 1 k) =? 0) = negb (Z.testbit s k).
Proof.
  intros Hk. rewrite Z.shiftl_1_l. destruct (Z.testbit s k) eqn:E; cbn [negb].
  - apply Z.eqb_neq. intros H0.
    assert (Z.testbit (Z.land s (2 ^ k)) k = true) as Ht
      by by rewrite Z.land_spec, E, Z.pow2_bits_true.
    by rewrite H0, Z.bits_0 in Ht.
  - apply Z.eqb_eq, Z.bits_inj'. intros n Hn. rewrite Z.land_spec, Z.bits_0, Z.pow2_bits_eqb by done.
    destruct (Z.eqb_spec k n) as [->|]; [by rewrite E|apply andb_false_r].
Qed.
Lemma has_bit q k : 0 <= k -> has (Z.shiftl 1 k) q = Z.testbit (q_state q) k.
Proof. intros. unfold has. rewrite land_bit by done. apply negb_involutive. Qed.
Lemma has_raise q k j : 0 <= k -> 0 <= j ->
  has (Z.shiftl 1 k) (raise_ (Z.shiftl 1 j) q) = has (Z.shiftl 1 k) q || (j =? k).
Proof.
  intros. rewrite !has_bit by done. cbn [raise_ set_state q_state].
  rewrite Z.lor_spec, Z.shiftl_1_l, Z.pow2_bits_eqb by done. done.
Qed.
Lemma has_lower q k j : 0 <= k -> 0 <= j ->
  has (Z.shiftl 1 k) (lower (Z.shiftl 1 j) q) = has (Z.shiftl 1 k) q && negb (j =? k).
Proof.
  intros. rewrite !has_bit by done. cbn [lower set_state q_state].
  rewrite Z.land_spec, Z.lnot_spec, Z.shiftl_1_l, Z.pow2_bits_eqb by done. done.
Qed.
Lemma lower_lor q a b : lower (Z.lor a b) q = lower b (lower a q).
Proof.
  unfold lower, set_state. cbn. by rewrite Z.lnot_lor, Z.land_assoc.
Qed.

(** Decides a bit after other bits were set and cleared. *)
Ltac bit_simp :=
  unfold Qstarve, Qmsg, Qclosed, Qflow, Qcoalesce, Qkick in *;
  rewrite ?lower_lor in *;
  repeat first [rewrite has_raise in * by done | rewrite has_lower in * by done];
  cbn [Z.eqb Pos.eqb negb] in *; rewrite ?orb_false_r, ?orb_true_r, ?andb_true_r, ?andb_false_r in *.

(** ** The invariant *)

Definition wfq (q : Queue) : Prop :=
  wfbl (bfirst q) /\ q_len q = blockalloclen (bfirst q) /\ q_dlen q = zlen (bytes (bfirst q)).

(** A reader that sleeps now has what makes a producer wake it. *)
Definition waiting (q : Queue) : Prop :=
  bfirst q = [] /\ has Qclosed q = false /\ has Qstarve q = true.
Definition wake_ok (q q' : Queue) (e : list Event) : Prop :=
  waiting q -> waiting q' \/ WakeR ∈ e.

Lemma wake_ok_refl q e : wake_ok q q e.
Proof. intros H. by left. Qed.
Lemma wake_ok_trans q1 q2 q3 e1 e2 :
  wake_ok q1 q2 e1 -> wake_ok q2 q3 e2 -> wake_ok q1 q3 (e1 ++ e2).
Proof.
  intros H1 H2 Hw. rewrite elem_of_app. destruct (H1 Hw) as [Hw2|Hin]; [|tauto].
  destruct (H2 Hw2); tauto.
Qed.

Lemma blockalloclen_app bl bl' :
  blockalloclen (bl ++ bl') = blockalloclen bl + blockalloclen bl'.
Proof.
  induction bl as [|b bl IH]; [done|].
  change (blockalloclen ((b :: bl) ++ bl')) with (BALLOC b + blockalloclen (bl ++ bl')).
  change (blockalloclen (b :: bl)) with (BALLOC b + blockalloclen bl). lia.
Qed.
Lemma blockalloclen_nonneg bl : 0 <= blockalloclen bl.
Proof.
  induction bl as [|b bl IH]; [done|]. change (blockalloclen (b :: bl)) with (BALLOC b + blockalloclen bl).
  unfold BALLOC, b_lim. pose proof (zlen_nonneg (b_mem b)). lia.
Qed.
Lemma wfq_len q : wfq q -> 0 <= q_len q.
Proof. intros (_ & -> & _). apply blockalloclen_nonneg. Qed.

(** A writer that sleeps has [Qflow] set, or its wakeup is on the way; a writer
    about to sleep finds the flag set or the queue not full. *)
Definition flow_ok (q q' : Queue) (e : list Event) : Prop :=
  has Qflow q = true -> has Qflow q' = true \/ WakeW ∈ e.
Definition parked (q : Queue) : Prop := has Qflow q = true \/ qnotfull q = true.
Definition park_ok (q q' : Queue) : Prop := parked q -> parked q'.

Lemma flow_ok_refl q e : flow_ok q q e.
Proof. intros H. by left. Qed.
Lemma flow_ok_trans q1 q2 q3 e1 e2 :
  flow_ok q1 q2 e1 -> flow_ok q2 q3 e2 -> flow_ok q1 q3 (e1 ++ e2).
Proof.
  intros H1 H2 Hw. rewrite elem_of_app. destruct (H1 Hw) as [Hw2|Hin]; [|tauto].
  destruct (H2 Hw2); tauto.
Qed.

Section qio_thms.
Context {H : Type} {HH : Heap H} {nm : Prop} {HO : HeapOk H nm}.
Implicit Types (k : K (H := H)) (q : Queue) (b : Block) (bl : list Block).

(** ** Rules for the primitives *)

Lemma wp_getq (Q : Queue -> K -> Prop) R k : Q (k_q k) k -> wp getq Q R k.
Proof using. done. Qed.
Lemma wp_updq f (Q : () -> K -> Prop) R k :
  Q tt (mkK (k_hs k) (f (k_q k)) (k_ev k)) -> wp (updq f) Q R k.
Proof using. done. Qed.
Lemma wp_emit e (Q : () -> K -> Prop) R k :
  Q tt (mkK (k_hs k) (k_q k) (k_ev k ++ [e])) -> wp (emit e) Q R k.
Proof using. done. Qed.
Lemma wp_when (b : bool) (m : M K ()) Q R k :
  (b = true -> wp m Q R k) -> (b = false -> Q tt k) -> wp (when b m) Q R k.
Proof using. intros H1 H2. destruct b; [by apply H1|by apply H2]. Qed.
Lemma wp_lift {A} (m : M HS A) (Q : A -> K -> Prop) R k :
  wp m (fun a hs => Q a (mkK hs (k_q k) (k_ev k))) (fun v hs => R v (mkK hs (k_q k) (k_ev k))) (k_hs k) ->
  wp (lift m) Q R k.
Proof using. unfold wp, lift. destruct (m (k_hs k)) as [[a|v|] hs]; done. Qed.
(** A block routine that may run out of memory. *)
Lemma wp_lift_rx {A} (m : M HS A) (Q : A -> K -> Prop) (R : Z -> K -> Prop) k :
  (nm -> forall hs, R NoMem (mkK hs (k_q k) (k_ev k))) ->
  wp m (fun a hs => Q a (mkK hs (k_q k) (k_ev k))) (Rx (nm := nm)) (k_hs k) ->
  wp (lift m) Q R k.
Proof using.
  intros HR Hm. apply wp_lift. eapply wp_mono; [exact Hm|done|].
  intros v hs [-> Hn]. auto.
Qed.
Lemma wp_unflow thr (Q : bool -> K -> Prop) R k :
  (has Qflow (k_q k) = true -> q_len (k_q k) < thr ->
     Q true (mkK (k_hs k) (lower Qflow (k_q k)) (k_ev k))) ->
  Q false k ->
  wp (unflow thr) Q R k.
Proof using.
  intros H1 H2. unfold unflow. apply wp_bind, wp_getq.
  destruct (has Qflow (k_q k)) eqn:E; simpl; [|by apply wp_ret].
  destruct (Z.ltb_spec (q_len (k_q k)) thr); simpl; [|by apply wp_ret].
  apply wp_bind, wp_updq, wp_ret. auto.
Qed.
Lemma wp_take_bit bit (Q : bool -> K -> Prop) R k :
  (has bit (k_q k) = true -> Q true (mkK (k_hs k) (lower bit (k_q k)) (k_ev k))) ->
  (has bit (k_q k) = false -> Q false k) ->
  wp (take_bit bit) Q R k.
Proof using.
  intros H1 H2. unfold take_bit. apply wp_bind, wp_getq.
  destruct (has bit (k_q k)) eqn:E; [|by apply wp_ret; auto].
  apply wp_bind, wp_updq, wp_ret. auto.
Qed.

(** ** What a routine does to the accounts *)

(** [gain] is the number of blocks handed to the caller less those taken from
    it; [pk] says that the routine never fills a queue behind [Qflow]'s back. *)
Definition good (pk : Prop) (gain : Z) k k' : Prop :=
  wfq (k_q k') /\
  snd (k_hs k') - zlen (bfirst (k_q k')) = snd (k_hs k) - zlen (bfirst (k_q k)) + gain /\
  exists e, k_ev k' = k_ev k ++ e /\ wake_ok (k_q k) (k_q k') e /\ flow_ok (k_q k) (k_q k') e /\
    (pk -> park_ok (k_q k) (k_q k')).

(** Fields a consumer leaves alone. *)
Definition same_conf q q' : Prop :=
  q_limit q' = q_limit q /\ q_inilim q' = q_inilim q /\ q_noblock q' = q_noblock q /\
  q_eof q' = q_eof q /\ q_kick q' = q_kick q /\ q_bypass q' = q_bypass q /\ q_err q' = q_err q.
(** The state bits agree except [Qflow] and [Qstarve]. *)
Definition same_mode q q' : Prop :=
  has Qclosed q' = has Qclosed q /\ has Qmsg q' = has Qmsg q /\
  has Qcoalesce q' = has Qcoalesce q /\ has Qkick q' = has Qkick q.

Lemma same_mode_eq q q' : q_state q' = q_state q -> same_mode q q'.
Proof using. intros E. unfold same_mode, has. by rewrite E. Qed.
Lemma same_mode_refl q : same_mode q q.
Proof using. by apply same_mode_eq. Qed.
Lemma same_conf_refl q : same_conf q q.
Proof using. unfold same_conf. by split_and!. Qed.
Lemma has_state q q' (b : Z) : q_state q' = q_state q -> has b q' = has b q.
Proof using. unfold has. by intros ->. Qed.
Lemma same_mode_lower q bit : bit = Qflow \/ bit = Qstarve -> same_mode q (lower bit q).
Proof using. intros [->| ->]; unfold same_mode; bit_simp; done. Qed.
Lemma same_mode_raise q bit : bit = Qflow \/ bit = Qstarve -> same_mode q (raise_ bit q).
Proof using. intros [->| ->]; unfold same_mode; bit_simp; done. Qed.

(** The queue [q1] a consumer has taken from [q]. *)
Definition taken q q1 : Prop :=
  wfq q1 /\ q_len q1 <= q_len q /\ same_conf q q1 /\ q_state q1 = q_state q.

(** The end of every consumer: restart the writer if the queue has drained. *)
Lemma wp_restart q thr (m : M K ()) (Q : () -> K -> Prop) R k :
  taken q (k_q k) -> (0 < thr -> thr <= q_limit q) ->
  (forall Q' k0, (forall e, WakeW ∈ e -> Q' tt (mkK (k_hs k0) (k_q k0) (k_ev k0 ++ e))) -> wp m Q' R k0) ->
  (forall q' e, bfirst q' = bfirst (k_q k) -> wfq q' -> same_conf q q' -> same_mode q q' ->
     has Qstarve q' = has Qstarve q ->
     flow_ok q q' e -> park_ok q q' ->
     Q tt (mkK (k_hs k) q' (k_ev k ++ e))) ->
  wp (dowakeup ← unflow thr; when dowakeup m) Q R k.
Proof using.
  intros (Hw & Hl & Hc & Hs) Ht Hpre HQ. pose proof (wfq_len _ Hw) as Hlen.
  assert (q_limit (k_q k) = q_limit q) as Hlim by apply Hc.
  apply wp_bind, wp_unflow.
  - intros Hf Hlt. cbn [when]. apply Hpre. intros e He.
    cbn [k_hs k_q k_ev]. apply HQ; try done.
    + destruct (same_mode_lower (k_q k) Qflow) as (E1 & E2 & E3 & E4); [by left|].
      destruct (same_mode_eq q (k_q k) Hs) as (? & ? & ? & ?). unfold same_mode.
      rewrite E1, E2, E3, E4. done.
    + rewrite <- (has_state q (k_q k) Qstarve Hs). bit_simp. done.
    + intros _. by right.
    + intros _. right. unfold qnotfull. cbn [lower set_state q_len q_limit].
      rewrite Hlim. destruct (Z.ltb_spec (q_len (k_q k)) (q_limit q)); [done|lia].
  - cbn [when]. apply wp_ret. destruct k as [hs qk ev]. cbn [k_hs k_q k_ev] in *.
    rewrite <- (app_nil_r ev). apply HQ; try done.
    + by apply same_mode_eq.
    + by apply has_state.
    + intros Hf. left. by rewrite (has_state q).
    + intros [Hf|Hn]; [left; by rewrite (has_state q)|right]. unfold qnotfull in *.
      rewrite (has_state q qk Qclosed Hs), Hlim. apply orb_true_iff in Hn as [Hn|Hn];
        apply orb_true_iff; [left|by right]. apply Z.ltb_lt in Hn. apply Z.ltb_lt. lia.
Qed.

Lemma wp_restart_wake (Q : () -> K -> Prop) R k :
  (forall e, WakeW ∈ e -> Q tt (mkK (k_hs k) (k_q k) (k_ev k ++ e))) -> wp (emit WakeW) Q R k.
Proof using. intros HQ. apply wp_emit, HQ. constructor. Qed.
Lemma wp_restart_kick (Q : () -> K -> Prop) R k :
  (forall e, WakeW ∈ e -> Q tt (mkK (k_hs k) (k_q k) (k_ev k ++ e))) ->
  wp (when (q_kick (k_q k)) (emit Kick);; emit WakeW) Q R k.
Proof using.
  intros HQ. apply wp_bind, wp_when; intros _.
  - apply wp_emit, wp_emit. cbn. rewrite <- app_assoc. apply HQ. repeat constructor.
  - apply wp_emit, HQ. constructor.
Qed.

Lemma quot_limit l : 0 < Z.quot l 2 -> Z.quot l 2 <= l.
Proof using. intros. pose proof (Z.quot_rem l 2). pose proof (Z.rem_bound_abs l 2). lia. Qed.

Lemma wfq_cons q b next :
  wfq q -> bfirst q = b :: next ->
  wfb b /\ wfbl next /\ q_len q = BALLOC b + blockalloclen next /\
  q_dlen q = BLEN b + zlen (bytes next) /\ 0 <= BALLOC b /\ 0 <= BLEN b.
Proof using.
  intros (Hw & Hl & Hd) E. rewrite E in *. apply Forall_cons_1 in Hw as [Hb Hw].
  rewrite bytes_cons, zlen_app, (zlen_bdata b Hb) in Hd.
  change (blockalloclen (b :: next)) with (BALLOC b + blockalloclen next) in Hl.
  pose proof (wfb_BLEN b Hb). pose proof (wfb_BALLOC b Hb). split_and!; done || lia.
Qed.

(** The queue without its first block. *)
Definition minus b next q : Queue :=
  set_dlen (q_dlen q - BLEN b) (set_len (q_len q - BALLOC b) (set_bfirst next q)).
Lemma taken_minus q b next :
  wfq q -> bfirst q = b :: next -> taken q (minus b next q).
Proof using.
  intros Hw E. destruct (wfq_cons _ _ _ Hw E) as (Hb & Hn & Hl & Hd & ? & ?).
  unfold taken, wfq, minus. cbn. split_and!; try done; lia.
Qed.
Lemma taken_trans q1 q2 q3 : taken q1 q2 -> taken q2 q3 -> taken q1 q3.
Proof using.
  intros (_ & Hl1 & C1 & S1) (Hw & Hl2 & C2 & S2). unfold taken, same_conf in *.
  destruct C1 as (? & ? & ? & ? & ? & ? & ?), C2 as (? & ? & ? & ? & ? & ? & ?).
  split_and!; try done; try congruence; lia.
Qed.
Lemma taken_refl q : wfq q -> taken q q.
Proof using. intros Hw. unfold taken, same_conf. split_and!; done. Qed.

Lemma waiting_nonempty q b next q' e : bfirst q = b :: next -> wake_ok q q' e.
Proof using. intros E [E' _]. by rewrite E in E'. Qed.

Lemma park_raise q bit : bit = Qflow \/ bit = Qstarve -> park_ok q (raise_ bit q).
Proof using.
  intros Hb [Hf|Hn].
  - left. destruct Hb as [->| ->]; bit_simp; done.
  - right. unfold qnotfull in *. destruct (same_mode_raise q bit Hb) as (-> & _). done.
Qed.
Lemma flow_raise q bit : bit = Qflow \/ bit = Qstarve -> flow_ok q (raise_ bit q) [].
Proof using. intros Hb Hf. left. destruct Hb as [->| ->]; bit_simp; done. Qed.
(** A consumer that finds nothing asks to be woken. *)
Lemma good_starve k :
  wfq (k_q k) -> bfirst (k_q k) = [] ->
  good True 0 k (mkK (k_hs k) (raise_ Qstarve (k_q k)) (k_ev k)).
Proof using.
  intros Hw E. split_and!; [done|cbn; lia|]. exists []. cbn. rewrite app_nil_r. split_and!; [done| | |].
  - intros (? & ? & ?). left. split_and!; [done|by bit_simp|by bit_simp].
  - apply flow_raise. by right.
  - intros _. apply park_raise. by right.
Qed.

Lemma wp_qget (Q : option Block -> K -> Prop) R k :
  wfq (k_q k) ->
  (forall o k', good True (match o with Some _ => 1 | None => 0 end) k k' ->
     same_conf (k_q k) (k_q k') -> same_mode (k_q k) (k_q k') ->
     match o with
     | Some b => wfb b /\ bfirst (k_q k) = b :: bfirst (k_q k')
     | None => bfirst (k_q k) = [] /\ bfirst (k_q k') = []
     end -> Q o k') ->
  wp qget Q R k.
Proof using.
  intros Hw HQ. unfold qget. apply wp_bind, wp_getq. destruct (bfirst (k_q k)) as [|b next] eqn:E.
  - apply wp_bind, wp_updq, wp_ret, HQ; [by apply good_starve|done| |done].
    apply same_mode_raise. by right.
  - destruct (wfq_cons _ _ _ Hw E) as (Hb & _).
    apply wp_bind, wp_updq, wp_bind, wp_updq, wp_bind, wp_updq, wp_bind, wp_getq.
    cbn [k_q k_hs k_ev].
    apply wp_assoc, wp_bind, (wp_restart (k_q k)); [exact (taken_minus _ b next Hw E)|exact (quot_limit (q_limit (k_q k)))|intros; by apply wp_restart_wake|].
    intros q' e Eq Hw' Hc Hm _ Hf Hp. apply wp_ret, HQ; [|done|done|].
    + split_and!; [done| |].
      * cbn. rewrite Eq, E. cbn. rewrite zlen_cons. lia.
      * exists e. split_and!; [done|by eapply waiting_nonempty|done|done].
    + cbn. rewrite Eq. done.
Qed.

(** Advancing into the first block. *)
Lemma taken_advance q b next n :
  wfq q -> bfirst q = b :: next -> 0 <= n <= BLEN b ->
  taken q (set_dlen (q_dlen q - n) (set_bfirst (set_rp (b_rp b + n) b :: next) q)) /\
  bytes (set_rp (b_rp b + n) b :: next) = drop (Z.to_nat n) (bytes (b :: next)).
Proof using.
  intros Hw E Hn. destruct (wfq_cons _ _ _ Hw E) as (Hb & Hn' & Hl & Hd & ? & ?).
  destruct (bdata_rp b n Hb Hn) as [Hw2 Hd2]. pose proof (zlen_bdata b Hb) as Hz.
  assert (bytes (set_rp (b_rp b + n) b :: next) = drop (Z.to_nat n) (bytes (b :: next))) as Hc.
  { rewrite !bytes_cons, Hd2, drop_within by lia. done. }
  split; [|done]. unfold taken, wfq. cbn. split_and!; try done.
  - by constructor.
  - rewrite Hc, zlen_drop; rewrite bytes_cons; zl.
Qed.

Lemma wp_qdiscard_loop bl : forall len sofar tofree (Q : Z * list Block -> K -> Prop) R k,
  wfq (k_q k) -> bfirst (k_q k) = bl -> sofar <= len \/ bl = [] \/ len < sofar ->
  (forall q' tf, taken (k_q k) q' ->
     zlen tf + zlen (bfirst q') = zlen tofree + zlen bl ->
     bytes (bfirst q') = drop (Z.to_nat (len - sofar)) (bytes bl) ->
     Q (sofar + Z.min (Z.max 0 (len - sofar)) (zlen (bytes bl)), tf) (mkK (k_hs k) q' (k_ev k))) ->
  wp (qdiscard_loop bl len sofar tofree) Q R k.
Proof using.
  induction bl as [|b next IH]; intros len sofar tofree Q R k Hw E Hs HQ; cbn [qdiscard_loop].
  { apply wp_ret. specialize (HQ (k_q k) tofree). rewrite E, bytes_nil, drop_nil in HQ.
    change (zlen (@nil Z)) with 0 in HQ. replace (sofar + Z.min (Z.max 0 (len - sofar)) 0) with sofar in HQ by lia.
    destruct k. apply HQ; [by apply taken_refl|done|done]. }
  destruct (wfq_cons _ _ _ Hw E) as (Hb & Hn & Hl & Hd & Ha & Hbl).
  pose proof (zlen_bdata b Hb) as Hz. pose proof (zlen_nonneg (bytes next)).
  destruct (Z.ltb_spec sofar len) as [Hlt|Hge].
  2: { apply wp_ret. specialize (HQ (k_q k) tofree). rewrite E in HQ.
    replace (Z.to_nat (len - sofar)) with 0%nat in HQ by lia.
    pose proof (zlen_nonneg (bytes (b :: next))).
    replace (sofar + _) with sofar in HQ by lia.
    destruct k. apply HQ; [by apply taken_refl|done|done]. }
  cbv zeta. destruct (Z.leb_spec (BLEN b) (len - sofar)) as [Hle|Hgt].
  - apply wp_bind, wp_updq.
    apply IH; cbn [k_q k_hs k_ev]; [exact (proj1 (taken_minus _ b next Hw E))|done|lia|].
    intros q' tf Ht Hzl Hc. rewrite bytes_cons, zlen_app in HQ.
    replace (sofar + BLEN b + _) with
      (sofar + Z.min (Z.max 0 (len - sofar)) (zlen (bdata b) + zlen (bytes next))) by lia.
    apply HQ.
    + eapply taken_trans; [exact (taken_minus _ b next Hw E)|exact Ht].
    + zl.
    + rewrite Hc, drop_past by lia. do 2 f_equal. lia.
  - destruct (taken_advance (k_q k) b next (len - sofar) Hw E ltac:(lia)) as [Ht Hc].
    apply wp_bind, wp_updq, wp_ret. specialize (HQ _ tofree Ht). cbn in HQ.
    rewrite (bytes_cons b next), zlen_app in HQ.
    replace (sofar + Z.min _ _) with (sofar + (len - sofar)) in HQ by lia.
    apply HQ; [rewrite !zlen_cons; lia|]. rewrite Hc. by rewrite bytes_cons.
Qed.

Lemma wp_qdiscard len (Q : Z -> K -> Prop) R k :
  wfq (k_q k) ->
  (forall n k', good True 0 k k' -> same_conf (k_q k) (k_q k') -> same_mode (k_q k) (k_q k') ->
     n = Z.min (Z.max 0 len) (zlen (bytes (bfirst (k_q k)))) ->
     bytes (bfirst (k_q k')) = drop (Z.to_nat len) (bytes (bfirst (k_q k))) -> Q n k') ->
  wp (qdiscard len) Q R k.
Proof using.
  intros Hw HQ. unfold qdiscard. apply wp_bind, wp_getq, wp_bind, wp_qdiscard_loop; [done|done|lia|].
  intros q1 tf Ht Hzl Hc. cbv beta iota. rewrite Z.sub_0_r in *. apply wp_bind, wp_getq. cbn [k_q k_hs k_ev].
  apply wp_assoc, wp_bind, (wp_restart (k_q k)); [exact Ht| |intros; by apply wp_restart_wake|].
  { intros _. destruct Ht as (_ & _ & (-> & _) & _). done. }
  intros q' e Eq Hw' Hcf Hm Hst Hf Hp. cbn in Eq. apply wp_bind, wp_lift, wp_freeblist. intros h.
  apply wp_ret, HQ; [|done|done|lia|].
  - split_and!; [done| |].
    + cbn. rewrite Eq. change (zlen (@nil Block)) with 0 in Hzl. lia.
    + exists e. cbn. split_and!; [done| |done|done].
      intros (E & Ec & Es). left. unfold waiting. destruct Hm as (Hmc & _). rewrite Eq, Hst, Hmc.
      split_and!; [|done|done]. rewrite E in Hzl. change (zlen (@nil Block)) with 0 in Hzl.
      apply zlen_0_inv. pose proof (zlen_nonneg tf). pose proof (zlen_nonneg (bfirst q1)). lia.
  - cbn. by rewrite Eq.
Qed.

Lemma wp_consume_skip bl : forall tofree (Q : option (Block * list Block) * list Block -> K -> Prop) R k,
  wfq (k_q k) -> bfirst (k_q k) = bl ->
  (forall q' b next tf, taken (k_q k) q' -> bfirst q' = b :: next -> 0 < BLEN b ->
     zlen tf + zlen (bfirst q') = zlen tofree + zlen bl -> bytes (b :: next) = bytes bl ->
     Q (Some (b, next), tf) (mkK (k_hs k) q' (k_ev k))) ->
  (forall q' tf, taken (k_q k) q' -> bfirst q' = [] -> bytes bl = [] ->
     zlen tf = zlen tofree + zlen bl ->
     Q (None, tf) (mkK (k_hs k) (raise_ Qstarve q') (k_ev k))) ->
  wp (consume_skip bl tofree) Q R k.
Proof using.
  induction bl as [|b next IH]; intros tofree Q R k Hw E HQ HQ0; cbn [consume_skip].
  { apply wp_bind, wp_updq, wp_ret. apply HQ0; [by apply taken_refl|done|done|zl]. }
  destruct (wfq_cons _ _ _ Hw E) as (Hb & Hn & Hl & Hd & Ha & Hbl).
  destruct (Z.ltb_spec 0 (BLEN b)) as [Hpos|Hz].
  { apply wp_ret. specialize (HQ (k_q k) b next tofree (taken_refl _ Hw) E Hpos).
    destruct k. apply HQ; [by rewrite <- E|done]. }
  assert (BLEN b = 0) as Hz0 by lia.
  assert (taken (k_q k) (set_len (q_len (k_q k) - BALLOC b) (set_bfirst next (k_q k)))) as Ht.
  { pose proof (taken_minus (k_q k) b next Hw E) as Ht. unfold minus in Ht.
    rewrite Hz0, Z.sub_0_r in Ht. exact Ht. }
  apply wp_bind, wp_updq.
  assert (bytes (b :: next) = bytes next) as Hby by (rewrite bytes_cons, bdata_empty; done).
  apply IH; cbn [k_q k_hs k_ev]; [exact (proj1 Ht)|done| |].
  - intros q' b' next' tf Ht' E' Hp Hzl Hc. apply HQ; [|done|done|zl|congruence].
    eapply taken_trans; [exact Ht|exact Ht'].
  - intros q' tf Ht' E' Hc Hzl. apply HQ0; [|done|congruence|zl].
    eapply taken_trans; [exact Ht|exact Ht'].
Qed.

Lemma wp_qconsume len (Q : Z * list Z -> K -> Prop) R k :
  wfq (k_q k) -> 0 <= len ->
  (forall r s k', good True 0 k k' -> same_conf (k_q k) (k_q k') -> same_mode (k_q k) (k_q k') ->
     (r = -1 /\ s = [] /\ bytes (bfirst (k_q k)) = [] /\ bfirst (k_q k') = [] \/
      r = zlen s /\ r <= len /\ exists b next, bytes (bfirst (k_q k)) = bdata b ++ bytes next /\ 0 < BLEN b /\
        s = take (Z.to_nat len) (bdata b) /\
        bytes (bfirst (k_q k')) =
          if has Qmsg (k_q k) then bytes next else drop (Z.to_nat len) (bdata b) ++ bytes next) ->
     Q (r, s) k') ->
  wp (qconsume len) Q R k.
Proof using.
  intros Hw Hlen HQ. unfold qconsume. apply wp_bind, wp_getq, wp_bind, wp_consume_skip; [done|done| |].
  - intros q1 b next tf Ht E1 Hpos Hzl Hby. cbv beta iota zeta.
    destruct (wfq_cons _ _ _ (proj1 Ht) E1) as (Hb & _). pose proof (zlen_bdata b Hb) as Hz.
    set (n := if BLEN b <? len then BLEN b else len).
    assert (n = Z.min len (BLEN b)) as Hn by (unfold n; destruct (Z.ltb_spec (BLEN b) len); lia).
    destruct (taken_advance q1 b next n (proj1 Ht) E1) as [Ht2 Hc2]; [lia|].
    apply wp_bind, wp_bind, wp_lift, wp_bload; [unfold wfb, BLEN in *; lia..|].
    assert (slice (b_rp b) n (b_mem b) = take (Z.to_nat len) (bdata b)) as Es.
    { unfold bdata. rewrite <- (slice_take (b_mem b) (b_rp b) (BLEN b) n) by lia.
      fold (bdata b). destruct (Z.le_gt_cases len (BLEN b)).
      - by replace n with len by lia.
      - rewrite !take_ge; [done|unfold zlen in *; lia..]. }
    rewrite Es. apply wp_bind, wp_updq, wp_bind, wp_getq. cbn [k_q k_hs k_ev].
    set (b' := set_rp (b_rp b + n) b) in *.
    set (q2 := set_dlen (q_dlen q1 - n) (set_bfirst (b' :: next) q1)) in *.
    assert (taken (k_q k) q2) as Ht02 by (eapply taken_trans; [exact Ht|exact Ht2]).
    assert (has Qmsg q2 = has Qmsg (k_q k)) as Emsg by (apply has_state, Ht02).
    assert (forall q3 tf3, taken (k_q k) q3 -> zlen tf3 + zlen (bfirst q3) = zlen (bfirst (k_q k)) ->
      bytes (bfirst q3) = (if has Qmsg (k_q k) then bytes next else drop (Z.to_nat len) (bdata b) ++ bytes next) ->
      wp (q ← getq; dowakeup ← unflow (Z.quot (q_limit q) 2); when dowakeup (emit WakeW);;
          lift (freeblist tf3);; mret (n, take (Z.to_nat len) (bdata b))) Q R (mkK (k_hs k) q3 (k_ev k)))
      as Htail.
    { intros q3 tf3 Ht3 Hzl3 Hc3. apply wp_bind, wp_getq. cbn [k_q].
      replace (q_limit q3) with (q_limit (k_q k)) by (symmetry; apply Ht3).
      apply wp_assoc, wp_bind, (wp_restart (k_q k));
        [exact Ht3|exact (quot_limit (q_limit (k_q k)))|intros; by apply wp_restart_wake|].
      intros q' e Eq Hw' Hcf Hm Hst Hf Hp. cbn in Eq. apply wp_bind, wp_lift, wp_freeblist. intros h.
      apply wp_ret, HQ; [|done|done|].
      - split_and!; [done|cbn; rewrite Eq; lia|]. exists e. split_and!; [done| |done|done].
        intros (E & _). rewrite E in Hzl. pose proof (zlen_nonneg tf).
        rewrite E1 in Hzl. zl.
      - right. split_and!.
        + unfold zlen in *. rewrite length_take. lia.
        + lia.
        + exists b, next. split_and!; [by rewrite <- bytes_cons|done|done|]. cbn. by rewrite Eq. }
    destruct (has Qmsg q2 || (n =? BLEN b)) eqn:Eb.
    + apply wp_bind, wp_updq, wp_ret. cbv beta iota.
      apply (Htail (minus b' next q2)).
      * eapply taken_trans; [exact Ht02|]. by apply taken_minus; [exact (proj1 Ht2)|].
      * rewrite E1 in Hzl. cbn. rewrite !zlen_cons in *. change (zlen (@nil Block)) with 0 in Hzl. lia.
      * cbn. rewrite <- Emsg. destruct (has Qmsg q2); [done|]. apply Z.eqb_eq in Eb.
        rewrite drop_ge; [done|]. unfold zlen in *. lia.
    + apply wp_ret. cbv beta iota. apply (Htail q2 tf Ht02).
      * rewrite E1 in Hzl. cbn. rewrite !zlen_cons in *. change (zlen (@nil Block)) with 0 in Hzl. lia.
      * apply orb_false_iff in Eb as [Eb En%Z.eqb_neq]. rewrite <- Emsg, Eb. cbn. rewrite Hc2.
        rewrite bytes_cons, drop_within by lia. by replace n with len by lia.
  - intros q1 tf Ht E1 Hby Hzl. cbv beta iota. apply wp_bind, wp_ret. cbv beta iota.
    apply wp_bind, wp_getq. cbn [k_q k_hs k_ev].
    assert (taken (raise_ Qstarve (k_q k)) (raise_ Qstarve q1)) as Ht1.
    { destruct Ht as (W & L & C & S). split_and!; try done. unfold raise_. cbn. by rewrite S. }
    replace (q_limit (raise_ Qstarve q1)) with (q_limit (k_q k)) by (symmetry; apply Ht).
    apply wp_assoc, wp_bind, (wp_restart (raise_ Qstarve (k_q k)));
      [exact Ht1|exact (quot_limit (q_limit (k_q k)))|intros; by apply wp_restart_wake|].
    intros q' e Eq Hw' Hcf Hm Hst Hf Hp. cbn in Eq. rewrite E1 in Eq.
    assert (same_mode (k_q k) (raise_ Qstarve (k_q k))) as Hms by (apply same_mode_raise; by right).
    assert (same_mode (k_q k) q') as Hm'.
    { unfold same_mode. destruct Hm as (-> & -> & -> & ->). exact Hms. }
    apply wp_bind, wp_lift, wp_freeblist. intros h. apply wp_ret, HQ; [|done|done|].
    + change (zlen (@nil Block)) with 0 in Hzl.
      split_and!; [done|cbn; rewrite Eq; change (zlen (@nil Block)) with 0; lia|].
      exists e. cbn. split_and!; [done| | |].
      * intros (_ & Ec & _). left. split_and!; [done| |by rewrite Hst; bit_simp].
        by rewrite (proj1 Hm').
      * exact (flow_ok_trans _ _ _ [] e (flow_raise _ _ (or_intror eq_refl)) Hf).
      * intros _ Hpk. apply Hp, park_raise; [by right|done].
    + left. split_and!; done.
Qed.

(** ** Producers *)

(** The queue with the blocks [bl] added. *)
Definition added bl q : Queue :=
  set_dlen (q_dlen q + blocklen bl)
    (set_len (q_len q + blockalloclen bl) (set_bfirst (bfirst q ++ bl) q)).

Lemma wfq_added q bl : wfq q -> wfbl bl -> wfq (added bl q).
Proof using.
  intros (Hw & Hl & Hd) Hb. unfold wfq, added. cbn [bfirst q_len q_dlen set_dlen set_len set_bfirst].
  rewrite blockalloclen_app, bytes_app, zlen_app, Forall_app, blocklen_bytes by done.
  split_and!; try done; lia.
Qed.

Lemma wp_qaddlist bl (Q : Z -> K -> Prop) R k :
  bl <> [] -> wfbl bl ->
  Q (zlen (bytes bl)) (mkK (k_hs k) (added bl (k_q k)) (k_ev k)) -> wp (qaddlist bl) Q R k.
Proof using.
  intros Hne Hw HQ. destruct bl as [|b next]; [done|]. unfold qaddlist.
  apply wp_bind, wp_updq, wp_ret. rewrite <- blocklen_bytes in HQ by done. exact HQ.
Qed.

Lemma good_add k bl q' e hs pk extra :
  wfq (k_q k) -> wfbl bl -> bl <> [] -> wfq q' -> bfirst q' = bfirst (k_q k) ++ bl ->
  snd hs = snd (k_hs k) + extra ->
  (has Qstarve (k_q k) = true -> WakeR ∈ e) ->
  (has Qflow (k_q k) = true -> has Qflow q' = true) ->
  (pk -> has Qflow q' = true \/ q_len q' < q_limit q') ->
  good pk (extra - zlen bl) k (mkK hs q' (k_ev k ++ e)).
Proof using.
  intros Hw Hb Hne Hw' Eq Hs Hst Hfl Hpk. split_and!; [done|cbn; rewrite Eq; zl|].
  exists e. split_and!; [done| | |].
  - intros (_ & _ & E). right. auto.
  - intros Hf. left. cbn. auto.
  - intros Hp _. destruct (Hpk Hp) as [|Hlt]; [by left|right]. unfold qnotfull. cbn.
    apply Z.ltb_lt in Hlt. by rewrite Hlt.
Qed.

(** The wakeup of a starving reader. *)
Lemma wp_starve (Q : bool -> K -> Prop) R k :
  (forall d q', bfirst q' = bfirst (k_q k) -> q_len q' = q_len (k_q k) -> q_dlen q' = q_dlen (k_q k) ->
     same_conf (k_q k) q' -> same_mode (k_q k) q' ->
     has Qflow q' = has Qflow (k_q k) -> d = has Qstarve (k_q k) ->
     has Qstarve q' = false -> Q d (mkK (k_hs k) q' (k_ev k))) ->
  wp (take_bit Qstarve) Q R k.
Proof using.
  intros HQ. apply wp_take_bit; intros Hs.
  - apply HQ; try done.
    + apply same_mode_lower. by right.
    + by bit_simp.
    + by bit_simp.
  - destruct k. apply HQ; try done.
Qed.

Lemma same_mode_trans q1 q2 q3 : same_mode q1 q2 -> same_mode q2 q3 -> same_mode q1 q3.
Proof using. unfold same_mode. intros (-> & -> & -> & ->) H2. exact H2. Qed.
Lemma same_conf_trans q1 q2 q3 : same_conf q1 q2 -> same_conf q2 q3 -> same_conf q1 q3.
Proof using. unfold same_conf. intros (-> & -> & -> & -> & -> & -> & ->) H2. exact H2. Qed.

Lemma wp_qpass_tail bl (Q : Z -> K -> Prop) R k :
  wfq (k_q k) -> wfbl bl -> bl <> [] ->
  (forall k', good True (- zlen bl) k k' -> same_conf (k_q k) (k_q k') -> same_mode (k_q k) (k_q k') ->
     bytes (bfirst (k_q k')) = bytes (bfirst (k_q k)) ++ bytes bl -> Q (zlen (bytes bl)) k') ->
  wp (qpass_tail bl) Q R k.
Proof using.
  intros Hw Hb Hne HQ. unfold qpass_tail. apply wp_bind, wp_qaddlist; [done|done|].
  pose proof (wfq_added (k_q k) bl Hw Hb) as Hw1. pose proof (wfq_len _ Hw1) as Hlen.
  set (q1 := added bl (k_q k)) in *. apply wp_bind, wp_getq. cbn [k_q].
  assert (forall q2, wfq q2 -> bfirst q2 = bfirst q1 -> same_conf q1 q2 -> same_mode q1 q2 ->
    has Qstarve q2 = has Qstarve q1 -> (has Qflow q1 = true -> has Qflow q2 = true) ->
    (has Qflow q2 = true \/ q_len q2 < q_limit q2) ->
    wp (dowakeup ← take_bit Qstarve; when dowakeup (emit WakeR);; mret (zlen (bytes bl))) Q R
      (mkK (k_hs k) q2 (k_ev k))) as Htail.
  { intros q2 Hw2 Eb Hc Hm Hst Hfl Hpk. apply wp_bind, wp_starve. cbn [k_q k_hs k_ev].
    intros d q3 E1 E2 E3 Hc3 Hm3 Hf3 -> Hs3.
    assert (wfq q3) as Hw3.
    { destruct Hw2 as (W1 & W2 & W3). unfold wfq. rewrite E1, E2, E3. done. }
    assert (bfirst q3 = bfirst (k_q k) ++ bl) as Eq3 by by rewrite E1, Eb.
    assert (forall e, (has Qstarve q2 = true -> WakeR ∈ e) -> Q (zlen (bytes bl)) (mkK (k_hs k) q3 (k_ev k ++ e)))
      as HQ'.
    { intros e He. apply HQ.
      - apply (good_add k bl q3 e (k_hs k) True 0); try done; [lia| | |].
        + intros Hs. apply He. by rewrite Hst.
        + intros Hs. rewrite Hf3. by apply Hfl.
        + intros _. rewrite Hf3, E2. destruct Hc3 as (-> & _). done.
      - eapply same_conf_trans; [|exact Hc3]. exact Hc.
      - eapply same_mode_trans; [|exact Hm3]. exact Hm.
      - cbn. by rewrite Eq3, bytes_app. }
    apply wp_bind, wp_when; intros Hd.
    - apply wp_emit, wp_ret. cbn. apply HQ'. intros _. constructor.
    - apply wp_ret. rewrite <- (app_nil_r (k_ev k)). apply HQ'. by rewrite Hd. }
  apply wp_bind, wp_when; intros Hfull.
  - apply wp_updq. cbn [k_q k_hs k_ev]. apply Htail; try done.
    + apply same_mode_raise. by left.
    + by bit_simp.
    + by bit_simp.
    + left. by bit_simp.
  - apply Htail; try done. right. apply Z.leb_gt in Hfull.
    pose proof (quot_limit (q_limit q1)). lia.
Qed.

Lemma good_free k n h : wfq (k_q k) ->
  good True (- n) k (mkK (h, snd (k_hs k) - n) (k_q k) (k_ev k)).
Proof using.
  intros Hw. split_and!; [done|cbn; lia|]. exists []. cbn. rewrite app_nil_r.
  split_and!; [done|apply wake_ok_refl|apply flow_ok_refl|intros _ Hp; exact Hp].
Qed.

(** Blocks a queue refuses are freed; blocks it takes are at its end. *)
Definition passed (bl : list Block) (r : Z) k k' : Prop :=
  good True (- zlen bl) k k' /\ same_conf (k_q k) (k_q k') /\ same_mode (k_q k) (k_q k') /\
  (r = zlen (bytes bl) /\ bytes (bfirst (k_q k')) = bytes (bfirst (k_q k)) ++ bytes bl \/
   r <= 0 /\ k_q k' = k_q k).

Lemma wp_qpass bl (Q : Z -> K -> Prop) R k :
  wfq (k_q k) -> wfbl bl -> bl <> [] ->
  (forall r k', passed bl r k k' ->
     r = (if q_limit (k_q k) <=? q_len (k_q k) then -1 else if has Qclosed (k_q k) then 0 else zlen (bytes bl)) ->
     Q r k') ->
  wp (qpass bl) Q R k.
Proof using.
  intros Hw Hb Hne HQ. unfold qpass. apply wp_bind, wp_getq.
  destruct (q_limit (k_q k) <=? q_len (k_q k)); [|destruct (has Qclosed (k_q k))].
  1,2: apply wp_bind, wp_lift, wp_freeblist; intros h; apply wp_ret, HQ; [|done];
    split_and!; [by apply good_free|apply same_conf_refl|apply same_mode_refl|right; split; [lia|done]].
  apply wp_qpass_tail; [done..|]. intros k' Hg Hc Hm Hby. apply HQ; [|done].
  split_and!; [done..|by left].
Qed.

Lemma wp_qpassnolim bl (Q : Z -> K -> Prop) R k :
  wfq (k_q k) -> wfbl bl -> bl <> [] ->
  (forall r k', passed bl r k k' ->
     r = (if has Qclosed (k_q k) then 0 else zlen (bytes bl)) -> Q r k') ->
  wp (qpassnolim bl) Q R k.
Proof using.
  intros Hw Hb Hne HQ. unfold qpassnolim. apply wp_bind, wp_getq.
  destruct (has Qclosed (k_q k)).
  1: apply wp_bind, wp_lift, wp_freeblist; intros h; apply wp_ret, HQ; [|done];
    split_and!; [by apply good_free|apply same_conf_refl|apply same_mode_refl|right; split; [lia|done]].
  apply wp_qpass_tail; [done..|]. intros k' Hg Hc Hm Hby. apply HQ; [|done].
  split_and!; [done..|by left].
Qed.

(** Filling a new block with [s]; [n] is how far the caller moves [wp]. *)
Lemma wp_fill b size s (Q : Block -> K -> Prop) R k n :
  fresh size b -> n = zlen s -> zlen s <= size ->
  (forall d, wfb (set_wp (b_wp d + n) d) -> bdata (set_wp (b_wp d + n) d) = s -> Q d k) ->
  wp (lift (bstore b (b_wp b) s)) Q R k.
Proof using.
  intros Hf -> Hs HQ. pose proof (fresh_empty _ _ Hf) as He. destruct Hf as (Hb & _ & Hr & _).
  unfold Tlrspc in *. apply wp_lift, wp_bstore_end; [done|lia|].
  intros d (Hwd & Hd & _) _ E. destruct k. apply HQ; rewrite E; [done|]. by rewrite Hd, He.
Qed.

Lemma wp_qproduce p (Q : Z -> K -> Prop) R k :
  wfq (k_q k) ->
  (forall r k', same_conf (k_q k) (k_q k') -> same_mode (k_q k) (k_q k') ->
     (nm /\ r = 0 /\ k_q k' = k_q k /\ good True 0 k k' \/
      q_limit (k_q k) <= q_len (k_q k) /\ r = -1 /\ bfirst (k_q k') = bfirst (k_q k) /\ good True 1 k k' \/
      q_len (k_q k) < q_limit (k_q k) /\ r = zlen p /\ bytes (bfirst (k_q k')) = bytes (bfirst (k_q k)) ++ p /\ good True 0 k k') ->
     Q r k') ->
  wp (qproduce p) Q R k.
Proof using HO.
  intros Hw HQ. unfold qproduce. cbv zeta. apply wp_bind, wp_lift.
  apply wp_iallocb; [apply zlen_nonneg| |].
  { intros h Hn. apply wp_ret, HQ; [apply same_conf_refl|apply same_mode_refl|left].
    split_and!; try done. pose proof (good_free k 0 h Hw) as Hg. by rewrite Z.sub_0_r in Hg. }
  intros b h Hf _. apply wp_bind, wp_getq. cbn [k_q].
  destruct (Z.leb_spec (q_limit (k_q k)) (q_len (k_q k))) as [Hfull|Hroom].
  { apply wp_bind, wp_updq, wp_ret, HQ; [done|apply same_mode_raise; by left|right; left].
    split_and!; try done. split_and!; [done|cbn; lia|]. exists []. cbn. rewrite app_nil_r. split_and!; [done| | |].
    - intros (? & ? & ?). left. split_and!; [done|by bit_simp|by bit_simp].
    - apply flow_raise. by left.
    - intros _. apply park_raise. by left. }
  apply wp_bind, (wp_fill b (zlen p) p _ _ _ (zlen p)); [done|done|lia|].
  intros d0 Hwd Hd. cbv zeta. set (d := set_wp (b_wp d0 + zlen p) d0) in *.
  assert (wfbl [d]) as Hwl by by constructor.
  assert (bytes [d] = p) as Hbd by by rewrite bytes_cons, bytes_nil, app_nil_r.
  apply wp_bind, wp_qaddlist; [done|done|]. cbn [k_q k_hs k_ev].
  pose proof (wfq_added (k_q k) [d] Hw Hwl) as Hw1. set (q1 := added [d] (k_q k)) in *.
  apply wp_bind, wp_starve. cbn [k_q k_hs k_ev]. intros w q2 E1 E2 E3 Hc Hm Hfl -> Hs2.
  apply wp_bind, wp_getq. cbn [k_q].
  assert (forall q3, bfirst q3 = bfirst q2 -> q_len q3 = q_len q2 -> q_dlen q3 = q_dlen q2 ->
    same_conf q2 q3 -> same_mode q2 q3 ->
    (has Qflow q2 = true -> has Qflow q3 = true) -> has Qflow q3 = true \/ q_len q3 < q_limit q3 ->
    wp (when (has Qstarve q1) (emit WakeR);; mret (zlen p)) Q R (mkK (h, snd (k_hs k) + 1) q3 (k_ev k)))
    as Htail.
  { intros q3 F1 F2 F3 Hc3 Hm3 Hfl3 Hpk.
    assert (wfq q3) as Hw3.
    { destruct Hw1 as (W1 & W2 & W3). unfold wfq. rewrite F1, F2, F3, E1, E2, E3. done. }
    assert (bfirst q3 = bfirst (k_q k) ++ [d]) as Eq3 by by rewrite F1, E1.
    assert (forall e, (has Qstarve q1 = true -> WakeR ∈ e) ->
      Q (zlen p) (mkK (h, snd (k_hs k) + 1) q3 (k_ev k ++ e))) as HQ'.
    { intros e He. apply HQ.
      - eapply same_conf_trans; [|exact Hc3]. exact Hc.
      - eapply same_mode_trans; [|exact Hm3]. exact Hm.
      - right. right. split_and!; [done|done|cbn; by rewrite Eq3, bytes_app, Hbd|].
        apply (good_add k [d] q3 e (h, snd (k_hs k) + 1) True 1); try done.
        intros Hs. apply Hfl3. by rewrite Hfl. }
    apply wp_bind, wp_when; intros Hd0.
    - apply wp_emit, wp_ret. cbn. apply HQ'. intros _. constructor.
    - apply wp_ret. rewrite <- (app_nil_r (k_ev k)). apply HQ'. by rewrite Hd0. }
  apply wp_bind, wp_when; intros Hlim.
  - apply wp_updq. cbn [k_q k_hs k_ev]. apply Htail; try done.
    + apply same_mode_raise. by left.
    + by bit_simp.
    + left. by bit_simp.
  - apply Htail; auto using same_conf_refl, same_mode_refl.
    right. by apply Z.leb_gt in Hlim.
Qed.

Lemma wp_qcopy len offset (Q : Block -> K -> Prop) R k :
  wfq (k_q k) -> 0 <= len -> 0 <= offset -> zlen (bytes (bfirst (k_q k))) < 2 ^ 32 ->
  (nm -> forall hs, R NoMem (mkK hs (k_q k) (k_ev k))) ->
  (forall b k', good True 1 k k' -> k_q k' = k_q k -> wfb b ->
     bdata b = take (Z.to_nat len) (drop (Z.to_nat offset) (bytes (bfirst (k_q k)))) -> Q b k') ->
  wp (qcopy len offset) Q R k.
Proof using HO.
  intros Hw Hl Ho Hz HR HQ. unfold qcopy. apply wp_bind, wp_lift_rx; [done|].
  apply wp_allocb; [done|]. intros b h Hf _. apply wp_bind, wp_getq. cbn [k_q].
  apply wp_bind, wp_lift, wp_readblist; [apply Hw|done|done|done|]. cbn [k_hs k_q k_ev].
  set (s := take (Z.to_nat len) _). eapply wp_bind, (wp_fill b len s); [done|done| |].
  { unfold s, zlen. rewrite length_take. lia. }
  intros d Hwd Hd. apply wp_ret, HQ; [|done|done|done].
  split_and!; [done|cbn; lia|]. exists []. cbn. rewrite app_nil_r.
  split_and!; [done|apply wake_ok_refl|apply flow_ok_refl|intros _ Hp; exact Hp].
Qed.

(** ** Closing *)

Lemma wp_qclose (Q : () -> K -> Prop) R k :
  (forall k', good True 0 k k' -> bfirst (k_q k') = [] -> has Qclosed (k_q k') = true ->
     q_err (k_q k') = Ehungup -> q_eof (k_q k') = q_eof (k_q k) -> Q tt k') ->
  wp qclose Q R k.
Proof using.
  intros HQ. unfold qclose. apply wp_bind, wp_updq, wp_bind, wp_updq, wp_bind, wp_updq, wp_bind, wp_getq.
  apply wp_bind, wp_updq, wp_bind, wp_lift, wp_freeblist. intros h. apply wp_bind, wp_emit, wp_emit.
  cbn [k_q k_hs k_ev]. apply HQ; try done.
  - split_and!.
    + split_and!; [constructor|done|done].
    + cbn. change (zlen (@nil Block)) with 0. lia.
    + exists [WakeR; WakeW]. cbn. split_and!; [by rewrite <- app_assoc| | |].
      * intros _. right. constructor.
      * intros _. right. constructor. constructor.
      * intros _ _. right. unfold qnotfull. apply orb_true_iff. right. cbn.
        unfold has. cbn. change (has Qclosed (lower (Z.lor Qflow Qstarve) (raise_ Qclosed (k_q k))) = true).
        by bit_simp.
  - change (has Qclosed (lower (Z.lor Qflow Qstarve) (raise_ Qclosed (k_q k))) = true). by bit_simp.
Qed.

Lemma wp_qhangup msg (Q : () -> K -> Prop) R k :
  wfq (k_q k) ->
  (forall k', good True 0 k k' -> bfirst (k_q k') = bfirst (k_q k) -> has Qclosed (k_q k') = true ->
     Q tt k') ->
  wp (qhangup msg) Q R k.
Proof using.
  intros Hw HQ. unfold qhangup. apply wp_bind, wp_updq, wp_bind, wp_updq, wp_bind, wp_emit, wp_emit.
  cbn [k_q k_hs k_ev]. apply HQ; try done.
  - split_and!; [done|cbn; lia|].
    exists [WakeR; WakeW]. cbn. split_and!; [by rewrite <- app_assoc| | |].
    + intros _. right. constructor.
    + intros _. right. constructor. constructor.
    + intros _ _. right. unfold qnotfull. apply orb_true_iff. right.
      change (has Qclosed (raise_ Qclosed (k_q k)) = true). by bit_simp.
  - change (has Qclosed (raise_ Qclosed (k_q k)) = true). by bit_simp.
Qed.

Lemma wp_qflush (Q : () -> K -> Prop) R k :
  (forall k', good (0 < q_limit (k_q k)) 0 k k' -> bfirst (k_q k') = [] -> same_conf (k_q k) (k_q k') ->
     same_mode (k_q k) (k_q k') -> Q tt k') ->
  wp qflush Q R k.
Proof using.
  intros HQ. unfold qflush. apply wp_bind, wp_getq, wp_bind, wp_updq, wp_bind, wp_lift, wp_freeblist.
  intros h. apply wp_emit. cbn [k_q k_hs k_ev]. apply HQ; try done.
  split_and!.
  - split_and!; [constructor|done|done].
  - cbn. change (zlen (@nil Block)) with 0. lia.
  - exists [WakeW]. cbn. split_and!; [done| | |].
    + intros (_ & ? & ?). by left.
    + intros _. right. constructor.
    + intros Hl _. right. unfold qnotfull. cbn. destruct (Z.ltb_spec 0 (q_limit (k_q k))); [done|lia].
Qed.

(** ** Writers *)

Lemma good_refl k : wfq (k_q k) -> good True 0 k k.
Proof using.
  intros Hw. split_and!; [done|lia|]. exists []. rewrite app_nil_r.
  split_and!; [done|apply wake_ok_refl|apply flow_ok_refl|intros _ Hp; exact Hp].
Qed.
Lemma good_trans (p1 p2 : Prop) g1 g2 k1 k2 k3 :
  good p1 g1 k1 k2 -> good p2 g2 k2 k3 -> good (p1 /\ p2) (g1 + g2) k1 k3.
Proof using.
  intros (_ & L1 & e1 & E1 & W1 & F1 & P1) (Hw & L2 & e2 & E2 & W2 & F2 & P2).
  split_and!; [done|lia|]. exists (e1 ++ e2). rewrite E2, E1, app_assoc. split_and!; [done| | |].
  - by eapply wake_ok_trans.
  - by eapply flow_ok_trans.
  - intros [H1 H2] Hp. apply P2, P1; done.
Qed.
Lemma good_weaken (p p' : Prop) g k k' : (p' -> p) -> good p g k k' -> good p' g k k'.
Proof using.
  intros Hp (Hw & L & e & E & W & F & P). split_and!; [done..|]. exists e. split_and!; auto.
Qed.
(** The allocator's state and count change, the queue does not. *)
Lemma good_heap k h n :
  wfq (k_q k) -> good True n k (mkK (h, snd (k_hs k) + n) (k_q k) (k_ev k)).
Proof using.
  intros Hw. split_and!; [done|cbn; lia|]. exists []. cbn. rewrite app_nil_r.
  split_and!; [done|apply wake_ok_refl|apply flow_ok_refl|intros _ Hp; exact Hp].
Qed.

(** How [qbwrite] disposes of a string of blocks. *)
Definition disposed (bl : list Block) (flow : bool) k k' : Prop :=
  same_conf (k_q k) (k_q k') /\ same_mode (k_q k) (k_q k') /\
  if q_bypass (k_q k) then flow = false /\ k' = mkK (k_hs k) (k_q k) (k_ev k ++ [Bypass bl])
  else has Qclosed (k_q k) = false /\ good (flow = false) (- zlen bl) k k' /\
    if (q_limit (k_q k) <=? q_len (k_q k)) && negb (q_noblock (k_q k) =? 0)
    then flow = false /\ k_q k' = k_q k
    else flow = true /\ bfirst (k_q k') = bfirst (k_q k) ++ bl.

Lemma wp_qbwrite_insert bl (Q : Z * bool -> K -> Prop) R k :
  wfq (k_q k) -> wfbl bl -> bl <> [] ->
  (forall k', q_bypass (k_q k) = false -> has Qclosed (k_q k) = true -> k_q k' = k_q k ->
     good True (- zlen bl) k k' -> R Error k') ->
  (forall fl k', disposed bl fl k k' -> Q (zlen (bytes bl), fl) k') ->
  wp (qbwrite_insert bl) Q R k.
Proof using.
  intros Hw Hb Hne HR HQ. unfold qbwrite_insert. apply wp_bind, wp_getq.
  destruct (q_bypass (k_q k)) eqn:Eby.
  { apply wp_bind, wp_emit, wp_ret. rewrite blocklen_bytes by done. apply HQ. unfold disposed.
    rewrite Eby. cbn. split_and!; done. }
  destruct (has Qclosed (k_q k)) eqn:Ecl.
  { apply wp_bind, wp_lift, wp_freeblist. intros h. apply wp_leave, HR; try done. by apply good_free. }
  destruct ((q_limit (k_q k) <=? q_len (k_q k)) && negb (q_noblock (k_q k) =? 0)) eqn:Efull.
  { apply wp_bind, wp_lift, wp_freeblist. intros h. apply wp_ret.
    rewrite blocklen_bytes by done. apply HQ. unfold disposed. rewrite Eby, Efull, Ecl.
    split; [apply same_conf_refl|]. split; [apply same_mode_refl|]. split; [done|]. split; [|done].
    eapply good_weaken; [|by apply good_free]. done. }
  apply wp_bind, wp_qaddlist; [done|done|].
  pose proof (wfq_added (k_q k) bl Hw Hb) as Hw1. set (q1 := added bl (k_q k)) in *.
  apply wp_bind, wp_starve. cbn [k_q k_hs k_ev]. intros w q2 E1 E2 E3 Hc Hm Hfl -> Hs2.
  apply wp_bind, wp_getq. cbn [k_q].
  assert (wfq q2) as Hw2.
  { destruct Hw1 as (W1 & W2 & W3). unfold wfq. rewrite E1, E2, E3. done. }
  assert (forall e, (has Qstarve q1 = true -> WakeR ∈ e) ->
    Q (zlen (bytes bl), true) (mkK (k_hs k) q2 (k_ev k ++ e))) as HQ'.
  { intros e He. apply HQ. unfold disposed. cbn [k_q]. rewrite Eby, Efull.
    split; [exact Hc|]. split; [exact Hm|]. split; [done|]. split; [|done].
    apply (good_add k bl q2 e (k_hs k) _ 0); try done; [lia|]. intros Hs. by rewrite Hfl. }
  apply wp_bind, wp_when; intros _.
  - apply wp_emit. cbn [k_q k_hs k_ev]. apply wp_bind, wp_when; intros Hd.
    + apply wp_emit, wp_ret. cbn. rewrite <- app_assoc. apply HQ'. intros _. do 2 constructor.
    + apply wp_ret. cbn. apply HQ'. by rewrite Hd.
  - apply wp_bind, wp_when; intros Hd.
    + apply wp_emit, wp_ret. cbn. apply HQ'. intros _. constructor.
    + apply wp_ret. rewrite <- (app_nil_r (k_ev k)). apply HQ'. by rewrite Hd.
Qed.

(** [qflow] changes at most [Qflow], and sleeps only on a full queue whose
    flag it has set. *)
Lemma wp_qflow (Q : () -> K -> Prop) R k :
  wfq (k_q k) ->
  (forall k', good True 0 k k' -> same_conf (k_q k) (k_q k') -> same_mode (k_q k) (k_q k') ->
     k_hs k' = k_hs k -> bfirst (k_q k') = bfirst (k_q k) ->
     (k' = k \/ qnotfull (k_q k) = false /\ k_ev k' = k_ev k ++ [SleepW] /\ k_q k' = raise_ Qflow (k_q k)) -> Q tt k') ->
  wp qflow Q R k.
Proof using.
  intros Hw HQ. unfold qflow. apply wp_bind, wp_getq.
  destruct (negb (q_noblock (k_q k) =? 0) || qnotfull (k_q k)) eqn:E.
  { apply wp_ret, HQ; auto using good_refl, same_conf_refl, same_mode_refl. }
  apply orb_false_iff in E as [_ E].
  apply wp_bind, wp_updq, wp_emit. cbn [k_q k_hs k_ev]. apply HQ; try done.
  - split_and!; [done|cbn; lia|]. exists [SleepW]. cbn. split_and!; [done| | |].
    + intros (? & ? & ?). left. split_and!; [done|by bit_simp|by bit_simp].
    + intros _. left. by bit_simp.
    + intros _ _. left. by bit_simp.
  - apply same_mode_raise. by left.
  - by right.
Qed.

Lemma wp_qbwrite bl (Q : Z -> K -> Prop) R k :
  wfq (k_q k) -> wfbl bl -> bl <> [] ->
  (forall k', q_bypass (k_q k) = false -> has Qclosed (k_q k) = true -> k_q k' = k_q k ->
     good True (- zlen bl) k k' -> R Error k') ->
  (forall k', good False (if q_bypass (k_q k) then 0 else - zlen bl) k k' ->
     same_conf (k_q k) (k_q k') -> same_mode (k_q k) (k_q k') ->
     (q_bypass (k_q k) = false -> has Qclosed (k_q k) = false) ->
     bfirst (k_q k') = (if q_bypass (k_q k) ||
       (q_limit (k_q k) <=? q_len (k_q k)) && negb (q_noblock (k_q k) =? 0)
       then bfirst (k_q k) else bfirst (k_q k) ++ bl) -> Q (zlen (bytes bl)) k') ->
  wp (qbwrite bl) Q R k.
Proof using.
  intros Hw Hb Hne HR HQ. unfold qbwrite. apply wp_bind, wp_qbwrite_insert; [done..|].
  intros fl k1 (Hc & Hm & Hd). cbv beta iota.
  destruct (q_bypass (k_q k)) eqn:Eby.
  { destruct Hd as [-> ->]. apply wp_bind, wp_ret, wp_ret. apply HQ; try done.
    split_and!; [done|cbn; lia|]. exists [Bypass bl]. cbn.
    split_and!; [done|apply wake_ok_refl|apply flow_ok_refl|done]. }
  destruct Hd as (Hcl & Hg & Hd). cbn [orb] in HQ.
  destruct ((q_limit (k_q k) <=? q_len (k_q k)) && negb (q_noblock (k_q k) =? 0)).
  { destruct Hd as [-> Hd]. apply wp_bind, wp_ret, wp_ret, HQ; try done; [|by rewrite Hd].
    by eapply good_weaken; [|exact Hg]. }
  destruct Hd as [-> Hd]. apply wp_bind. cbn [when]. apply wp_qflow; [exact (proj1 Hg)|].
  intros k2 Hg2 Hc2 Hm2 _ Eb _. apply wp_ret, HQ; try done.
  - pose proof (good_trans _ _ _ _ _ _ _ Hg Hg2) as Hg3. rewrite Z.add_0_r in Hg3.
    by eapply good_weaken; [|exact Hg3].
  - by eapply same_conf_trans.
  - by eapply same_mode_trans.
  - by rewrite Eb.
Qed.

(** One round's piece of the caller's buffer. *)
Lemma slice_piece (p : list Z) sofar n :
  0 <= sofar -> 0 <= n -> sofar + n <= zlen p ->
  drop (Z.to_nat sofar) p = slice sofar n p ++ drop (Z.to_nat (sofar + n)) p.
Proof using.
  intros. unfold slice. rewrite Z2Nat.inj_add by lia.
  replace (drop (Z.to_nat sofar + Z.to_nat n) p) with (drop (Z.to_nat n) (drop (Z.to_nat sofar) p))
    by (rewrite drop_drop; done).
  by rewrite take_drop.
Qed.

Definition chunk (p : list Z) (sofar : Z) : Z :=
  if Maxatomic <? zlen p - sofar then Maxatomic else zlen p - sofar.
Lemma chunk_bounds p sofar : 0 <= sofar <= zlen p ->
  0 <= chunk p sofar /\ sofar + chunk p sofar <= zlen p /\ (sofar < zlen p -> 0 < chunk p sofar) /\
  chunk p sofar = Z.min Maxatomic (zlen p - sofar).
Proof using.
  unfold chunk. intros. destruct (Z.ltb_spec Maxatomic (zlen p - sofar)); unfold Maxatomic in *; lia.
Qed.

(** What a writer leaves when it comes back: [s] is what it queued. *)
Definition written (s : list Z) k k' : Prop :=
  (exists g, good False g k k' /\ (q_bypass (k_q k) = false -> g = 0)) /\
  same_conf (k_q k) (k_q k') /\ same_mode (k_q k) (k_q k') /\
  (q_bypass (k_q k) = false -> q_noblock (k_q k) = 0 ->
   bytes (bfirst (k_q k')) = bytes (bfirst (k_q k)) ++ s).
Lemma written_trans s1 s2 k1 k2 k3 :
  written s1 k1 k2 -> written s2 k2 k3 -> written (s1 ++ s2) k1 k3.
Proof using.
  intros ((g1 & G1 & Z1) & C1 & M1 & B1) ((g2 & G2 & Z2) & C2 & M2 & B2).
  destruct (C1) as (_ & _ & En & _ & _ & Eb & _).
  split_and!.
  - exists (g1 + g2). split; [eapply good_weaken; [|by eapply good_trans]; done|].
    intros E. rewrite Z1, Z2; [done|by rewrite Eb|done].
  - by eapply same_conf_trans.
  - by eapply same_mode_trans.
  - intros E1 E2. rewrite B2, B1, app_assoc; [done|done|done|by rewrite Eb|by rewrite En].
Qed.

Lemma wp_qwrite_loop fuel : forall p sofar (Q : () -> K -> Prop) R k,
  wfq (k_q k) -> 0 <= sofar <= zlen p -> zlen p - sofar < Z.of_nat fuel ->
  (forall v k', v = NoMem /\ nm \/ v = Error /\ q_bypass (k_q k) = false /\ has Qclosed (k_q k) = true /\ k_q k' = k_q k /\
       snd (k_hs k') = snd (k_hs k) ->
     wfq (k_q k') -> R v k') ->
  (forall k', written (if has Qmsg (k_q k) then slice sofar (chunk p sofar) p else drop (Z.to_nat sofar) p) k k' ->
     (q_bypass (k_q k) = false -> has Qclosed (k_q k) = false) ->
     Q tt k') ->
  wp (qwrite_loop fuel p sofar) Q R k.
Proof using HO.
  induction fuel as [|fuel IH]; intros p sofar Q R k Hw Hs Hfu HR HQ; [lia|].
  cbn [qwrite_loop]. cbv zeta. fold (chunk p sofar).
  destruct (chunk_bounds p sofar Hs) as (Hn0 & Hn1 & Hn2 & _). set (n := chunk p sofar) in *.
  apply wp_bind, wp_lift_rx.
  { intros Hnm hs. apply HR; [by left|done]. }
  apply wp_allocb; [done|]. intros b h Hf _. set (k1 := mkK (h, snd (k_hs k) + 1) (k_q k) (k_ev k)).
  change (mkK (h, snd (k_hs k) + 1) (k_q k) (k_ev k)) with k1.
  pose proof (good_heap k h 1 Hw) as Hg1. fold k1 in Hg1.
  apply wp_bind, (wp_of_option _ (slice sofar n p)); [by apply load_ok; lia|].
  assert (zlen (slice sofar n p) = n) as Hzs by (apply zlen_slice; lia).
  apply wp_bind, (wp_fill b n _ _ _ _ n); [done|lia|lia|]. intros d0 Hwd Hd.
  set (d := set_wp (b_wp d0 + n) d0) in *.
  assert (wfbl [d]) as Hwl by by constructor.
  assert (bytes [d] = slice sofar n p) as Hbd by by rewrite bytes_cons, bytes_nil, app_nil_r.
  apply wp_bind, wp_qbwrite; [done|done|done| |].
  { intros k' Eb Ec Eq Hg. apply HR; [|by rewrite Eq]. right. split_and!; try done.
    destruct Hg as (_ & L & _). rewrite Eq in L. cbn in L. change (zlen [d]) with 1 in L. lia. }
  intros k2 Hg2 Hc2 Hm2 Hcl Hb2. rewrite Hbd, Hzs. change (zlen [d]) with 1 in Hg2.
  assert (written (slice sofar n p) k k2) as Hwr.
  { split_and!.
    - eexists. split; [eapply good_weaken; [|exact (good_trans _ _ _ _ _ _ _ Hg1 Hg2)]; done|].
      intros E. change (q_bypass (k_q k1)) with (q_bypass (k_q k)). by rewrite E.
    - exact Hc2.
    - exact Hm2.
    - intros E1 E2. rewrite Hb2. cbn. rewrite E1, E2. cbn. rewrite andb_false_r.
      by rewrite bytes_app, Hbd. }
  destruct Hg2 as (Hw2 & _). apply wp_bind, wp_getq.
  destruct Hm2 as (Mc & Mm & _). change (k_q k1) with (k_q k) in *. rewrite Mm.
  destruct (Z.ltb_spec (sofar + n) (zlen p)) as [Hlt|Hge]; cbn [andb].
  - destruct (has Qmsg (k_q k)) eqn:Em; cbn [negb].
    { apply wp_ret, HQ; [exact Hwr|exact Hcl]. }
    apply IH; [done|lia|lia| |].
    + intros v k' [[-> Hnm]|(-> & E1 & E2 & _)] Hw'; [apply HR; [by left|done]|].
      destruct Hc2 as (_ & _ & _ & _ & _ & Eb & _). rewrite Eb in E1. rewrite Mc, (Hcl E1) in E2. done.
    + intros k' Hwr2 _. apply HQ; [|exact Hcl].
      rewrite Mm in Hwr2.
      rewrite (slice_piece p sofar n) by lia. by eapply written_trans.
  - apply wp_ret, HQ; [|exact Hcl]. destruct (has Qmsg (k_q k)); [exact Hwr|].
    rewrite (slice_piece p sofar n) by lia. rewrite (drop_ge p) by (unfold zlen in *; lia).
    by rewrite app_nil_r.
Qed.

(** What a write of [p] puts in the queue: everything, but in message mode a
    single block. *)
Definition accepted q (p : list Z) : list Z :=
  if has Qmsg q then take (Z.to_nat Maxatomic) p else p.

Lemma wp_qwrite p (Q : Z -> K -> Prop) R k :
  wfq (k_q k) ->
  (forall v k', v = NoMem /\ nm \/ v = Error /\ q_bypass (k_q k) = false /\ has Qclosed (k_q k) = true /\
       k_q k' = k_q k ->
     wfq (k_q k') -> R v k') ->
  (forall k', written (accepted (k_q k) p) k k' ->
     (q_bypass (k_q k) = false -> has Qclosed (k_q k) = false) ->
     Q (zlen p) k') ->
  wp (qwrite p) Q R k.
Proof using HO.
  intros Hw HR HQ. unfold qwrite. apply wp_bind, wp_getq.
  assert (forall k1, wfq (k_q k1) -> (has Qclosed (k_q k) = true -> k_q k1 = k_q k) -> written [] k k1 ->
    wp (qwrite_loop (S (length p)) p 0;; mret (zlen p)) Q R k1) as Hloop.
  { intros k1 Hw1 Ebf Hwr1. destruct (Hwr1) as (_ & Hc & Hm & _).
    destruct Hc as (_ & _ & _ & _ & _ & Eb & _). destruct Hm as (Ec & Em & _).
    apply wp_bind, wp_qwrite_loop; [done|pose proof (zlen_nonneg p); lia|unfold zlen; lia| |].
    - intros v k' Hv Hw'. apply HR; [|done]. rewrite Ec, Eb in Hv.
      destruct Hv as [?|(? & ? & Hcl & E & _)]; [by left|right]. rewrite E. auto.
    - intros k' Hwr2 Hcl. apply wp_ret, HQ.
      + assert (accepted (k_q k) p = [] ++
          (if has Qmsg (k_q k1) then slice 0 (chunk p 0) p else drop (Z.to_nat 0) p)) as ->.
        { unfold accepted. rewrite Em. destruct (has Qmsg (k_q k)); [|done]. cbn [app].
          unfold chunk, slice. rewrite drop_0, Z.sub_0_r. destruct (Z.ltb_spec Maxatomic (zlen p)); [done|].
          rewrite !take_ge; [done|unfold zlen in *; lia..]. }
        by eapply written_trans.
      + by rewrite <- Eb, <- Ec. }
  apply wp_bind, wp_when; intros _.
  - apply wp_qflow; [done|]. intros k1 Hg Hc Hm _ Eb Hk. apply Hloop; [exact (proj1 Hg)| |].
    { intros Hcl. destruct Hk as [->|[Hk _]]; [done|]. unfold qnotfull in Hk. by rewrite Hcl, orb_true_r in Hk. }
    split_and!; [|exact Hc|exact Hm|intros _ _; by rewrite Eb, app_nil_r].
    exists 0. split; [|done]. by eapply good_weaken; [|exact Hg].
  - apply Hloop; [done|done|]. split_and!; [|apply same_conf_refl|apply same_mode_refl|by rewrite app_nil_r].
    exists 0. split; [|done]. eapply good_weaken; [|by apply good_refl]. done.
Qed.

Lemma wp_qiwrite_loop fuel : forall p sofar w (Q : Z -> K -> Prop) R k,
  wfq (k_q k) -> 0 <= sofar <= zlen p -> zlen p - sofar < Z.of_nat fuel ->
  (forall r k', good False 0 k k' -> same_conf (k_q k) (k_q k') -> same_mode (k_q k) (k_q k') ->
     sofar <= r <= zlen p ->
     bytes (bfirst (k_q k')) = bytes (bfirst (k_q k)) ++ slice sofar (r - sofar) p -> Q r k') ->
  wp (qiwrite_loop fuel p sofar w) Q R k.
Proof using HO.
  induction fuel as [|fuel IH]; intros p sofar w Q R k Hw Hs Hfu HQ; [lia|].
  cbn [qiwrite_loop]. cbv zeta. fold (chunk p sofar).
  destruct (chunk_bounds p sofar Hs) as (Hn0 & Hn1 & Hn2 & _). set (n := chunk p sofar) in *.
  assert (forall h m, good True 0 k (mkK (h, snd (k_hs k) + 1 - m) (k_q k) (k_ev k)) ->
    Q sofar (mkK (h, snd (k_hs k) + 1 - m) (k_q k) (k_ev k))) as Hstop.
  { intros h m Hg. apply HQ; [by eapply good_weaken; [|exact Hg]|apply same_conf_refl|apply same_mode_refl|lia|].
    by rewrite Z.sub_diag, slice_0, app_nil_r. }
  apply wp_bind, wp_lift. apply wp_iallocb; [done| |].
  { intros h _. apply wp_ret. replace (snd (k_hs k)) with (snd (k_hs k) + 1 - 1) by lia.
    apply Hstop. replace (snd (k_hs k) + 1 - 1) with (snd (k_hs k) + 0) by lia. by apply good_heap. }
  intros b h Hf _. set (k1 := mkK (h, snd (k_hs k) + 1) (k_q k) (k_ev k)).
  change (mkK (h, snd (k_hs k) + 1) (k_q k) (k_ev k)) with k1.
  apply wp_bind, (wp_of_option _ (slice sofar n p)); [by apply load_ok; lia|].
  assert (zlen (slice sofar n p) = n) as Hzs by (apply zlen_slice; lia).
  apply wp_bind, (wp_fill b n _ _ _ _ n); [done|lia|lia|]. intros d0 Hwd Hd.
  set (d := set_wp (b_wp d0 + n) d0) in *.
  assert (wfbl [d]) as Hwl by by constructor.
  assert (bytes [d] = slice sofar n p) as Hbd by by rewrite bytes_cons, bytes_nil, app_nil_r.
  apply wp_bind, wp_getq. destruct (has Qclosed (k_q k1) || (q_limit (k_q k1) <=? Z.quot (q_len (k_q k1)) 2)).
  { apply wp_bind, wp_lift, wp_freeb. intros h'. apply wp_ret. cbn. apply Hstop.
    replace (snd (k_hs k) + 1 - 1) with (snd (k_hs k) + 0) by lia. by apply good_heap. }
  apply wp_bind, wp_qaddlist; [done|done|]. cbn [k_q k_hs k_ev k1].
  pose proof (wfq_added (k_q k) [d] Hw Hwl) as Hw1. set (q1 := added [d] (k_q k)) in *.
  apply wp_bind, wp_starve. cbn [k_q k_hs k_ev]. intros w' q2 E1 E2 E3 Hc Hm Hfl -> Hs2.
  assert (wfq q2) as Hw2.
  { destruct Hw1 as (W1 & W2 & W3). unfold wfq. rewrite E1, E2, E3. done. }
  apply wp_bind, wp_getq. cbn [k_q].
  assert (forall e, (has Qstarve q1 = true -> WakeR ∈ e) ->
    wp (q ← getq; if (sofar + n <? zlen p) && negb (has Qmsg q)
        then qiwrite_loop fuel p (sofar + n) (w || has Qstarve q1) else mret (sofar + n)) Q R
      (mkK (h, snd (k_hs k) + 1) q2 (k_ev k ++ e))) as Htail.
  { intros e He. set (k2 := mkK (h, snd (k_hs k) + 1) q2 (k_ev k ++ e)).
    assert (good False 0 k k2) as Hg2.
    { apply (good_add k [d] q2 e (h, snd (k_hs k) + 1) False 1); try done. intros Hs'. by rewrite Hfl. }
    assert (bytes (bfirst q2) = bytes (bfirst (k_q k)) ++ slice sofar n p) as Hb2
      by by rewrite E1, <- Hbd, <- bytes_app.
    apply wp_bind, wp_getq. cbn [k_q k2].
    destruct ((sofar + n <? zlen p) && negb (has Qmsg q2)) eqn:Ego.
    - apply andb_prop in Ego as [Ego%Z.ltb_lt _]. apply IH; [done|lia|lia|].
      intros r k' Hg' Hc' Hm' Hr Hb'. apply HQ.
      + eapply good_weaken; [|exact (good_trans _ _ _ _ _ _ _ Hg2 Hg')]. done.
      + eapply same_conf_trans; [exact Hc|exact Hc'].
      + eapply same_mode_trans; [exact Hm|exact Hm'].
      + lia.
      + rewrite Hb'. cbn. rewrite Hb2, <- app_assoc. f_equal.
        replace (r - sofar) with (n + (r - (sofar + n))) by lia. rewrite slice_app by lia. done.
    - apply wp_ret, HQ; [exact Hg2|exact Hc|exact Hm|lia|].
      cbn. rewrite Hb2. do 2 f_equal. lia. }
  apply wp_bind, wp_when; intros Hd0.
  - apply wp_bind, wp_when; intros _.
    + apply wp_emit, wp_emit. cbn. rewrite <- app_assoc. apply Htail. intros _. do 2 constructor.
    + apply wp_emit. apply Htail. intros _. constructor.
  - rewrite <- (app_nil_r (k_ev k)). apply Htail. intros E. rewrite E in Hd0. by rewrite orb_true_r in Hd0.
Qed.

Lemma wp_qiwrite p (Q : Z -> K -> Prop) R k :
  wfq (k_q k) ->
  (forall r k', good False 0 k k' -> same_conf (k_q k) (k_q k') -> same_mode (k_q k) (k_q k') ->
     0 <= r <= zlen p ->
     bytes (bfirst (k_q k')) = bytes (bfirst (k_q k)) ++ take (Z.to_nat r) p -> Q r k') ->
  wp (qiwrite p) Q R k.
Proof using HO.
  intros Hw HQ. unfold qiwrite. apply wp_qiwrite_loop; [done|pose proof (zlen_nonneg p); lia|unfold zlen; lia|].
  intros r k' Hg Hc Hm Hr Hb. apply HQ; try done. rewrite Hb. unfold slice.
  by rewrite Z.sub_0_r, drop_0.
Qed.
End qio_thms.
