(* ===== verification/QioRead.v ===== *)
(** * Reading from a queue: [qwait], [qbread], [qread] *)
From S2P Require Import Prelude CMonad Bytes Block BlockThms Qio QioThms.

#[local] Arguments has : simpl never.
#[local] Arguments BLEN : simpl never.
#[local] Arguments BALLOC : simpl never.
#[local] Arguments bytes : simpl never.
#[local] Arguments blockalloclen : simpl never.

Section qio_read.
Context {H : Type} {HH : Heap H} {nm : Prop} {HO : HeapOk H nm}.
Implicit Types (k : K (H := H)) (q : Queue) (b : Block) (bl : list Block).

(** The configuration a reader keeps; it may count an end of file. *)
Definition kept q q' : Prop :=
  q_limit q' = q_limit q /\ q_noblock q' = q_noblock q /\ q_bypass q' = q_bypass q /\
  q_err q' = q_err q /\ q_eof q <= q_eof q'.
Lemma kept_conf q q' : same_conf q q' -> kept q q'.
Proof using. unfold kept. intros (-> & _ & -> & -> & _ & -> & ->). split_and!; done || lia. Qed.
Lemma kept_refl q : kept q q.
Proof using. apply kept_conf, same_conf_refl. Qed.
Lemma kept_trans q1 q2 q3 : kept q1 q2 -> kept q2 q3 -> kept q1 q3.
Proof using.
  intros (? & ? & ? & ? & ?) (? & ? & ? & ? & ?). unfold kept. split_and!; try congruence; lia.
Qed.

(** ** [qwait] *)

Definition eof_error q : bool :=
  (3 <? q_eof q) || (negb (bool_decide (q_err q = [])) && negb (bool_decide (q_err q = Ehungup))).

Lemma wp_qwait (Q : Z -> K -> Prop) (R : Z -> K -> Prop) k :
  (bfirst (k_q k) <> [] -> Q 1 k) ->
  (bfirst (k_q k) = [] -> has Qclosed (k_q k) = true ->
     let q1 := set_eof (q_eof (k_q k) + 1) (k_q k) in
     Q (if eof_error q1 then -1 else 0) (mkK (k_hs k) q1 (k_ev k))) ->
  (bfirst (k_q k) = [] -> has Qclosed (k_q k) = false ->
     R Sleeping (mkK (k_hs k) (raise_ Qstarve (k_q k)) (k_ev k))) ->
  wp qwait Q R k.
Proof using.
  intros H1 H2 H3. unfold qwait. apply wp_bind, wp_getq.
  destruct (bfirst (k_q k)) as [|b next] eqn:E; [|by apply wp_ret, H1].
  destruct (has Qclosed (k_q k)) eqn:Ec.
  - apply wp_bind, wp_updq, wp_bind, wp_getq. specialize (H2 eq_refl eq_refl). cbv zeta in H2.
    unfold eof_error in H2. cbn [k_q]. destruct (3 <? _); [by apply wp_ret|]. cbn [orb] in H2.
    by destruct (_ && _); apply wp_ret.
  - apply wp_bind, wp_updq, wp_leave. by apply H3.
Qed.

(** A queue left as it was but for the end-of-file count. *)
Lemma good_eof k : wfq (k_q k) -> has Qclosed (k_q k) = true ->
  good True 0 k (mkK (k_hs k) (set_eof (q_eof (k_q k) + 1) (k_q k)) (k_ev k)).
Proof using.
  intros Hw Hc. split_and!; [done|cbn; lia|]. exists []. cbn. rewrite app_nil_r. split_and!; [done| | |].
  - intros (_ & E & _). by rewrite E in Hc.
  - by intros Hf; left.
  - intros _ Hp. exact Hp.
Qed.

(** ** Taking and putting back *)

Lemma wp_qremove b next (Q : option Block -> K -> Prop) R k :
  bfirst (k_q k) = b :: next -> Q (Some b) (mkK (k_hs k) (minus b next (k_q k)) (k_ev k)) ->
  wp qremove Q R k.
Proof using.
  intros E HQ. unfold qremove. apply wp_bind, wp_getq. rewrite E. by apply wp_bind, wp_updq, wp_ret.
Qed.

(** The queue with [b] at its front. *)
Definition front b q : Queue :=
  set_dlen (q_dlen q + BLEN b) (set_len (q_len q + BALLOC b) (set_bfirst (b :: bfirst q) q)).
Lemma wfq_front q b : wfq q -> wfb b -> wfq (front b q).
Proof using.
  intros (Hw & Hl & Hd) Hb. pose proof (zlen_bdata b Hb). unfold wfq, front. cbn.
  rewrite bytes_cons, zlen_app. split_and!; [by constructor| |lia].
  change (blockalloclen (b :: bfirst q)) with (BALLOC b + blockalloclen (bfirst q)). lia.
Qed.

(** Restarting the writer at the end of a read. *)
Lemma wp_qwakeup (Q : () -> K -> Prop) R k :
  wfq (k_q k) ->
  (forall q' e, bfirst q' = bfirst (k_q k) -> wfq q' -> same_conf (k_q k) q' -> same_mode (k_q k) q' ->
     flow_ok (k_q k) q' e -> Q tt (mkK (k_hs k) q' (k_ev k ++ e))) ->
  wp qwakeup_iunlock Q R k.
Proof using.
  intros Hw HQ. unfold qwakeup_iunlock. apply wp_bind, wp_getq.
  apply (wp_restart (k_q k)); [by apply taken_refl|apply quot_limit| |].
  - intros Q' k0 HQ'. apply wp_bind, wp_when; intros _.
    + apply wp_emit, wp_emit. cbn. rewrite <- app_assoc. apply HQ'. repeat constructor.
    + apply wp_emit, HQ'. constructor.
  - intros q' e Eq Hw' Hc Hm _ Hf _. by apply HQ.
Qed.

(** A read that took something from the queue. *)
Lemma good_read k q1 q' e hs gain :
  bfirst (k_q k) <> [] -> wfq q' -> has Qflow q1 = has Qflow (k_q k) -> flow_ok q1 q' e ->
  snd hs - zlen (bfirst q') = snd (k_hs k) - zlen (bfirst (k_q k)) + gain ->
  good False gain k (mkK hs q' (k_ev k ++ e)).
Proof using.
  intros Hne Hw E Hf Hs. split_and!; [done|done|]. exists e. split_and!; [done| | |done].
  - intros (E' & _). done.
  - intros Hfl. apply Hf. by rewrite E.
Qed.

(** ** [qbread] *)

(** The exits of a reader. *)
Definition read_exit v k k' : Prop :=
  v = NoMem /\ nm /\ wfq (k_q k') \/
  v = Sleeping /\ bytes (bfirst (k_q k)) = [] /\ good False 0 k k' /\ kept (k_q k) (k_q k') /\
    same_mode (k_q k) (k_q k') /\ waiting (k_q k') \/
  v = Error /\ bytes (bfirst (k_q k)) = [] /\ good False 0 k k' /\ kept (k_q k) (k_q k') /\
    same_mode (k_q k) (k_q k') /\ has Qclosed (k_q k) = true /\ bfirst (k_q k') = [] /\ eof_error (k_q k') = true.

Lemma wp_qbread len (Q : option Block -> K -> Prop) R k :
  wfq (k_q k) -> 0 <= len ->
  (forall v k', read_exit v k k' -> R v k') ->
  (forall k', bfirst (k_q k) = [] -> has Qclosed (k_q k) = true -> good False 0 k k' ->
     k_q k' = set_eof (q_eof (k_q k) + 1) (k_q k) -> eof_error (k_q k') = false -> Q None k') ->
  (forall b k' first next, bfirst (k_q k) = first :: next -> good False 1 k k' ->
     same_conf (k_q k) (k_q k') -> same_mode (k_q k) (k_q k') -> wfb b ->
     bdata b = take (Z.to_nat len) (bdata first) ->
     bytes (bfirst (k_q k')) =
       (if has Qmsg (k_q k) then [] else drop (Z.to_nat len) (bdata first)) ++ bytes next ->
     Q (Some b) k') ->
  wp (qbread len) Q R k.
Proof using HO.
  intros Hw Hlen HR HQ0 HQ. unfold qbread. apply wp_bind, wp_qwait.
  3: { intros E Ec. apply HR. right. left. split_and!; [done|by rewrite E| |exact (kept_refl (k_q k))|apply same_mode_raise; by right|].
    - eapply good_weaken; [|by apply good_starve]. done.
    - unfold waiting. cbn [k_q]. split_and!; [done|by bit_simp|by bit_simp]. }
  2: { intros E Ec q1. pose proof (good_eof k Hw Ec) as Hg. fold q1 in Hg.
    apply (good_weaken _ False) in Hg; [|done].
    destruct (eof_error q1) eqn:Ee; cbn [Z.eqb].
    - apply wp_leave, HR. right. right. split_and!; try done; [by rewrite E|unfold kept, q1; cbn; split_and!; done || lia].
    - apply wp_ret, HQ0; done. }
  intros Hne. cbn [Z.eqb]. destruct (bfirst (k_q k)) as [|first next] eqn:E; [done|].
  destruct (wfq_cons _ _ _ Hw E) as (Hb & Hnx & _). pose proof (zlen_bdata first Hb) as Hz.
  destruct (taken_minus (k_q k) first next Hw E) as (Hw1 & _ & Hc1 & Hs1).
  apply wp_bind, (wp_qremove first next); [done|].
  apply wp_bind, (wp_of_option _ first); [done|]. cbv zeta. apply wp_bind, wp_getq. cbn [k_q].
  set (q1 := minus first next (k_q k)) in *.
  assert (forall b q2 hs, wfb b -> wfq q2 -> q_state q2 = q_state (k_q k) -> same_conf (k_q k) q2 ->
    snd hs - zlen (bfirst q2) = snd (k_hs k) - zlen (bfirst (k_q k)) + 1 ->
    bdata b = take (Z.to_nat len) (bdata first) ->
    bytes (bfirst q2) = (if has Qmsg (k_q k) then [] else drop (Z.to_nat len) (bdata first)) ++ bytes next ->
    wp (qwakeup_iunlock;; mret (Some b)) Q R (mkK hs q2 (k_ev k))) as Htail.
  { intros b q2 hs Hwb Hw2 Est Hc2 Hl Hd Hby. apply wp_bind, wp_qwakeup; [done|].
    cbn [k_q k_hs k_ev]. intros q' e Eq Hw' Hc' Hm' Hf. apply wp_ret, (HQ b _ first next); try done.
    - eapply (good_read k q2); [by rewrite E|done|by apply has_state|done|by rewrite Eq].
    - by eapply same_conf_trans.
    - eapply same_mode_trans; [by apply same_mode_eq|exact Hm'].
    - cbn. by rewrite Eq. }
  assert (has Qmsg q1 = has Qmsg (k_q k)) as Em by (apply has_state, Hs1).
  apply wp_bind. destruct (Z.ltb_spec len (BLEN first)) as [Hbig|Hfit].
  - rewrite Em. destruct (has Qmsg (k_q k)) eqn:Emsg; cbn [negb].
    + apply wp_ret. replace (BLEN first - len) with (BLEN first - len) by done.
      destruct (bdata_wp first (BLEN first - len)) as [Hw2 Hd2]; [done|lia|].
      apply (Htail _ q1 (k_hs k)); try done.
      * rewrite E. cbn. rewrite zlen_cons. lia.
      * rewrite Hd2. do 2 f_equal. lia.
    + apply wp_bind, (wp_lift_rx (nm := nm)).
      { intros Hnm hs. apply HR. left. split_and!; done. }
      apply wp_splitblock; [done|lia|]. intros h t hs Hwh Hwt Hd Hl Hs. cbv beta iota.
      apply wp_bind, wp_updq, wp_ret. cbn [k_q k_hs k_ev].
      pose proof (zlen_bdata h Hwh) as Hzh. pose proof (zlen_bdata t Hwt) as Hzt.
      assert (zlen (bdata h) = len) as Hzl.
      { assert (zlen (bdata h ++ bdata t) = BLEN first) as Hzz by by rewrite Hd. zl. }
      apply (Htail h (front t q1) hs); try done.
      * by apply wfq_front.
      * rewrite E. cbn in *. rewrite !zlen_cons. lia.
      * rewrite <- Hd, take_within by lia. rewrite take_ge; [done|unfold zlen in *; lia].
      * cbn. rewrite bytes_cons. f_equal. rewrite <- Hd, drop_past by lia. rewrite Hzl, Z.sub_diag. done.
  - apply wp_ret, (Htail first q1 (k_hs k)); try done.
    + rewrite E. cbn. rewrite zlen_cons. lia.
    + rewrite take_ge; [done|unfold zlen in *; lia].
    + cbn. rewrite drop_ge by (unfold zlen in *; lia). by destruct (has Qmsg (k_q k)).
Qed.

(** ** [qread] *)

(** A queue some blocks shorter, everything else as it was. *)
Definition shorter q q1 : Prop := wfq q1 /\ same_conf q q1 /\ q_state q1 = q_state q.
Lemma shorter_minus q b next : wfq q -> bfirst q = b :: next -> shorter q (minus b next q).
Proof using. intros Hw E. destruct (taken_minus q b next Hw E) as (? & _ & ? & ?). done. Qed.
Lemma shorter_trans q1 q2 q3 : shorter q1 q2 -> shorter q2 q3 -> shorter q1 q3.
Proof using.
  intros (_ & C1 & S1) (W & C2 & S2). split_and!; [done|by eapply same_conf_trans|congruence].
Qed.

(** The blocks gathered: at least one, the last alone reaching past [len]. *)
Lemma wp_gather bl : forall len n (Q : list Block * Z -> K -> Prop) R k,
  wfq (k_q k) -> bfirst (k_q k) = bl -> bl <> [] -> n <= len ->
  (forall r0 l rest q1, bl = (r0 ++ [l]) ++ rest -> shorter (k_q k) q1 -> bfirst q1 = rest ->
     n + zlen (bytes r0) <= len ->
     Q (r0 ++ [l], n + zlen (bytes (r0 ++ [l]))) (mkK (k_hs k) q1 (k_ev k))) ->
  wp (gather bl len n) Q R k.
Proof using.
  induction bl as [|b next IH]; intros len n Q R k Hw E Hne Hn HQ; [done|]. cbn [gather]. cbv zeta.
  destruct (wfq_cons _ _ _ Hw E) as (Hb & _). pose proof (zlen_bdata b Hb) as Hz.
  pose proof (shorter_minus _ _ _ Hw E) as Hsh.
  apply wp_bind, (wp_qremove b next); [done|].
  assert (zlen (bytes [b]) = BLEN b) as Hzb by by rewrite bytes_cons, bytes_nil, app_nil_r.
  destruct ((len <=? n + BLEN b) || bool_decide (next = [])) eqn:Estop.
  - apply wp_ret. specialize (HQ [] b next _ eq_refl Hsh eq_refl). cbn [app] in HQ.
    rewrite Hzb in HQ. apply HQ. change (zlen (bytes [])) with 0. lia.
  - apply orb_false_iff in Estop as [Hlt%Z.leb_gt Hnn%bool_decide_eq_false].
    apply wp_bind, IH; [exact (proj1 Hsh)|done|done|lia|].
    intros r0 l rest q1 -> Hsh1 E1 Hr. cbn [k_q k_hs k_ev] in *. cbv beta iota. apply wp_ret.
    replace (n + BLEN b + zlen (bytes (r0 ++ [l])))
      with (n + zlen (bytes ((b :: r0) ++ [l]))) by (cbn [app]; rewrite (bytes_cons b); zl).
    apply (HQ (b :: r0) l rest); [done|exact (shorter_trans _ _ _ Hsh Hsh1)|done|]. rewrite bytes_cons. zl.
Qed.

Lemma wp_split_last r0 : forall l n (Q : list Block -> K -> Prop) R k,
  wfb l -> 0 <= n <= BLEN l ->
  (nm -> forall hs, R NoMem (mkK hs (k_q k) (k_ev k))) ->
  (forall h t hs, wfb h -> wfb t -> bdata h ++ bdata t = bdata l -> BLEN t = n ->
     snd hs = snd (k_hs k) + 1 -> Q (r0 ++ [h]) (mkK hs (front t (k_q k)) (k_ev k))) ->
  wp (split_last (r0 ++ [l]) n) Q R k.
Proof using HO.
  induction r0 as [|b r0 IH]; intros l n Q R k Hl Hn HR HQ.
  - cbn [app split_last]. apply wp_bind, (wp_lift_rx (nm := nm)); [done|].
    apply wp_splitblock; [done|done|]. intros h t hs Hwh Hwt Hd Hbl Hs. cbv beta iota.
    apply wp_bind, wp_updq, wp_ret. by apply HQ.
  - assert (split_last ((b :: r0) ++ [l]) n =
      (r ← split_last (r0 ++ [l]) n; mret (b :: r))) as -> by (by destruct r0).
    apply wp_bind, IH; [done|done|done|]. intros h t hs Hwh Hwt Hd Hbl Hs. apply wp_ret.
    by apply (HQ h t hs).
Qed.

(** What a read returns and leaves: [pre] is the front of the queue it took. *)
Definition read_post len (s : list Z) k k' : Prop :=
  good False 0 k k' /\ kept (k_q k) (k_q k') /\ same_mode (k_q k) (k_q k') /\
  exists pre, bytes (bfirst (k_q k)) = pre ++ bytes (bfirst (k_q k')) /\
    s = take (Z.to_nat len) pre /\ (has Qmsg (k_q k) = false -> zlen pre <= len) /\
    (s = [] -> 0 < len ->
       bfirst (k_q k') = [] /\ has Qclosed (k_q k) = true /\ eof_error (k_q k') = false \/
       has Qcoalesce (k_q k) = false).

Lemma wp_qread_take len first next (Q : list Z -> K -> Prop) R k :
  wfq (k_q k) -> 0 <= len -> zlen (bytes (bfirst (k_q k))) < 2 ^ 32 ->
  bfirst (k_q k) = first :: next -> (has Qcoalesce (k_q k) && (BLEN first <=? 0)) = false ->
  (nm -> forall k', wfq (k_q k') -> R NoMem k') ->
  (forall s k', read_post len s k k' -> Q s k') ->
  wp ('(first, n) ←
        (if has Qcoalesce (k_q k) then gather (bfirst (k_q k)) len 0
         else o ← qremove; b ← of_option o; mret ([b], BLEN b));
      q ← getq;
      first ← (if (len <? n) && negb (has Qmsg q) then split_last first (n - len) else mret first);
      qwakeup_iunlock;;
      s ← lift (readblist first len 0);
      lift (freeblist first);;
      mret s) Q R k.
Proof using HO.
  intros Hw Hlen Hz32 E Hco HR HQ. destruct (wfq_cons _ _ _ Hw E) as (Hb & Hnx & _).
  apply wp_bind.
  assert (forall r0 l rest q1, first :: next = (r0 ++ [l]) ++ rest -> shorter (k_q k) q1 ->
    bfirst q1 = rest -> zlen (bytes r0) <= len ->
    wp (q ← getq;
        first ← (if (len <? zlen (bytes (r0 ++ [l]))) && negb (has Qmsg q)
                 then split_last (r0 ++ [l]) (zlen (bytes (r0 ++ [l])) - len) else mret (r0 ++ [l]));
        qwakeup_iunlock;;
        s ← lift (readblist first len 0);
        lift (freeblist first);;
        mret s) Q R (mkK (k_hs k) q1 (k_ev k))) as Htail.
  { intros r0 l rest q1 El (Hw1 & Hc1 & Hs1) E1 Hr0.
    assert (wfbl ((r0 ++ [l]) ++ rest)) as Hwl by (rewrite <- El, <- E; apply Hw).
    apply Forall_app in Hwl as [Hwl Hwr]. pose proof Hwl as [Hw0 Hwl1]%Forall_app.
    pose proof (Forall_inv Hwl1) as Hwb. pose proof (zlen_bdata l Hwb) as Hzl.
    assert (bytes (bfirst (k_q k)) = bytes (r0 ++ [l]) ++ bytes rest) as Hby
      by by rewrite E, El, bytes_app.
    assert (bytes (r0 ++ [l]) = bytes r0 ++ bdata l) as Hbl
      by by rewrite bytes_app, bytes_cons, bytes_nil, app_nil_r.
    (* the first block gathered is not empty in a coalescing read *)
    assert (bytes (r0 ++ [l]) = [] -> has Qcoalesce (k_q k) = false) as Hemp.
    { intros E0. destruct (has Qcoalesce (k_q k)); [|done]. cbn [andb] in Hco. apply Z.leb_gt in Hco.
      pose proof (zlen_bdata first Hb) as Hzf.
      assert (zlen (bytes (bfirst (k_q k))) = zlen (bytes rest)) as Hzz by by rewrite Hby, E0.
      rewrite E, bytes_cons in Hzz.
      destruct r0 as [|f r0]; simpl in El; injection El as <- El.
      - rewrite Hbl in E0. simpl in E0. rewrite E0 in Hzf. change (zlen (@nil Z)) with 0 in Hzf. lia.
      - rewrite Hbl, bytes_cons in E0. apply app_eq_nil in E0 as [E0 _].
        apply app_eq_nil in E0 as [E0 _]. rewrite E0 in Hzf. change (zlen (@nil Z)) with 0 in Hzf. lia. }
    assert (forall r q2 hs pre, wfbl r -> wfq q2 -> q_state q2 = q_state (k_q k) -> same_conf (k_q k) q2 ->
      snd hs - zlen (bfirst q2) = snd (k_hs k) - zlen (bfirst (k_q k)) + zlen r ->
      bytes r = pre -> bytes (bfirst (k_q k)) = pre ++ bytes (bfirst q2) ->
      (has Qmsg (k_q k) = false -> zlen pre <= len) ->
      (pre = [] -> 0 < len -> has Qcoalesce (k_q k) = false) ->
      wp (qwakeup_iunlock;; s ← lift (readblist r len 0); lift (freeblist r);; mret s) Q R
        (mkK hs q2 (k_ev k))) as Hend.
    { intros r q2 hs pre Hwr2 Hw2 Hst2 Hc2 Hl <- Hpre Hmsg He. apply wp_bind, wp_qwakeup; [done|].
      cbn [k_q k_hs k_ev]. intros q' e Eq Hw' Hc' Hm' Hf.
      apply wp_bind, wp_lift, wp_readblist; [done| |done|done|].
      { rewrite Hpre, zlen_app in Hz32. pose proof (zlen_nonneg (bytes (bfirst q2))). lia. }
      apply wp_bind, wp_lift, wp_freeblist. intros h. apply wp_ret, HQ. cbn [k_q k_hs k_ev].
      split_and!.
      - eapply (good_read k q2); [by rewrite E|done|by apply has_state|done|cbn; rewrite Eq; lia].
      - apply kept_conf. by eapply same_conf_trans.
      - eapply same_mode_trans; [by apply same_mode_eq|exact Hm'].
      - exists (bytes r). cbn [k_q]. rewrite Eq. split_and!; [done|done|done|].
        intros E0 Hpos. right. apply He; [|done].
        change (drop (Z.to_nat 0) (bytes r)) with (bytes r) in E0.
        destruct (bytes r) as [|x bs]; [done|]. by destruct (Z.to_nat len) eqn:?; [lia|]. }
    apply wp_bind, wp_getq. cbn [k_q]. rewrite (has_state (k_q k) q1 Qmsg Hs1). apply wp_bind.
    destruct (Z.ltb_spec len (zlen (bytes (r0 ++ [l])))) as [Hbig|Hfit];
      [destruct (has Qmsg (k_q k)) eqn:Emsg|]; cbn [andb negb].
    - apply wp_ret. apply (Hend _ q1 (k_hs k) (bytes (r0 ++ [l]))); try done.
      + rewrite E1, E, El. zl.
      + by rewrite E1.
      + intros E0 _. by apply Hemp.
    - rewrite Hbl, zlen_app, Hzl in Hbig. apply wp_split_last; [done|rewrite Hbl; zl| |].
      { intros Hnm hs. by apply HR. }
      intros h t hs Hwh Hwt Hd Ht Hs. cbn [k_q k_hs k_ev].
      assert (bytes (r0 ++ [h]) ++ bdata t = bytes (r0 ++ [l])) as Hsplit.
      { rewrite Hbl, bytes_app, bytes_cons, bytes_nil, app_nil_r, <- app_assoc. by rewrite Hd. }
      pose proof (zlen_bdata t Hwt) as Hzt.
      assert (zlen (bytes (r0 ++ [h])) = len) as Hzh.
      { assert (zlen (bytes (r0 ++ [h]) ++ bdata t) = zlen (bytes (r0 ++ [l]))) as Hzz by by rewrite Hsplit.
        zl. }
      apply (Hend _ (front t q1) hs (bytes (r0 ++ [h]))); try done.
      + apply Forall_app. split; [done|by constructor].
      + by apply wfq_front.
      + cbn in Hs |- *. rewrite E1, E, El. zl.
      + cbn. rewrite E1, bytes_cons, app_assoc, Hsplit. exact Hby.
      + lia.
      + intros E0 Hpos. rewrite E0 in Hzh. change (zlen (@nil Z)) with 0 in Hzh. lia.
    - apply wp_ret. apply (Hend _ q1 (k_hs k) (bytes (r0 ++ [l]))); try done.
      + rewrite E1, E, El. zl.
      + by rewrite E1.
      + intros E0 _. by apply Hemp. }
  destruct (has Qcoalesce (k_q k)).
  - rewrite E. apply wp_gather; [done|done|done|done|]. intros r0 l rest q1 El Hsh E1 Hr.
    rewrite Z.add_0_l in *. cbv beta iota. by apply (Htail r0 l rest).
  - apply wp_bind, (wp_qremove first next); [done|]. apply wp_bind, (wp_of_option _ first); [done|].
    apply wp_ret. cbv beta iota.
    specialize (Htail [] first next _ eq_refl (shorter_minus _ _ _ Hw E) eq_refl). cbn [app] in Htail.
    rewrite (bytes_cons first), bytes_nil, app_nil_r, zlen_bdata in Htail by done.
    apply Htail. by change (zlen (bytes [])) with 0.
Qed.

Lemma wp_qread_again fuel : forall len (Q : list Z -> K -> Prop) R k,
  wfq (k_q k) -> 0 <= len -> zlen (bytes (bfirst (k_q k))) < 2 ^ 32 ->
  (length (bfirst (k_q k)) < fuel)%nat ->
  (forall v k', read_exit v k k' -> R v k') ->
  (forall s k', read_post len s k k' -> Q s k') ->
  wp (qread_again fuel len) Q R k.
Proof using HO.
  induction fuel as [|fuel IH]; intros len Q R k Hw Hlen Hz Hfu HR HQ; [lia|]. cbn [qread_again].
  apply wp_bind, wp_qwait.
  3: { intros E Ec. apply HR. right. left.
    split_and!; [done|by rewrite E| |exact (kept_refl (k_q k))|apply same_mode_raise; by right|].
    - eapply good_weaken; [|by apply good_starve]. done.
    - unfold waiting. cbn [k_q]. split_and!; [done|by bit_simp|by bit_simp]. }
  2: { intros E Ec q1. pose proof (good_eof k Hw Ec) as Hg. fold q1 in Hg.
    apply (good_weaken _ False) in Hg; [|done].
    assert (kept (k_q k) q1) as Hk by (unfold kept, q1; cbn; split_and!; done || lia).
    destruct (eof_error q1) eqn:Ee; cbn [Z.eqb].
    - apply wp_leave, HR. right. right. split_and!; try done. by rewrite E.
    - apply wp_ret, HQ. split_and!; [done|done|done|]. exists []. cbn [k_q].
      rewrite take_nil. split_and!; [done|done|by intros; change (zlen (@nil Z)) with 0|].
      intros _ _. left. split_and!; done. }
  intros Hne. cbn [Z.eqb]. apply wp_bind, wp_getq.
  destruct (bfirst (k_q k)) as [|first next] eqn:E; [done|].
  destruct (has Qcoalesce (k_q k) && (BLEN first <=? 0)) eqn:Hco.
  - destruct (wfq_cons _ _ _ Hw E) as (Hb & Hnx & _ & _ & _ & Hbl).
    apply andb_prop in Hco as [Eco Hz0%Z.leb_le].
    assert (bytes (first :: next) = bytes next) as Hby by (rewrite bytes_cons, bdata_empty; [done|lia]).
    destruct (shorter_minus _ _ _ Hw E) as (Hw1 & Hc1 & Hs1).
    apply wp_bind, (wp_qremove first next); [done|]. apply wp_bind, (wp_of_option _ first); [done|].
    apply wp_bind, wp_lift, wp_freeb. intros h. cbn [k_q k_hs k_ev].
    set (k1 := mkK (h, snd (k_hs k) - 1) (minus first next (k_q k)) (k_ev k)).
    assert (good False 0 k k1) as Hg1.
    { split_and!; [done|cbn; rewrite E; zl|]. exists []. cbn. rewrite app_nil_r.
      split_and!; [done|by eapply waiting_nonempty| |done].
      intros Hf. left. by rewrite (has_state (k_q k)). }
    assert (same_mode (k_q k) (k_q k1)) as Hm1 by by apply same_mode_eq.
    assert (kept (k_q k) (k_q k1)) as Hk1 by by apply kept_conf.
    apply (IH len Q R k1); [done|done|change (bytes (bfirst (k_q k1))) with (bytes next); rewrite <- Hby; exact Hz|simpl in Hfu |- *; lia| |].
    + intros v k' Hx. apply HR. unfold read_exit in *. change (bytes (bfirst (k_q k1))) with (bytes next) in Hx.
      rewrite E, Hby. destruct Hx as [?|[(-> & ? & G & Kp & Mx & ?)|(-> & ? & G & Kp & Mx & C & ?)]]; [by left|right; left|right; right].
      * split; [done|]. split; [done|].
        split; [eapply good_weaken; [|exact (good_trans _ _ _ _ _ _ _ Hg1 G)]; done|].
        split; [exact (kept_trans _ _ _ Hk1 Kp)|]. split; [exact (same_mode_trans _ _ _ Hm1 Mx)|done].
      * pose proof (proj1 Hm1) as Mc. rewrite Mc in C. split; [done|]. split; [done|].
        split; [eapply good_weaken; [|exact (good_trans _ _ _ _ _ _ _ Hg1 G)]; done|].
        split; [exact (kept_trans _ _ _ Hk1 Kp)|]. split; [exact (same_mode_trans _ _ _ Hm1 Mx)|by split].
    + intros s k' (G & Kp & Mm & pre & P1 & P2 & P3 & P4). apply HQ.
      destruct Hm1 as (Mc & Mms & Mco & Mk). rewrite Mms, Mc, Mco in *. split_and!.
      * eapply good_weaken; [|exact (good_trans _ _ _ _ _ _ _ Hg1 G)]. done.
      * by eapply kept_trans.
      * eapply same_mode_trans; [|exact Mm]. by split_and!.
      * exists pre. rewrite E, Hby. split_and!; done.
  - pose proof (wp_qread_take len first next Q R k) as Ht. rewrite E in Ht. apply Ht; try done.
    intros Hnm k' Hw'. apply HR. by left.
Qed.

Lemma wp_qread len (Q : list Z -> K -> Prop) R k :
  wfq (k_q k) -> 0 <= len -> zlen (bytes (bfirst (k_q k))) < 2 ^ 32 ->
  (forall v k', read_exit v k k' -> R v k') ->
  (forall s k', read_post len s k k' -> Q s k') ->
  wp (qread len) Q R k.
Proof using HO.
  intros Hw Hlen Hz HR HQ. unfold qread. apply wp_bind, wp_getq.
  apply wp_qread_again; try done. lia.
Qed.
End qio_read.
