(* ===== verification/QioProps.v ===== *)
(** * What the queues promise

    The operations of a queue as one type, the accounts every one of them
    keeps, and the queue as a stream of bytes. *)
From S2P Require Import Prelude CMonad Bytes Block BlockThms Qio QioThms QioRead.
From stdpp Require Import relations.
Local Open Scope Z_scope.

#[local] Arguments has : simpl never.
#[local] Arguments BLEN : simpl never.
#[local] Arguments BALLOC : simpl never.
#[local] Arguments bytes : simpl never.
#[local] Arguments blockalloclen : simpl never.

(** ** The operations *)

Inductive Qop : Type :=
| OGet | OBread (len : Z) | ORead (len : Z) | OConsume (len : Z) | ODiscard (len : Z)
| OCopy (len offset : Z)
| OPass (bl : list Block) | OPassnolim (bl : list Block) | OBwrite (bl : list Block)
| OProduce (p : list Z) | OWrite (p : list Z) | OIwrite (p : list Z)
| OClose | OHangup (msg : option (list Z)) | OReopen | OFlush
| OSetlimit (limit : Z) | ONoblock (onoff : Z).

(** The blocks the caller hands over. *)
Definition op_blocks (o : Qop) : list Block :=
  match o with OPass bl | OPassnolim bl | OBwrite bl => bl | _ => [] end.
(** C's [int] lengths are not negative, a block list is not [nil], and the
    queue holds less than 4 GB. *)
Definition op_ok (q : Queue) (o : Qop) : Prop :=
  match o with
  | OBread len | OConsume len => 0 <= len
  | ORead len => 0 <= len /\ zlen (bytes (bfirst q)) < 2 ^ 32
  | OCopy len offset => 0 <= len /\ 0 <= offset /\ zlen (bytes (bfirst q)) < 2 ^ 32
  | OPass bl | OPassnolim bl | OBwrite bl => bl <> [] /\ wfbl bl
  | _ => True
  end.

Section run.
Context {H : Type} {HH : Heap H}.

(** Runs an operation; the result is the blocks given to the caller. *)
Definition run_op (o : Qop) : M (K (H := H)) (list Block) :=
  match o with
  | OGet => b ← qget; mret (option_list b)
  | OBread len => b ← qbread len; mret (option_list b)
  | ORead len => qread len;; mret []
  | OConsume len => qconsume len;; mret []
  | ODiscard len => qdiscard len;; mret []
  | OCopy len offset => b ← qcopy len offset; mret [b]
  | OPass bl => qpass bl;; mret []
  | OPassnolim bl => qpassnolim bl;; mret []
  | OBwrite bl => qbwrite bl;; mret []
  | OProduce p => qproduce p;; mret []
  | OWrite p => qwrite p;; mret []
  | OIwrite p => qiwrite p;; mret []
  | OClose => qclose;; mret []
  | OHangup msg => qhangup msg;; mret []
  | OReopen => qreopen;; mret []
  | OFlush => qflush;; mret []
  | OSetlimit l => qsetlimit l;; mret []
  | ONoblock v => qnoblock v;; mret []
  end.
End run.

Section props.
Context {H : Type} {HH : Heap H} {nm : Prop} {HO : HeapOk H nm}.
Implicit Types (k : K (H := H)) (q : Queue).

(** An operation that came back: well-formed, no block lost, sleepers seen to. *)
Definition done_ok (o : Qop) (given : list Block) k k' : Prop :=
  wfq (k_q k') /\
  (match o with OProduce _ => True | _ => q_bypass (k_q k) = false ->
     snd (k_hs k') - zlen (bfirst (k_q k')) =
     snd (k_hs k) - zlen (bfirst (k_q k)) + zlen given - zlen (op_blocks o) end) /\
  exists e, k_ev k' = k_ev k ++ e /\ wake_ok (k_q k) (k_q k') e /\ flow_ok (k_q k) (k_q k') e.
(** One that did not: out of memory, asleep or with an error. *)
Definition left_ok v k k' : Prop :=
  wfq (k_q k') /\ (v = NoMem /\ nm \/ v = Sleeping /\ waiting (k_q k') \/ v = Error /\ has Qclosed (k_q k) = true).

Lemma good_done pk g o given k k' :
  good pk g k k' ->
  (match o with OProduce _ => True | _ => q_bypass (k_q k) = false -> g = zlen given - zlen (op_blocks o) end) ->
  done_ok o given k k'.
Proof using.
  intros (Hw & Hl & e & E & Wk & Fl & _) Hg. split_and!; [done| |by exists e].
  destruct o; intros; rewrite ?Hl; try rewrite Hg by done; try lia; done.
Qed.

Lemma read_exit_left v k k' : read_exit (nm := nm) v k k' -> left_ok v k k'.
Proof using.
  intros [(-> & ? & ?)|[(-> & _ & G & _ & _ & ?)|(-> & _ & G & _ & _ & ? & _)]]; (split; [|tauto]); try apply G; done.
Qed.

Lemma run_op_accounts o k :
  wfq (k_q k) -> op_ok (k_q k) o ->
  wp (run_op o) (fun given k' => done_ok o given k k') (fun v k' => left_ok v k k') k.
Proof using HO.
  intros Hw Ho. destruct o as [|len|len|len|len|len off|bl|bl|bl|p|p|p| |msg| | |l|v];
    cbn [op_ok run_op] in *; destr; try apply wp_bind.
  - apply wp_qget; [done|]. intros b k' Hg _ _ _. apply wp_ret. eapply good_done; [exact Hg|].
    by destruct b.
  - apply (wp_qbread (nm := nm)); [done|done| | |].
    + intros v k' Hx. by apply read_exit_left.
    + intros k' _ _ Hg _ _. apply wp_ret. by eapply good_done.
    + intros b k' first next _ Hg _ _ _ _ _. apply wp_ret. by eapply good_done.
  - apply (wp_qread (nm := nm)); [done|done|done| |].
    + intros v k' Hx. by apply read_exit_left.
    + intros s k' (Hg & _). apply wp_ret. by eapply good_done.
  - apply wp_qconsume; [done|done|]. intros r s k' Hg _ _ _. apply wp_ret. by eapply good_done.
  - apply wp_qdiscard; [done|]. intros n k' Hg _ _ _ _. apply wp_ret. by eapply good_done.
  - apply (wp_qcopy (nm := nm)); [done|done|done|done| |].
    + intros Hn hs. split; [done|tauto].
    + intros b k' Hg _ _ _. apply wp_ret. by eapply good_done.
  - apply wp_qpass; [done..|]. intros r k' (Hg & _) _. apply wp_ret. eapply good_done; [exact Hg|].
    cbn. intros _. change (zlen (@nil Block)) with 0. lia.
  - apply wp_qpassnolim; [done..|]. intros r k' (Hg & _) _. apply wp_ret. eapply good_done; [exact Hg|].
    cbn. intros _. change (zlen (@nil Block)) with 0. lia.
  - apply wp_qbwrite; [done..| |].
    + intros k' _ Hc E _. split; [by rewrite E|tauto].
    + intros k' Hg _ _ _ _. apply wp_ret. eapply good_done; [exact Hg|]. cbn. intros ->.
      change (zlen (@nil Block)) with 0. lia.
  - apply (wp_qproduce (nm := nm)); [done|]. intros r k' _ _ Hr. apply wp_ret.
    destruct Hr as [(_ & _ & _ & Hg)|[(_ & _ & _ & Hg)|(_ & _ & _ & Hg)]]; by eapply good_done.
  - apply (wp_qwrite (nm := nm)); [done| |].
    + intros v k' [[-> ?]|(-> & _ & ? & _)] Hw'; (split; [done|tauto]).
    + intros k' ((g & Hg & Hz) & _) _. apply wp_ret. eapply good_done; [exact Hg|]. cbn.
      intros E. rewrite (Hz E). done.
  - apply (wp_qiwrite (nm := nm)); [done|]. intros r k' Hg _ _ _ _. apply wp_ret. by eapply good_done.
  - apply wp_qclose. intros k' Hg _ _ _ _. apply wp_ret. by eapply good_done.
  - apply wp_qhangup; [done|]. intros k' Hg _ _. apply wp_ret. by eapply good_done.
  - apply wp_bind, wp_updq, wp_bind, wp_updq, wp_bind, wp_updq, wp_updq, wp_ret.
    cbn [k_q k_hs k_ev]. apply (good_done False 0); [|done].
    split_and!; [done|cbn; lia|]. exists []. cbn [k_ev k_q]. rewrite app_nil_r. split_and!; [done| | |done].
    + intros (E & _). left. split_and!; [done| |].
      * change (has Qclosed (raise_ Qstarve (lower Qclosed (k_q k))) = false). by bit_simp.
      * change (has Qstarve (raise_ Qstarve (lower Qclosed (k_q k))) = true). by bit_simp.
    + intros Hf. left. change (has Qflow (raise_ Qstarve (lower Qclosed (k_q k))) = true). by bit_simp.
  - apply wp_qflush. intros k' Hg _ _ _. apply wp_ret. by eapply good_done.
  - apply wp_updq, wp_ret, (good_done False 0); [|done].
    split_and!; [done|cbn; lia|]. exists []. cbn [k_ev k_q]. rewrite app_nil_r.
    split_and!; [done|intros ?; by left|intros ?; by left|done].
  - apply wp_updq, wp_ret, (good_done False 0); [|done].
    split_and!; [done|cbn; lia|]. exists []. cbn [k_ev k_q]. rewrite app_nil_r.
    split_and!; [done|intros ?; by left|intros ?; by left|done].
Qed.


(** ** A queue is a stream of bytes *)

Inductive Sop : Type :=
| SWrite (p : list Z) | SIwrite (p : list Z) | SProduce (p : list Z)
| SPass (bl : list Block) | SPassnolim (bl : list Block) | SBwrite (bl : list Block)
| SRead (len : Z) | SBread (len : Z) | SGet | SConsume (len : Z) | SDiscard (len : Z).

(** Runs an operation; the bytes the queue took and the bytes it gave up. *)
Definition run_sop (o : Sop) : M (K (H := H)) (list Z * list Z) :=
  match o with
  | SWrite p => qwrite p;; mret (p, [])
  | SIwrite p => r ← qiwrite p; mret (take (Z.to_nat r) p, [])
  | SProduce p => r ← qproduce p; mret (if r <=? 0 then [] else p, [])
  | SPass bl => r ← qpass bl; mret (if r <=? 0 then [] else bytes bl, [])
  | SPassnolim bl => r ← qpassnolim bl; mret (if r <=? 0 then [] else bytes bl, [])
  | SBwrite bl => qbwrite bl;; mret (bytes bl, [])
  | SRead len => s ← qread len; mret ([], s)
  | SBread len => b ← qbread len; mret ([], bytes (option_list b))
  | SGet => b ← qget; mret ([], bytes (option_list b))
  | SConsume len => '(_, s) ← qconsume len; mret ([], s)
  | SDiscard len => q ← getq; n ← qdiscard len; mret ([], take (Z.to_nat n) (bytes (bfirst q)))
  end.
Definition sop_ok (q : Queue) (o : Sop) : Prop :=
  match o with
  | SRead len => 0 <= len /\ zlen (bytes (bfirst q)) < 2 ^ 32
  | SBread len | SConsume len => 0 <= len
  | SPass bl | SPassnolim bl | SBwrite bl => bl <> [] /\ wfbl bl
  | _ => True
  end.

(** A step: an operation that comes back, or one that leaves (asleep, or with
    the error of a closed queue) and is run again or given up. *)
Inductive sstep : K (H := H) * list Z * list Z -> K (H := H) * list Z * list Z -> Prop :=
| sstep_ok o k k' i d di dd :
    sop_ok (k_q k) o -> run_sop o k = (Ok (di, dd), k') -> sstep (k, i, d) (k', i ++ di, d ++ dd)
| sstep_left o k k' i d v :
    sop_ok (k_q k) o -> run_sop o k = (Ret v, k') -> v <> NoMem -> sstep (k, i, d) (k', i, d).

(** A byte stream: no message boundaries, no bypass, writers that wait. *)
Definition smode q : Prop := has Qmsg q = false /\ q_bypass q = false /\ q_noblock q = 0.

Definition flows di dd k k' : Prop :=
  wfq (k_q k') /\ smode (k_q k') /\
  bytes (bfirst (k_q k)) ++ di = dd ++ bytes (bfirst (k_q k')).

Lemma flows_intro di dd k k' :
  smode (k_q k) -> wfq (k_q k') -> q_bypass (k_q k') = q_bypass (k_q k) ->
  q_noblock (k_q k') = q_noblock (k_q k) -> same_mode (k_q k) (k_q k') ->
  bytes (bfirst (k_q k)) ++ di = dd ++ bytes (bfirst (k_q k')) -> flows di dd k k'.
Proof using.
  intros (S1 & S2 & S3) Hw E1 E2 (_ & Em & _) Hb. split_and!; try done. unfold smode.
  by rewrite E1, E2, Em.
Qed.
Lemma flows_conf di dd k k' :
  smode (k_q k) -> wfq (k_q k') -> same_conf (k_q k) (k_q k') -> same_mode (k_q k) (k_q k') ->
  bytes (bfirst (k_q k)) ++ di = dd ++ bytes (bfirst (k_q k')) -> flows di dd k k'.
Proof using. intros Hs Hw (_ & _ & E2 & _ & _ & E1 & _) Hm Hb. by apply flows_intro. Qed.
Lemma passed_flows bl r k k' :
  smode (k_q k) -> passed bl r k k' -> flows (if r <=? 0 then [] else bytes bl) [] k k'.
Proof using.
  intros Hs (Hg & Hc & Hm & Hr). apply flows_conf; [done|exact (proj1 Hg)|done|done|]. cbn [app].
  destruct Hr as [[-> ->]|[Hr ->]].
  - destruct (Z.leb_spec (zlen (bytes bl)) 0) as [Hz|Hz]; [|done].
    pose proof (zlen_nonneg (bytes bl)). by rewrite (zlen_0_inv (bytes bl)) by lia.
  - destruct (Z.leb_spec r 0); [|lia]. by rewrite app_nil_r.
Qed.

(** The exits leave the bytes and the mode alone. *)
Definition stopped v k k' : Prop := v <> NoMem -> flows [] [] k k'.
Lemma read_exit_stopped v k k' :
  smode (k_q k) -> read_exit (nm := nm) v k k' -> stopped v k k'.
Proof using.
  intros Hs [(-> & _)|[(-> & E & G & (_ & E2 & E3 & _) & Mx & W)|(-> & E & G & (_ & E2 & E3 & _) & Mx & _ & W & _)]] Hv;
    [done| |]; (apply flows_intro; [done|exact (proj1 G)|done|done|done|]); rewrite E.
  - by rewrite (proj1 W).
  - by rewrite W.
Qed.

Lemma wp_run_sop o k :
  wfq (k_q k) -> smode (k_q k) -> sop_ok (k_q k) o ->
  wp (run_sop o) (fun r k' => flows r.1 r.2 k k') (fun v k' => stopped v k k') k.
Proof using HO.
  intros Hw Hs Ho. pose proof Hs as (Em & Eb & En).
  destruct o as [p|p|p|bl|bl|bl|len|len| |len|len]; cbn [sop_ok run_sop] in *; destr; apply wp_bind.
  - apply (wp_qwrite (nm := nm)); [done| |].
    + intros v k' Hv Hw'. destruct Hv as [[-> _]|(-> & _ & _ & E)]; intros Hne; [done|].
      apply flows_intro; rewrite ?E; auto using same_mode_refl. by rewrite app_nil_r.
    + intros k' ((g & Hg & _) & Hc & Hm & Hby) _. apply wp_ret. apply flows_conf; try done; [apply Hg|].
      rewrite Hby by done. unfold accepted. by rewrite Em.
  - apply (wp_qiwrite (nm := nm)); [done|]. intros r k' Hg Hc Hm _ Hby. apply wp_ret.
    apply flows_conf; try done; apply Hg.
  - apply (wp_qproduce (nm := nm)); [done|]. intros r k' Hc Hm Hr. apply wp_ret.
    destruct Hr as [(_ & -> & E & Hg)|[(_ & -> & E & Hg)|(_ & -> & E & Hg)]];
      (apply flows_conf; [done|apply Hg|done|done|]); cbn [fst snd Z.leb Z.compare]; rewrite E.
    + by rewrite app_nil_r.
    + by rewrite app_nil_r.
    + destruct (Z.leb_spec (zlen p) 0) as [Hz|Hz]; [|done].
      pose proof (zlen_nonneg p). by rewrite (zlen_0_inv p) by lia.
  - apply wp_qpass; [done..|]. intros r k' Hp _. apply wp_ret. by apply passed_flows.
  - apply wp_qpassnolim; [done..|]. intros r k' Hp _. apply wp_ret. by apply passed_flows.
  - apply wp_qbwrite; [done..| |].
    + intros k' _ _ E Hg _. apply flows_intro; rewrite ?E; auto using same_mode_refl. by rewrite app_nil_r.
    + intros k' Hg Hc Hm _ E. apply wp_ret. apply flows_conf; try done; [apply Hg|]. rewrite E, Eb, En.
      cbn [Z.eqb negb]. rewrite andb_false_r. cbn [orb fst snd app]. by rewrite bytes_app.
  - apply (wp_qread (nm := nm)); [done|done|done| |].
    + intros v k' Hx. by apply read_exit_stopped.
    + intros s k' (Hg & (_ & K2 & K3 & _) & Hm & pre & P1 & P2 & P3 & _). apply wp_ret.
      apply flows_intro; try done; [apply Hg|]. cbn [fst snd]. rewrite app_nil_r, P1, P2. f_equal.
      rewrite take_ge; [done|]. pose proof (P3 Em). unfold zlen in *. lia.
  - apply (wp_qbread (nm := nm)); [done|done| | |].
    + intros v k' Hx. by apply read_exit_stopped.
    + intros k' E _ Hg E1 _. apply wp_ret. apply flows_intro; [done|apply Hg|by rewrite E1|by rewrite E1|rewrite E1; by apply same_mode_eq|].
      rewrite E1. cbn [fst snd option_list set_eof bfirst]. by rewrite E.
    + intros b k' first next E Hg Hc Hm Hwb Hd Hby. apply wp_ret. apply flows_conf; try done; [apply Hg|].
      cbn [fst snd]. change (option_list (Some b)) with [b]. rewrite E, Hby, Em, (bytes_cons first), (bytes_cons b), bytes_nil, Hd.
      rewrite !app_nil_r, app_assoc. by rewrite take_drop.
  - apply wp_qget; [done|]. intros b k' Hg Hc Hm Hb. apply wp_ret. apply flows_conf; try done; [apply Hg|].
    cbn [fst snd]. rewrite app_nil_r. destruct b as [b|].
    + destruct Hb as [_ ->]. change (option_list (Some b)) with [b]. by rewrite !bytes_cons, bytes_nil, app_nil_r.
    + destruct Hb as [-> ->]. done.
  - apply wp_qconsume; [done|done|]. intros r s k' Hg Hc Hm Hr. apply wp_ret. apply flows_conf; try done; [apply Hg|].
    cbn [fst snd]. rewrite app_nil_r.
    destruct Hr as [(_ & -> & -> & ->)|(_ & _ & b & next & -> & _ & -> & ->)]; [done|].
    rewrite Em, app_assoc. by rewrite take_drop.
  - apply wp_getq, wp_bind, wp_qdiscard; [done|]. intros n k' Hg Hc Hm Hn Hby. apply wp_ret.
    apply flows_conf; try done; [apply Hg|]. cbn [fst snd]. rewrite app_nil_r, Hby.
    pose proof (zlen_nonneg (bytes (bfirst (k_q k)))).
    destruct (Z.le_gt_cases len (zlen (bytes (bfirst (k_q k))))) as [Hle|Hgt].
    + replace (Z.to_nat n) with (Z.to_nat len) by lia. by rewrite take_drop.
    + rewrite (drop_ge _ (Z.to_nat len)), app_nil_r, take_ge; [done|unfold zlen in *; lia..].
Qed.

(** C11. A queue that is not a message queue is a stream: whatever operations
    run on it, from whatever routines and in whatever order, the bytes it held
    and the bytes it accepted are, in order, the bytes it gave up (read,
    consumed, discarded or taken by the block) followed by the bytes it
    holds. *)
Theorem queue_fifo k0 k i d :
  rtc sstep (k0, [], []) (k, i, d) -> wfq (k_q k0) -> smode (k_q k0) ->
  wfq (k_q k) /\ smode (k_q k) /\
  bytes (bfirst (k_q k0)) ++ i = d ++ bytes (bfirst (k_q k)).
Proof using HO.
  intros Hr Hw Hs.
  enough (forall s, rtc sstep (k0, [], []) s ->
    wfq (k_q s.1.1) /\ smode (k_q s.1.1) /\
    bytes (bfirst (k_q k0)) ++ s.1.2 = s.2 ++ bytes (bfirst (k_q s.1.1))) as Hinv by exact (Hinv _ Hr).
  clear k i d Hr. apply rtc_ind_r.
  { cbn. split_and!; [done|done|]. by rewrite app_nil_r. }
  intros s1 s2 _ Hstep (W & S & B).
  destruct Hstep as [o k k' i d di dd Ho E|o k k' i d v Ho E Hv]; cbn [fst snd] in *;
    pose proof (wp_run_sop o k W S Ho) as Hwp; unfold wp in Hwp; rewrite E in Hwp.
  - destruct Hwp as (W' & S' & B'). cbn in B'. split_and!; [done|done|].
    rewrite app_assoc, B, <- !app_assoc. by rewrite B'.
  - destruct (Hwp Hv) as (W' & S' & B'). rewrite app_nil_r in B'. split_and!; [done|done|].
    rewrite B. f_equal. exact B'.
Qed.

(** [qread] takes the front of the queue: what it stores is at most [len]
    bytes, the next ones, and in a queue without message boundaries nothing it
    does not return is lost (a message is cut and its rest dropped); a
    coalescing read comes back empty only at the end of a closed queue; it
    sleeps only on a queue without bytes, leaving [Qstarve] set, and raises
    the error only on a closed one; its loop ends. *)
Theorem qread_front len k :
  wfq (k_q k) -> 0 <= len -> zlen (bytes (bfirst (k_q k))) < 2 ^ 32 ->
  wp (qread len) (fun s k' => read_post len s k k') (fun v k' => read_exit (nm := nm) v k k') k.
Proof using HO. intros. apply (wp_qread (nm := nm)); auto. Qed.

(** [qwrite] returns [len] and appends the bytes, in blocks of at most
    [Maxatomic] bytes, and its loop ends; but in message mode it stops after
    the first block, so that of a longer message only the first [Maxatomic]
    bytes are queued, and [len] is returned all the same. *)
Theorem qwrite_appends p k :
  wfq (k_q k) -> q_bypass (k_q k) = false -> q_noblock (k_q k) = 0 -> has Qclosed (k_q k) = false ->
  wp (qwrite p)
    (fun r k' => r = zlen p /\ wfq (k_q k') /\
       bytes (bfirst (k_q k')) = bytes (bfirst (k_q k)) ++
         (if has Qmsg (k_q k) then take (Z.to_nat Maxatomic) p else p))
    (fun v k' => v = NoMem /\ nm) k.
Proof using HO.
  intros Hw Eb En Ec. apply (wp_qwrite (nm := nm)); [done| |].
  - intros v k' [?|(_ & _ & E & _)] _; [done|by rewrite Ec in E].
  - intros k' ((g & Hg & _) & _ & _ & Hby) _. split; [done|]. split; [apply Hg|]. by apply Hby.
Qed.

(** [qproduce] on a queue at its limit returns -1 and leaks the block it
    has just allocated: one more block is live and none more is queued. *)
Theorem qproduce_leak p k :
  wfq (k_q k) -> q_limit (k_q k) <= q_len (k_q k) ->
  wp (qproduce p)
    (fun r k' => nm /\ r = 0 \/
       r = -1 /\ bfirst (k_q k') = bfirst (k_q k) /\ snd (k_hs k') = snd (k_hs k) + 1)
    (fun _ _ => False) k.
Proof using HO.
  intros Hw Hl. apply (wp_qproduce (nm := nm)); [done|]. intros r k' _ _ Hr.
  destruct Hr as [(? & ? & _)|[(_ & -> & E & Hg)|(Hlt & _)]]; [by left|right|lia].
  split_and!; [done|done|]. destruct Hg as (_ & L & _). rewrite E in L. lia.
Qed.

(** [pullupqueue] moves the bytes as [pullupblock] does but never touches
    the counters: where the blocks change, [q->len] is the size of the old
    ones, and when the queue is too short it has no block left and still
    counts the bytes it had. *)
Theorem pullupqueue_counters n first next k :
  wfq (k_q k) -> bfirst (k_q k) = first :: next -> 0 <= n ->
  wp (pullupqueue n)
    (fun r k' => bfirst (k_q k') = r /\ wfbl r /\
       (if zlen (bytes (first :: next)) <? n then r = [] else bytes r = bytes (first :: next)) /\
       q_len (k_q k') = blockalloclen (first :: next) /\
       q_dlen (k_q k') = zlen (bytes (first :: next)) /\
       (0 < zlen (bytes (first :: next)) < n -> ~ wfq (k_q k')))
    (fun v k' => v = NoMem /\ nm) k.
Proof using HO.
  intros Hw E Hn. pose proof Hw as (Hb & Hl & Hd). rewrite E in *. unfold pullupqueue.
  destruct (wfq_cons _ _ _ Hw E) as (Hf & _ & _ & _). pose proof (zlen_bdata first Hf) as Hz.
  pose proof (zlen_nonneg (bytes next)).
  apply wp_bind, wp_getq. rewrite E.
  destruct (Z.leb_spec n (BLEN first)) as [Hle|Hgt].
  - apply wp_ret. rewrite E. rewrite bytes_cons, zlen_app in *.
    split_and!; try done; try lia. destruct (Z.ltb_spec (zlen (bdata first) + zlen (bytes next)) n); [lia|done].
  - apply wp_bind, (wp_lift_rx (nm := nm)); [done|].
    apply wp_pullupblock; [done|done| |].
    + intros Hle d rest hs Hwr _ Hc _. apply wp_bind, wp_updq, wp_ret. cbn [k_q].
      destruct (Z.ltb_spec (zlen (bytes (first :: next))) n); [lia|]. split_and!; try done; lia.
    + intros Hlt hs _. apply wp_bind, wp_updq, wp_ret. cbn [k_q].
      destruct (Z.ltb_spec (zlen (bytes (first :: next))) n); [|lia].
      split_and!; try done. intros [Hpos _] (_ & _ & Hd'). cbn in Hd'. rewrite Hd in Hd'.
      change (zlen (bytes [])) with 0 in Hd'. lia.
Qed.

(** End of file: a read of an empty closed queue counts it and returns 0,
    so a queue closed by [qclose] gives three empty reads and then the error;
    one hung up with another message gives the error at once. *)
Theorem qread_eof len k :
  bfirst (k_q k) = [] -> has Qclosed (k_q k) = true ->
  qread len k =
    (let q1 := set_eof (q_eof (k_q k) + 1) (k_q k) in
     let error := (3 <? q_eof q1) ||
       (negb (bool_decide (q_err q1 = [])) && negb (bool_decide (q_err q1 = Ehungup))) in
     (if error then Ret Error else Ok [], mkK (k_hs k) q1 (k_ev k))).
Proof using.
  intros E Ec. unfold qread, getq. rewrite bind_gets, E. cbn [length qread_again]. unfold qwait.
  set (q1 := set_eof (q_eof (k_q k) + 1) (k_q k)). cbv zeta.
  unfold mbind at 1, M_bind at 1. unfold mbind at 1, M_bind at 1. cbn. rewrite E, Ec.
  unfold mbind at 1, M_bind at 1. cbn. fold q1. unfold mbind at 1, M_bind at 1. cbn. fold q1.
  change (q_eof q1) with (q_eof (k_q k) + 1). change (q_err q1) with (q_err (k_q k)).
  destruct (3 <? q_eof (k_q k) + 1); [done|]. cbn [orb].
  by destruct (negb (bool_decide (q_err (k_q k) = [])) && negb (bool_decide (q_err (k_q k) = Ehungup))).
Qed.
End props.

(** ** Witnesses *)

Definition kopen (limit msg : Z) : K (H := N) := mkK (8192%N, 0) (qopen limit msg false) [].
Lemma kopen_wfq limit msg : wfq (k_q (kopen limit msg)).
Proof. split_and!; [constructor|done|done]. Qed.

(** A queue holding one block of the bytes [s] in a buffer of their size. *)
Definition kheld (limit msg : Z) (s : list Z) : K (H := N) :=
  mkK (8192%N, 1)
    (mkQueue [blk s 0 (zlen s)] (zlen s) (zlen s) limit limit msg 0 0 false false []) [].
Lemma kheld_wfq limit msg s : wfq (k_q (kheld limit msg s)).
Proof.
  pose proof (zlen_nonneg s).
  assert (wfb (blk s 0 (zlen s))) as Hb by (unfold wfb, b_lim; simpl; lia).
  split_and!; cbn.
  - by constructor.
  - unfold blockalloclen, BALLOC, b_lim. cbn. lia.
  - rewrite bytes_cons, bytes_nil, app_nil_r. rewrite zlen_bdata by done. unfold BLEN. cbn. lia.
Qed.


Lemma queue_fifo_witness :
  (wfq (k_q (kopen 4096 0)) /\ smode (k_q (kopen 4096 0))) /\
  exists k, rtc (sstep (H := N)) (kopen 4096 0, [], []) (k, [1; 2; 3; 4], [1; 2; 3]) /\
    bytes (bfirst (k_q k)) = [4].
Proof.
  assert (smode (k_q (kopen 4096 0))) as Hs by (split; [reflexivity|split; reflexivity]).
  split; [exact (conj (kopen_wfq 4096 0) Hs)|].
  assert (exists k, rtc (sstep (H := N)) (kopen 4096 0, [], []) (k, [1; 2; 3; 4], [1; 2; 3])) as [k Hr].
  { eexists. eapply rtc_l.
    { eapply (sstep_left (SRead 9)); [|vm_compute; reflexivity|discriminate].
      split; [discriminate|reflexivity]. }
    eapply rtc_l; [eapply (sstep_ok (SWrite [1; 2])); [exact I|vm_compute; reflexivity]|].
    eapply rtc_l; [eapply (sstep_ok (SProduce [3; 4])); [exact I|vm_compute; reflexivity]|].
    eapply rtc_l; [eapply (sstep_ok (SRead 2)); [split; [discriminate|reflexivity]|vm_compute; reflexivity]|].
    eapply rtc_l; [eapply (sstep_ok (SConsume 1)); [discriminate|vm_compute; reflexivity]|].
    cbn [app]. apply rtc_refl. }
  exists k. split; [exact Hr|].
  destruct (queue_fifo (HO := bump_ok) (kopen 4096 0) k [1; 2; 3; 4] [1; 2; 3] Hr (kopen_wfq 4096 0) Hs)
    as (_ & _ & E).
  apply (f_equal (drop 3)) in E. symmetry. exact E.
Defined.

Lemma qread_front_witness :
  (wfq (k_q (kheld 64 0 [1; 2; 3])) /\ 0 <= 2) /\
  exists k', qread 2 (kheld 64 0 [1; 2; 3]) = (Ok [1; 2], k') /\
    read_post 2 [1; 2] (kheld 64 0 [1; 2; 3]) k' /\ bytes (bfirst (k_q k')) = [3].
Proof.
  assert (0 <= 2) as Hl by lia.
  assert (zlen (bytes (bfirst (k_q (kheld 64 0 [1; 2; 3])))) < 2 ^ 32) as Hz by reflexivity.
  split; [exact (conj (kheld_wfq 64 0 [1; 2; 3]) Hl)|].
  set (k' := snd (qread 2 (kheld 64 0 [1; 2; 3]))).
  assert (qread 2 (kheld 64 0 [1; 2; 3]) = (Ok [1; 2], k')) as Er by (vm_compute; reflexivity).
  assert (bytes (bfirst (k_q k')) = [3]) as Hb by (vm_compute; reflexivity).
  exists k'. split; [exact Er|]. split; [|exact Hb].
  exact (wp_at _ _ _ _ _ _ (qread_front (HO := bump_ok) 2 _ (kheld_wfq 64 0 [1; 2; 3]) Hl Hz) Er).
Defined.

(** A message of 65537 bytes: the last one is lost. *)
Definition long_msg : list Z := replicate (Z.to_nat 65537) 7.
Lemma zlen_long : zlen long_msg = 65537.
Proof. unfold long_msg, zlen. rewrite length_replicate. lia. Qed.

Lemma qwrite_appends_witness :
  (wfq (k_q (kopen 64 Qmsg)) /\ q_bypass (k_q (kopen 64 Qmsg)) = false /\
   has Qclosed (k_q (kopen 64 Qmsg)) = false) /\
  wp (qwrite long_msg)
    (fun r k' => r = 65537 /\ zlen (bytes (bfirst (k_q k'))) = 65536) (fun _ _ => False) (kopen 64 Qmsg).
Proof.
  assert (q_bypass (k_q (kopen 64 Qmsg)) = false) as Eb by reflexivity.
  assert (q_noblock (k_q (kopen 64 Qmsg)) = 0) as En by reflexivity.
  assert (has Qclosed (k_q (kopen 64 Qmsg)) = false) as Ec by reflexivity.
  split; [exact (conj (kopen_wfq 64 Qmsg) (conj Eb Ec))|].
  eapply wp_mono; [exact (qwrite_appends (HO := bump_ok) long_msg _ (kopen_wfq 64 Qmsg) Eb En Ec)| |].
  - intros r k' (-> & _ & E). rewrite E. split; [exact zlen_long|].
    change (has Qmsg (k_q (kopen 64 Qmsg))) with true. change (bytes (bfirst (k_q (kopen 64 Qmsg)))) with (@nil Z).
    cbn [app]. rewrite zlen_take; [reflexivity|]. rewrite zlen_long. unfold Maxatomic. lia.
  - intros v k' [_ []].
Defined.

Lemma qproduce_leak_witness :
  (wfq (k_q (kheld 3 0 [1; 2; 3])) /\ q_limit (k_q (kheld 3 0 [1; 2; 3])) <= q_len (k_q (kheld 3 0 [1; 2; 3]))) /\
  wp (qproduce [9]) (fun r k' => r = -1 /\ zlen (bfirst (k_q k')) = 1 /\ snd (k_hs k') = 2)
    (fun _ _ => False) (kheld 3 0 [1; 2; 3]).
Proof.
  assert (q_limit (k_q (kheld 3 0 [1; 2; 3])) <= q_len (k_q (kheld 3 0 [1; 2; 3]))) as Hl by discriminate.
  split; [exact (conj (kheld_wfq 3 0 [1; 2; 3]) Hl)|].
  eapply wp_mono; [exact (qproduce_leak (HO := bump_ok) [9] _ (kheld_wfq 3 0 [1; 2; 3]) Hl)| |].
  - intros r k' [[[] _]|(-> & E & L)]. split; [reflexivity|]. rewrite E, L. split; reflexivity.
  - intros v k' [].
Defined.

(** Pulling four bytes together out of two blocks: the counters are wrong. *)
Definition kpull : K (H := N) :=
  mkK (8192%N, 2)
    (mkQueue [blk [1; 2] 0 2; blk [3; 4; 5] 0 3] 5 5 64 64 0 0 0 false false []) [].
Lemma kpull_wfq : wfq (k_q kpull).
Proof.
  split_and!; [|reflexivity|reflexivity].
  repeat constructor; unfold b_lim, zlen; simpl; lia.
Qed.

Lemma pullupqueue_counters_witness :
  (wfq (k_q kpull) /\ bfirst (k_q kpull) = [blk [1; 2] 0 2; blk [3; 4; 5] 0 3]) /\
  exists r k', pullupqueue 4 kpull = (Ok r, k') /\ bytes r = [1; 2; 3; 4; 5] /\
    q_len (k_q k') = 5 /\ blockalloclen (bfirst (k_q k')) <> 5.
Proof.
  split; [exact (conj kpull_wfq eq_refl)|].
  set (k' := snd (pullupqueue 4 kpull)).
  assert (pullupqueue 4 kpull = (Ok (bfirst (k_q k')), k')) as Er by (vm_compute; reflexivity).
  assert (blockalloclen (bfirst (k_q k')) <> 5) as Ha by (vm_compute; discriminate).
  assert (0 <= 4) as Hn by discriminate.
  destruct (wp_at _ _ _ _ _ _ (pullupqueue_counters (HO := bump_ok) 4 _ _ kpull kpull_wfq eq_refl Hn) Er)
    as (_ & _ & Hb & Hl & _).
  exists (bfirst (k_q k')), k'. exact (conj Er (conj Hb (conj Hl Ha))).
Defined.

Definition kclosed (eof : Z) : K (H := N) :=
  mkK (8192%N, 0) (mkQueue [] 0 0 64 64 Qclosed 0 eof false false Ehungup) [].
Lemma qread_eof_witness :
  (bfirst (k_q (kclosed 2)) = [] /\ has Qclosed (k_q (kclosed 2)) = true) /\
  qread 10 (kclosed 2) = (Ok [], kclosed 3) /\ qread 10 (kclosed 3) = (Ret Error, kclosed 4).
Proof.
  assert (has Qclosed (k_q (kclosed 2)) = true) as E2 by reflexivity.
  assert (has Qclosed (k_q (kclosed 3)) = true) as E3 by reflexivity.
  split; [exact (conj eq_refl E2)|]. split.
  - rewrite (qread_eof 10 (kclosed 2) eq_refl E2). reflexivity.
  - rewrite (qread_eof 10 (kclosed 3) eq_refl E3). reflexivity.
Defined.
