(* ===== verification/QioSync.v ===== *)
(** * Sleeping and waking on a queue

    The queue among processes: a reader that sleeps on [q->rr] (there is at most
    one, it holds [q->rlock]), producers, and the wakeups that are on their way
    because [wakeup] is called after the queue's lock is released.  The reader
    goes to sleep as [qwait] and [sleep] of [proc.c] do: it sets [Qstarve] and
    releases the lock, takes the lock of the rendezvous, tests [notempty],
    whose two reads are two steps, and only then is on the rendezvous, where a
    wakeup finds it. *)
From S2P Require Import Prelude CMonad Bytes Block BlockThms Qio QioThms QioRead QioProps.
From stdpp Require Import relations.
Local Open Scope Z_scope.

#[local] Arguments has : simpl never.

Inductive Rd : Type :=
| Running     (** not in [sleep] *)
| Parked      (** [q]'s lock released, [sleep] called *)
| Checked     (** holds the lock of the rendezvous, has read [q->state] *)
| Asleep.

(** What a producer does to the queue without letting go of its lock. *)
Inductive Pop : Type :=
| PrOp (o : Qop)
| PrInsert (bl : list Block)     (** [qbwrite] up to [qflow], a round of [qwrite] *)
| PrFlow.                        (** a round of [qflow] *)

Definition producer (o : Qop) : bool :=
  match o with
  | OCopy _ _ | OPass _ | OPassnolim _ | OProduce _ | OIwrite _
  | OClose | OHangup _ | OReopen | OSetlimit _ | ONoblock _ => true
  | _ => false
  end.
Definition reader (o : Qop) : bool :=
  match o with ORead _ | OBread _ => true | _ => false end.

Definition pop_ok (q : Queue) (o : Pop) : Prop :=
  match o with
  | PrOp o => producer o = true /\ op_ok q o
  | PrInsert bl => bl <> [] /\ wfbl bl
  | PrFlow => True
  end.

(** The calls of [wakeup(&q->rr)] among the events. *)
Definition is_wake (e : Event) : bool := match e with WakeR => true | _ => false end.
Definition wakes (e : list Event) : nat := length (List.filter is_wake e).

Section sync.
Context {H : Type} {HH : Heap H} {nm : Prop} {HO : HeapOk H nm}.
Implicit Types (k : K (H := H)) (q : Queue).

Definition run_pop (o : Pop) : M (K (H := H)) () :=
  match o with
  | PrOp o => run_op o;; mret tt
  | PrInsert bl => qbwrite_insert bl;; mret tt
  | PrFlow => qflow
  end.

Record Sys : Type := mkSys { s_hs : HS (H := H); s_q : Queue; s_rd : Rd; s_wake : nat }.

Inductive step : Sys -> Sys -> Prop :=
| step_producer o hs q rd w r hs' q' e :
    pop_ok q o -> run_pop o (mkK hs q []) = (r, mkK hs' q' e) -> r <> Ub -> r <> Ret NoMem ->
    step (mkSys hs q rd w) (mkSys hs' q' rd (w + wakes e))
| step_read o hs q w r hs' q' e :
    reader o = true -> op_ok q o -> run_op o (mkK hs q []) = (r, mkK hs' q' e) ->
    r <> Ub -> r <> Ret NoMem ->
    step (mkSys hs q Running w)
      (mkSys hs' q' (match r with Ret v => if v =? Sleeping then Parked else Running | _ => Running end)
         (w + wakes e))
| step_test_closed hs q w :
    step (mkSys hs q Parked w) (mkSys hs q (if has Qclosed q then Running else Checked) w)
| step_test_empty hs q w :
    step (mkSys hs q Checked w)
      (mkSys hs q (if bool_decide (bfirst q = []) then Asleep else Running) w)
| step_wake hs q rd w :
    rd <> Checked ->
    step (mkSys hs q rd (S w)) (mkSys hs q (match rd with Asleep => Running | _ => rd end) w)
| step_spurious hs q rd w : step (mkSys hs q rd w) (mkSys hs q rd (S w))
| step_interrupt hs q rd w : step (mkSys hs q rd w) (mkSys hs q Running w).

(** ** A producer never empties the queue *)

Definition q_stays q q' : Prop := bfirst q <> [] -> bfirst q' <> [].
(** Something to read, closed, or marked for the next producer. *)
Definition alert q : Prop := bfirst q <> [] \/ has Qclosed q = true \/ has Qstarve q = true.
Definition stays {A} (m : M (K (H := H)) A) : Prop :=
  forall k r k', m k = (r, k') -> q_stays (k_q k) (k_q k').

Lemma q_stays_refl q : q_stays q q.
Proof using. exact (fun N => N). Qed.
Lemma stays_ret {A} (a : A) : stays (mret a).
Proof using. intros k r k' [= <- <-]. apply q_stays_refl. Qed.
Lemma stays_leave {A} v : stays (leave (A := A) v).
Proof using. intros k r k' [= <- <-]. apply q_stays_refl. Qed.
Lemma stays_undefined {A} : stays (undefined (A := A)).
Proof using. intros k r k' [= <- <-]. apply q_stays_refl. Qed.
Lemma stays_of_option {A} (o : option A) : stays (of_option o).
Proof using. destruct o; [apply stays_ret|apply stays_undefined]. Qed.
Lemma stays_getq : stays getq.
Proof using. intros k r k' [= <- <-]. apply q_stays_refl. Qed.
Lemma stays_emit e : stays (emit e).
Proof using. intros k r k' [= <- <-]. apply q_stays_refl. Qed.
Lemma stays_lift {A} (m : M (HS (H := H)) A) : stays (lift m).
Proof using.
  intros k r k'. unfold lift. destruct (m (k_hs k)) as [r0 hs]. intros [= <- <-]. apply q_stays_refl.
Qed.
Lemma stays_updq f : (forall q, q_stays q (f q)) -> stays (updq f).
Proof using. intros Hf k r k' [= <- <-]. apply Hf. Qed.
Lemma stays_bind {A B} (m : M _ A) (f : A -> M _ B) : stays m -> (forall a, stays (f a)) -> stays (m ≫= f).
Proof using.
  intros Hm Hf k r k'. unfold mbind, M_bind. destruct (m k) as [[a|v|] k1] eqn:E.
  - intros E' N. exact (Hf _ _ _ _ E' (Hm _ _ _ E N)).
  - intros [= <- <-]. by eapply Hm.
  - intros [= <- <-]. by eapply Hm.
Qed.
Lemma stays_when b m : stays m -> stays (when b m).
Proof using. intros Hm. destruct b; [done|apply stays_ret]. Qed.
Lemma q_stays_fields q q' : bfirst q' = bfirst q -> q_stays q q'.
Proof using. unfold q_stays. by intros ->. Qed.

Ltac stays_step :=
  lazymatch goal with
  | |- stays (_ ≫= _) => apply stays_bind; [|intros ?]
  | |- stays (mret _) => apply stays_ret
  | |- stays (leave _) => apply stays_leave
  | |- stays undefined => apply stays_undefined
  | |- stays (of_option _) => apply stays_of_option
  | |- stays getq => apply stays_getq
  | |- stays (emit _) => apply stays_emit
  | |- stays (lift _) => apply stays_lift
  | |- stays (when _ _) => apply stays_when
  | |- stays (updq _) => apply stays_updq; intros ?; by apply q_stays_fields
  | |- stays (match ?x with _ => _ end) => destruct x
  end.
Ltac stays := repeat stays_step.

Lemma stays_take_starve : stays (take_bit Qstarve).
Proof using. unfold take_bit. stays. Qed.
Lemma stays_qaddlist bl : stays (qaddlist bl).
Proof using.
  unfold qaddlist. stays. apply stays_updq. intros q _ E. by apply app_eq_nil in E as [_ ?].
Qed.
Lemma stays_qpass_tail bl : stays (qpass_tail bl).
Proof using. unfold qpass_tail. stays; auto using stays_qaddlist, stays_take_starve. Qed.
Lemma stays_qiwrite_loop fuel p sofar w : stays (qiwrite_loop fuel p sofar w).
Proof using.
  revert sofar w. induction fuel as [|fuel IH]; intros sofar w; cbn [qiwrite_loop]; cbv zeta; stays;
    auto using stays_qaddlist, stays_take_starve.
Qed.
Lemma stays_qbwrite_insert bl : stays (qbwrite_insert bl).
Proof using. unfold qbwrite_insert. stays; auto using stays_qaddlist, stays_take_starve. Qed.

Lemma stays_pop o :
  match o with PrOp o => producer o = true /\ o <> OClose /\ o <> OReopen | _ => True end ->
  stays (run_pop o).
Proof using.
  destruct o as [o|bl|]; cbn [run_pop].
  - intros (Hp & Hc & Hr). destruct o; try discriminate; try done; cbn [run_op];
      unfold qcopy, qpass, qpassnolim, qproduce, qiwrite, qhangup, qsetlimit, qnoblock; cbv zeta;
      stays; auto using stays_qpass_tail, stays_qaddlist, stays_take_starve, stays_qiwrite_loop.
  - intros _. stays. apply stays_qbwrite_insert.
  - intros _. unfold qflow. stays.
Qed.

(** ** A producer does not clear [Qstarve] and leave the queue empty *)

Definition keeps {A} (m : M (K (H := H)) A) : Prop :=
  forall k r k', m k = (r, k') -> alert (k_q k) -> alert (k_q k').

Lemma keeps_same {A} (m : M _ A) : (forall k, k_q (m k).2 = k_q k) -> keeps m.
Proof using. intros Hm k r k' E. specialize (Hm k). rewrite E in Hm. cbn in Hm. by rewrite Hm. Qed.
Lemma keeps_lift {A} (m : M (HS (H := H)) A) : keeps (lift m).
Proof using. apply keeps_same. intros k. unfold lift. by destruct (m (k_hs k)). Qed.
Lemma keeps_of_option {A} (o : option A) : keeps (of_option o).
Proof using. by destruct o; apply keeps_same. Qed.
Lemma keeps_bind {A B} (m : M _ A) (f : A -> M _ B) : keeps m -> (forall a, keeps (f a)) -> keeps (m ≫= f).
Proof using.
  intros Hm Hf k r k'. unfold mbind, M_bind. destruct (m k) as [[a|v|] k1] eqn:E.
  - intros E' N. exact (Hf _ _ _ _ E' (Hm _ _ _ E N)).
  - intros [= <- <-]. by eapply Hm.
  - intros [= <- <-]. by eapply Hm.
Qed.
(** Once a block is in, what follows may clear the mark. *)
Lemma keeps_add {A} bl (f : Z -> M _ A) : (forall a, stays (f a)) -> keeps (qaddlist bl ≫= f).
Proof using.
  intros Hf k r k' E Ha. destruct bl as [|b bl]; [by injection E as <- <-|].
  left. eapply (Hf _ _ _ _ E). cbn. intros E'. by apply app_eq_nil in E' as [_ ?].
Qed.
Lemma keeps_when b m : keeps m -> keeps (when b m).
Proof using. intros Hm. destruct b; [done|by apply keeps_same]. Qed.
Lemma keeps_raise (j : Z) : 0 <= j -> keeps (updq (raise_ (Z.shiftl 1 j))).
Proof using.
  intros Hj k r k' [= <- <-] [?|Ha]; [by left|right]. cbn. unfold Qclosed, Qstarve in *.
  rewrite !has_raise by done. destruct Ha as [-> | ->]; auto.
Qed.
Lemma keeps_fields f :
  (forall q, bfirst (f q) = bfirst q) -> (forall q, q_state (f q) = q_state q) -> keeps (updq f).
Proof using.
  intros Hb Hs k r k' [= <- <-]. unfold alert, has. cbn. by rewrite Hb, Hs.
Qed.

Ltac keeps_step :=
  lazymatch goal with
  | |- keeps (qaddlist _ ≫= _) => apply keeps_add; intros ?; stays; auto using stays_take_starve
  | |- keeps (_ ≫= _) => apply keeps_bind; [|intros ?]
  | |- keeps (mret _) => by apply keeps_same
  | |- keeps (leave _) => by apply keeps_same
  | |- keeps undefined => by apply keeps_same
  | |- keeps (of_option _) => apply keeps_of_option
  | |- keeps getq => by apply keeps_same
  | |- keeps (emit _) => by apply keeps_same
  | |- keeps (lift _) => apply keeps_lift
  | |- keeps (when _ _) => apply keeps_when
  | |- keeps (updq (raise_ _)) => by apply keeps_raise
  | |- keeps (updq _) => by apply keeps_fields
  | |- keeps (match ?x with _ => _ end) => destruct x
  end.
Ltac keeps := repeat keeps_step.

Lemma keeps_qiwrite_loop fuel p sofar w : keeps (qiwrite_loop fuel p sofar w).
Proof using.
  revert sofar w. induction fuel as [|fuel IH]; intros sofar w; cbn [qiwrite_loop]; cbv zeta; keeps;
    auto using stays_qiwrite_loop.
Qed.

Lemma keeps_pop o :
  match o with PrOp o => producer o = true /\ o <> OClose /\ o <> OReopen | _ => True end ->
  keeps (run_pop o).
Proof using.
  destruct o as [o|bl|]; cbn [run_pop].
  - intros (Hp & Hc & Hr). destruct o; try discriminate; try done; cbn [run_op];
      unfold qcopy, qpass, qpassnolim, qproduce, qiwrite, qhangup, qsetlimit, qnoblock, qpass_tail; cbv zeta;
      keeps; auto using keeps_qiwrite_loop.
  - intros _. unfold qbwrite_insert. keeps.
  - intros _. unfold qflow. keeps.
Qed.

(** ** Wakeups *)

Lemma wakes_app e e' : wakes (e ++ e') = (wakes e + wakes e')%nat.
Proof using. unfold wakes. by rewrite List.filter_app, length_app. Qed.
Lemma wakes_pos e : WakeR ∈ e -> (0 < wakes e)%nat.
Proof using.
  intros (e1 & e2 & ->)%list_elem_of_split. rewrite wakes_app. unfold wakes. cbn. lia.
Qed.

(** Something to read, a mark that makes a producer wake the reader, or a
    wakeup on its way. *)
Definition called q (w : nat) : Prop := bfirst q <> [] \/ waiting q \/ (0 < w)%nat.
Definition rd_ok q rd (w : nat) : Prop :=
  match rd with
  | Running => True
  | Parked => alert q
  | Checked => called q w
  | Asleep => waiting q \/ (0 < w)%nat
  end.

(** What every step of a producer guarantees to the reader. *)
Definition pop_wakes q q' e : Prop :=
  (waiting q -> waiting q' \/ (0 < wakes e)%nat) /\
  (bfirst q <> [] -> bfirst q' <> [] \/ (0 < wakes e)%nat) /\
  (alert q -> alert q').

Lemma rd_ok_pop q q' e rd w : pop_wakes q q' e -> rd_ok q rd w -> rd_ok q' rd (w + wakes e)%nat.
Proof using.
  intros (Hw & Hb & Hc). unfold rd_ok, called in *. destruct rd; [done|exact Hc| |].
  - intros [N|[W|?]]; [destruct (Hb N)|destruct (Hw W)|]; auto with lia.
  - intros [W|?]; [destruct (Hw W)|]; auto with lia.
Qed.

Lemma pop_wakes_close hs q r hs' q' e :
  wfq q -> run_op OClose (mkK hs q []) = (r, mkK hs' q' e) -> r <> Ub -> pop_wakes q q' e.
Proof using HO.
  intros Hw E Hr. unfold run_op, qclose in E.
  assert (wp qclose (fun _ k' => has Qclosed (k_q k') = true) (fun _ _ => False) (mkK hs q [])) as Hc
    by (apply wp_qclose; auto).
  assert (wp qclose (fun _ k' => WakeR ∈ k_ev k') (fun _ _ => False) (mkK hs q [])) as He.
  { unfold qclose. repeat (apply wp_bind; first [apply wp_updq|apply wp_getq]).
    apply wp_bind, wp_lift, wp_freeblist. intros h. apply wp_bind, wp_emit, wp_emit. cbn. set_solver. }
  apply wp_run_ok in Hc as (a & k' & E1 & Hc). apply wp_run_ok in He as (a' & k'' & E2 & He).
  fold qclose in E. rewrite E1 in E2. injection E2 as -> ->.
  rewrite (bind_ok _ _ _ _ _ E1) in E. injection E as <- ->. cbn in *. apply wakes_pos in He.
  split_and!; unfold alert; auto.
Qed.

Lemma pop_wakes_reopen hs q r hs' q' e :
  run_op OReopen (mkK hs q []) = (r, mkK hs' q' e) -> pop_wakes q q' e.
Proof using.
  intros E. cbn in E. injection E as <- <- <- <-.
  set (q1 := set_limit _ _).
  assert (has Qclosed q1 = false) as Hc
    by (change (has Qclosed (raise_ Qstarve (lower Qclosed q)) = false); by bit_simp).
  assert (has Qstarve q1 = true) as Hs
    by (change (has Qstarve (raise_ Qstarve (lower Qclosed q)) = true); by bit_simp).
  assert (bfirst q1 = bfirst q) as Eb by done.
  split_and!.
  - intros (? & _). left. split_and!; [congruence|done|done].
  - intros ?. left. congruence.
  - intros _. unfold alert. auto.
Qed.

Lemma pop_wakes_stays q q' e :
  q_stays q q' -> (alert q -> alert q') -> (waiting q -> waiting q' \/ WakeR ∈ e) -> pop_wakes q q' e.
Proof using.
  intros Hb Hc Hw. split_and!; [|auto|auto].
  intros W. destruct (Hw W) as [?|?%wakes_pos]; auto.
Qed.

Lemma run_pop_wakes o hs q r hs' q' e :
  wfq q -> pop_ok q o -> run_pop o (mkK hs q []) = (r, mkK hs' q' e) -> r <> Ub -> r <> Ret NoMem ->
  wfq q' /\ pop_wakes q q' e.
Proof using HO.
  intros Hw Ho E Hr Hn.
  assert (wfq q' /\ (waiting q -> waiting q' \/ WakeR ∈ e)) as [Hw' Hk].
  { enough (wp (run_pop o) (fun _ k' => wfq (k_q k') /\ (waiting q -> waiting (k_q k') \/ WakeR ∈ k_ev k'))
      (fun v k' => v <> NoMem -> wfq (k_q k') /\ (waiting q -> waiting (k_q k') \/ WakeR ∈ k_ev k'))
      (mkK hs q [])) as W.
    { unfold wp in W. rewrite E in W. destruct r as [a|v|]; [done| |done]. apply W. congruence. }
    destruct o as [o|bl|]; cbn [run_pop].
    - destruct Ho as [Hp Ho]. apply wp_bind. eapply wp_mono; [exact (run_op_accounts o (mkK hs q []) Hw Ho)| |].
      + intros g k' (? & _ & ev & Ee & Hwk & _). apply wp_ret. cbn in Ee. subst. by split.
      + intros v k' (? & Hv) Hnm. split; [done|]. destruct Hv as [[? _]|[[-> ?]|[-> Hc]]]; [done|auto|].
        intros (_ & Hc' & _). cbn in Hc. congruence.
    - destruct Ho as [Hne Hb]. apply wp_bind, wp_qbwrite_insert; [done..| |].
      + intros k' _ Hc Eq _ _. rewrite Eq. split; [done|]. intros W. by left.
      + intros fl k' Hd. apply wp_ret. destruct Hd as (_ & _ & Hd).
        destruct (q_bypass (k_q (mkK hs q []))).
        * destruct Hd as [_ ->]. split; [done|]. intros W. by left.
        * destruct Hd as (_ & (? & _ & ev & Ee & Hwk & _) & _). cbn in Ee. subst. by split.
    - apply wp_qflow; [done|]. intros k' (? & _ & ev & Ee & Hwk & _) _ _ _ _ _. cbn in Ee. subst. by split. }
  split; [done|].
  destruct o as [o|bl|].
  - destruct Ho as [Hp Ho].
    assert (exists r', run_op (HH := HH) o (mkK hs q []) = (r', mkK hs' q' e) /\ r' <> Ub) as (r' & Er & Hr').
    { cbn [run_pop] in E. unfold mbind, M_bind in E. destruct (run_op o _) as [[a|v|] k1]; injection E as <- ->;
        eexists; (split; [reflexivity|done]). }
    assert (o = OClose \/ o = OReopen \/ (o <> OClose /\ o <> OReopen)) as [->|[->|[? ?]]]
      by (destruct o; (by left) || (by right; left) || (by right; right)).
    + by eapply pop_wakes_close.
    + by eapply pop_wakes_reopen.
    + apply pop_wakes_stays; [by apply (stays_pop (PrOp o)) in E|by apply (keeps_pop (PrOp o)) in E|done].
  - apply pop_wakes_stays; [by apply (stays_pop (PrInsert bl)) in E|by apply (keeps_pop (PrInsert bl)) in E|done].
  - apply pop_wakes_stays; [by apply (stays_pop PrFlow) in E|by apply (keeps_pop PrFlow) in E|done].
Qed.
(** ** The invariant *)

Definition sys_ok (s : Sys) : Prop := wfq (s_q s) /\ rd_ok (s_q s) (s_rd s) (s_wake s).

Lemma read_parks o hs q r hs' q' e :
  reader o = true -> wfq q -> op_ok q o -> run_op o (mkK hs q []) = (r, mkK hs' q' e) ->
  r <> Ub -> r <> Ret NoMem -> wfq q' /\ (r = Ret Sleeping -> waiting q').
Proof using HO.
  intros Hr Hw Ho E Hu Hn. pose proof (run_op_accounts o (mkK hs q []) Hw Ho) as W.
  unfold wp in W. rewrite E in W. destruct r as [a|v|]; [|destruct W as [? Hv]|done].
  - split; [apply W|discriminate].
  - split; [done|]. intros [= ->]. destruct Hv as [[? _]|[[_ ?]|[? _]]]; done.
Qed.

Lemma step_ok s s' : step s s' -> sys_ok s -> sys_ok s'.
Proof using HO.
  intros Hs [Hw Hr]. destruct Hs as [o hs q rd w r hs' q' e Ho E Hu Hn|o hs q w r hs' q' e Hrd Ho E Hu Hn
    |hs q w|hs q w|hs q rd w Hrd|hs q rd w|hs q rd w]; cbn [s_q s_rd s_wake] in *; unfold sys_ok; cbn [s_q s_rd s_wake].
  - destruct (run_pop_wakes _ _ _ _ _ _ _ Hw Ho E Hu Hn). split; [done|]. by eapply rd_ok_pop.
  - destruct (read_parks _ _ _ _ _ _ _ Hrd Hw Ho E Hu Hn) as [? Hp]. split; [done|].
    destruct r as [a|v|]; [done| |done]. destruct (Z.eqb_spec v Sleeping) as [->|]; [|done].
    cbn. right; right. by apply Hp.
  - split; [done|]. cbn in Hr |- *. unfold alert, called, waiting in *.
    destruct (has Qclosed q) eqn:Ec; [done|]. unfold rd_ok, called, waiting.
    destruct (bfirst q) eqn:Eb; [|by left]. destruct Hr as [?|[?|?]]; [done..|by right; left].
  - split; [done|]. case_bool_decide as Eb; [|done]. cbn in Hr |- *. by destruct Hr.
  - split; [done|]. by destruct rd.
  - split; [done|]. destruct rd; cbn in *; unfold called in *; intuition lia.
  - done.
Qed.

(** C12. No wakeup is lost: whatever producers do to a queue, and however their
    wakeups, the interrupts and the reader's own two tests interleave, a reader
    that is asleep on a queue with something to read, or on a closed one, has
    a wakeup on its way; and one asleep on an empty queue has either a wakeup
    on its way or the mark [Qstarve] that makes the next producer call
    [wakeup]. *)
Theorem reader_wakes s s' :
  rtc step s s' -> s_rd s = Running -> wfq (s_q s) -> s_rd s' = Asleep ->
  wfq (s_q s') /\
  (notempty (s_q s') = true -> (0 < s_wake s')%nat) /\
  ((0 < s_wake s')%nat \/ has Qstarve (s_q s') = true).
Proof using HO.
  intros Hr Hrd Hw Ha.
  assert (sys_ok s) as H1 by (split; [done|by rewrite Hrd]).
  assert (sys_ok s') as [Hw' Hs] by (clear Ha Hrd Hw; induction Hr; eauto using step_ok).
  rewrite Ha in Hs. cbn in Hs. split; [done|]. unfold notempty. split.
  - intros N. destruct Hs as [(E & Ec & _)|]; [|done]. by rewrite E, Ec in N.
  - destruct Hs as [(_ & _ & ?)|]; auto.
Qed.
End sync.

(** A reader that finds the queue empty and a producer that comes between its
    tests: the wakeup is pending when it falls asleep. *)
Definition sys0 : Sys (H := N) := mkSys (k_hs (kopen 4096 0)) (k_q (kopen 4096 0)) Running 0.
Lemma reader_wakes_witness :
  exists s', rtc (step (H := N)) sys0 s' /\ s_rd s' = Asleep /\ s_wake s' = 1%nat /\
    bytes (bfirst (s_q s')) = [] /\ has Qclosed (s_q s') = true /\
    (0 < s_wake s')%nat.
Proof.
  assert (exists s', rtc (step (H := N)) sys0 s' /\ s_rd s' = Asleep /\ s_wake s' = 1%nat /\
    bytes (bfirst (s_q s')) = [] /\ has Qclosed (s_q s') = true) as (s' & Hr & Ha & Hw & Hb & Hc).
  { eexists. split.
    - eapply rtc_l.
      { eapply (step_read (ORead 8)); [reflexivity|split; [discriminate|reflexivity]|vm_compute; reflexivity|discriminate..]. }
      eapply rtc_l; [apply step_test_closed|].
      eapply rtc_l.
      { eapply (step_producer (PrOp (OHangup None))); [split; [reflexivity|exact I]|vm_compute; reflexivity|discriminate..]. }
      eapply rtc_l; [apply step_test_empty|]. apply rtc_refl.
    - split_and!; reflexivity. }
  exists s'. repeat (split; [assumption|]).
  destruct (reader_wakes (HO := bump_ok) sys0 s' Hr eq_refl (kopen_wfq 4096 0) Ha) as (_ & Hn & _).
  apply Hn. unfold notempty. by rewrite Hc.
Defined.
