(* ===== verification/Xalloc.v ===== *)
(** * The kernel's boot allocator: [sys/src/kern/port/xalloc.c]

    The table of holes is the list reached from [xlists.table] along [link], the
    spare [Hole]s the list from [xlists.flist] (their fields are what they last
    held).  Holes are kept by physical address; the blocks given out are kernel
    virtual addresses, with an 8-byte header before the data.  The kernel's
    memory is the function from the address of a 32-bit word to the word, so
    that a header can be overwritten.  The lock is held over each routine's
    work on the table, so a routine is one run. *)
From S2P Require Import Prelude CMonad.

(** ** Data *)

Definition Nhole : Z := 128.
Definition Magichole : Z := 0x484F4C45.
Definition BY2V : Z := 8.
Definition PGSZ : Z := 4 * 1024.
Definition KZERO : Z := 0xffffffff80000000.
Definition VMAP : Z := 0xffffff0000000000.

Record Hole : Type := mkHole { h_addr : Z; h_size : Z; h_top : Z }.
(** [offsetof(Xhdr, data[0])], and the offset of [magix]. *)
Definition Xhdr_data : Z := 8.
Definition Xhdr_magix : Z := 4.

Record Xalloc : Type := mkX { table : list Hole; flist : list Hole; words : Z -> Z }.

(** [panic] *)
Definition Xpanic : Z := 2.

(** [p->field = v] *)
Definition setw (p v : Z) (w : Z -> Z) : Z -> Z := fun a => if a =? p then v else w a.
(** [memset(p, 0, n)] *)
Definition zerow (p n : Z) (w : Z -> Z) : Z -> Z :=
  fun a => if (p <=? a) && (a <? p + n) then 0 else w a.

Definition setX (t f : list Hole) : M Xalloc () := modify (fun x => mkX t f (words x)).
Definition storeX (f : (Z -> Z) -> Z -> Z) : M Xalloc () :=
  modify (fun x => mkX (table x) (flist x) (f (words x))).

(** ** Addresses *)

Definition cankaddr (pa : Z) : Z := if u64 (- KZERO) <=? pa then 0 else u64 (u64 (- KZERO) - pa).
Definition KADDR (pa : Z) : M Xalloc Z :=
  if u64 (- KZERO) <=? pa then leave Xpanic else mret (u64 (pa + KZERO)).
Definition PADDR (va : Z) : M Xalloc Z :=
  if KZERO <=? va then mret (va - KZERO)
  else if VMAP <=? va then mret (va - VMAP)
  else leave Xpanic.

(** ** Giving memory to the table *)

(** A new hole before the list [l], when there is a spare one. *)
Definition xhole_insert (addr size : Z) (l fl : list Hole) : option (list Hole * list Hole) :=
  match fl with
  | [] => None
  | _ :: fl' => Some (mkHole addr size (u64 (addr + size)) :: l, fl')
  end.

(** After the loop, with [*l] the list that is left. *)
Definition xhole_here (addr size : Z) (l fl : list Hole) : option (list Hole * list Hole) :=
  match l with
  | h :: rest =>
      if u64 (addr + size) =? h_addr h then
        Some (mkHole (u64 (h_addr h - size)) (u64 (h_size h + size)) (h_top h) :: rest, fl)
      else xhole_insert addr size l fl
  | [] => xhole_insert addr size l fl
  end.

(** The loop from [*l] on: the new table and spare holes, or none when the
    memory is leaked. *)
Fixpoint xhole_loop (addr size : Z) (l fl : list Hole) : option (list Hole * list Hole) :=
  match l with
  | [] => xhole_here addr size l fl
  | h :: rest =>
      if h_top h =? addr then
        let size := u64 (h_size h + size) in
        let top := u64 (h_addr h + size) in
        match rest with
        | c :: rest' =>
            if top =? h_addr c then
              Some (mkHole (h_addr h) (u64 (size + h_size c)) (u64 (top + h_size c)) :: rest', c :: fl)
            else Some (mkHole (h_addr h) size top :: rest, fl)
        | [] => Some (mkHole (h_addr h) size top :: rest, fl)
        end
      else if addr <? h_addr h then xhole_here addr size l fl
      else
        '(l', fl') ← xhole_loop addr size rest fl;
        Some (h :: l', fl')
  end.

Definition xhole (addr size : Z) : M Xalloc () :=
  if size =? 0 then mret tt
  else
    x ← gets id;
    match xhole_loop addr size (table x) (flist x) with
    | Some (t, f) => setX t f
    | None => mret tt
    end.

(** ** Allocation *)

(** The loop of [xallocz]: the first hole that is large enough, its address
    before, the table and the spare holes after. *)
Fixpoint xalloc_loop (size : Z) (l fl : list Hole) : option (Z * list Hole * list Hole) :=
  match l with
  | [] => None
  | h :: rest =>
      if size <=? h_size h then
        let h' := mkHole (u64 (h_addr h + size)) (u64 (h_size h - size)) (h_top h) in
        if h_size h' =? 0 then Some (h_addr h, rest, h' :: fl)
        else Some (h_addr h, h' :: rest, fl)
      else
        '(a, l', fl') ← xalloc_loop size rest fl;
        Some (a, h :: l', fl')
  end.

(** [size += BY2V + offsetof(Xhdr, data[0]); size &= ~(BY2V-1);] *)
Definition xround (size : Z) : Z := Z.land (u32 (size + (BY2V + Xhdr_data))) (Z.lnot (BY2V - 1)).

(** The data's address, 0 for [nil]. *)
Definition xallocz (size : Z) (zero : bool) : M Xalloc Z :=
  let size := xround size in
  x ← gets id;
  match xalloc_loop size (table x) (flist x) with
  | Some (pa, t, f) =>
      p ← KADDR pa;
      setX t f;;
      (if zero then storeX (zerow p size) else mret tt);;
      storeX (setw (p + Xhdr_magix) Magichole);;
      storeX (setw p size);;
      mret (p + Xhdr_data)
  | None => mret 0
  end.

Definition xalloc (size : Z) : M Xalloc Z := xallocz size true.

Definition xfree (p : Z) : M Xalloc () :=
  x ← gets id;
  let h := u64 (p - Xhdr_data) in
  if negb (words x (h + Xhdr_magix) =? Magichole) then leave Xpanic
  else pa ← PADDR h; xhole pa (words x h).

Definition xmerge (vp vq : Z) : M Xalloc Z :=
  x ← gets id;
  let p := u64 (vp - Xhdr_data) in
  let q := u64 (vq - Xhdr_data) in
  if negb (words x (p + Xhdr_magix) =? Magichole) || negb (words x (q + Xhdr_magix) =? Magichole)
  then leave Xpanic
  else if u64 (p + words x p) =? q then
    storeX (setw p (u32 (words x p + words x q)));; mret 1
  else mret 0.

Definition xspanalloc (size align span : Z) : M Xalloc Z :=
  a ← xalloc (u32 (size + align + span));
  if a =? 0 then leave Xpanic
  else
    v ← (if 2 <? span then
           let v := Z.land (u64 (a + span)) (Z.lnot (span - 1)) in
           let t := u64 (v - a) in
           (if 0 <? t then pa ← PADDR a; xhole pa t else mret tt);;
           let t := u64 (a + span - v) in
           (if 0 <? t then pa ← PADDR (u64 (v + size + align)); xhole pa t else mret tt);;
           mret v
         else mret a);
    if 1 <? align then mret (Z.land (u64 (v + align)) (Z.lnot (align - 1))) else mret v.

(** ** Initialisation *)

Record Confmem : Type := mkConfmem { base : Z; npage : Z; kbase : Z; klimit : Z }.

(** The loop over [sys->mem]: the entries as left, and the calls of
    [umem_region] in order. *)
Fixpoint xinit_loop (mems : list Confmem) (kpages : Z) : M Xalloc (list Confmem * list (Z * Z)) :=
  match mems with
  | [] => mret ([], [])
  | mem :: rest =>
      let n := u32 (npage mem) in
      let n := if kpages <? n then kpages else n in
      let maxpages := u32 (Z.quot (cankaddr (base mem)) PGSZ) in
      let n := if maxpages <? n then maxpages else n in
      let size := u64 (n * PGSZ) in
      mem' ← (if 0 <? n then
               kb ← KADDR (base mem);
               let kl := u64 (kb + size) in
               let kl := if kl =? 0 then u64 (- PGSZ) else kl in
               xhole (base mem) (u64 (kl - kb));;
               mret (mkConfmem (base mem) (npage mem) kb kl)
             else mret mem);
      let kpages := if 0 <? n then u32 (kpages - n) else kpages in
      '(ms, rs) ← xinit_loop rest kpages;
      mret (mem' :: ms,
        if n <? npage mem then (u64 (base mem + size), u32 (npage mem - n)) :: rs else rs)
  end.

(** [sys->npages], [sys->upages] and [sys->mem]; [xlists] is zero before. *)
Definition xinit (npages upages : Z) (mems : list Confmem) : M Xalloc (list Confmem * list (Z * Z)) :=
  modify (fun x => mkX (table x) (replicate (Z.to_nat Nhole) (mkHole 0 0 0)) (words x));;
  xinit_loop mems (u32 (npages - upages)).
