(* ===== verification/XallocThms.v ===== *)
(** * The boot allocator's table, its blocks and the memory they own

    Ownership is counted: [cov l a] is how many of the regions [l] contain the
    address [a].  The laws of the allocator are equations between counts, so
    that "disjoint" and "nothing is lost" are the same statement. *)
From S2P Require Import Prelude CMonad Xalloc.
From stdpp Require Import relations.
Local Open Scope Z_scope.

(** ** Regions *)

Definition ind (s n a : Z) : Z := if (s <=? a) && (a <? s + n) then 1 else 0.
Fixpoint cov (l : list (Z * Z)) (a : Z) : Z :=
  match l with
  | [] => 0
  | (s, n) :: l => ind s n a + cov l a
  end.
Definition regions (t : list Hole) : list (Z * Z) := (fun h => (h_addr h, h_size h)) <$> t.
Definition hcov (t : list Hole) (a : Z) : Z := cov (regions t) a.

#[local] Arguments hcov : simpl never.
#[local] Arguments ind : simpl never.

(** Splits the indicators of a goal on their tests. *)
Ltac inds :=
  unfold ind in *;
  repeat match goal with
  | |- context [?a <=? ?b] => destruct (Z.leb_spec a b); cbn [andb]
  | |- context [?a <? ?b] => destruct (Z.ltb_spec a b); cbn [andb]
  end; try lia.

Lemma ind_range s n a : 0 <= ind s n a <= 1.
Proof. inds. Qed.
Lemma ind_in s n a : s <= a < s + n -> ind s n a = 1.
Proof. intros. inds. Qed.
Lemma ind_out s n a : ~ (s <= a < s + n) -> ind s n a = 0.
Proof. intros. inds. Qed.
Lemma ind_split s n m a : 0 <= n -> 0 <= m -> ind s (n + m) a = ind s n a + ind (s + n) m a.
Proof. intros. inds. Qed.
Lemma cov_nonneg l a : 0 <= cov l a.
Proof. induction l as [|[s n] l IH]; cbn; [lia|]. pose proof (ind_range s n a). lia. Qed.
Lemma cov_app l l' a : cov (l ++ l') a = cov l a + cov l' a.
Proof. induction l as [|[s n] l IH]; cbn; lia. Qed.
Lemma cov_elem l s n a : (s, n) ∈ l -> s <= a < s + n -> 1 <= cov l a.
Proof.
  intros (l1 & l2 & ->)%list_elem_of_split Ha. rewrite cov_app. cbn. rewrite ind_in by done.
  pose proof (cov_nonneg l1 a). pose proof (cov_nonneg l2 a). lia.
Qed.
Lemma cov_disjoint l s n a :
  (forall x, s <= x < s + n -> cov l x = 0) -> ind s n a = 1 -> cov l a = 0.
Proof.
  intros Hd. unfold ind. destruct (Z.leb_spec s a), (Z.ltb_spec a (s + n)); cbn; try lia.
  intros _. by apply Hd.
Qed.
Lemma hcov_cons h t a : hcov (h :: t) a = ind (h_addr h) (h_size h) a + hcov t a.
Proof. done. Qed.
Lemma hcov_nonneg t a : 0 <= hcov t a.
Proof. apply cov_nonneg. Qed.
Lemma hcov_app t t' a : hcov (t ++ t') a = hcov t a + hcov t' a.
Proof. unfold hcov, regions. by rewrite fmap_app, cov_app. Qed.

(** ** The table *)

Definition hole_ok (h : Hole) : Prop :=
  0 <= h_addr h /\ 0 < h_size h /\ h_top h = h_addr h + h_size h /\ h_top h < 2 ^ 64.
(** In order of addresses, apart, and above [lo]. *)
Fixpoint tbl_ok (lo : Z) (t : list Hole) : Prop :=
  match t with
  | [] => True
  | h :: t => hole_ok h /\ lo < h_addr h /\ tbl_ok (h_top h) t
  end.

Lemma tbl_ok_weaken lo lo' t : tbl_ok lo t -> lo' <= lo -> tbl_ok lo' t.
Proof. destruct t as [|h t]; [done|]. intros (? & ? & ?) ?. split_and!; [done|lia|done]. Qed.
Lemma tbl_ok_Forall lo t : tbl_ok lo t -> Forall hole_ok t.
Proof. revert lo. induction t as [|h t IH]; intros lo; [done|]. intros (? & _ & ?). constructor; eauto. Qed.
Lemma tbl_ok_above lo t h : tbl_ok lo t -> h ∈ t -> lo < h_addr h.
Proof.
  intros Ht Hin. revert lo Ht. induction Hin as [t|h' h t Hin IH]; intros lo (Hok & Hlo & Ht); [done|].
  specialize (IH _ Ht). destruct Hok as (_ & ? & ? & _). lia.
Qed.
Lemma tbl_ok_app lo t h t' :
  tbl_ok lo (t ++ h :: t') ->
  tbl_ok lo t /\ hole_ok h /\ lo < h_addr h /\ tbl_ok (h_top h) t' /\ Forall (fun g => h_top g < h_addr h) t.
Proof.
  revert lo. induction t as [|g t IH]; intros lo; cbn.
  - intros (? & ? & ?). by split_and!.
  - intros (Hg & Hlo & Ht). destruct (IH _ Ht) as (? & ? & ? & ? & ?). split_and!; try done.
    + destruct Hg as (_ & ? & ? & _). lia.
    + by constructor.
Qed.
Lemma tbl_ok_glue lo t h t' :
  tbl_ok lo t -> tbl_ok (h_top h) t' -> hole_ok h -> lo < h_addr h ->
  Forall (fun g => h_top g < h_addr h) t -> tbl_ok lo (t ++ h :: t').
Proof.
  revert lo. induction t as [|g t IH]; intros lo; cbn; [by auto|].
  intros (Hg & Hlo & Ht) Ht' Hh Hl Hf. inversion Hf as [|? ? Hx Hfs]. subst. split_and!; auto.
Qed.
Lemma tbl_ok_drop lo t t' : tbl_ok lo (t ++ t') -> forall x, lo <= x -> Forall (fun g => h_top g <= x) t ->
  (forall h, h ∈ t' -> x < h_addr h) -> tbl_ok x t'.
Proof.
  revert lo. induction t as [|g t IH]; intros lo; cbn.
  - intros Ht x Hx _ Hh. destruct t' as [|h t']; [done|]. destruct Ht as (? & _ & ?). split_and!; try done.
    apply Hh. by left.
  - intros (Hg & Hlo & Ht) x Hx Hf Hh. inversion Hf. subst. eapply IH; eauto.
Qed.

(** ** [xhole] *)

(** A hole is free of the region when the region's addresses are not covered. *)
Lemma apart h t addr size :
  hole_ok h -> 0 < size -> (forall a, addr <= a < addr + size -> hcov (h :: t) a = 0) ->
  addr + size <= h_addr h \/ h_top h <= addr.
Proof.
  intros (H1 & H2 & H3 & _) Hs Hd.
  destruct (Z.le_gt_cases (addr + size) (h_addr h)); [by left|].
  destruct (Z.le_gt_cases (h_top h) addr); [by right|exfalso].
  assert (1 <= hcov (h :: t) (Z.max addr (h_addr h))) as Hc.
  { rewrite hcov_cons, ind_in by lia. pose proof (hcov_nonneg t (Z.max addr (h_addr h))). lia. }
  rewrite Hd in Hc by lia. lia.
Qed.
Lemma hcov_tail h t addr size :
  (forall a, addr <= a < addr + size -> hcov (h :: t) a = 0) ->
  forall a, addr <= a < addr + size -> hcov t a = 0.
Proof.
  intros Hd a Ha. specialize (Hd a Ha). rewrite hcov_cons in Hd.
  pose proof (ind_range (h_addr h) (h_size h) a). pose proof (hcov_nonneg t a). lia.
Qed.

(** The bytes in the table. *)
Fixpoint htot (t : list Hole) : Z := match t with [] => 0 | h :: t => h_size h + htot t end.

(** What becomes of the table: the region is in it, or there was no hole to
    merge it with and none to spare. *)
Definition freed (lo addr size : Z) (t fl : list Hole) (o : option (list Hole * list Hole)) : Prop :=
  match o with
  | Some (t', fl') =>
      tbl_ok lo t' /\ (forall a, hcov t' a = hcov t a + ind addr size a) /\
      htot t' = htot t + size /\
      (length t' + length fl' = length t + length fl)%nat /\ (length fl <= S (length fl'))%nat
  | None => fl = [] /\ Forall (fun h => h_top h <> addr /\ h_addr h <> addr + size) t
  end.

Lemma xhole_insert_spec lo addr size t fl :
  tbl_ok lo t -> lo < addr -> 0 <= addr -> 0 < size -> addr + size < 2 ^ 64 ->
  (forall h, h ∈ t -> addr + size < h_addr h) ->
  freed lo addr size t fl (xhole_insert addr size t fl).
Proof.
  intros Ht Hlo Ha Hs Hw Hn. unfold xhole_insert. rewrite u64_id by lia.
  destruct fl as [|f fl]; cbn.
  - split; [done|]. apply Forall_forall. intros h Hin. specialize (Hn _ Hin).
    pose proof (tbl_ok_Forall _ _ Ht) as Hf. rewrite Forall_forall in Hf.
    destruct (Hf _ Hin) as (? & ? & ? & _). lia.
  - split_and!; try lia.
    + unfold hole_ok. cbn. lia.
    + by eapply tbl_ok_drop with (t := []); [exact Ht|lia|constructor|].
    + intros a. rewrite hcov_cons. cbn. lia.
Qed.

Lemma xhole_here_spec lo addr size t fl :
  tbl_ok lo t -> lo < addr -> 0 <= addr -> 0 < size -> addr + size < 2 ^ 64 ->
  (forall h, h ∈ t -> addr + size <= h_addr h) ->
  freed lo addr size t fl (xhole_here addr size t fl).
Proof.
  intros Ht Hlo Ha Hs Hw Hn. unfold xhole_here. destruct t as [|h t].
  { apply xhole_insert_spec; try done. intros h Hh. by apply not_elem_of_nil in Hh. }
  pose proof Ht as (Hok & Hl & Ht'). pose proof Hok as (? & ? & Htop & ?).
  pose proof (Hn h ltac:(by left)) as Hh. rewrite u64_id by lia.
  destruct (Z.eqb_spec (addr + size) (h_addr h)) as [E|E].
  - rewrite !u64_id by lia. cbn. split_and!; try lia; [|done|].
    + unfold hole_ok. cbn. lia.
    + intros a. rewrite !hcov_cons. cbn. replace (h_addr h - size) with addr by lia.
      rewrite (Z.add_comm (h_size h)), ind_split, E by lia. lia.
  - apply xhole_insert_spec; try done. intros g Hg. rewrite elem_of_cons in Hg. destruct Hg as [->|Hg]; [lia|].
    pose proof (tbl_ok_above _ _ _ Ht' Hg). lia.
Qed.

Lemma xhole_loop_spec lo addr size t fl :
  tbl_ok lo t -> lo < addr -> 0 <= addr -> 0 < size -> addr + size < 2 ^ 64 ->
  (forall a, addr <= a < addr + size -> hcov t a = 0) ->
  freed lo addr size t fl (xhole_loop addr size t fl).
Proof.
  revert lo. induction t as [|h t IH]; intros lo Ht Hlo Ha Hs Hw Hd.
  { apply xhole_here_spec; try done. intros h Hh. by apply not_elem_of_nil in Hh. }
  cbn [xhole_loop]. pose proof Ht as (Hok & Hl & Ht'). pose proof Hok as (? & ? & Htop & ?).
  pose proof (apart _ _ _ _ Hok Hs Hd) as Hap.
  destruct (Z.eqb_spec (h_top h) addr) as [E|E].
  - rewrite (u64_id (h_size h + size)), (u64_id (h_addr h + _)) by lia.
    destruct t as [|c t].
    { cbn. split_and!; try lia.
      - unfold hole_ok. cbn. lia.
      - intros a. rewrite !hcov_cons. cbn. rewrite ind_split, <- Htop, E by lia. lia. }
    pose proof Ht' as (Hc & Hcl & Ht''). pose proof Hc as (? & ? & Hct & ?).
    pose proof (apart _ _ _ _ Hc Hs (hcov_tail _ _ _ _ Hd)) as Hapc.
    destruct (Z.eqb_spec (h_addr h + (h_size h + size)) (h_addr c)) as [Ec|Ec].
    + rewrite !u64_id by lia. cbn. split_and!; try lia.
      * unfold hole_ok. cbn. lia.
      * eapply tbl_ok_weaken; [exact Ht''|lia].
      * intros a. rewrite !hcov_cons. cbn. rewrite !ind_split, Ec by lia.
        replace (h_addr h + h_size h) with addr by lia. lia.
    + cbn. split_and!; try lia; try done.
      * unfold hole_ok. cbn. lia.
      * intros a. rewrite !hcov_cons. cbn. rewrite ind_split, <- Htop, E by lia. lia.
  - destruct (Z.ltb_spec addr (h_addr h)) as [Hlt|Hge].
    + apply xhole_here_spec; try done. intros g Hg. rewrite elem_of_cons in Hg.
      destruct Hg as [->|Hg]; [lia|]. pose proof (tbl_ok_above _ _ _ Ht' Hg). lia.
    + specialize (IH (h_top h) Ht' ltac:(lia) Ha Hs Hw (hcov_tail _ _ _ _ Hd)).
      destruct (xhole_loop addr size t fl) as [[t' fl']|]; cbn in IH |- *.
      * destruct IH as (? & Hcov & ? & ? & ?). split_and!; try done; try lia.
        intros a. rewrite !hcov_cons, Hcov. lia.
      * destruct IH as [-> Hf]. split; [done|]. constructor; [lia|done].
Qed.

(** ** [xallocz] *)

(** What is left of the hole [h] after [n] bytes are taken from its front. *)
Definition shrunk (h : Hole) (n : Z) : Hole := mkHole (h_addr h + n) (h_size h - n) (h_top h).
Definition remains (h : Hole) (n : Z) : list Hole := if h_size h =? n then [] else [shrunk h n].

Lemma xalloc_loop_spec lo n t fl :
  tbl_ok lo t -> 0 <= n ->
  match xalloc_loop n t fl with
  | Some (a, t', fl') =>
      exists t1 h t2, t = t1 ++ h :: t2 /\ Forall (fun g => h_size g < n) t1 /\ n <= h_size h /\
        a = h_addr h /\ t' = t1 ++ remains h n ++ t2 /\
        fl' = (if h_size h =? n then [shrunk h n] else []) ++ fl
  | None => Forall (fun g => h_size g < n) t
  end.
Proof.
  revert lo. induction t as [|h t IH]; intros lo; cbn [xalloc_loop]; [by constructor|].
  intros (Hok & Hl & Ht) Hn. pose proof Hok as (? & ? & ? & ?).
  destruct (Z.leb_spec n (h_size h)) as [Hle|Hgt].
  - rewrite !u64_id by lia. cbn [h_size]. fold (shrunk h n).
    destruct (Z.eqb_spec (h_size h - n) 0) as [E|E]; exists [], h, t; unfold remains.
    + rewrite (proj2 (Z.eqb_eq (h_size h) n)) by lia. by split_and!.
    + rewrite (proj2 (Z.eqb_neq (h_size h) n)) by lia. by split_and!.
  - specialize (IH _ Ht Hn). destruct (xalloc_loop n t fl) as [[[a t'] fl']|]; cbn.
    + destruct IH as (t1 & g & t2 & -> & Hf & Hg & -> & -> & ->). exists (h :: t1), g, t2.
      split_and!; try done. by constructor.
    + by constructor.
Qed.

Lemma remains_ok h n : hole_ok h -> 0 <= n <= h_size h -> Forall hole_ok (remains h n).
Proof.
  intros (? & ? & ? & ?) ?. unfold remains. destruct (Z.eqb_spec (h_size h) n); [constructor|].
  constructor; [|constructor]. unfold hole_ok, shrunk. cbn. lia.
Qed.
Lemma remains_tbl lo t1 h t2 n :
  tbl_ok lo (t1 ++ h :: t2) -> 0 <= n <= h_size h -> tbl_ok lo (t1 ++ remains h n ++ t2).
Proof.
  intros Ht Hn. pose proof (tbl_ok_app _ _ _ _ Ht) as (H1 & Hok & Hl & H2 & Hf).
  pose proof (remains_ok _ _ Hok Hn) as Hr. unfold remains in *. pose proof Hok as (? & ? & Htop & ?).
  destruct (Z.eqb_spec (h_size h) n); cbn [app].
  - destruct t2 as [|g t2]; [by rewrite app_nil_r|]. destruct H2 as (? & ? & ?).
    apply tbl_ok_glue; try done; [lia|]. eapply Forall_impl; [exact Hf|]. cbn. lia.
  - inversion Hr as [|? ? Hs _]. subst. apply tbl_ok_glue; try done; [cbn; lia|].
    eapply Forall_impl; [exact Hf|]. cbn. lia.
Qed.
Lemma remains_cov h n a :
  hole_ok h -> 0 <= n <= h_size h -> ind (h_addr h) (h_size h) a = ind (h_addr h) n a + hcov (remains h n) a.
Proof.
  intros (? & ? & ? & ?) ?. unfold remains. destruct (Z.eqb_spec (h_size h) n) as [->|].
  - change (hcov [] a) with 0. lia.
  - rewrite hcov_cons. change (hcov [] a) with 0. unfold shrunk. cbn [h_addr h_size].
    rewrite Z.add_0_r, <- ind_split by lia. f_equal. lia.
Qed.

(** Giving the block back finds the hole it came from. *)
Lemma xhole_loop_back lo t1 h t2 n fl :
  tbl_ok lo (t1 ++ h :: t2) -> 0 < n <= h_size h ->
  (h_size h = n -> fl <> []) ->
  exists fl', xhole_loop (h_addr h) n (t1 ++ remains h n ++ t2) fl = Some (t1 ++ h :: t2, fl').
Proof.
  intros Ht Hn Hfl. pose proof (tbl_ok_app _ _ _ _ Ht) as (H1 & Hok & Hl & H2 & Hf). clear Ht.
  revert lo H1 Hl. induction t1 as [|g t1 IH]; intros lo H1 Hl; cbn [app].
  - pose proof Hok as (? & ? & Htop & ?). unfold remains.
    destruct h as [ha hs ht]. cbn in *. subst ht. destruct (Z.eqb_spec hs n) as [->|]; cbn [app].
    + destruct fl as [|f fl]; [by destruct Hfl|]. exists fl. destruct t2 as [|g t2].
      { cbn. by rewrite u64_id by lia. }
      destruct H2 as (Hg & Hgl & H2). pose proof Hg as (? & ? & Hgt & ?). cbn [xhole_loop].
      rewrite (proj2 (Z.eqb_neq (h_top g) ha)), (proj2 (Z.ltb_lt ha (h_addr g))) by lia.
      unfold xhole_here, xhole_insert. rewrite u64_id by lia.
      by rewrite (proj2 (Z.eqb_neq (ha + n) (h_addr g))) by lia.
    + exists fl. unfold shrunk. cbn [xhole_loop h_top h_addr h_size].
      rewrite (proj2 (Z.eqb_neq (ha + hs) ha)), (proj2 (Z.ltb_lt ha (ha + n))) by lia.
      unfold xhole_here. cbn [h_top h_addr h_size]. rewrite !u64_id by lia.
      rewrite Z.eqb_refl. do 3 f_equal. f_equal; lia.
  - inversion Hf as [|? ? Hgf Hfs]. subst. destruct H1 as (Hg & Hgl & H1).
    pose proof Hg as (? & ? & Hgt & ?). cbn [xhole_loop].
    rewrite (proj2 (Z.eqb_neq (h_top g) (h_addr h))), (proj2 (Z.ltb_ge (h_addr h) (h_addr g))) by lia.
    destruct (IH Hfs _ H1 ltac:(lia)) as (fl' & ->). by exists fl'.
Qed.

(** ** Rounding *)

Lemma land_lnot_7 x : Z.land x (Z.lnot 7) = x - x mod 8.
Proof.
  change 7 with (Z.ones 3). rewrite <- Z.ldiff_land, Z.ldiff_ones_r, Z.shiftr_div_pow2, Z.shiftl_mul_pow2 by done.
  change (2 ^ 3) with 8. pose proof (Z.div_mod x 8). lia.
Qed.
Lemma xround_spec size :
  0 <= size < 2 ^ 32 - 16 ->
  xround size mod 8 = 0 /\ size + 8 < xround size <= size + 16 /\ xround size < 2 ^ 32.
Proof.
  intros Hs. unfold xround, BY2V, Xhdr_data. change (8 - 1) with 7. change (8 + 8) with 16.
  rewrite land_lnot_7, u32_id by lia. change (2 ^ 32) with 4294967296 in *. dlia.
Qed.
(** The addition wraps: the block has no room even for its header and word. *)
Lemma xround_wraps size : 2 ^ 32 - 16 <= size < 2 ^ 32 -> 0 <= xround size <= 8.
Proof.
  intros Hs. unfold xround, BY2V, Xhdr_data. change (8 - 1) with 7. change (8 + 8) with 16.
  rewrite land_lnot_7. wraps. dlia.
Qed.
