(* ===== verification/XallocProps.v ===== *)
(** * What the boot allocator promises

    One run of [xallocz], its round trip with [xfree], the heap as its clients
    share it, and the division of physical memory [xinit] makes. *)
From S2P Require Import Prelude CMonad Xalloc XallocThms.
From stdpp Require Import relations.
Local Open Scope Z_scope.

#[local] Arguments hcov : simpl never.
#[local] Arguments ind : simpl never.
#[local] Arguments KZERO : simpl never.

Lemma KZERO_eq : KZERO = 2 ^ 64 - 2 ^ 31.
Proof. reflexivity. Qed.
Lemma neg_KZERO : u64 (- KZERO) = 2 ^ 31.
Proof. reflexivity. Qed.

(** Addresses the kernel can reach, [KZERO] and up. *)
Definition reach (t : list Hole) : Prop := Forall (fun h => h_top h <= 2 ^ 31) t.

Lemma KADDR_ok pa x : 0 <= pa < 2 ^ 31 -> KADDR pa x = (Ok (KZERO + pa), x).
Proof.
  intros Hp. unfold KADDR. rewrite neg_KZERO. rewrite (proj2 (Z.leb_gt _ _)) by lia.
  rewrite u64_id, Z.add_comm; [done|]. rewrite KZERO_eq. lia.
Qed.
Lemma PADDR_ok pa x : 0 <= pa -> PADDR (KZERO + pa) x = (Ok pa, x).
Proof.
  intros Hp. unfold PADDR. rewrite (proj2 (Z.leb_le _ _)) by lia. unfold mret, M_ret. do 2 f_equal. lia.
Qed.

(** ** [xallocz] *)

(** The new block of [n] bytes at [h_addr h]: its header, its zeros, and
    every other word as it was. *)
Definition block_words (p n : Z) (zero : bool) (w w' : Z -> Z) : Prop :=
  w' p = n /\ w' (p + Xhdr_magix) = Magichole /\
  (zero = true -> forall a, p + Xhdr_data <= a < p + n -> w' a = 0) /\
  (forall a, ~ (p <= a < p + n) -> w' a = w a).

(** The outcome of [xallocz]: no hole is large enough, or the first one that is
    loses its front. *)
Definition got_block (n : Z) (zero : bool) (x : Xalloc) (p : Z) (x' : Xalloc) : Prop :=
  exists t1 h t2, table x = t1 ++ h :: t2 /\ Forall (fun g => h_size g < n) t1 /\ n <= h_size h /\
    p = KZERO + h_addr h + Xhdr_data /\
    table x' = t1 ++ remains h n ++ t2 /\
    flist x' = (if h_size h =? n then [shrunk h n] else []) ++ flist x /\
    block_words (p - Xhdr_data) n zero (words x) (words x').

Lemma xallocz_run size zero x :
  tbl_ok (-1) (table x) -> reach (table x) -> 0 <= size < 2 ^ 32 - 16 ->
  (Forall (fun g => h_size g < xround size) (table x) /\ xallocz size zero x = (Ok 0, x)) \/
  exists p x', xallocz size zero x = (Ok p, x') /\ got_block (xround size) zero x p x'.
Proof.
  intros Ht Hr Hs. pose proof (xround_spec size Hs) as (_ & Hn & _).
  set (n := xround size) in *. assert (0 <= n) as Hn0 by lia.
  pose proof (xalloc_loop_spec (-1) n (table x) (flist x) Ht Hn0) as Hl.
  unfold xallocz. fold n. rewrite bind_gets. unfold id.
  destruct (xalloc_loop n (table x) (flist x)) as [[[a t'] fl']|]; [|by left].
  destruct Hl as (t1 & h & t2 & E & Hf & Hh & -> & -> & ->). right.
  assert (0 <= h_addr h /\ h_addr h + h_size h <= 2 ^ 31) as [Ha Hb].
  { rewrite E in Ht. pose proof (tbl_ok_app _ _ _ _ Ht) as (_ & (? & ? & Htop & _) & _).
    unfold reach in Hr. rewrite E in Hr. apply Forall_app in Hr as [_ Hr]. inversion Hr. subst. lia. }
  rewrite (bind_ok _ _ _ _ _ (KADDR_ok (h_addr h) x ltac:(lia))).
  set (p := KZERO + h_addr h). exists (p + Xhdr_data).
  exists (mkX (t1 ++ remains h n ++ t2) ((if h_size h =? n then [shrunk h n] else []) ++ flist x)
    (setw p n (setw (p + Xhdr_magix) Magichole (if zero then zerow p n (words x) else words x)))).
  split; [by destruct zero|].
  exists t1, h, t2. destruct zero; cbn [table flist words]; split_and!; try done;
    replace (p + Xhdr_data - Xhdr_data) with p by (unfold Xhdr_data; lia);
    unfold block_words, setw, zerow, Xhdr_data, Xhdr_magix; split_and!.
  all: try (intros Hz; try discriminate Hz; intros a Hx).
  all: try intros a Hx.
  all: rewrite ?Z.eqb_refl; repeat match goal with
    | |- context [?a =? ?b] => destruct (Z.eqb_spec a b)
    | |- context [?a <=? ?b] => destruct (Z.leb_spec a b)
    | |- context [?a <? ?b] => destruct (Z.ltb_spec a b)
    end; cbn [andb]; try lia; done.
Qed.

Lemma got_block_table n zero x p x' :
  0 <= n -> tbl_ok (-1) (table x) -> reach (table x) -> got_block n zero x p x' ->
  exists pa, p = KZERO + pa + Xhdr_data /\ 0 <= pa /\ pa + n <= 2 ^ 31 /\
    tbl_ok (-1) (table x') /\ reach (table x') /\
    (forall a, hcov (table x) a = ind pa n a + hcov (table x') a).
Proof.
  intros Hn Ht Hr (t1 & h & t2 & E & _ & Hh & -> & Et' & _). exists (h_addr h). rewrite E in Ht.
  pose proof (tbl_ok_app _ _ _ _ Ht) as (_ & Hok & _ & _). pose proof Hok as (? & ? & Htop & _).
  unfold reach in *. rewrite E in Hr. apply Forall_app in Hr as [Hr1 Hr2]. inversion Hr2 as [|? ? Hrh Hr3]. subst.
  rewrite Et'. split_and!; try lia.
  - by apply remains_tbl.
  - apply Forall_app. split; [done|]. apply Forall_app. split; [|done]. unfold remains.
    destruct (h_size h =? n); [constructor|]. constructor; [done|constructor].
  - intros a. rewrite E, !hcov_app, hcov_cons, (remains_cov h n a Hok) by lia. lia.
Qed.

(** C13. [xallocz] is first fit: it returns [nil] exactly when no hole has room
    for the rounded size, changing nothing; otherwise it takes the front of the
    first hole that has, keeps the table sorted and apart, writes the header
    below the data it returns and zeroes the data when asked, touches no other
    word, and the data has room for [size] bytes. *)
Theorem xallocz_first_fit size zero x :
  tbl_ok (-1) (table x) -> reach (table x) -> 0 <= size < 2 ^ 32 - 16 ->
  exists p x', xallocz size zero x = (Ok p, x') /\ tbl_ok (-1) (table x') /\
    size + Xhdr_data < xround size <= size + 16 /\
    if forallb (fun g => h_size g <? xround size) (table x) then p = 0 /\ x' = x
    else got_block (xround size) zero x p x'.
Proof.
  intros Ht Hr Hs. pose proof (xround_spec size Hs) as (_ & Hn & _).
  destruct (xallocz_run size zero x Ht Hr Hs) as [[Hf E]|(p & x' & E & Hg)].
  - exists 0, x. split_and!; try done; [unfold Xhdr_data; lia..|].
    assert (forallb (fun g => h_size g <? xround size) (table x) = true) as ->; [|done].
    apply forallb_forall. intros g Hgin. apply Z.ltb_lt. rewrite Forall_forall in Hf. apply Hf.
    by apply list_elem_of_In.
  - exists p, x'. split; [done|].
    assert (0 <= xround size) as Hn0 by lia.
    destruct (got_block_table _ _ _ _ _ Hn0 Ht Hr Hg) as (pa & _ & _ & _ & ? & _).
    split_and!; try done; [unfold Xhdr_data; lia..|].
    destruct (forallb _ _) eqn:Eb; [|done]. exfalso.
    destruct Hg as (t1 & h & t2 & Et & _ & Hh & _). rewrite Et, forallb_app in Eb. cbn in Eb.
    rewrite !andb_true_iff in Eb. destruct Eb as (_ & Eb & _). apply Z.ltb_lt in Eb. lia.
Qed.

(** ** [xfree] *)

Lemma xfree_run pa n x :
  0 <= pa < 2 ^ 31 -> n <> 0 -> words x (KZERO + pa) = n -> words x (KZERO + pa + Xhdr_magix) = Magichole ->
  xfree (KZERO + pa + Xhdr_data) x =
  match xhole_loop pa n (table x) (flist x) with
  | Some (t, f) => (Ok tt, mkX t f (words x))
  | None => (Ok tt, x)
  end.
Proof.
  intros Hp Hn Hw Hm. unfold xfree. rewrite bind_gets. unfold id.
  assert (u64 (KZERO + pa + Xhdr_data - Xhdr_data) = KZERO + pa) as ->
    by (rewrite u64_id; rewrite ?KZERO_eq; lia).
  rewrite Hm, Z.eqb_refl. cbn [negb]. rewrite (bind_ok _ _ _ _ _ (PADDR_ok pa x ltac:(lia))), Hw.
  unfold xhole. rewrite (proj2 (Z.eqb_neq n 0)), bind_gets by done. unfold id.
  by destruct (xhole_loop pa n (table x) (flist x)) as [[t f]|].
Qed.

(** Freeing what [xallocz] has just given restores the table of holes
    exactly, also when the block took the whole of a hole. *)
Theorem xfree_xallocz size zero x p x' :
  tbl_ok (-1) (table x) -> reach (table x) -> 0 <= size < 2 ^ 32 - 16 ->
  xallocz size zero x = (Ok p, x') -> p <> 0 ->
  exists x'', xfree p x' = (Ok tt, x'') /\ table x'' = table x /\ words x'' = words x'.
Proof.
  intros Ht Hr Hs E Hp. pose proof (xround_spec size Hs) as (_ & Hn & _).
  destruct (xallocz_run size zero x Ht Hr Hs) as [[_ E']|(p' & x1 & E' & Hg)]; rewrite E in E'.
  { by injection E'. }
  injection E' as <- <-.
  destruct Hg as (t1 & h & t2 & Et & _ & Hh & -> & Et' & Ef & Hw & Hm & _).
  assert (0 <= h_addr h /\ h_addr h + h_size h <= 2 ^ 31) as [Ha Hb].
  { rewrite Et in Ht. pose proof (tbl_ok_app _ _ _ _ Ht) as (_ & (? & ? & Htop & _) & _).
    unfold reach in Hr. rewrite Et in Hr. apply Forall_app in Hr as [_ Hr]. inversion Hr. subst. lia. }
  assert (KZERO + h_addr h + Xhdr_data - Xhdr_data = KZERO + h_addr h) as Ep by lia. rewrite Ep in Hw, Hm.
  rewrite (xfree_run (h_addr h) (xround size)) by (done || lia). rewrite Et'.
  rewrite Et in Ht. destruct (xhole_loop_back (-1) t1 h t2 (xround size) (flist x') Ht ltac:(lia)) as (fl' & ->).
  { intros Es. rewrite Ef, Es, Z.eqb_refl. done. }
  eexists. split; [reflexivity|]. by split.
Qed.

(** ** The heap among its clients *)

(** The allocator, the blocks in use (physical address of the header, size),
    and the blocks freed when there was no spare hole. *)
Record Heap : Type := mkHeap { hx : Xalloc; live : list (Z * Z); lost : list (Z * Z) }.

Definition not_data (pa n a : Z) : Prop := ~ (KZERO + pa + Xhdr_data <= a < KZERO + pa + n).

Inductive hstep : Heap -> Heap -> Prop :=
| hstep_alloc size zero x l lo p x' :
    0 <= size < 2 ^ 32 - 16 -> xallocz size zero x = (Ok p, x') ->
    hstep (mkHeap x l lo)
      (mkHeap x' (if p =? 0 then l else (p - Xhdr_data - KZERO, xround size) :: l) lo)
| hstep_free pa n x l l' lo x' :
    l ≡ₚ (pa, n) :: l' -> xfree (KZERO + pa + Xhdr_data) x = (Ok tt, x') ->
    hstep (mkHeap x l lo)
      (mkHeap x' l' (match xhole_loop pa n (table x) (flist x) with Some _ => lo | None => (pa, n) :: lo end))
| hstep_merge pa n qa m x l l' lo x' :
    l ≡ₚ (pa, n) :: (qa, m) :: l' ->
    xmerge (KZERO + pa + Xhdr_data) (KZERO + qa + Xhdr_data) x = (Ok 1, x') ->
    hstep (mkHeap x l lo) (mkHeap x' ((pa, n + m) :: l') lo)
| hstep_write pa n x l lo w :
    (pa, n) ∈ l -> (forall a, not_data pa n a -> w a = words x a) ->
    hstep (mkHeap x l lo) (mkHeap (mkX (table x) (flist x) w) l lo).

(** A block in use: within reach, with its header intact. *)
Definition blk_ok (x : Xalloc) (b : Z * Z) : Prop :=
  0 <= b.1 /\ 8 < b.2 /\ b.1 + b.2 <= 2 ^ 31 /\
  words x (KZERO + b.1) = b.2 /\ words x (KZERO + b.1 + Xhdr_magix) = Magichole.
Definition heap_ok (own : Z -> Z) (h : Heap) : Prop :=
  tbl_ok (-1) (table (hx h)) /\ reach (table (hx h)) /\ Forall (blk_ok (hx h)) (live h) /\
  forall a, hcov (table (hx h)) a + cov (live h) a + cov (lost h) a = own a.

Lemma cov_perm l l' a : l ≡ₚ l' -> cov l a = cov l' a.
Proof. induction 1 as [|[s n] l l' _ IH|[s n] [s' n'] l|l l' l'' _ IH1 _ IH2]; cbn; lia. Qed.

(** Writing inside a region that no block of [l] meets leaves their headers. *)
Lemma headers_kept x x' l pa n :
  (forall a, pa <= a < pa + n -> cov l a = 0) ->
  (forall a, ~ (KZERO + pa <= a < KZERO + pa + n) -> words x' a = words x a) ->
  Forall (blk_ok x) l -> Forall (blk_ok x') l.
Proof.
  intros Hd Hw Hl. rewrite Forall_forall in Hl |- *. intros [qa m] Hin.
  destruct (Hl _ Hin) as (H1 & H2 & H3 & H4 & H5). cbn in *.
  assert (forall o, 0 <= o < 8 -> words x' (KZERO + qa + o) = words x (KZERO + qa + o)) as Hk.
  { intros o Ho. apply Hw. intros Ha. assert (cov l (qa + o) = 0) as Hc by (apply Hd; lia).
    pose proof (cov_elem l qa m (qa + o) Hin ltac:(lia)). lia. }
  pose proof (Hk 0 ltac:(lia)) as Hk0. rewrite Z.add_0_r in Hk0.
  split_and!; cbn; try done; [by rewrite Hk0|]. unfold Xhdr_magix in *. by rewrite Hk by lia.
Qed.

Lemma reach_cov t : tbl_ok (-1) t -> (forall b, 2 ^ 31 <= b -> hcov t b = 0) -> reach t.
Proof.
  intros Ht Hc. apply Forall_forall. intros h Hin.
  pose proof (tbl_ok_Forall _ _ Ht) as Hf. rewrite Forall_forall in Hf. destruct (Hf _ Hin) as (? & ? & Htop & _).
  destruct (Z.le_gt_cases (h_top h) (2 ^ 31)); [done|exfalso].
  assert (1 <= hcov t (h_top h - 1)) as Hx.
  { apply (cov_elem _ (h_addr h) (h_size h)); [|lia]. by apply (list_elem_of_fmap_2 (fun h => (h_addr h, h_size h))). }
  rewrite Hc in Hx by lia. lia.
Qed.

Section steps.
Variable own : Z -> Z.
Hypothesis own_one : forall a, own a <= 1.

Lemma live_apart x l lo pa n l' :
  heap_ok own (mkHeap x l lo) -> l ≡ₚ (pa, n) :: l' ->
  blk_ok x (pa, n) /\ Forall (blk_ok x) l' /\
  (forall a, pa <= a < pa + n -> hcov (table x) a = 0 /\ cov l' a = 0).
Proof using own_one.
  intros (_ & _ & Hl & Ho) Hp. cbn in *. rewrite Hp in Hl. inversion Hl as [|? ? Hb Hl']. subst.
  split_and!; [done|done|]. intros a Ha. specialize (Ho a). rewrite (cov_perm _ _ a Hp) in Ho. cbn in Ho.
  rewrite ind_in in Ho by done. pose proof (hcov_nonneg (table x) a). pose proof (cov_nonneg l' a).
  pose proof (cov_nonneg lo a). pose proof (own_one a). lia.
Qed.

Lemma alloc_ok size zero x l lo p x' :
  heap_ok own (mkHeap x l lo) -> 0 <= size < 2 ^ 32 - 16 -> xallocz size zero x = (Ok p, x') ->
  heap_ok own (mkHeap x' (if p =? 0 then l else (p - Xhdr_data - KZERO, xround size) :: l) lo).
Proof using own_one.
  intros (Ht & Hr & Hl & Ho) Hs E. cbn in *. pose proof (xround_spec size Hs) as (_ & Hn & _).
  destruct (xallocz_run size zero x Ht Hr Hs) as [[_ E']|(p' & x1 & E' & Hg)]; rewrite E in E'; injection E' as -> ->.
  { split_and!; done. }
  assert (0 <= xround size) as Hn0 by lia.
  destruct (got_block_table _ _ _ _ _ Hn0 Ht Hr Hg) as (pa & -> & Hp & Hb & Ht' & Hr' & Hc).
  destruct Hg as (_ & _ & _ & _ & _ & _ & _ & _ & _ & Hw & Hm & _ & Hk).
  assert ((KZERO + pa + Xhdr_data =? 0) = false) as -> by (rewrite KZERO_eq; apply Z.eqb_neq; unfold Xhdr_data; lia).
  replace (KZERO + pa + Xhdr_data - Xhdr_data) with (KZERO + pa) in * by lia.
  replace (KZERO + pa - KZERO) with pa by lia.
  split_and!; cbn; try done.
  - constructor; [split_and!; cbn; (done || lia)|].
    eapply (headers_kept x); [|exact Hk|exact Hl]. intros a Ha. specialize (Ho a). rewrite Hc, ind_in in Ho by done.
    pose proof (hcov_nonneg (table x1) a). pose proof (cov_nonneg l a). pose proof (cov_nonneg lo a).
    pose proof (own_one a). lia.
  - intros a. specialize (Ho a). rewrite Hc in Ho. lia.
Qed.

Lemma free_ok pa n x l l' lo x' :
  heap_ok own (mkHeap x l lo) -> l ≡ₚ (pa, n) :: l' -> xfree (KZERO + pa + Xhdr_data) x = (Ok tt, x') ->
  heap_ok own (mkHeap x' l' (match xhole_loop pa n (table x) (flist x) with Some _ => lo | None => (pa, n) :: lo end)).
Proof using own_one.
  intros Hh Hp E. destruct (live_apart _ _ _ _ _ _ Hh Hp) as ((H1 & H2 & H3 & H4 & H5) & Hl' & Hd).
  destruct Hh as (Ht & Hr & _ & Ho). cbn in *.
  rewrite (xfree_run pa n) in E by (done || lia).
  pose proof (xhole_loop_spec (-1) pa n (table x) (flist x) Ht ltac:(lia) H1 ltac:(lia) ltac:(lia)
    (fun a Ha => proj1 (Hd a Ha))) as Hf.
  destruct (xhole_loop pa n (table x) (flist x)) as [[t f]|]; injection E as <-.
  - destruct Hf as (Ht' & Hc & _ & _). split_and!; cbn; try done.
    + apply (reach_cov t Ht'). intros b Hb. rewrite Hc, ind_out by lia.
      pose proof (tbl_ok_Forall _ _ Ht) as Hf. clear - Hr Hf Hb. unfold reach in Hr.
      induction (table x) as [|h t IH]; [done|]. inversion Hr. inversion Hf as [|? ? (? & ? & ? & _) ?]. subst.
      rewrite hcov_cons, ind_out by lia. by apply IH.
    + intros a. specialize (Ho a). rewrite (cov_perm _ _ a Hp) in Ho. cbn in Ho. rewrite Hc. lia.
  - split_and!; cbn; try done. intros a. specialize (Ho a). rewrite (cov_perm _ _ a Hp) in Ho. cbn in Ho. lia.
Qed.

Lemma merge_ok pa n qa m x l l' lo x' :
  heap_ok own (mkHeap x l lo) -> l ≡ₚ (pa, n) :: (qa, m) :: l' ->
  xmerge (KZERO + pa + Xhdr_data) (KZERO + qa + Xhdr_data) x = (Ok 1, x') ->
  heap_ok own (mkHeap x' ((pa, n + m) :: l') lo).
Proof using own_one.
  intros Hh Hp E. destruct (live_apart _ _ _ _ _ _ Hh Hp) as ((H1 & H2 & H3 & H4 & H5) & Hl' & Hd).
  inversion Hl' as [|? ? (Q1 & Q2 & Q3 & Q4 & Q5) Hl'']. subst. destruct Hh as (Ht & Hr & _ & Ho). cbn in *.
  unfold xmerge in E. rewrite bind_gets in E. unfold id in E.
  replace (u64 (KZERO + pa + Xhdr_data - Xhdr_data)) with (KZERO + pa) in E
    by (rewrite u64_id; rewrite ?KZERO_eq; lia).
  replace (u64 (KZERO + qa + Xhdr_data - Xhdr_data)) with (KZERO + qa) in E
    by (rewrite u64_id; rewrite ?KZERO_eq; lia).
  rewrite H5, Q5, H4, Q4, Z.eqb_refl in E. cbn [negb orb] in E.
  destruct (Z.eqb_spec (u64 (KZERO + pa + n)) (KZERO + qa)) as [Eq|]; [|by injection E].
  unfold storeX in E. rewrite bind_modify in E. injection E as <-.
  assert (qa = pa + n) as ->.
  { destruct (Z.eq_dec (pa + n) (2 ^ 31)) as [Eb|Eb].
    - replace (KZERO + pa + n) with (2 ^ 64) in Eq by (rewrite KZERO_eq; lia). change (u64 (2 ^ 64)) with 0 in Eq.
      rewrite KZERO_eq in Eq. lia.
    - rewrite u64_id in Eq by (rewrite KZERO_eq; lia). lia. }
  assert (u32 (n + m) = n + m) as Eu by (rewrite u32_id; lia). rewrite Eu.
  assert (forall a, a <> KZERO + pa -> setw (KZERO + pa) (n + m) (words x) a = words x a) as Hk
    by (intros a Ha; unfold setw; by rewrite (proj2 (Z.eqb_neq _ _))).
  split_and!; cbn; try done.
  - constructor.
    + split_and!; cbn; try lia; [unfold setw; by rewrite Z.eqb_refl|]. rewrite Hk; [done|unfold Xhdr_magix; lia].
    + apply (headers_kept x _ l' pa n); [|intros a Ha; apply Hk; lia|done].
      intros a Ha. destruct (Hd a Ha) as [_ Hc]. pose proof (cov_nonneg l' a).
      pose proof (ind_range (pa + n) m a). lia.
  - intros a. specialize (Ho a). rewrite (cov_perm _ _ a Hp) in Ho. cbn in Ho. rewrite ind_split by lia. lia.
Qed.

Lemma write_ok pa n x l lo w :
  heap_ok own (mkHeap x l lo) -> (pa, n) ∈ l -> (forall a, not_data pa n a -> w a = words x a) ->
  heap_ok own (mkHeap (mkX (table x) (flist x) w) l lo).
Proof using own_one.
  intros Hh Hin Hw. apply elem_of_Permutation in Hin as (l' & Hp).
  destruct (live_apart _ _ _ _ _ _ Hh Hp) as ((H1 & H2 & H3 & H4 & H5) & Hl' & Hd).
  destruct Hh as (Ht & Hr & _ & Ho). cbn in *. split_and!; cbn; try done. rewrite Hp. constructor.
  - unfold blk_ok, not_data, Xhdr_data, Xhdr_magix in *. cbn in *. rewrite !Hw by lia. by split_and!.
  - apply (headers_kept x _ l' pa n); [intros a Ha; by apply Hd| |done].
    intros a Ha. cbn. apply Hw. unfold not_data, Xhdr_data. lia.
Qed.

Lemma hstep_ok h h' : hstep h h' -> heap_ok own h -> heap_ok own h'.
Proof using own_one.
  intros Hs Hh. destruct Hs; [by eapply alloc_ok|by eapply free_ok|by eapply merge_ok|by eapply write_ok].
Qed.
End steps.

Lemma tbl_ok_one lo t a : tbl_ok lo t -> hcov t a <= 1 /\ (a <= lo -> hcov t a = 0).
Proof.
  revert lo. induction t as [|h t IH]; intros lo; [change (hcov [] a) with 0; lia|].
  intros ((H1 & H2 & H3 & _) & Hl & Ht). destruct (IH _ Ht) as [I1 I2]. rewrite hcov_cons.
  pose proof (ind_range (h_addr h) (h_size h) a). split.
  - destruct (Z.le_gt_cases a (h_top h)) as [Ha|Ha]; [rewrite I2 by lia; lia|]. rewrite ind_out by lia. lia.
  - intros Ha. rewrite ind_out, I2 by lia. lia.
Qed.

(** C14. The heap is safe: whatever sequence of allocations, frees, merges and
    writes by clients to the data of their own blocks, every address the table
    had at the start belongs to exactly one hole, one block in use or one block
    leaked for want of a spare hole, and no other address to any; so blocks in
    use never overlap each other or a hole, and each of them can be freed: its
    header is intact, and [xfree] does not panic. *)
Theorem xheap_safe x0 h :
  rtc hstep (mkHeap x0 [] []) h -> tbl_ok (-1) (table x0) -> reach (table x0) ->
  (forall a, hcov (table (hx h)) a + cov (live h) a + cov (lost h) a = hcov (table x0) a /\
     hcov (table x0) a <= 1) /\
  (forall pa n, (pa, n) ∈ live h ->
     exists x', xfree (KZERO + pa + Xhdr_data) (hx h) = (Ok tt, x') /\ words x' = words (hx h)).
Proof.
  intros Hs Ht Hr.
  assert (forall a, hcov (table x0) a <= 1) as Hone by (intros a; eapply tbl_ok_one; exact Ht).
  assert (heap_ok (hcov (table x0)) h) as (Ht' & _ & Hl & Ho).
  { assert (heap_ok (hcov (table x0)) (mkHeap x0 [] [])) as H0.
    { split_and!; try done. intros a. cbn. lia. }
    induction Hs; eauto using hstep_ok. }
  split; [intros a; split; [apply Ho|apply Hone]|]. intros pa n Hin. rewrite Forall_forall in Hl.
  destruct (Hl _ Hin) as (H1 & H2 & H3 & H4 & H5). cbn in *.
  rewrite (xfree_run pa n) by (done || lia).
  destruct (xhole_loop pa n (table (hx h)) (flist (hx h))) as [[t f]|]; by eexists.
Qed.

(** ** [xinit] *)

Lemma xhole_run addr g x :
  tbl_ok (-1) (table x) -> reach (table x) -> 0 <= addr -> 0 <= g -> addr + g <= 2 ^ 31 ->
  (forall a, addr <= a < addr + g -> hcov (table x) a = 0) -> flist x <> [] ->
  exists x', xhole addr g x = (Ok tt, x') /\ tbl_ok (-1) (table x') /\ reach (table x') /\
    (forall a, hcov (table x') a = hcov (table x) a + ind addr g a) /\
    htot (table x') = htot (table x) + g /\ (length (flist x) <= S (length (flist x')))%nat.
Proof.
  intros Ht Hr Ha Hg Hb Hd Hf. unfold xhole. destruct (Z.eqb_spec g 0) as [->|Hg0].
  { exists x. split_and!; try done; try lia. intros a. rewrite ind_out by lia. lia. }
  rewrite bind_gets. unfold id.
  pose proof (xhole_loop_spec (-1) addr g (table x) (flist x) Ht ltac:(lia) Ha ltac:(lia) ltac:(lia) Hd) as Hs.
  destruct (xhole_loop addr g (table x) (flist x)) as [[t f]|]; [|by destruct Hs].
  destruct Hs as (Ht' & Hc & Htot & _ & Hl). eexists. split; [reflexivity|]. cbn. split_and!; try done.
  apply (reach_cov t Ht'). intros b Hb'. rewrite Hc, ind_out by lia. rewrite Z.add_0_r.
  pose proof (tbl_ok_Forall _ _ Ht) as Hfo. clear - Hr Hfo Hb'. unfold reach in Hr.
  induction (table x) as [|h t IH]; [done|]. inversion Hr. inversion Hfo as [|? ? (? & ? & ? & _) ?]. subst.
  rewrite hcov_cons, ind_out by lia. by apply IH.
Qed.

(** The bytes of [sys->mem] and of the calls of [umem_region]. *)
Definition mem_regions (ms : list Confmem) : list (Z * Z) := (fun m => (base m, npage m * PGSZ)) <$> ms.
Definition page_regions (rs : list (Z * Z)) : list (Z * Z) := (fun r => (r.1, r.2 * PGSZ)) <$> rs.
Definition conf_ok (m : Confmem) : Prop :=
  0 <= base m /\ 0 <= npage m < 2 ^ 32 /\ base m + npage m * PGSZ < 2 ^ 64.
(** The last page the kernel can address: [klimit] cannot be its end. *)
Definition last_page (a : Z) : Prop := 2 ^ 31 - PGSZ <= a < 2 ^ 31.

(** The pages of an entry that go to the kernel and the bytes [xhole] gets. *)
Definition kernel_pages (m : Confmem) (kpages : Z) : Z :=
  Z.min (Z.min (npage m) kpages) (if 2 ^ 31 <=? base m then 0 else (2 ^ 31 - base m) / PGSZ).
Definition kernel_bytes (m : Confmem) (kpages : Z) : Z :=
  let n := kernel_pages m kpages in
  if (0 <? n) && (base m + n * PGSZ =? 2 ^ 31) then n * PGSZ - PGSZ else n * PGSZ.

Lemma PGSZ_eq : PGSZ = 4096.
Proof. reflexivity. Qed.

Lemma xinit_pages m kpages :
  conf_ok m -> 0 <= kpages < 2 ^ 32 ->
  (let n := u32 (npage m) in
   let n := if kpages <? n then kpages else n in
   let maxpages := u32 (Z.quot (cankaddr (base m)) PGSZ) in
   if maxpages <? n then maxpages else n) = kernel_pages m kpages.
Proof.
  intros (Hb & Hn & _) Hk. cbv zeta. unfold cankaddr, kernel_pages. rewrite neg_KZERO, PGSZ_eq.
  rewrite (u32_id (npage m)) by lia. destruct (Z.leb_spec (2 ^ 31) (base m)).
  - change (u32 (Z.quot 0 4096)) with 0. repeat case_match; lia.
  - rewrite u64_id by lia. rewrite Z.quot_div_nonneg by lia.
    assert (0 <= (2 ^ 31 - base m) / 4096 < 2 ^ 32) by dlia.
    rewrite u32_id by lia. repeat case_match; lia.
Qed.
Lemma kernel_pages_range m kpages :
  conf_ok m -> 0 <= kpages ->
  0 <= kernel_pages m kpages <= npage m /\ kernel_pages m kpages <= kpages /\
  (0 < kernel_pages m kpages -> base m < 2 ^ 31 /\ base m + kernel_pages m kpages * PGSZ <= 2 ^ 31).
Proof.
  intros (Hb & Hn & _) Hk. unfold kernel_pages. rewrite PGSZ_eq.
  destruct (Z.leb_spec (2 ^ 31) (base m)); [lia|].
  assert (0 <= (2 ^ 31 - base m) / 4096 /\ (2 ^ 31 - base m) / 4096 * 4096 <= 2 ^ 31 - base m) by dlia. lia.
Qed.

(** An entry that gets pages: the run of its first half. *)
Lemma xinit_kernel m kpages x :
  conf_ok m -> 0 <= kpages -> 0 < kernel_pages m kpages ->
  (kb ← KADDR (base m);
   let kl := u64 (kb + u64 (kernel_pages m kpages * PGSZ)) in
   let kl := if kl =? 0 then u64 (- PGSZ) else kl in
   xhole (base m) (u64 (kl - kb));;
   mret (mkConfmem (base m) (npage m) kb kl)) x =
  (kl ← mret (KZERO + base m + kernel_bytes m kpages);
   xhole (base m) (kernel_bytes m kpages);;
   mret (mkConfmem (base m) (npage m) (KZERO + base m) kl)) x.
Proof.
  intros Hm Hk Hn. pose proof (kernel_pages_range m kpages Hm Hk) as (H1 & H2 & H3). specialize (H3 Hn).
  pose proof Hm as (Hb & Hnp & _). rewrite (bind_ok _ _ _ _ _ (KADDR_ok (base m) x ltac:(lia))), bind_mret.
  unfold kernel_bytes. set (n := kernel_pages m kpages) in *. cbv zeta. rewrite PGSZ_eq in *.
  rewrite (u64_id (n * 4096)), (proj2 (Z.ltb_lt 0 n)) by lia. cbn [andb].
  destruct (Z.eqb_spec (base m + n * 4096) (2 ^ 31)) as [E|E].
  - replace (KZERO + base m + n * 4096) with (2 ^ 64) by (rewrite KZERO_eq; lia).
    change (u64 (2 ^ 64) =? 0) with true. cbv iota. change (u64 (Z.opp 4096)) with (2 ^ 64 - 4096).
    rewrite (u64_id (2 ^ 64 - 4096 - (KZERO + base m))) by (rewrite KZERO_eq; lia).
    by replace (2 ^ 64 - 4096 - (KZERO + base m)) with (n * 4096 - 4096) by (rewrite KZERO_eq; lia);
      replace (2 ^ 64 - 4096) with (KZERO + base m + (n * 4096 - 4096)) by (rewrite KZERO_eq; lia).
  - rewrite (u64_id (KZERO + base m + n * 4096)) by (rewrite KZERO_eq; lia).
    rewrite (proj2 (Z.eqb_neq (KZERO + base m + n * 4096) 0)) by (rewrite KZERO_eq; lia). cbv iota.
    replace (KZERO + base m + n * 4096 - (KZERO + base m)) with (n * 4096) by lia. by rewrite u64_id by lia.
Qed.

(** The bytes of an entry, divided. *)
Lemma kernel_split m kpages a :
  conf_ok m -> 0 <= kpages ->
  let n := kernel_pages m kpages in
  let rest := ind (base m) (kernel_bytes m kpages) a + ind (base m + n * PGSZ) ((npage m - n) * PGSZ) a in
  0 <= kernel_bytes m kpages <= n * PGSZ /\
  rest <= ind (base m) (npage m * PGSZ) a /\ (~ last_page a -> rest = ind (base m) (npage m * PGSZ) a).
Proof.
  intros Hm Hk n rest. pose proof (kernel_pages_range m kpages Hm Hk) as (H1 & H2 & H3).
  pose proof Hm as (Hb & Hnp & _). unfold rest, kernel_bytes, last_page. fold n in H1, H2, H3 |- *.
  rewrite PGSZ_eq in *. replace (npage m * 4096) with (n * 4096 + (npage m - n) * 4096) by lia.
  rewrite (ind_split (base m) (n * 4096)) by lia.
  destruct (Z.ltb_spec 0 n) as [Hn0|Hn0]; cbn [andb]; [|lia].
  destruct (Z.eqb_spec (base m + n * 4096) (2 ^ 31)) as [E|E]; [|lia].
  replace (ind (base m) (n * 4096) a) with (ind (base m) (n * 4096 - 4096) a + ind (base m + (n * 4096 - 4096)) 4096 a)
    by (rewrite <- ind_split by lia; f_equal; lia).
  pose proof (ind_range (base m + (n * 4096 - 4096)) 4096 a). split_and!; [lia..|].
  intros Hl. rewrite (ind_out (base m + (n * 4096 - 4096))) by lia. lia.
Qed.

Lemma mem_regions_cons m ms a : cov (mem_regions (m :: ms)) a = ind (base m) (npage m * PGSZ) a + cov (mem_regions ms) a.
Proof. done. Qed.

(** One entry: the state and the entry after it, the pages left for [umem]. *)
Lemma xinit_entry m kpages x :
  conf_ok m -> 0 <= kpages < 2 ^ 32 -> tbl_ok (-1) (table x) -> reach (table x) -> flist x <> [] ->
  (forall a, hcov (table x) a + ind (base m) (npage m * PGSZ) a <= 1) ->
  let n := kernel_pages m kpages in
  exists m' x', base m' = base m /\ npage m' = npage m /\
    (if 0 <? n then
       kb ← KADDR (base m);
       let kl := u64 (kb + u64 (n * PGSZ)) in
       let kl := if kl =? 0 then u64 (- PGSZ) else kl in
       xhole (base m) (u64 (kl - kb));;
       mret (mkConfmem (base m) (npage m) kb kl)
     else mret m) x = (Ok m', x') /\
    tbl_ok (-1) (table x') /\ reach (table x') /\ (length (flist x) <= S (length (flist x')))%nat /\
    (forall a, hcov (table x') a = hcov (table x) a + ind (base m) (kernel_bytes m kpages) a) /\
    htot (table x') = htot (table x) + kernel_bytes m kpages.
Proof.
  intros Hm Hk Ht Hr Hf Hd n. pose proof (kernel_pages_range m kpages Hm ltac:(lia)) as (H1 & H2 & H3).
  fold n in H1, H2, H3. pose proof (kernel_split m kpages 0 Hm ltac:(lia)) as (Hb & _). fold n in Hb.
  destruct (Z.ltb_spec 0 n) as [Hn|Hn].
  - unfold n. rewrite xinit_kernel by (done || lia). rewrite bind_mret. destruct (H3 Hn) as [H4 H5].
    destruct (xhole_run (base m) (kernel_bytes m kpages) x Ht Hr) as (x' & E & Hx);
      [apply Hm|lia|lia| |done|].
    { intros a Ha. pose proof (hcov_nonneg (table x) a). specialize (Hd a).
      rewrite ind_in in Hd; [lia|]. rewrite PGSZ_eq in *. lia. }
    exists (mkConfmem (base m) (npage m) (KZERO + base m) (KZERO + base m + kernel_bytes m kpages)), x'.
    rewrite (bind_ok _ _ _ _ _ E). split_and!; [..|apply Hx|apply Hx|apply Hx|apply Hx|apply Hx]; done.
  - exists m, x. assert (n = 0) as Hn0 by lia.
    assert (kernel_bytes m kpages = 0) as ->.
    { unfold kernel_bytes. fold n. rewrite Hn0. done. }
    split_and!; try done; try lia. intros a. rewrite ind_out by lia. lia.
Qed.

Lemma xinit_loop_spec mems kpages x :
  Forall conf_ok mems -> 0 <= kpages < 2 ^ 32 -> tbl_ok (-1) (table x) -> reach (table x) ->
  (forall a, hcov (table x) a + cov (mem_regions mems) a <= 1) -> (length mems <= length (flist x))%nat ->
  exists ms rs x', xinit_loop mems kpages x = (Ok (ms, rs), x') /\
    mem_regions ms = mem_regions mems /\ tbl_ok (-1) (table x') /\ reach (table x') /\
    (forall a, hcov (table x') a + cov (page_regions rs) a <= hcov (table x) a + cov (mem_regions mems) a /\
       (~ last_page a -> hcov (table x') a + cov (page_regions rs) a = hcov (table x) a + cov (mem_regions mems) a)) /\
    htot (table x') <= htot (table x) + kpages * PGSZ.
Proof.
  revert kpages x. induction mems as [|m mems IH]; intros kpages x Hc Hk Ht Hr Hd Hl.
  { exists [], [], x. split_and!; try done; [rewrite PGSZ_eq; lia]. }
  inversion Hc as [|? ? Hm Hc']. subst.
  destruct (xinit_entry m kpages x Hm Hk Ht Hr) as (m' & x1 & Eb & En & E & Ht1 & Hr1 & Hf1 & Hc1 & Htot1).
  { intros Ef. rewrite Ef in Hl. cbn in Hl. lia. }
  { intros a. specialize (Hd a). rewrite mem_regions_cons in Hd. pose proof (cov_nonneg (mem_regions mems) a). lia. }
  pose proof (kernel_pages_range m kpages Hm ltac:(lia)) as (H1 & H2 & H3).
  set (n := kernel_pages m kpages) in *.
  set (k1 := if 0 <? n then u32 (kpages - n) else kpages).
  assert (k1 = kpages - n) as Ek1 by (unfold k1; destruct (Z.ltb_spec 0 n); [apply u32_id; lia|lia]).
  destruct (IH k1 x1) as (ms & rs & x' & E' & Ems & Ht' & Hr' & Hc2 & Htot); try done; [lia| |cbn in Hl; lia|].
  { intros a. rewrite Hc1. specialize (Hd a). rewrite mem_regions_cons in Hd.
    pose proof (kernel_split m kpages a Hm ltac:(lia)) as (_ & Hs & _). fold n in Hs.
    pose proof (ind_range (base m + n * PGSZ) ((npage m - n) * PGSZ) a). lia. }
  exists (m' :: ms), (if n <? npage m then (u64 (base m + u64 (n * PGSZ)), u32 (npage m - n)) :: rs else rs), x'.
  split.
  { cbn [xinit_loop]. pose proof (xinit_pages m kpages Hm Hk) as En'. cbv zeta in En' |- *. rewrite En'. fold n.
    rewrite (bind_ok _ _ _ _ _ E). fold k1. rewrite (bind_ok _ _ _ _ _ E'). done. }
  split; [unfold mem_regions in *; cbn; by rewrite Eb, En, Ems|]. split; [done|]. split; [done|].
  pose proof Hm as (Hb & Hnp & Hw). split.
  - intros a. pose proof (kernel_split m kpages a Hm ltac:(lia)) as (_ & Hs1 & Hs2). fold n in Hs1, Hs2.
    assert (cov (page_regions (if n <? npage m then (u64 (base m + u64 (n * PGSZ)), u32 (npage m - n)) :: rs else rs)) a =
      ind (base m + n * PGSZ) ((npage m - n) * PGSZ) a + cov (page_regions rs) a) as ->.
    { rewrite PGSZ_eq in *. destruct (Z.ltb_spec n (npage m)).
      - unfold page_regions. cbn. rewrite (u64_id (n * 4096)), u64_id, u32_id by lia. by rewrite PGSZ_eq.
      - rewrite (ind_out _ ((npage m - n) * 4096)) by lia. lia. }
    rewrite mem_regions_cons. destruct (Hc2 a) as [Ha Hb']. rewrite Hc1 in Ha, Hb'. split; [lia|].
    intros Hl'. specialize (Hs2 Hl'). specialize (Hb' Hl'). lia.
  - pose proof (kernel_split m kpages 0 Hm ltac:(lia)) as (Hkb & _). fold n in Hkb. rewrite PGSZ_eq in *. lia.
Qed.

(** [xinit] divides physical memory: started with an empty table on at
    most [Nhole] disjoint entries, it does not panic and every byte of every
    entry is in exactly one hole of the table or one region given to
    [umem_region], and no other byte is; the one exception is the last page the
    kernel can address, which may belong to neither; and the table gets at most
    [npages - upages] pages. *)
Theorem xinit_splits npages upages mems x :
  table x = [] -> Forall conf_ok mems -> (forall a, cov (mem_regions mems) a <= 1) ->
  (length mems <= Z.to_nat Nhole)%nat -> 0 <= upages <= npages -> npages < 2 ^ 32 ->
  exists ms rs x', xinit npages upages mems x = (Ok (ms, rs), x') /\
    mem_regions ms = mem_regions mems /\ tbl_ok (-1) (table x') /\ reach (table x') /\
    (forall a, ~ last_page a -> hcov (table x') a + cov (page_regions rs) a = cov (mem_regions mems) a) /\
    (forall a, hcov (table x') a + cov (page_regions rs) a <= cov (mem_regions mems) a) /\
    htot (table x') <= (npages - upages) * PGSZ.
Proof.
  intros Et Hc Hd Hl Hn Hn'. unfold xinit. rewrite bind_modify, u32_id by lia.
  destruct (xinit_loop_spec mems (npages - upages) (mkX (table x) (replicate (Z.to_nat Nhole) (mkHole 0 0 0)) (words x)))
    as (ms & rs & x' & E & Em & Ht & Hr & Ha & Htot); cbn [table flist] in *; rewrite ?Et in *; try done; try lia; [constructor|].
  exists ms, rs, x'. split_and!; try done; [intros a Hp; destruct (Ha a) as [_ Hx]; by apply Hx|].
  intros a. apply Ha.
Qed.

(** ** A size whose rounding wraps *)

(** A request of 2^32 - 16 bytes or more is rounded to at most 8 bytes: the
    first hole of 8 bytes serves it, and the header is all there is. *)
Lemma xallocz_wraps size x h t :
  tbl_ok (-1) (table x) -> reach (table x) -> table x = h :: t -> 2 ^ 32 - 16 <= size < 2 ^ 32 -> 8 <= h_size h ->
  exists p x', xallocz size false x = (Ok p, x') /\ p <> 0 /\ htot (table x) - htot (table x') <= 8.
Proof.
  intros Ht Hr Et Hs Hh. pose proof (xround_wraps size Hs) as Hn. unfold xallocz. set (n := xround size) in *.
  rewrite bind_gets. unfold id. rewrite Et. cbn [xalloc_loop]. rewrite (proj2 (Z.leb_le n (h_size h))) by lia.
  rewrite Et in Ht, Hr. destruct Ht as ((H1 & H2 & H3 & H4) & _ & _). unfold reach in Hr. inversion Hr. subst.
  rewrite !u64_id by lia. cbn [h_size].
  assert (KZERO + h_addr h + Xhdr_data <> 0) as Hp by (rewrite KZERO_eq; unfold Xhdr_data; lia).
  destruct (Z.eqb_spec (h_size h - n) 0); rewrite (bind_ok _ _ _ _ _ (KADDR_ok (h_addr h) x ltac:(lia)));
    unfold setX, storeX; rewrite bind_modify, bind_mret, !bind_modify; eexists _, _; (split; [reflexivity|]);
    (split; [exact Hp|]); cbn [table htot h_size]; lia.
Qed.

(** ** Witnesses *)

Definition x_two : Xalloc := mkX [mkHole 4096 32 4128; mkHole 8192 64 8256] [mkHole 0 0 0] (fun _ => 7).
Lemma x_two_ok : tbl_ok (-1) (table x_two) /\ reach (table x_two).
Proof.
  split; [|repeat constructor; cbn; lia].
  unfold x_two, tbl_ok, hole_ok. cbn [table h_addr h_size h_top]. lia.
Qed.

(** 40 bytes do not fit into the first hole. *)
Lemma xallocz_first_fit_witness :
  (tbl_ok (-1) (table x_two) /\ reach (table x_two) /\ 0 <= 40 < 2 ^ 32 - 16) /\
  exists p x', xallocz 40 true x_two = (Ok p, x') /\ got_block 56 true x_two p x' /\
    table x' = [mkHole 4096 32 4128; mkHole 8248 8 8256] /\ p = KZERO + 8200.
Proof.
  destruct x_two_ok as [Ht Hr]. assert (0 <= 40 < 2 ^ 32 - 16) as Hs by lia.
  split; [exact (conj Ht (conj Hr Hs))|].
  destruct (xallocz_first_fit 40 true x_two Ht Hr Hs) as (p & x' & E & _ & _ & Hg).
  exists p, x'. split; [exact E|]. split; [exact Hg|].
  assert (p = fst (match xallocz 40 true x_two with (Ok p, _) => (p, 0) | _ => (0, 0) end)) as Ep by (rewrite E; reflexivity).
  assert (table x' = table (snd (xallocz 40 true x_two))) as Et by (rewrite E; reflexivity).
  rewrite Ep, Et. split; reflexivity.
Defined.

(** The first hole is used up and comes back. *)
Lemma xfree_xallocz_witness :
  exists p x', xallocz 16 true x_two = (Ok p, x') /\ table x' = [mkHole 8192 64 8256] /\
    exists x'', xfree p x' = (Ok tt, x'') /\ table x'' = table x_two /\ words x'' = words x'.
Proof.
  destruct x_two_ok as [Ht Hr]. assert (0 <= 16 < 2 ^ 32 - 16) as Hs by lia.
  exists (KZERO + 4104), (snd (xallocz 16 true x_two)).
  assert (xallocz 16 true x_two = (Ok (KZERO + 4104), snd (xallocz 16 true x_two))) as E by reflexivity.
  assert (KZERO + 4104 <> 0) as Hp by discriminate.
  split; [exact E|]. split; [reflexivity|].
  exact (xfree_xallocz 16 true x_two _ _ Ht Hr Hs E Hp).
Defined.

(** A block in each hole, the second hole's freed. *)
Definition x_alloc2 : Xalloc := snd (xallocz 10 false (snd (xallocz 24 true x_two))).
Definition heap3 : Heap := mkHeap (snd (xfree (KZERO + 8192 + Xhdr_data) x_alloc2)) [(4096, 24)] [].
Lemma heap3_reach : rtc hstep (mkHeap x_two [] []) heap3.
Proof.
  eapply rtc_l; [apply (hstep_alloc 24 true x_two [] [] (KZERO + 8200) (snd (xallocz 24 true x_two))); [lia|reflexivity]|].
  eapply rtc_l.
  { apply (hstep_alloc 10 false _ _ _ (KZERO + 4104) x_alloc2); [lia|reflexivity]. }
  apply rtc_once.
  apply (hstep_free 8192 40 x_alloc2 _ [(4096, 24)] []); [vm_compute; apply perm_swap|reflexivity].
Qed.
Lemma xheap_safe_witness :
  rtc hstep (mkHeap x_two [] []) heap3 /\ table (hx heap3) = [mkHole 4120 8 4128; mkHole 8192 64 8256] /\
  (forall a, hcov (table (hx heap3)) a + cov (live heap3) a <= 1) /\
  exists x', xfree (KZERO + 4096 + Xhdr_data) (hx heap3) = (Ok tt, x') /\ words x' = words (hx heap3).
Proof.
  destruct x_two_ok as [Ht Hr]. split; [exact heap3_reach|]. split; [reflexivity|].
  destruct (xheap_safe x_two heap3 heap3_reach Ht Hr) as [Ho Hf]. split.
  - intros a. destruct (Ho a) as [E E1]. change (cov (lost heap3) a) with 0 in E. lia.
  - apply (Hf 4096 24). constructor.
Defined.

(** Two banks of memory, three pages for the kernel. *)
Definition mems2 : list Confmem := [mkConfmem 4096 2 0 0; mkConfmem 16384 4 0 0].
Lemma xinit_splits_witness :
  exists ms rs x', xinit 6 3 mems2 (mkX [] [] (fun _ => 0)) = (Ok (ms, rs), x') /\
    rs = [(20480, 3)] /\ table x' = [mkHole 4096 8192 12288; mkHole 16384 4096 20480] /\
    htot (table x') <= (6 - 3) * PGSZ.
Proof.
  assert (Forall conf_ok mems2) as Hc.
  { unfold mems2. repeat constructor; unfold conf_ok; rewrite ?PGSZ_eq; cbn [base npage]; lia. }
  assert (forall a, cov (mem_regions mems2) a <= 1) as Hd.
  { intros a. unfold mems2. rewrite !mem_regions_cons. cbn [base npage]. rewrite PGSZ_eq. cbn [mem_regions fmap list_fmap cov].
    inds. }
  assert (length mems2 <= Z.to_nat Nhole)%nat as Hl by (vm_compute; lia).
  assert (0 <= 3 <= 6) as Hn by lia. assert (6 < 2 ^ 32) as Hn' by lia.
  destruct (xinit_splits 6 3 mems2 (mkX [] [] (fun _ => 0)) eq_refl Hc Hd Hl Hn Hn')
    as (ms & rs & x' & E & _ & _ & _ & _ & _ & Htot).
  exists ms, rs, x'. split; [exact E|].
  assert (rs = snd (match fst (xinit 6 3 mems2 (mkX [] [] (fun _ => 0))) with Ok r => r | _ => ([], []) end)) as Er
    by (rewrite E; reflexivity).
  assert (table x' = table (snd (xinit 6 3 mems2 (mkX [] [] (fun _ => 0))))) as Et by (rewrite E; reflexivity).
  split; [rewrite Er; reflexivity|]. split; [rewrite Et; reflexivity|exact Htot].
Defined.
