(* ===== verification/Qlock.v ===== *)
(** * Queueing locks: [sys/src/kern/port/qlock.c]

    A lock and the processes that use it.  The waiting processes form a linked
    list through [Proc.qnext], with [head] and [tail] in the lock; the model
    keeps the pointers.  The spin lock [use] is held over each routine's work,
    so a routine is one run up to [sched]; a process that queues itself leaves
    with [Sched] and goes on when it is made ready.  [proc_interrupt_finalize]
    of [proc.c], which pulls a process out of an [eqlock] when a note comes, is
    here because it edits the same list.  The statistics ([rwstats], [qpc],
    [wpc]) and the messages of the checks that only print are left out. *)
From S2P Require Import Prelude CMonad.
From stdpp Require Export functions.
Local Open Scope Z_scope.

(** ** Processes *)

Inductive ProcState : Type :=
| Dead | Moribund | Broken | Ready | Scheding | Running | Queueing | QueueingR | QueueingW
| Wakeme | Stopped | Rendezvous | Waitrelease.
#[export] Instance ProcState_eq_dec : EqDecision ProcState.
Proof. solve_decision. Defined.

(** [p_eql]: [eql] is the lock at hand ([false]: [nil]). *)
Record Proc : Type := mkProc {
  p_state : ProcState;
  p_qnext : option nat;
  p_eql : bool;
  p_notepending : bool
}.
Definition Procs : Type := nat -> Proc.

Definition set_pstate (p : nat) (s : ProcState) (ps : Procs) : Procs :=
  <[p := mkProc s (p_qnext (ps p)) (p_eql (ps p)) (p_notepending (ps p))]> ps.
Definition set_qnext (p : nat) (n : option nat) (ps : Procs) : Procs :=
  <[p := mkProc (p_state (ps p)) n (p_eql (ps p)) (p_notepending (ps p))]> ps.
Definition set_eql (p : nat) (b : bool) (ps : Procs) : Procs :=
  <[p := mkProc (p_state (ps p)) (p_qnext (ps p)) b (p_notepending (ps p))]> ps.
Definition set_notepending (p : nat) (b : bool) (ps : Procs) : Procs :=
  <[p := mkProc (p_state (ps p)) (p_qnext (ps p)) (p_eql (ps p)) b]> ps.

(** ** The list of waiting processes *)

(** [p = q->tail; if(p == nil) q->head = up; else p->qnext = up; q->tail = up;
    up->qnext = nil;] *)
Definition enqueue (up : nat) (head tail : option nat) (ps : Procs) : option nat * option nat * Procs :=
  let '(head, ps) :=
    match tail with
    | None => (Some up, ps)
    | Some p => (head, set_qnext p (Some up) ps)
    end in
  (head, Some up, set_qnext up None ps).

(** [q->head = p->qnext; if(q->head == nil) q->tail = nil;] *)
Definition dequeue (p : nat) (tail : option nat) (ps : Procs) : option nat * option nat :=
  match p_qnext (ps p) with
  | None => (None, None)
  | Some n => (Some n, tail)
  end.

(** ** [QLock] *)

Record QLock : Type := mkQLock { l_head : option nat; l_tail : option nat; l_locked : bool }.
Record QS : Type := mkQS { lk : QLock; procs : Procs }.

(** Ways not to return: [sched], [interrupted], [panic]. *)
Definition Sched : Z := 1.
Definition Interrupted : Z := 2.
Definition Panicked : Z := 3.

Definition setlk (f : QLock -> QLock) : M QS () := modify (fun s => mkQS (f (lk s)) (procs s)).
Definition setps (f : Procs -> Procs) : M QS () := modify (fun s => mkQS (lk s) (f (procs s))).
Definition set_locked (b : bool) (q : QLock) : QLock := mkQLock (l_head q) (l_tail q) b.

(** The part [qlock] and [eqlock] share: [up] at the end of the queue. *)
Definition queue_up (up : nat) (eql : bool) : M QS () :=
  s ← gets id;
  let '(h, t, ps) := enqueue up (l_head (lk s)) (l_tail (lk s)) (procs s) in
  setlk (fun q => mkQLock h t (l_locked q));;
  setps (fun _ => ps);;
  setps (set_eql up eql);;
  setps (set_pstate up Queueing).

(** [up] is [None] when there is no process yet. *)
Definition qlock (up : option nat) : M QS () :=
  s ← gets id;
  if negb (l_locked (lk s)) then setlk (set_locked true)
  else
    match up with
    | None => leave Panicked
    | Some up => queue_up up false;; leave Sched
    end.

Definition eqlock (up : option nat) : M QS () :=
  s ← gets id;
  if negb (l_locked (lk s)) then setlk (set_locked true)
  else
    match up with
    | None => leave Panicked
    | Some up =>
        if p_notepending (procs s up) then
          setps (set_notepending up false);;
          leave Interrupted
        else queue_up up true;; leave Sched
    end.

(** [eqlock] after [sched]. *)
Definition eqlock_resume (up : nat) : M QS () :=
  s ← gets id;
  if negb (p_eql (procs s up)) then
    setps (set_notepending up false);;
    leave Interrupted
  else setps (set_eql up false).

(** [use] is whether [canlock(&q->use)] takes the spin lock. *)
Definition canqlock (use : bool) : M QS Z :=
  s ← gets id;
  if negb use then mret 0
  else if l_locked (lk s) then mret 0
  else setlk (set_locked true);; mret 1.

Definition qunlock : M QS () :=
  s ← gets id;
  match l_head (lk s) with
  | Some p =>
      let '(h, t) := dequeue p (l_tail (lk s)) (procs s) in
      setlk (fun q => mkQLock h t (l_locked q));;
      setps (set_pstate p Ready)
  | None => setlk (set_locked false)
  end.

(** The loop of [proc_interrupt_finalize]: [l] is the process before [d].  The
    queue has no process twice, so the number of processes is enough fuel. *)
Fixpoint interrupt_loop (fuel : nat) (p : nat) (l d : option nat) : M QS bool :=
  match fuel with
  | O => undefined
  | S fuel' =>
      match d with
      | None => mret false
      | Some d =>
          s ← gets id;
          let next := p_qnext (procs s d) in
          if decide (d = p) then
            match l with
            | Some l => setps (set_qnext l next)
            | None => setlk (fun q => mkQLock next (l_tail q) (l_locked q))
            end;;
            (if decide (next = None) then setlk (fun q => mkQLock (l_head q) l (l_locked q)) else mret tt);;
            setps (set_qnext p None);;
            setps (set_eql p false);;
            setps (set_pstate p Ready);;
            mret true
          else interrupt_loop fuel' p (Some d) next
      end
  end.

(** [proc_interrupt_finalize] for a process that waits for no rendezvous. *)
Definition interrupt_finalize (nproc : nat) (p : nat) : M QS bool :=
  s ← gets id;
  if decide (p_state (procs s p) = Queueing) then
    if p_eql (procs s p) then interrupt_loop (S nproc) p None (l_head (lk s))
    else mret false
  else mret true.

(** ** [RWlock] *)

Record RWlock : Type := mkRW {
  w_head : option nat;
  w_tail : option nat;
  w_readers : Z;
  w_writer : Z
}.
Record RS : Type := mkRS { rw : RWlock; rprocs : Procs }.

Definition setrw (f : RWlock -> RWlock) : M RS () := modify (fun s => mkRS (f (rw s)) (rprocs s)).
Definition setrps (f : Procs -> Procs) : M RS () := modify (fun s => mkRS (rw s) (f (rprocs s))).
Definition set_readers (n : Z) (q : RWlock) : RWlock := mkRW (w_head q) (w_tail q) n (w_writer q).
Definition set_writer (n : Z) (q : RWlock) : RWlock := mkRW (w_head q) (w_tail q) (w_readers q) n.
Definition set_queue (h t : option nat) (q : RWlock) : RWlock := mkRW h t (w_readers q) (w_writer q).

Definition rw_queue_up (up : nat) (st : ProcState) : M RS () :=
  s ← gets id;
  let '(h, t, ps) := enqueue up (w_head (rw s)) (w_tail (rw s)) (rprocs s) in
  setrw (set_queue h t);;
  setrps (fun _ => ps);;
  setrps (set_pstate up st).

Definition rlock (up : option nat) : M RS () :=
  s ← gets id;
  if (w_writer (rw s) =? 0) && bool_decide (w_head (rw s) = None) then
    setrw (set_readers (w_readers (rw s) + 1))
  else
    match up with
    | None => leave Panicked
    | Some up => rw_queue_up up QueueingR;; leave Sched
    end.

Definition canrlock : M RS Z :=
  s ← gets id;
  if (w_writer (rw s) =? 0) && bool_decide (w_head (rw s) = None) then
    setrw (set_readers (w_readers (rw s) + 1));; mret 1
  else mret 0.

Definition runlock : M RS () :=
  s ← gets id;
  setrw (set_readers (w_readers (rw s) - 1));;
  match w_head (rw s) with
  | None => mret tt
  | Some p =>
      if 0 <? w_readers (rw s) - 1 then mret tt
      else if negb (bool_decide (p_state (rprocs s p) = QueueingW)) then leave Panicked
      else
        let '(h, t) := dequeue p (w_tail (rw s)) (rprocs s) in
        setrw (set_queue h t);;
        setrw (set_writer 1);;
        setrps (set_pstate p Ready)
  end.

Definition wlock (up : option nat) : M RS () :=
  s ← gets id;
  if (w_readers (rw s) =? 0) && (w_writer (rw s) =? 0) then setrw (set_writer 1)
  else
    match up with
    | None => leave Panicked
    | Some up => rw_queue_up up QueueingW;; leave Sched
    end.

(** [while(q->head != nil && q->head->state == QueueingR)] *)
Fixpoint wake_readers (fuel : nat) : M RS () :=
  match fuel with
  | O => undefined
  | S fuel' =>
      s ← gets id;
      match w_head (rw s) with
      | Some p =>
          if decide (p_state (rprocs s p) = QueueingR) then
            setrw (set_queue (p_qnext (rprocs s p)) (w_tail (rw s)));;
            setrw (set_readers (w_readers (rw s) + 1));;
            setrps (set_pstate p Ready);;
            wake_readers fuel'
          else mret tt
      | None => mret tt
      end
  end.

Definition wunlock (nproc : nat) : M RS () :=
  s ← gets id;
  match w_head (rw s) with
  | None => setrw (set_writer 0)
  | Some p =>
      if decide (p_state (rprocs s p) = QueueingW) then
        let '(h, t) := dequeue p (w_tail (rw s)) (rprocs s) in
        setrw (set_queue h t);;
        setrps (set_pstate p Ready)
      else if negb (bool_decide (p_state (rprocs s p) = QueueingR)) then leave Panicked
      else
        wake_readers (S nproc);;
        s ← gets id;
        (if decide (w_head (rw s) = None) then setrw (set_queue None None) else mret tt);;
        setrw (set_writer 0)
  end.
