(* ===== verification/QlockThms.v ===== *)
(** * The list of waiting processes, and what each lock routine does to it

    [queue ps h t l]: [head] and [tail] and the [qnext] of the processes
    represent the list [l].  Each routine is then a function on [l]. *)
From S2P Require Import Prelude CMonad Qlock.
From stdpp Require Import list sets.
Local Open Scope Z_scope.

Fixpoint chain (ps : Procs) (h : option nat) (l : list nat) : Prop :=
  match l with
  | [] => h = None
  | p :: l => h = Some p /\ chain ps (p_qnext (ps p)) l
  end.
Definition queue (ps : Procs) (h t : option nat) (l : list nat) : Prop :=
  NoDup l /\ chain ps h l /\ t = last l.

(** Rewriting with the setters: the process set and the others. *)
Lemma set_pstate_eq p s ps : set_pstate p s ps p = mkProc s (p_qnext (ps p)) (p_eql (ps p)) (p_notepending (ps p)).
Proof. apply fn_lookup_insert. Qed.
Lemma set_pstate_ne p q s ps : q <> p -> set_pstate p s ps q = ps q.
Proof. intros. by apply fn_lookup_insert_ne. Qed.
Lemma set_qnext_eq p n ps : set_qnext p n ps p = mkProc (p_state (ps p)) n (p_eql (ps p)) (p_notepending (ps p)).
Proof. apply fn_lookup_insert. Qed.
Lemma set_qnext_ne p q n ps : q <> p -> set_qnext p n ps q = ps q.
Proof. intros. by apply fn_lookup_insert_ne. Qed.
Lemma set_eql_eq p b ps : set_eql p b ps p = mkProc (p_state (ps p)) (p_qnext (ps p)) b (p_notepending (ps p)).
Proof. apply fn_lookup_insert. Qed.
Lemma set_eql_ne p q b ps : q <> p -> set_eql p b ps q = ps q.
Proof. intros. by apply fn_lookup_insert_ne. Qed.
Lemma set_notepending_eq p b ps : set_notepending p b ps p = mkProc (p_state (ps p)) (p_qnext (ps p)) (p_eql (ps p)) b.
Proof. apply fn_lookup_insert. Qed.
Lemma set_notepending_ne p q b ps : q <> p -> set_notepending p b ps q = ps q.
Proof. intros. by apply fn_lookup_insert_ne. Qed.
Create Rewrite HintDb procs.
#[export] Hint Rewrite set_pstate_eq set_qnext_eq set_eql_eq set_notepending_eq : procs.
#[export] Hint Rewrite set_pstate_ne set_qnext_ne set_eql_ne set_notepending_ne using congruence : procs.

(** A process's fields after a sequence of updates, by cases on its name. *)
Ltac procs := autorewrite with procs; cbn [p_state p_qnext p_eql p_notepending].

Lemma chain_ext ps ps' h l :
  (forall p, p ∈ l -> p_qnext (ps' p) = p_qnext (ps p)) -> chain ps h l -> chain ps' h l.
Proof.
  revert h. induction l as [|p l IH]; intros h He; [done|]. intros [-> Hc]. split; [done|].
  rewrite He by left. apply IH; [|done]. intros q Hq. apply He. by right.
Qed.
Lemma queue_ext ps ps' h t l :
  (forall p, p ∈ l -> p_qnext (ps' p) = p_qnext (ps p)) -> queue ps h t l -> queue ps' h t l.
Proof. intros He (H1 & H2 & H3). split_and!; [done| |done]. by eapply chain_ext. Qed.

(** What is before a process in the list decides where the pointer to it is. *)
Lemma chain_snoc ps h l p q :
  NoDup (l ++ [p]) -> chain ps h (l ++ [p]) -> q ∉ l ++ [p] ->
  chain (set_qnext q None (set_qnext p (Some q) ps)) h (l ++ [p; q]).
Proof.
  revert h. induction l as [|r l IH]; intros h Hn; cbn.
  - intros [-> Hc] Hq. assert (q <> p) by set_solver. repeat (procs; split_and!; try done).
  - intros [-> Hc] Hq. apply NoDup_cons in Hn as [Hr Hn]. split; [done|].
    assert (r <> p /\ q <> r) as [? ?] by set_solver. procs. apply IH; [done|done|set_solver].
Qed.

Lemma enqueue_queue up h t ps l :
  queue ps h t l -> up ∉ l ->
  exists h' ps', enqueue up h t ps = (h', Some up, ps') /\ queue ps' h' (Some up) (l ++ [up]) /\
    (forall p, p_state (ps' p) = p_state (ps p) /\ p_eql (ps' p) = p_eql (ps p) /\
       p_notepending (ps' p) = p_notepending (ps p)).
Proof.
  intros (Hn & Hc & ->) Hu. unfold enqueue.
  assert (NoDup (l ++ [up])) as Hn'.
  { apply NoDup_app. split_and!; [done| |apply NoDup_singleton]. intros x Hx. set_solver. }
  destruct (last l) as [r|] eqn:El.
  - apply last_Some in El as [l' ->]. eexists h, _. split; [done|]. split.
    + split_and!; [done| |by rewrite last_snoc]. rewrite <- app_assoc. cbn. by apply chain_snoc.
    + intros p. destruct (decide (p = up)) as [->|Hp]; destruct (decide (r = up)) as [->|Hr];
        try (destruct (decide (p = r)) as [->|]); procs; done.
  - apply last_None in El as ->. eexists (Some up), _. split; [done|]. split.
    + split_and!; [done| |done]. cbn. split; [done|]. by procs.
    + intros p. destruct (decide (p = up)) as [->|Hp]; by procs.
Qed.

Lemma dequeue_queue p h t ps l :
  queue ps h t (p :: l) ->
  h = Some p /\ queue ps (fst (dequeue p t ps)) (snd (dequeue p t ps)) l.
Proof.
  intros (Hn & [-> Hc] & ->). split; [done|]. unfold dequeue. apply NoDup_cons in Hn as [_ Hn].
  destruct l as [|q l]; cbn in Hc.
  - rewrite Hc. by split_and!.
  - destruct Hc as [Hq Hc]. rewrite Hq. cbn [fst snd]. by split_and!.
Qed.

(** ** Taking a process out of the middle *)

Lemma chain_mid ps h l1 p l2 : chain ps h (l1 ++ p :: l2) -> chain ps (p_qnext (ps p)) l2.
Proof. revert h. induction l1 as [|q l1 IH]; intros h; cbn; [by intros [_ ?]|]. intros [_ Hc]. by eapply IH. Qed.

(** The pointer that led to [p] now leads to what follows it. *)
Definition unlink (l : option nat) (next : option nat) (h : option nat) (ps : Procs) : option nat * Procs :=
  match l with Some r => (h, set_qnext r next ps) | None => (next, ps) end.

Lemma chain_unlink ps h l1 p l2 :
  NoDup (l1 ++ p :: l2) -> chain ps h (l1 ++ p :: l2) ->
  let '(h', ps') := unlink (last l1) (p_qnext (ps p)) h ps in chain ps' h' (l1 ++ l2).
Proof.
  revert h. induction l1 as [|q l1 IH]; intros h Hn Hc; cbn in *; [by destruct Hc|].
  destruct Hc as [-> Hc]. apply NoDup_cons in Hn as [Hq Hn]. specialize (IH _ Hn Hc).
  destruct l1 as [|r l1]; cbn [last unlink] in *.
  - cbn in IH |- *. split; [done|]. procs. eapply chain_ext; [|exact IH].
    intros x Hx. assert (x <> q) by set_solver. by procs.
  - destruct (last (r :: l1)) as [y|] eqn:El; cbn [unlink] in *.
    + split; [done|]. apply last_Some in El as [l' El]. assert (q <> y) by (rewrite El in Hq; set_solver).
      by procs.
    + by apply last_None in El.
Qed.

Lemma interrupt_loop_miss fuel p l1 l2 s :
  chain (procs s) (l_head (lk s)) (l1 ++ l2) -> (length l2 < fuel)%nat -> p ∉ l2 ->
  interrupt_loop fuel p (last l1) (head l2) s = (Ok false, s).
Proof.
  revert l1 l2. induction fuel as [|fuel IH]; intros l1 l2 Hc Hl Hp; [lia|].
  destruct l2 as [|q l2]; [done|]. cbn [interrupt_loop head]. rewrite bind_gets. unfold id. cbv zeta.
  rewrite decide_False by set_solver. pose proof (chain_mid _ _ _ _ _ Hc) as Hc2.
  assert (p_qnext (procs s q) = head l2) as -> by (destruct l2; [done|by destruct Hc2]).
  specialize (IH (l1 ++ [q]) l2). rewrite last_snoc, <- app_assoc in IH.
  apply IH; [done|cbn in Hl; lia|set_solver].
Qed.

(** What the process taken out looks like, and that the others do not change. *)
Definition pulled_out (p : nat) (ps ps' : Procs) : Prop :=
  ps' p = mkProc Ready None false (p_notepending (ps p)) /\
  forall q, q <> p -> p_state (ps' q) = p_state (ps q) /\ p_eql (ps' q) = p_eql (ps q) /\
    p_notepending (ps' q) = p_notepending (ps q).

Lemma last_app_cons {A} (l : list A) x l' : last (l ++ x :: l') = last (x :: l').
Proof. rewrite last_app. destruct (last (x :: l')) eqn:E; [done|]. by apply last_None in E. Qed.

Lemma interrupt_loop_hit fuel p l1 m1 m2 s :
  queue (procs s) (l_head (lk s)) (l_tail (lk s)) (l1 ++ m1 ++ p :: m2) -> (length m1 < fuel)%nat ->
  exists s', interrupt_loop fuel p (last l1) (head (m1 ++ p :: m2)) s = (Ok true, s') /\
    queue (procs s') (l_head (lk s')) (l_tail (lk s')) (l1 ++ m1 ++ m2) /\
    l_locked (lk s') = l_locked (lk s) /\ pulled_out p (procs s) (procs s').
Proof.
  revert l1 m1. induction fuel as [|fuel IH]; intros l1 m1 Hq Hl; [lia|].
  destruct m1 as [|q m1].
  - cbn [app head interrupt_loop] in *. rewrite bind_gets. unfold id. cbv zeta. rewrite decide_True by done.
    destruct Hq as (Hn & Hc & Ht). pose proof (chain_unlink _ _ _ _ _ Hn Hc) as Hu.
    pose proof (chain_mid _ _ _ _ _ Hc) as Hm.
    assert (p ∉ l1 ++ m2) as Hp by (apply NoDup_app in Hn as (_ & Hd & Hn2); apply NoDup_cons in Hn2; set_solver).
    assert (NoDup (l1 ++ m2)) as Hn' by (apply NoDup_app in Hn as (? & Hd & Hn2); apply NoDup_cons in Hn2;
      apply NoDup_app; split_and!; [done|set_solver|tauto]).
    set (next := p_qnext (procs s p)) in *.
    assert (last (l1 ++ m2) = if decide (next = None) then last l1 else last (l1 ++ p :: m2)) as El.
    { destruct m2 as [|r m2]; cbn in Hm.
      - rewrite Hm, decide_True, app_nil_r by done. done.
      - destruct Hm as [Hm _]. rewrite Hm, decide_False by done. by rewrite !last_app_cons. }
    destruct s as [[h t lo] ps]. cbn [lk procs l_head l_tail l_locked] in *. subst t.
    exists (mkQS (mkQLock (fst (unlink (last l1) next h ps)) (last (l1 ++ m2)) lo)
      (set_pstate p Ready (set_eql p false (set_qnext p None (snd (unlink (last l1) next h ps)))))).
    assert (forall y, last l1 = Some y -> y <> p) as Hy.
    { intros y Hy ->. apply last_Some in Hy as [l' ->]. set_solver. }
    split.
    { rewrite El. destruct (last l1) as [y|]; cbn [unlink fst snd]; destruct (decide (next = None)); reflexivity. }
    cbn [lk procs l_head l_tail l_locked]. unfold queue, pulled_out. split_and!; [done| |done|done| |].
    + destruct (unlink (last l1) next h ps) as [h' ps']. cbn [fst snd]. eapply chain_ext; [|exact Hu].
      intros x Hx. assert (x <> p) by set_solver. by procs.
    + specialize (Hy (default p (last l1))). destruct (last l1) as [y|]; cbn [unlink fst snd]; procs; [|done].
      assert (p <> y) by (intros ->; by apply Hy). by procs.
    + intros q Hqp. destruct (last l1) as [y|]; cbn [unlink fst snd]; procs; [|done].
      destruct (decide (q = y)) as [->|]; by procs.
  - cbn [app head interrupt_loop] in *. rewrite bind_gets. unfold id. cbv zeta.
    pose proof Hq as (Hn & Hc & _). pose proof (chain_mid _ _ _ _ _ Hc) as Hm.
    assert (q <> p) as Hqp by (apply NoDup_app in Hn as (_ & _ & Hn); apply NoDup_cons in Hn; set_solver).
    rewrite decide_False by done.
    assert (p_qnext (procs s q) = head (m1 ++ p :: m2)) as -> by (destruct m1; by destruct Hm).
    specialize (IH (l1 ++ [q]) m1). rewrite last_snoc, <- !app_assoc in IH. apply IH; [done|cbn in Hl; lia].
Qed.
