(* ===== verification/QlockProps.v ===== *)
(** * Mutual exclusion and handing over of [QLock]

    The processes that use one lock as a transition system, refined to its
    owner and the list of those that wait. *)
From S2P Require Import Prelude CMonad Qlock QlockThms.
From stdpp Require Import list sets relations.
Local Open Scope Z_scope.

(** ** The system *)

Inductive Phase : Type := Out | Holding | WaitQ | WaitE.
Record Sys : Type := mkSys { sq : QS; ph : nat -> Phase }.

(** Where a process is after a call of [qlock], [eqlock] or [canqlock]. *)
Definition after_lock (wait : Phase) (r : Res ()) : Phase :=
  match r with
  | Ok _ => Holding
  | Ret v => if v =? Sched then wait else Out
  | Ub => Out
  end.

Section sys.
Variable nproc : nat.

Inductive qstep : Sys -> Sys -> Prop :=
| q_lock p q f r q' :
    (p < nproc)%nat -> f p = Out -> qlock (Some p) q = (r, q') -> r <> Ub ->
    qstep (mkSys q f) (mkSys q' (<[p := after_lock WaitQ r]> f))
| q_elock p q f r q' :
    (p < nproc)%nat -> f p = Out -> eqlock (Some p) q = (r, q') -> r <> Ub ->
    qstep (mkSys q f) (mkSys q' (<[p := after_lock WaitE r]> f))
| q_can use p q f r q' :
    f p = Out -> canqlock use q = (Ok r, q') ->
    qstep (mkSys q f) (mkSys q' (<[p := if r =? 1 then Holding else Out]> f))
| q_unlock p q f q' :
    f p = Holding -> qunlock q = (Ok tt, q') ->
    qstep (mkSys q f) (mkSys q' (<[p := Out]> f))
| q_wake p q f :
    f p = WaitQ -> p_state (procs q p) = Ready ->
    qstep (mkSys q f) (mkSys (mkQS (lk q) (set_pstate p Running (procs q))) (<[p := Holding]> f))
| q_ewake p q f r q' :
    f p = WaitE -> p_state (procs q p) = Ready ->
    eqlock_resume p (mkQS (lk q) (set_pstate p Running (procs q))) = (r, q') -> r <> Ub ->
    qstep (mkSys q f) (mkSys q' (<[p := after_lock Out r]> f))
| q_note p q f r q' :
    interrupt_finalize nproc p (mkQS (lk q) (set_notepending p true (procs q))) = (Ok r, q') ->
    qstep (mkSys q f) (mkSys q' f)
| q_other p st q f :
    f p = Out \/ f p = Holding -> st <> Queueing ->
    qstep (mkSys q f) (mkSys (mkQS (lk q) (set_pstate p st (procs q))) f).

(** ** Its abstraction: the owner and those that wait, in order *)

Record Abs : Type := mkAbs { owner : option nat; waiters : list nat }.

Inductive astep : Abs -> Abs -> Prop :=
| a_take p : astep (mkAbs None []) (mkAbs (Some p) [])
| a_wait o p w : p <> o -> p ∉ w -> astep (mkAbs (Some o) w) (mkAbs (Some o) (w ++ [p]))
| a_pass o p w : astep (mkAbs (Some o) (p :: w)) (mkAbs (Some p) w)
| a_free o : astep (mkAbs (Some o) []) (mkAbs None [])
| a_drop o w p w' : astep (mkAbs (Some o) (w ++ p :: w')) (mkAbs (Some o) (w ++ w')).

(** What a process's phase and fields are when it is in the list, and when not. *)
Definition in_list (f : Phase) (p : Proc) : Prop :=
  p_state p = Queueing /\ (f = WaitQ /\ p_eql p = false \/ f = WaitE /\ p_eql p = true).
(** Whether it is the owner. *)
Definition off_list (own : Prop) (f : Phase) (p : Proc) : Prop :=
  match f with
  | Out => p_state p <> Queueing /\ p_eql p = false /\ ~ own
  | Holding => p_state p <> Queueing /\ p_eql p = false /\ own
  | WaitQ => p_state p = Ready /\ p_eql p = false /\ own
  | WaitE => p_state p = Ready /\ (p_eql p = true <-> own)
  end.
Definition rel (s : Sys) (a : Abs) : Prop :=
  queue (procs (sq s)) (l_head (lk (sq s))) (l_tail (lk (sq s))) (waiters a) /\
  l_locked (lk (sq s)) = bool_decide (owner a <> None) /\
  (owner a = None -> waiters a = []) /\
  Forall (fun p => (p < nproc)%nat) (waiters a) /\
  (forall p, p ∈ waiters a -> owner a <> Some p /\ in_list (ph s p) (procs (sq s) p)) /\
  (forall p, p ∉ waiters a -> off_list (owner a = Some p) (ph s p) (procs (sq s) p)).

(** ** The routines on the list *)

Definition same_fields (ps ps' : Procs) (p : nat) : Prop :=
  p_state (ps' p) = p_state (ps p) /\ p_eql (ps' p) = p_eql (ps p) /\
  p_notepending (ps' p) = p_notepending (ps p).

Lemma queue_up_spec up eql s l :
  queue (procs s) (l_head (lk s)) (l_tail (lk s)) l -> up ∉ l ->
  exists s', queue_up up eql s = (Ok tt, s') /\
    queue (procs s') (l_head (lk s')) (l_tail (lk s')) (l ++ [up]) /\ l_locked (lk s') = l_locked (lk s) /\
    p_state (procs s' up) = Queueing /\ p_eql (procs s' up) = eql /\
    (forall p, p <> up -> same_fields (procs s) (procs s') p).
Proof.
  intros Hq Hu. destruct (enqueue_queue _ _ _ _ _ Hq Hu) as (h' & ps' & E & Hq' & Hs).
  unfold queue_up. rewrite bind_gets. unfold id. rewrite E.
  unfold setlk, setps. rewrite !bind_modify. eexists. split; [reflexivity|]. cbn [lk procs l_head l_tail l_locked].
  split_and!; [|done|by procs|by procs|].
  - eapply queue_ext; [|exact Hq']. intros p _. destruct (decide (p = up)) as [->|]; by procs.
  - intros p Hp. unfold same_fields. procs. apply Hs.
Qed.

Lemma qunlock_spec s l :
  queue (procs s) (l_head (lk s)) (l_tail (lk s)) l ->
  exists s', qunlock s = (Ok tt, s') /\
    match l with
    | [] => s' = mkQS (set_locked false (lk s)) (procs s)
    | p :: l =>
        queue (procs s') (l_head (lk s')) (l_tail (lk s')) l /\ l_locked (lk s') = l_locked (lk s) /\
        procs s' = set_pstate p Ready (procs s)
    end.
Proof.
  intros Hq. unfold qunlock. rewrite bind_gets. unfold id. destruct l as [|p l].
  - destruct Hq as (_ & Hh & _). cbn in Hh. rewrite Hh. by eexists.
  - destruct (dequeue_queue _ _ _ _ _ Hq) as [Hh Hq']. rewrite Hh.
    destruct (dequeue p (l_tail (lk s)) (procs s)) as [h t]. cbn [fst snd] in Hq'.
    unfold setlk, setps. rewrite bind_modify. eexists. split; [reflexivity|]. cbn [lk procs l_head l_tail l_locked].
    split_and!; [|done|done]. eapply queue_ext; [|exact Hq']. intros q _. destruct (decide (q = p)) as [->|]; by procs.
Qed.

Lemma nproc_bound l : NoDup l -> Forall (fun p => (p < nproc)%nat) l -> (length l <= nproc)%nat.
Proof.
  intros Hn Hf. rewrite <- (length_seq nproc 0). apply submseteq_length, NoDup_submseteq; [done|].
  intros p Hp. rewrite Forall_forall in Hf. apply elem_of_seq. specialize (Hf _ Hp). lia.
Qed.

(** ** The steps simulate *)

Lemma rel_waiting s a p : rel s a -> p ∈ waiters a -> in_list (ph s p) (procs (sq s) p).
Proof using. intros (_ & _ & _ & _ & Hi & _) Hp. by apply Hi. Qed.
(** A process out of the lock, or holding it, is not in the list. *)
Lemma rel_off s a p : rel s a -> ph s p = Out \/ ph s p = Holding -> p ∉ waiters a.
Proof using.
  intros (_ & _ & _ & _ & Hi & _) Hp Hin. destruct (Hi _ Hin) as (_ & _ & [[E _]|[E _]]); rewrite E in Hp;
    by destruct Hp.
Qed.

(** A step that moves one process and neither the list nor the owner. *)
Lemma rel_local q f q' f' p own w :
  rel (mkSys q f) (mkAbs own w) -> p ∉ w ->
  lk q' = lk q -> (forall r, p_qnext (procs q' r) = p_qnext (procs q r)) ->
  (forall r, r <> p -> f' r = f r /\ same_fields (procs q) (procs q') r) ->
  off_list (own = Some p) (f' p) (procs q' p) ->
  rel (mkSys q' f') (mkAbs own w).
Proof using.
  intros (Hq & Hl & Ho & Hf & Hi & Hn) Hp E Eq Es Hx. unfold rel in *. cbn [sq ph owner waiters] in *.
  rewrite E. split_and!; try done.
  - eapply queue_ext; [|exact Hq]. intros r _. apply Eq.
  - intros r Hr. assert (r <> p) as Hrp by congruence. destruct (Hi r Hr) as [? Hin]. split; [done|].
    destruct (Es r Hrp) as (-> & S1 & S2 & S3). unfold in_list in *. by rewrite S1, S2.
  - intros r Hr. destruct (decide (r = p)) as [->|Hrp]; [done|]. specialize (Hn r Hr).
    destruct (Es r Hrp) as (-> & S1 & S2 & S3). unfold off_list in *. by rewrite S1, S2.
Qed.
Lemma rel_note q f a p b :
  rel (mkSys q f) a -> rel (mkSys (mkQS (lk q) (set_notepending p b (procs q))) f) a.
Proof using.
  intros (Hq & Hl & Ho & Hf & Hi & Hn). unfold rel in *. cbn [sq ph owner waiters lk procs] in *.
  assert (forall r, p_qnext (set_notepending p b (procs q) r) = p_qnext (procs q r) /\
    p_state (set_notepending p b (procs q) r) = p_state (procs q r) /\
    p_eql (set_notepending p b (procs q) r) = p_eql (procs q r)) as Es
    by (intros r; destruct (decide (r = p)) as [->|]; by procs).
  split_and!; try done.
  - eapply queue_ext; [|exact Hq]. intros r _. apply Es.
  - intros r Hr. destruct (Es r) as (_ & S1 & S2). unfold in_list in *. rewrite S1, S2. by apply Hi.
  - intros r Hr. destruct (Es r) as (_ & S1 & S2). specialize (Hn r Hr). unfold off_list in *. by rewrite S1, S2.
Qed.

(** Taking a free lock. *)
Lemma rel_take q f p :
  rel (mkSys q f) (mkAbs None []) -> f p = Out ->
  rel (mkSys (mkQS (set_locked true (lk q)) (procs q)) (<[p := Holding]> f)) (mkAbs (Some p) []).
Proof using.
  intros (Hq & Hl & Ho & Hf & Hi & Hn) Hp. unfold rel in *. cbn [sq ph owner waiters lk procs set_locked l_head l_tail l_locked] in *.
  split_and!; try done; [intros r Hr; by apply not_elem_of_nil in Hr|].
  intros r _. pose proof (Hn r ltac:(apply not_elem_of_nil)) as Hr. destruct (decide (r = p)) as [->|Hrp].
  - rewrite fn_lookup_insert. rewrite Hp in Hr. cbn in *. tauto.
  - rewrite fn_lookup_insert_ne by done. destruct (f r); cbn in *; intuition congruence.
Qed.

(** Joining the queue. *)
Lemma rel_wait q f p b x o w :
  rel (mkSys q f) (mkAbs (Some o) w) -> f p = Out -> (p < nproc)%nat ->
  (x = WaitQ /\ b = false \/ x = WaitE /\ b = true) ->
  exists q', queue_up p b q = (Ok tt, q') /\ p <> o /\ (p ∉ w) /\
    rel (mkSys q' (<[p := x]> f)) (mkAbs (Some o) (w ++ [p])).
Proof using.
  intros Hrel Hp Hnp Hx. pose proof (rel_off _ _ p Hrel ltac:(by left)) as Hw. cbn in Hw.
  destruct Hrel as (Hq & Hl & Ho & Hf & Hi & Hn). unfold rel in *. cbn [sq ph owner waiters] in *.
  destruct (queue_up_spec p b q w Hq Hw) as (q' & E & Hq' & El & Est & Eb & Es). exists q'. split; [done|].
  pose proof (Hn p Hw) as Hpo. rewrite Hp in Hpo. destruct Hpo as (_ & _ & Hpo).
  assert (p <> o) as Hne by congruence.
  split_and!; try done; [by rewrite El|by rewrite Forall_app, Forall_singleton| |].
  - intros r Hr. assert (r ∈ w \/ r = p) as [Hr'|Hr'] by set_solver; clear Hr; rename Hr' into Hr.
    + assert (r <> p) as Hrp by congruence. destruct (Hi r Hr) as [? Hin]. split; [done|].
      rewrite fn_lookup_insert_ne by done. destruct (Es r Hrp) as (S1 & S2 & S3). unfold in_list in *. by rewrite S1, S2.
    + subst r. split; [congruence|]. rewrite fn_lookup_insert. unfold in_list. rewrite Est, Eb. tauto.
  - intros r Hr. assert (r ∉ w /\ r <> p) as [Hrw Hrp] by set_solver.
    rewrite fn_lookup_insert_ne by done. specialize (Hn r Hrw). destruct (Es r Hrp) as (S1 & S2 & S3).
    unfold off_list in *. by rewrite S1, S2.
Qed.

(** Handing the lock to the first in the queue, and giving it up. *)
Lemma rel_pass q f o p w :
  rel (mkSys q f) (mkAbs (Some o) (p :: w)) -> f o = Holding ->
  exists q', qunlock q = (Ok tt, q') /\ rel (mkSys q' (<[o := Out]> f)) (mkAbs (Some p) w).
Proof using.
  intros Hrel Ho. pose proof (rel_off _ _ o Hrel ltac:(by right)) as Hw. cbn in Hw.
  destruct Hrel as (Hq & Hl & _ & Hf & Hi & Hn). cbn [sq ph owner waiters] in *.
  destruct (qunlock_spec q _ Hq) as (q' & E & Hq' & El & Ep). exists q'. split; [done|].
  pose proof Hq as (Hnd & _). apply NoDup_cons in Hnd as [Hpw _]. inversion Hf as [|? ? _ Hf']. subst.
  assert (o <> p) as Hop by (intros ->; apply Hw; by left).
  unfold rel. cbn [sq ph owner waiters]. rewrite Ep. split_and!; try done; [by rewrite <- Ep|by rewrite El| |].
  - intros r Hr. assert (r <> p /\ r <> o) as [Hrp Hro] by (split; intros ->; [done|by apply Hw; right]).
    split; [congruence|]. rewrite fn_lookup_insert_ne by done. procs. apply Hi. by right.
  - intros r Hr. destruct (decide (r = p)) as [->|Hrp].
    + rewrite fn_lookup_insert_ne by done. destruct (Hi p ltac:(by left)) as [_ (_ & Hph)].
      destruct Hph as [[-> Eb]|[-> Eb]]; unfold off_list; procs; by rewrite Eb.
    + assert (r ∉ p :: w) as Hrw by (rewrite elem_of_cons; tauto). specialize (Hn r Hrw).
      destruct (decide (r = o)) as [->|Hro].
      * rewrite fn_lookup_insert. rewrite Ho in Hn. unfold off_list in *. procs. destruct Hn as (? & ? & _).
        split_and!; [done|done|congruence].
      * rewrite fn_lookup_insert_ne by done. unfold off_list in *. procs.
        destruct (f r); intuition congruence.
Qed.
Lemma rel_free q f o :
  rel (mkSys q f) (mkAbs (Some o) []) -> f o = Holding ->
  exists q', qunlock q = (Ok tt, q') /\ rel (mkSys q' (<[o := Out]> f)) (mkAbs None []).
Proof using.
  intros (Hq & Hl & _ & Hf & Hi & Hn) Ho. cbn [sq ph owner waiters] in *.
  destruct (qunlock_spec q _ Hq) as (q' & E & ->). eexists. split; [exact E|].
  unfold rel. cbn [sq ph owner waiters lk procs set_locked l_head l_tail l_locked].
  split_and!; try done; [intros r Hr; by apply not_elem_of_nil in Hr|].
  intros r _. pose proof (Hn r ltac:(apply not_elem_of_nil)) as Hr. destruct (decide (r = o)) as [->|Hro].
  - rewrite fn_lookup_insert. rewrite Ho in Hr. unfold off_list in *. destruct Hr as (? & ? & _). by split_and!.
  - rewrite fn_lookup_insert_ne by done. unfold off_list in *. destruct (f r); intuition congruence.
Qed.

(** A note to a process in an [eqlock]. *)
Lemma rel_drop q f o w1 p w2 :
  rel (mkSys q f) (mkAbs (Some o) (w1 ++ p :: w2)) -> p_eql (procs q p) = true ->
  exists q', interrupt_finalize nproc p q = (Ok true, q') /\ rel (mkSys q' f) (mkAbs (Some o) (w1 ++ w2)).
Proof using.
  intros (Hq & Hl & _ & Hf & Hi & Hn) He. cbn [sq ph owner waiters] in *.
  pose proof Hq as (Hnd & Hc & _). pose proof (nproc_bound _ Hnd Hf) as Hb.
  assert (p ∈ w1 ++ p :: w2) as Hin by (rewrite elem_of_app, elem_of_cons; tauto).
  destruct (Hi p Hin) as [Hop [Hst Hph]].
  destruct (interrupt_loop_hit (S nproc) p [] w1 w2 q Hq) as (q' & E & Hq' & El & Ep & Es).
  { rewrite length_app in Hb. cbn in Hb. lia. }
  cbn [app last] in *. exists q'. split.
  { unfold interrupt_finalize. rewrite bind_gets. unfold id. rewrite decide_True, He by done. rewrite <- E. f_equal.
    by destruct w1; destruct Hc. }
  unfold rel. cbn [sq ph owner waiters]. apply Forall_app in Hf as [Hf1 Hf2]. inversion Hf2. subst.
  assert (p ∉ w1 ++ w2) as Hp by (apply NoDup_app in Hnd as (_ & Hd & Hn2); apply NoDup_cons in Hn2 as [? _];
    rewrite elem_of_app; intros [?|?]; [eapply Hd; [done|by left]|done]).
  split_and!; try done; [by rewrite El|by apply Forall_app| |].
  - intros r Hr. assert (r <> p) as Hrp by congruence. destruct (Es r Hrp) as (S1 & S2 & S3).
    destruct (Hi r) as [? Hir]; [rewrite elem_of_app, elem_of_cons in *; tauto|]. unfold in_list in *. by rewrite S1, S2.
  - intros r Hr. destruct (decide (r = p)) as [->|Hrp].
    + destruct Hph as [[_ Eb]|[-> Eb]]; [congruence|]. rewrite Ep. unfold off_list. cbn. split; [done|].
      split; [done|congruence].
    + destruct (Es r Hrp) as (S1 & S2 & S3). specialize (Hn r).
      unfold off_list in *. rewrite S1, S2. apply Hn. rewrite elem_of_app, elem_of_cons in *. tauto.
Qed.

Lemma same_fields_refl ps p : same_fields ps ps p.
Proof using. by split. Qed.

(** The owner of a locked lock, from the flag. *)
Lemma rel_locked q f own w : rel (mkSys q f) (mkAbs own w) -> l_locked (lk q) = false -> own = None /\ w = [].
Proof using.
  intros (_ & Hl & Ho & _) E. cbn in *. rewrite E in Hl. destruct own; [done|]. by split; [|apply Ho].
Qed.
Lemma rel_owner q f own w : rel (mkSys q f) (mkAbs own w) -> l_locked (lk q) = true -> exists o, own = Some o.
Proof using. intros (_ & Hl & _) E. cbn in *. rewrite E in Hl. destruct own; [by eexists|done]. Qed.
(** Who holds the lock owns it. *)
Lemma rel_holding q f own w p : rel (mkSys q f) (mkAbs own w) -> f p = Holding -> own = Some p.
Proof using.
  intros Hr Hp. pose proof (rel_off _ _ p Hr ltac:(by right)) as Hw. destruct Hr as (_ & _ & _ & _ & _ & Hn).
  cbn in *. specialize (Hn p Hw). rewrite Hp in Hn. by destruct Hn as (_ & _ & ?).
Qed.

Definition simulated (a : Abs) (s' : Sys) : Prop := exists a', (a' = a \/ astep a a') /\ rel s' a'.

Lemma sim_lock q f own w p r q' :
  rel (mkSys q f) (mkAbs own w) -> (p < nproc)%nat -> f p = Out -> qlock (Some p) q = (r, q') ->
  simulated (mkAbs own w) (mkSys q' (<[p := after_lock WaitQ r]> f)).
Proof using.
  intros Hr Hp Ho. unfold qlock. rewrite bind_gets. unfold id. destruct (l_locked (lk q)) eqn:El; cbn [negb].
  - destruct (rel_owner _ _ _ _ Hr El) as [o ->].
    destruct (rel_wait q f p false WaitQ o w Hr Ho Hp ltac:(tauto)) as (q1 & E & Hpo & Hw & Hr').
    rewrite (bind_ok _ _ _ _ _ E). intros [= <- <-]. exists (mkAbs (Some o) (w ++ [p])).
    split; [right; by constructor|done].
  - destruct (rel_locked _ _ _ _ Hr El) as [-> ->]. intros [= <- <-]. exists (mkAbs (Some p) []).
    split; [right; constructor|]. by apply rel_take.
Qed.

Lemma sim_stay q f own w p q' x :
  rel (mkSys q f) (mkAbs own w) -> f p = Out -> lk q' = lk q ->
  (forall r, p_qnext (procs q' r) = p_qnext (procs q r)) -> (forall r, same_fields (procs q) (procs q') r) ->
  x = Out -> simulated (mkAbs own w) (mkSys q' (<[p := x]> f)).
Proof using.
  intros Hr Ho E Eq Es ->. exists (mkAbs own w). split; [by left|].
  pose proof (rel_off _ _ p Hr ltac:(by left)) as Hw. cbn in Hw.
  apply (rel_local q f q' _ p); try done.
  - intros r Hrp. by rewrite fn_lookup_insert_ne.
  - rewrite fn_lookup_insert. destruct Hr as (_ & _ & _ & _ & _ & Hn). cbn in Hn. specialize (Hn p Hw).
    rewrite Ho in Hn. destruct (Es p) as (S1 & S2 & _). unfold off_list in *. by rewrite S1, S2.
Qed.

Lemma sim_elock q f own w p r q' :
  rel (mkSys q f) (mkAbs own w) -> (p < nproc)%nat -> f p = Out -> eqlock (Some p) q = (r, q') ->
  simulated (mkAbs own w) (mkSys q' (<[p := after_lock WaitE r]> f)).
Proof using.
  intros Hr Hp Ho. unfold eqlock. rewrite bind_gets. unfold id. destruct (l_locked (lk q)) eqn:El; cbn [negb].
  - destruct (rel_owner _ _ _ _ Hr El) as [o ->]. destruct (p_notepending (procs q p)) eqn:En.
    + unfold setps. rewrite bind_modify. intros [= <- <-].
      exists (mkAbs (Some o) w). split; [by left|]. cbn [after_lock]. change (Interrupted =? Sched) with false. cbv iota.
      apply (rel_note _ _ _ p false) in Hr. pose proof (rel_off _ _ p Hr ltac:(by left)) as Hw. cbn in Hw.
      eapply rel_local; [exact Hr|exact Hw|done|done| |].
      * intros r Hrp. split; [by rewrite fn_lookup_insert_ne|apply same_fields_refl].
      * rewrite fn_lookup_insert. destruct Hr as (_ & _ & _ & _ & _ & Hn). cbn in Hn. specialize (Hn p Hw).
        by rewrite Ho in Hn.
    + destruct (rel_wait q f p true WaitE o w Hr Ho Hp ltac:(tauto)) as (q1 & E & Hpo & Hw & Hr').
      rewrite (bind_ok _ _ _ _ _ E). intros [= <- <-]. exists (mkAbs (Some o) (w ++ [p])).
      split; [right; by constructor|done].
  - destruct (rel_locked _ _ _ _ Hr El) as [-> ->]. intros [= <- <-]. exists (mkAbs (Some p) []).
    split; [right; constructor|]. by apply rel_take.
Qed.

Lemma sim_can use q f own w p r q' :
  rel (mkSys q f) (mkAbs own w) -> f p = Out -> canqlock use q = (Ok r, q') ->
  simulated (mkAbs own w) (mkSys q' (<[p := if r =? 1 then Holding else Out]> f)).
Proof using.
  intros Hr Ho. unfold canqlock. rewrite bind_gets. unfold id. destruct use; cbn [negb].
  - destruct (l_locked (lk q)) eqn:El.
    + intros [= <- <-]. by apply (sim_stay q).
    + destruct (rel_locked _ _ _ _ Hr El) as [-> ->]. unfold setlk. rewrite bind_modify. intros [= <- <-].
      exists (mkAbs (Some p) []). split; [right; constructor|]. by apply rel_take.
  - intros [= <- <-]. by apply (sim_stay q).
Qed.

(** A waiting process that was made ready runs again. *)
Lemma sim_wake q f own w p :
  rel (mkSys q f) (mkAbs own w) -> f p = WaitQ -> p_state (procs q p) = Ready ->
  simulated (mkAbs own w) (mkSys (mkQS (lk q) (set_pstate p Running (procs q))) (<[p := Holding]> f)).
Proof using.
  intros Hr Hf Hs. exists (mkAbs own w). split; [by left|].
  assert (p ∉ w) as Hw.
  { intros Hw. pose proof (rel_waiting _ _ _ Hr Hw) as [E _]. cbn in E. congruence. }
  eapply rel_local; [exact Hr|exact Hw|done| | |].
  - intros r. cbn. destruct (decide (r = p)) as [->|]; by procs.
  - intros r Hrp. split; [by rewrite fn_lookup_insert_ne|]. unfold same_fields. cbn. by procs.
  - rewrite fn_lookup_insert. destruct Hr as (_ & _ & _ & _ & _ & Hn). cbn in Hn |- *. specialize (Hn p Hw).
    rewrite Hf in Hn. destruct Hn as (_ & ? & ?). procs. by split_and!.
Qed.
Lemma sim_ewake q f own w p r q' :
  rel (mkSys q f) (mkAbs own w) -> f p = WaitE -> p_state (procs q p) = Ready ->
  eqlock_resume p (mkQS (lk q) (set_pstate p Running (procs q))) = (r, q') ->
  simulated (mkAbs own w) (mkSys q' (<[p := after_lock Out r]> f)).
Proof using.
  intros Hr Hf Hs E. exists (mkAbs own w). split; [by left|].
  assert (p ∉ w) as Hw.
  { intros Hw. pose proof (rel_waiting _ _ _ Hr Hw) as [E' _]. cbn in E'. congruence. }
  pose proof Hr as (_ & _ & _ & _ & _ & Hn). cbn in Hn. specialize (Hn p Hw). rewrite Hf in Hn. destruct Hn as (_ & Hn).
  unfold eqlock_resume in E. rewrite bind_gets in E. unfold id in E. cbn [procs] in E.
  assert (p_eql (set_pstate p Running (procs q) p) = p_eql (procs q p)) as Ee by (by procs). rewrite Ee in E.
  destruct (p_eql (procs q p)) eqn:Eq; cbn [negb] in E.
  - injection E as <- <-. eapply rel_local; [exact Hr|exact Hw|done| | |].
    + intros r. cbn. destruct (decide (r = p)) as [->|]; by procs.
    + intros r Hrp. split; [by rewrite fn_lookup_insert_ne|]. unfold same_fields. cbn. by procs.
    + rewrite fn_lookup_insert. cbn. procs. split_and!; [done|done|by apply Hn].
  - unfold setps in E. rewrite bind_modify in E. injection E as <- <-.
    eapply rel_local; [exact Hr|exact Hw|done| | |].
    + intros r. cbn. destruct (decide (r = p)) as [->|]; by procs.
    + intros r Hrp. split; [by rewrite fn_lookup_insert_ne|]. unfold same_fields. cbn. by procs.
    + rewrite fn_lookup_insert. cbn. procs. split_and!; [done|done|]. intros Ho. by apply Hn in Ho.
Qed.

(** A note: the routine returns, whatever the process is doing. *)
Lemma sim_interrupt q f own w p :
  rel (mkSys q f) (mkAbs own w) ->
  exists b q', interrupt_finalize nproc p q = (Ok b, q') /\ simulated (mkAbs own w) (mkSys q' f).
Proof using.
  intros Hr. destruct (decide (p ∈ w)) as [Hin|Hout].
  - pose proof (rel_waiting _ _ _ Hr Hin) as [Hst Hph]. cbn in *. destruct (p_eql (procs q p)) eqn:Ee.
    + apply list_elem_of_split in Hin as (w1 & w2 & ->).
      destruct own as [o|]; [|destruct Hr as (_ & _ & Ho & _); specialize (Ho eq_refl); by destruct w1].
      destruct (rel_drop _ _ _ _ _ _ Hr Ee) as (q' & E & Hr'). exists true, q'. split; [done|].
      eexists. split; [right; constructor|done].
    + exists false, q. unfold interrupt_finalize. rewrite bind_gets. unfold id. rewrite decide_True, Ee by done.
      split; [done|]. exists (mkAbs own w). split; [by left|done].
  - exists true, q. unfold interrupt_finalize. rewrite bind_gets. unfold id. rewrite decide_False.
    + split; [done|]. exists (mkAbs own w). split; [by left|done].
    + destruct Hr as (_ & _ & _ & _ & _ & Hn). cbn in Hn. specialize (Hn p Hout). unfold off_list in Hn.
      destruct (f p); [tauto|tauto|..]; destruct Hn as [-> _]; done.
Qed.

Lemma sim_step s s' a : qstep s s' -> rel s a -> simulated a s'.
Proof using.
  intros Hs Hr. destruct a as [own w].
  destruct Hs as [p q f r q' Hp Ho E _|p q f r q' Hp Ho E _|p use q f r q' Ho E|p q f q' Ho E|p q f Hf Hst
    |p q f r q' Hf Hst E _|p q f r q' E|p st q f Hf Hst].
  - by eapply sim_lock.
  - by eapply sim_elock.
  - by eapply sim_can.
  - pose proof (rel_holding _ _ _ _ _ Hr Ho) as ->. destruct w as [|n w].
    + destruct (rel_free _ _ _ Hr Ho) as (q1 & E1 & Hr'). rewrite E in E1. injection E1 as <-.
      eexists. split; [right; constructor|done].
    + destruct (rel_pass _ _ _ _ _ Hr Ho) as (q1 & E1 & Hr'). rewrite E in E1. injection E1 as <-.
      eexists. split; [right; constructor|done].
  - by apply sim_wake.
  - by eapply sim_ewake.
  - apply (rel_note _ _ _ p true) in Hr. destruct (sim_interrupt _ _ _ _ p Hr) as (b & q1 & E1 & Hs).
    rewrite E in E1. injection E1 as <- <-. exact Hs.
  - exists (mkAbs own w). split; [by left|]. pose proof (rel_off _ _ p Hr Hf) as Hw. cbn in Hw.
    eapply rel_local; [exact Hr|exact Hw|done| | |].
    + intros r. cbn. destruct (decide (r = p)) as [->|]; by procs.
    + intros r Hrp. split; [done|]. unfold same_fields. cbn. by procs.
    + destruct Hr as (_ & _ & _ & _ & _ & Hn). cbn in Hn |- *. specialize (Hn p Hw).
      procs. destruct Hf as [Hf|Hf]; rewrite Hf in Hn |- *; destruct Hn as (_ & ? & ?); by split_and!.
Qed.

(** A lock nobody uses. *)
Definition idle (s : Sys) : Prop :=
  lk (sq s) = mkQLock None None false /\
  forall p, ph s p = Out /\ p_state (procs (sq s) p) <> Queueing /\ p_eql (procs (sq s) p) = false.

Lemma rel_idle s : idle s -> rel s (mkAbs None []).
Proof using.
  intros [E Hp]. unfold rel. rewrite E. cbn [owner waiters].
  split; [split_and!; [constructor|done|done]|]. split; [done|]. split; [done|]. split; [constructor|]. split.
  - intros p Hin. by apply not_elem_of_nil in Hin.
  - intros p _. destruct (Hp p) as (-> & ? & ?). by split_and!.
Qed.

Lemma sim_reach s0 s a0 : rtc qstep s0 s -> rel s0 a0 -> exists a, rtc astep a0 a /\ rel s a.
Proof using.
  intros Hs. revert a0. induction Hs as [s|s s1 s2 H1 _ IH]; intros a0 Hr; [exists a0; by split|].
  destruct (sim_step _ _ _ H1 Hr) as (a1 & Ha & Hr1). destruct (IH a1 Hr1) as (a & Has & Hra).
  exists a. split; [|done]. destruct Ha as [->|Ha]; [done|by eapply rtc_l].
Qed.

(** C15. Refinement: every run of processes that lock, try to lock, lock
    interruptibly, are woken, are sent notes and unlock is, through the
    pointers of the queue and the fields of the processes, a run of the
    abstract lock: an owner and a list of waiters, joined at the end, handed
    the lock from the front, left by the interrupted. *)
Theorem qlock_refines s0 s :
  rtc qstep s0 s -> idle s0 -> exists a, rtc astep (mkAbs None []) a /\ rel s a.
Proof using. intros Hs Hi. eapply sim_reach; [exact Hs|by apply rel_idle]. Qed.

(** C16. Mutual exclusion, and no waiter is forgotten: in every reachable
    state at most one process holds the lock; while a process waits in the
    queue some process owns the lock (it holds it, or has been handed it and
    is ready to run); a process that waits is either in the queue or ready;
    and a note can always be delivered, whatever the queue looks like, its
    search ending within the number of processes. *)
Theorem qlock_exclusion s0 s :
  rtc qstep s0 s -> idle s0 ->
  (forall p r, ph s p = Holding -> ph s r = Holding -> p = r) /\
  (forall p, p_state (procs (sq s) p) = Queueing ->
     l_locked (lk (sq s)) = true /\
     exists o, ph s o = Holding \/ (ph s o = WaitQ \/ ph s o = WaitE) /\ p_state (procs (sq s) o) = Ready) /\
  (forall p, ph s p = WaitQ \/ ph s p = WaitE ->
     p_state (procs (sq s) p) = Queueing \/ p_state (procs (sq s) p) = Ready) /\
  (forall p, exists b q', interrupt_finalize nproc p (sq s) = (Ok b, q')).
Proof using.
  intros Hs Hi. destruct (sim_reach _ _ _ Hs (rel_idle _ Hi)) as ([own w] & _ & Hr). destruct s as [q f]. split_and!.
  - intros p r Hp Hr'. pose proof (rel_holding _ _ _ _ _ Hr Hp) as E1. pose proof (rel_holding _ _ _ _ _ Hr Hr') as E2.
    congruence.
  - intros p Hp. cbn in Hp |- *. destruct (decide (p ∈ w)) as [Hin|Hout].
    + pose proof Hr as (_ & Hl & Ho & _ & Hi' & Hn). cbn in *. destruct own as [o|];
        [|rewrite Ho in Hin by done; by apply not_elem_of_nil in Hin].
      split; [done|]. exists o. assert (o ∉ w) as How by (intros Hx; destruct (Hi' o Hx); congruence).
      specialize (Hn o How). unfold off_list in Hn. destruct (f o); tauto.
    + exfalso. destruct Hr as (_ & _ & _ & _ & _ & Hn). cbn in Hn. specialize (Hn p Hout). unfold off_list in Hn.
      destruct (f p); destruct Hn as [? _]; congruence.
  - intros p Hp. cbn in *. destruct (decide (p ∈ w)) as [Hin|Hout].
    + left. by apply (rel_waiting _ _ _ Hr).
    + right. destruct Hr as (_ & _ & _ & _ & _ & Hn). cbn in Hn. specialize (Hn p Hout). unfold off_list in Hn.
      destruct Hp as [E|E]; rewrite E in Hn; tauto.
  - intros p. destruct (sim_interrupt _ _ _ _ p Hr) as (b & q' & E & _). by exists b, q'.
Qed.
End sys.

(** ** Witnesses *)

Definition proc0 : Proc := mkProc Running None false false.
Definition sys_idle : Sys := mkSys (mkQS (mkQLock None None false) (fun _ => proc0)) (fun _ => Out).
Lemma sys_idle_ok : idle sys_idle.
Proof. split; [reflexivity|]. intros p. split_and!; done. Qed.

(** Process 0 takes the lock, 1 queues interruptibly and 2 after it, a note
    pulls 1 out, 0 unlocks: 2 has the lock. *)
Definition q_one : QS := snd (qlock (Some 0%nat) (sq sys_idle)).
Definition q_two : QS := snd (eqlock (Some 1%nat) q_one).
Definition q_three : QS := snd (qlock (Some 2%nat) q_two).
Definition q_noted : QS :=
  snd (interrupt_finalize 3 1 (mkQS (lk q_three) (set_notepending 1 true (procs q_three)))).
Definition q_four : QS := snd (qunlock q_noted).
Definition ph_four : nat -> Phase :=
  <[0%nat := Out]> (<[2%nat := WaitQ]> (<[1%nat := WaitE]> (<[0%nat := Holding]> (fun _ => Out)))).
Lemma sys_four_reach : rtc (qstep 3) sys_idle (mkSys q_four ph_four).
Proof.
  eapply rtc_l; [apply (q_lock 3 0 _ _ (Ok tt) q_one); [lia|reflexivity|reflexivity|done]|].
  eapply rtc_l; [apply (q_elock 3 1 _ _ (Ret Sched) q_two); [lia|reflexivity|reflexivity|done]|].
  eapply rtc_l; [apply (q_lock 3 2 _ _ (Ret Sched) q_three); [lia|reflexivity|reflexivity|done]|].
  eapply rtc_l; [apply (q_note 3 1 _ _ true q_noted); reflexivity|].
  apply rtc_once. apply (q_unlock 3 0 q_noted); reflexivity.
Qed.

Lemma qlock_refines_witness :
  rtc (qstep 3) sys_idle (mkSys q_four ph_four) /\
  exists a, rtc astep (mkAbs None []) a /\ rel 3 (mkSys q_four ph_four) a /\ owner a = Some 2%nat.
Proof.
  split; [exact sys_four_reach|].
  destruct (qlock_refines 3 sys_idle _ sys_four_reach sys_idle_ok) as (a & Ha & Hr).
  exists a. split; [exact Ha|]. split; [exact Hr|]. destruct Hr as (_ & Hl & Ho & _ & Hi & Hn).
  assert (l_locked (lk q_four) = true) as El by reflexivity.
  assert (p_state (procs q_four 2%nat) = Ready) as Es by reflexivity.
  destruct (decide (2%nat ∈ waiters a)) as [Hin|Hout].
  - destruct (Hi _ Hin) as [_ [E _]]. cbn [sq] in E. rewrite Es in E. discriminate E.
  - exact (proj2 (proj2 (Hn _ Hout))).
Defined.

Lemma qlock_exclusion_witness :
  rtc (qstep 3) sys_idle (mkSys q_four ph_four) /\
  p_state (procs q_four 1%nat) = Ready /\ p_eql (procs q_four 1%nat) = false /\
  p_state (procs q_four 2%nat) = Ready /\
  exists b q', interrupt_finalize 3 2 q_four = (Ok b, q').
Proof.
  split; [exact sys_four_reach|]. split; [reflexivity|]. split; [reflexivity|]. split; [reflexivity|].
  exact (proj2 (proj2 (proj2 (qlock_exclusion 3 sys_idle _ sys_four_reach sys_idle_ok))) 2%nat).
Defined.
