(* ===== verification/RWlockProps.v ===== *)
(** * Readers and writers: [RWlock]

    The processes that use one [RWlock] as a transition system, and its
    invariant: who reads, who writes, and the queue of those that wait, each
    tagged with what it waits for. *)
From S2P Require Import Prelude CMonad Qlock QlockThms.
From stdpp Require Import list sets relations.
Local Open Scope Z_scope.

(** ** The system *)

Inductive RPhase : Type := ROut | Reading | Writing | WaitR | WaitW.
Record RSys : Type := mkRSys { rsq : RS; rph : nat -> RPhase }.

Definition after_rw (held wait : RPhase) (r : Res ()) : RPhase :=
  match r with Ok _ => held | Ret v => if v =? Sched then wait else ROut | Ub => ROut end.

Section rw.
Variable nproc : nat.

Inductive rstep : RSys -> RSys -> Prop :=
| r_rlock p q f r q' :
    (p < nproc)%nat -> f p = ROut -> rlock (Some p) q = (r, q') -> r <> Ub ->
    rstep (mkRSys q f) (mkRSys q' (<[p := after_rw Reading WaitR r]> f))
| r_wlock p q f r q' :
    (p < nproc)%nat -> f p = ROut -> wlock (Some p) q = (r, q') -> r <> Ub ->
    rstep (mkRSys q f) (mkRSys q' (<[p := after_rw Writing WaitW r]> f))
| r_canrlock p q f r q' :
    f p = ROut -> canrlock q = (Ok r, q') ->
    rstep (mkRSys q f) (mkRSys q' (<[p := if r =? 1 then Reading else ROut]> f))
| r_runlock p q f q' :
    f p = Reading -> runlock q = (Ok tt, q') ->
    rstep (mkRSys q f) (mkRSys q' (<[p := ROut]> f))
| r_wunlock p q f q' :
    f p = Writing -> wunlock nproc q = (Ok tt, q') ->
    rstep (mkRSys q f) (mkRSys q' (<[p := ROut]> f))
| r_wake p q f :
    f p = WaitR \/ f p = WaitW -> p_state (rprocs q p) = Ready ->
    rstep (mkRSys q f) (mkRSys (mkRS (rw q) (set_pstate p Running (rprocs q)))
      (<[p := match f p with WaitR => Reading | _ => Writing end]> f))
| r_other p st q f :
    f p = ROut \/ f p = Reading \/ f p = Writing -> st <> QueueingR -> st <> QueueingW ->
    rstep (mkRSys q f) (mkRSys (mkRS (rw q) (set_pstate p st (rprocs q))) f).

(** ** The invariant *)

(** The readers, the writer, and the queue ([true]: waits to write). *)
Record RAbs : Type := mkRAbs { rds : list nat; wr : option nat; wq : list (nat * bool) }.

Definition wants (b : bool) : ProcState := if b then QueueingW else QueueingR.
Definition rw_in (f : RPhase) (p : Proc) (b : bool) : Prop :=
  p_state p = wants b /\ f = (if b then WaitW else WaitR).
Definition rw_off (isr isw : Prop) (f : RPhase) (p : Proc) : Prop :=
  p_state p <> QueueingR /\ p_state p <> QueueingW /\
  match f with
  | ROut => ~ isr /\ ~ isw
  | Reading => isr /\ ~ isw
  | Writing => ~ isr /\ isw
  | WaitR => p_state p = Ready /\ isr /\ ~ isw
  | WaitW => p_state p = Ready /\ ~ isr /\ isw
  end.
(** Readers and a writer exclude each other; nobody waits for a free lock; and
    while there are readers the first in the queue is a writer. *)
Definition shape (a : RAbs) : Prop :=
  NoDup (rds a) /\ (wr a <> None -> rds a = []) /\
  (wr a = None -> match wq a with [] => True | (_, b) :: _ => rds a <> [] /\ b = true end).
Definition rwrel (s : RSys) (a : RAbs) : Prop :=
  queue (rprocs (rsq s)) (w_head (rw (rsq s))) (w_tail (rw (rsq s))) (wq a).*1 /\
  w_readers (rw (rsq s)) = zlen (rds a) /\
  w_writer (rw (rsq s)) = match wr a with Some _ => 1 | None => 0 end /\
  shape a /\
  Forall (fun p => (p < nproc)%nat) (wq a).*1 /\
  (forall p b, (p, b) ∈ wq a -> p ∉ rds a /\ wr a <> Some p /\ rw_in (rph s p) (rprocs (rsq s) p) b) /\
  (forall p, p ∉ (wq a).*1 -> rw_off (p ∈ rds a) (wr a = Some p) (rph s p) (rprocs (rsq s) p)).

(** ** The routines on the queue *)

Definition same_state (ps ps' : Procs) (p : nat) : Prop := p_state (ps' p) = p_state (ps p).

Lemma rw_queue_up_spec up st s l :
  queue (rprocs s) (w_head (rw s)) (w_tail (rw s)) l -> up ∉ l ->
  exists s', rw_queue_up up st s = (Ok tt, s') /\
    queue (rprocs s') (w_head (rw s')) (w_tail (rw s')) (l ++ [up]) /\
    w_readers (rw s') = w_readers (rw s) /\ w_writer (rw s') = w_writer (rw s) /\
    p_state (rprocs s' up) = st /\ (forall p, p <> up -> same_state (rprocs s) (rprocs s') p).
Proof.
  intros Hq Hu. destruct (enqueue_queue _ _ _ _ _ Hq Hu) as (h' & ps' & E & Hq' & Hs).
  unfold rw_queue_up. rewrite bind_gets. unfold id. rewrite E.
  unfold setrw, setrps. rewrite !bind_modify. eexists. split; [reflexivity|].
  cbn [rw rprocs w_head w_tail w_readers w_writer set_queue]. split_and!; [|done|done|by procs|].
  - eapply queue_ext; [|exact Hq']. intros p _. destruct (decide (p = up)) as [->|]; by procs.
  - intros p Hp. unfold same_state. procs. apply Hs.
Qed.

(** The loop of [wunlock] makes the leading readers ready. *)
Lemma wake_readers_spec fuel s l1 l2 :
  chain (rprocs s) (w_head (rw s)) (l1 ++ l2) -> NoDup (l1 ++ l2) -> (length l1 < fuel)%nat ->
  Forall (fun p => p_state (rprocs s p) = QueueingR) l1 ->
  match l2 with [] => True | p :: _ => p_state (rprocs s p) <> QueueingR end ->
  exists s', wake_readers fuel s = (Ok tt, s') /\
    chain (rprocs s') (w_head (rw s')) l2 /\ w_tail (rw s') = w_tail (rw s) /\
    w_readers (rw s') = w_readers (rw s) + zlen l1 /\ w_writer (rw s') = w_writer (rw s) /\
    (forall p, p_state (rprocs s' p) = if decide (p ∈ l1) then Ready else p_state (rprocs s p)).
Proof.
  revert s l1. induction fuel as [|fuel IH]; intros s l1 Hc Hn Hl Hr H2; [lia|].
  cbn [wake_readers]. rewrite bind_gets. unfold id. destruct l1 as [|p l1]; cbn [app] in *.
  - exists s. split_and!; try done.
    + destruct l2 as [|p l2]; [by rewrite Hc|]. destruct Hc as [-> Hc]. by rewrite decide_False.
    + change (zlen (@nil nat)) with 0. lia.
  - destruct Hc as [-> Hc]. inversion Hr as [|? ? Hp Hr']. subst. rewrite decide_True by done.
    apply NoDup_cons in Hn as [Hpl Hn]. unfold setrw, setrps. rewrite !bind_modify.
    destruct (IH (mkRS (mkRW (p_qnext (rprocs s p)) (w_tail (rw s)) (w_readers (rw s) + 1) (w_writer (rw s)))
      (set_pstate p Ready (rprocs s))) l1) as (s' & E & Hc' & Ht & Hrd & Hw & Hst);
      cbn [rw rprocs w_head w_tail w_readers w_writer] in *.
    + eapply chain_ext; [|exact Hc]. intros r Hr''. destruct (decide (r = p)) as [->|]; by procs.
    + done.
    + cbn in Hl. lia.
    + rewrite Forall_forall in Hr' |- *. intros r Hr''. assert (r <> p) by (rewrite elem_of_app in Hpl; intros ->; tauto).
      procs. by apply Hr'.
    + destruct l2 as [|r l2]; [done|].
      assert (r <> p) by (rewrite elem_of_app, elem_of_cons in Hpl; intros ->; tauto). by procs.
    + exists s'. split; [exact E|]. split_and!; try done; [rewrite Hrd, zlen_cons; lia|].
      intros r. rewrite Hst. destruct (decide (r = p)) as [->|Hrp].
      * rewrite (decide_True (P := p ∈ p :: l1)) by by left. destruct (decide (p ∈ l1)); [done|]. by procs.
      * destruct (decide (r ∈ l1)) as [Hin|Hin].
        -- rewrite decide_True; [done|by right].
        -- rewrite decide_False; [by procs|]. rewrite elem_of_cons. tauto.
Qed.

(** ** The steps keep the invariant *)

Lemma fst_in (l : list (nat * bool)) p : p ∈ l.*1 <-> exists b, (p, b) ∈ l.
Proof using.
  rewrite list_elem_of_fmap. split; [intros ([q b] & -> & H); by exists b|intros [b H]; by exists (p, b)].
Qed.
Lemma rw_out s a p : rwrel s a -> rph s p <> WaitR -> rph s p <> WaitW -> p ∉ (wq a).*1.
Proof using.
  intros (_ & _ & _ & _ & _ & Hi & _) H1 H2 [b Hin]%fst_in. destruct (Hi _ _ Hin) as (_ & _ & _ & E).
  by destruct b.
Qed.

Ltac rw_open H := destruct H as (Hq & Hrd & Hwr & Hsh & Hf & Hi & Hn); cbn [rsq rph rds wr wq] in *.
Ltac rw_goal := unfold rwrel; cbn [rsq rph rds wr wq rw rprocs set_readers set_writer set_queue w_head w_tail w_readers w_writer].

(** A step that moves one process and neither the queue nor the owners. *)
Lemma rw_local q f q' f' p a :
  rwrel (mkRSys q f) a -> p ∉ (wq a).*1 -> rw q' = rw q ->
  (forall r, p_qnext (rprocs q' r) = p_qnext (rprocs q r)) ->
  (forall r, r <> p -> f' r = f r /\ same_state (rprocs q) (rprocs q') r) ->
  rw_off (p ∈ rds a) (wr a = Some p) (f' p) (rprocs q' p) ->
  rwrel (mkRSys q' f') a.
Proof using.
  intros Hrel Hp E Eq Es Hx. rw_open Hrel. rw_goal. rewrite E. split_and!; try done.
  - eapply queue_ext; [|exact Hq]. intros r _. apply Eq.
  - intros r b Hr. assert (r <> p) as Hrp by (intros ->; apply Hp, fst_in; by exists b).
    destruct (Hi _ _ Hr) as (? & ? & Hin). destruct (Es r Hrp) as [-> S]. unfold rw_in, same_state in *. by rewrite S.
  - intros r Hr. destruct (decide (r = p)) as [->|Hrp]; [done|]. specialize (Hn r Hr).
    destruct (Es r Hrp) as [-> S]. unfold rw_off, same_state in *. by rewrite S.
Qed.

(** Joining the queue. *)
Lemma rw_wait q f p b a :
  rwrel (mkRSys q f) a -> f p = ROut -> (p < nproc)%nat ->
  (wr a = None -> match wq a with [] => rds a <> [] /\ b = true | _ => True end) ->
  exists q', rw_queue_up p (wants b) q = (Ok tt, q') /\
    rwrel (mkRSys q' (<[p := if b then WaitW else WaitR]> f)) (mkRAbs (rds a) (wr a) (wq a ++ [(p, b)])).
Proof using.
  intros Hrel Hp Hnp Hb. pose proof (rw_out _ _ p Hrel) as Hw. cbn in Hw. rewrite Hp in Hw.
  specialize (Hw ltac:(done) ltac:(done)). rw_open Hrel.
  destruct (rw_queue_up_spec p (wants b) q _ Hq Hw) as (q' & E & Hq' & E1 & E2 & Est & Es). exists q'. split; [done|].
  pose proof (Hn p Hw) as (_ & _ & Ho). rewrite Hp in Ho. destruct Ho as [Hor How].
  rw_goal. rewrite E1, E2, fmap_app. split_and!; try done.
  - destruct Hsh as (S1 & S2 & S3). split_and!; cbn; try done. intros Hnone. specialize (S3 Hnone). specialize (Hb Hnone).
    by destruct (wq a) as [|[? ?] ?].
  - rewrite Forall_app. split; [done|]. by constructor.
  - intros r c Hr. apply elem_of_app in Hr as [Hr|Hr].
    + assert (r <> p) as Hrp by (intros ->; apply Hw, fst_in; by exists c).
      rewrite fn_lookup_insert_ne by done. destruct (Hi _ _ Hr) as (? & ? & Hin). specialize (Es r Hrp).
      unfold rw_in, same_state in *. by rewrite Es.
    + apply list_elem_of_In in Hr. destruct Hr as [[= <- <-]|[]]. rewrite fn_lookup_insert. unfold rw_in.
      by rewrite Est.
  - intros r Hr. rewrite elem_of_app in Hr. assert (r <> p) as Hrp by (intros ->; apply Hr; right; by left).
    rewrite fn_lookup_insert_ne by done. specialize (Es r Hrp). unfold rw_off, same_state in *. rewrite Es. apply Hn. tauto.
Qed.

(** A change of owners while the queue is empty. *)
Lemma rw_owners q f q' f' a rd (w : option nat) p :
  rwrel (mkRSys q f) a -> wq a = [] -> (rprocs q') = rprocs q ->
  w_head (rw q') = w_head (rw q) -> w_tail (rw q') = w_tail (rw q) ->
  w_readers (rw q') = zlen rd -> w_writer (rw q') = match w with Some _ => 1 | None => 0 end -> shape (mkRAbs rd w []) ->
  (forall r, r <> p -> f' r = f r /\ (r ∈ rd <-> r ∈ rds a) /\ (w = Some r <-> wr a = Some r)) ->
  rw_off (p ∈ rd) (w = Some p) (f' p) (rprocs q p) ->
  rwrel (mkRSys q' f') (mkRAbs rd w []).
Proof using.
  intros Hrel Ew Ep E1 E2 E3 E4 Hsh' Hr Hx. rw_open Hrel. rewrite Ew in *. rw_goal. rewrite Ep, E1, E2, E3, E4.
  split; [exact Hq|]. split; [done|]. split; [done|]. split; [done|]. split; [done|]. split.
  - intros r b Hin. by apply not_elem_of_nil in Hin.
  - intros r Hin. destruct (decide (r = p)) as [->|Hrp]; [done|]. specialize (Hn r Hin).
    destruct (Hr r Hrp) as (-> & H1 & H2). unfold rw_off in *. destruct (f r); tauto.
Qed.

Definition rkeeps (s : RSys) : Prop := exists a, rwrel s a.

Lemma rw_free q f a :
  rwrel (mkRSys q f) a -> ((w_writer (rw q) =? 0) && bool_decide (w_head (rw q) = None)) = true ->
  wr a = None /\ wq a = [].
Proof using.
  intros Hrel E. apply andb_true_iff in E as [E1 E2]. apply bool_decide_eq_true in E2. rw_open Hrel.
  rewrite Hwr in E1. destruct (wr a); [done|]. split; [done|]. destruct Hq as (_ & Hc & _). rewrite E2 in Hc.
  by destruct (wq a) as [|[? ?] ?]; [|destruct Hc].
Qed.
Lemma rw_busy q f a :
  rwrel (mkRSys q f) a -> ((w_writer (rw q) =? 0) && bool_decide (w_head (rw q) = None)) = false ->
  wr a = None -> wq a <> [].
Proof using.
  intros Hrel E Hnone Hw. rw_open Hrel. rewrite Hwr, Hnone in E. cbn in E. apply bool_decide_eq_false in E.
  destruct Hq as (_ & Hc & _). by rewrite Hw in Hc.
Qed.

(** A reader enters a free lock. *)
Lemma rw_take_reader q f a p :
  rwrel (mkRSys q f) a -> f p = ROut -> wr a = None -> wq a = [] ->
  rwrel (mkRSys (mkRS (set_readers (w_readers (rw q) + 1) (rw q)) (rprocs q)) (<[p := Reading]> f))
    (mkRAbs (p :: rds a) None []).
Proof using.
  intros Hrel Hp Hnone Hw. pose proof Hrel as Hrel'. rw_open Hrel'.
  assert (p ∉ (wq a).*1) as Hpw by (rewrite Hw; apply not_elem_of_nil).
  pose proof (Hn p Hpw) as (H1 & H2 & Ho). rewrite Hp in Ho.
  eapply (rw_owners _ _ _ _ _ _ _ p); [exact Hrel|done..| | | | |]; cbn.
  - rewrite Hrd, zlen_cons. lia.
  - by rewrite Hwr, Hnone.
  - destruct Hsh as (S1 & _). split_and!; cbn; try done. apply NoDup_cons. tauto.
  - intros r Hrp. rewrite fn_lookup_insert_ne, elem_of_cons, Hnone by done. tauto.
  - rewrite fn_lookup_insert. split_and!; [done|done|by left|done].
Qed.

Lemma keep_rlock q f p r q' :
  rkeeps (mkRSys q f) -> (p < nproc)%nat -> f p = ROut -> rlock (Some p) q = (r, q') ->
  rkeeps (mkRSys q' (<[p := after_rw Reading WaitR r]> f)).
Proof using.
  intros [a Hr] Hp Ho. unfold rlock. rewrite bind_gets. unfold id.
  destruct ((w_writer (rw q) =? 0) && bool_decide (w_head (rw q) = None)) eqn:E.
  - destruct (rw_free _ _ _ Hr E). intros [= <- <-]. eexists. by apply rw_take_reader.
  - pose proof (rw_busy _ _ _ Hr E) as Hb.
    destruct (rw_wait q f p false a Hr Ho Hp) as (q1 & E1 & Hr1).
    { intros Hnone. specialize (Hb Hnone). by destruct (wq a). }
    cbn [wants] in E1. rewrite (bind_ok _ _ _ _ _ E1). intros [= <- <-]. by eexists.
Qed.
Lemma keep_canrlock q f p r q' :
  rkeeps (mkRSys q f) -> f p = ROut -> canrlock q = (Ok r, q') ->
  rkeeps (mkRSys q' (<[p := if r =? 1 then Reading else ROut]> f)).
Proof using.
  intros [a Hr] Ho. unfold canrlock. rewrite bind_gets. unfold id.
  destruct ((w_writer (rw q) =? 0) && bool_decide (w_head (rw q) = None)) eqn:E.
  - destruct (rw_free _ _ _ Hr E). unfold setrw. rewrite bind_modify. intros [= <- <-]. eexists. by apply rw_take_reader.
  - intros [= <- <-]. exists a. pose proof (rw_out _ _ p Hr) as Hw. cbn in Hw. rewrite Ho in Hw.
    specialize (Hw ltac:(done) ltac:(done)). eapply rw_local; [exact Hr|exact Hw|done|done| |].
    + intros r Hrp. by rewrite fn_lookup_insert_ne.
    + rewrite fn_lookup_insert. rw_open Hr. specialize (Hn p Hw). by rewrite Ho in Hn.
Qed.
Lemma keep_wlock q f p r q' :
  rkeeps (mkRSys q f) -> (p < nproc)%nat -> f p = ROut -> wlock (Some p) q = (r, q') ->
  rkeeps (mkRSys q' (<[p := after_rw Writing WaitW r]> f)).
Proof using.
  intros [a Hr] Hp Ho. unfold wlock. rewrite bind_gets. unfold id. pose proof Hr as Hr0. rw_open Hr0.
  destruct ((w_readers (rw q) =? 0) && (w_writer (rw q) =? 0)) eqn:E.
  - apply andb_true_iff in E as [E1%Z.eqb_eq E2]. rewrite Hrd in E1. apply zlen_0_inv in E1. rewrite Hwr in E2.
    destruct (wr a) as [|] eqn:Ew; [done|]. destruct Hsh as (S1 & S2 & S3). specialize (S3 Ew). rewrite E1 in S3.
    destruct (wq a) as [|[? ?] ?] eqn:Eq; [|by destruct S3]. intros [= <- <-]. exists (mkRAbs [] (Some p) []).
    assert (p ∉ (wq a).*1) as Hpw by (rewrite Eq; apply not_elem_of_nil).
    pose proof (Hn p ltac:(apply not_elem_of_nil)) as (H1 & H2 & Ho'). rewrite Ho in Ho'.
    eapply (rw_owners _ _ _ _ _ _ _ p); [exact Hr|done..| | | | |]; cbn.
    + by rewrite Hrd, E1.
    + done.
    + split_and!; cbn; [constructor|done|done].
    + intros r Hrp. rewrite fn_lookup_insert_ne, Ew, E1 by done. split_and!; [done|done|].
      split; [intros [= E']; congruence|done].
    + rewrite fn_lookup_insert. split_and!; [done|done|apply not_elem_of_nil|done].
  - destruct (rw_wait q f p true a Hr Ho Hp) as (q1 & E1 & Hr1).
    { intros Hnone. destruct (wq a) as [|[? ?] ?]; [|done]. split; [|done]. intros Hz. rewrite Hrd, Hz, Hwr, Hnone in E.
      done. }
    cbn [wants] in E1. rewrite (bind_ok _ _ _ _ _ E1). intros [= <- <-]. by eexists.
Qed.

(** A process leaves; the prefix [l1] of the queue gets the lock. *)
Lemma rw_hand q f q' p a l1 l2 rd (w : option nat) :
  rwrel (mkRSys q f) a -> f p = Reading \/ f p = Writing -> wq a = l1 ++ l2 ->
  queue (rprocs q') (w_head (rw q')) (w_tail (rw q')) l2.*1 ->
  w_readers (rw q') = zlen rd -> w_writer (rw q') = match w with Some _ => 1 | None => 0 end -> shape (mkRAbs rd w l2) ->
  (forall r, p_state (rprocs q' r) = if decide (r ∈ l1.*1) then Ready else p_state (rprocs q r)) ->
  (forall r, r ∈ rd <-> r ∈ rds a /\ r <> p \/ (r, false) ∈ l1) ->
  (forall r, w = Some r <-> wr a = Some r /\ r <> p \/ (r, true) ∈ l1) ->
  rwrel (mkRSys q' (<[p := ROut]> f)) (mkRAbs rd w l2).
Proof using.
  intros Hrel Hp Eq Hq' E1 E2 Hsh' Hst Hr Hw. pose proof (rw_out _ _ p Hrel) as Hpw. cbn in Hpw.
  assert (p ∉ (wq a).*1) as Hpw' by (apply Hpw; intros E; rewrite E in Hp; by destruct Hp). clear Hpw.
  rw_open Hrel. rw_goal. rewrite Eq, fmap_app in *. pose proof Hq as (Hnd & _).
  apply Forall_app in Hf as [_ Hf]. split; [exact Hq'|]. split; [done|]. split; [done|]. split; [done|]. split; [done|].
  assert (forall r b c, (r, b) ∈ l1 -> (r, c) ∈ l1 ++ l2 -> b = c) as Hbc.
  { intros r b c H1 H2. destruct (Hi r b) as (_ & _ & _ & H3); [rewrite elem_of_app; by left|].
    destruct (Hi r c H2) as (_ & _ & _ & H4). rewrite H3 in H4. by destruct b, c. }
  split.
  - intros r b Hin. assert (r ∉ l1.*1) as Hr1.
    { intros Hx. apply NoDup_app in Hnd as (_ & Hd & _). apply (Hd r Hx), fst_in. by exists b. }
    assert (r <> p) as Hrp by (intros ->; apply Hpw'; rewrite elem_of_app; right; apply fst_in; by exists b).
    destruct (Hi r b) as (H1 & H2 & H3); [rewrite elem_of_app; by right|].
    rewrite fn_lookup_insert_ne by done. unfold rw_in in *. rewrite Hst, decide_False by done. split_and!; try apply H3.
    + rewrite Hr. intros [[? _]|Hx]; [done|]. apply Hr1, fst_in. by eexists.
    + rewrite Hw. intros [[? _]|Hx]; [done|]. apply Hr1, fst_in. by eexists.
  - intros r Hin. destruct (decide (r ∈ l1.*1)) as [Hr1|Hr1].
    + assert (r <> p) as Hrp by (intros ->; apply Hpw'; rewrite elem_of_app; by left).
      apply fst_in in Hr1 as [b Hb]. destruct (Hi r b) as (H1 & H2 & H3 & H4); [rewrite elem_of_app; by left|].
      rewrite fn_lookup_insert_ne, H4 by done. unfold rw_off. rewrite Hst, decide_True by (apply fst_in; by exists b).
      split; [done|]. split; [done|]. destruct b; rewrite Hr, Hw.
      * split; [done|]. split; [|by right]. intros [[? _]|Hx]; [done|].
        by specialize (Hbc _ _ _ Hx ltac:(rewrite elem_of_app; left; exact Hb)).
      * split; [done|]. split; [by right|]. intros [[? _]|Hx]; [done|].
        by specialize (Hbc _ _ _ Hx ltac:(rewrite elem_of_app; left; exact Hb)).
    + assert (r ∉ l1.*1 ++ l2.*1) as Hrw by (rewrite elem_of_app; tauto). specialize (Hn r Hrw).
      assert (forall b, (r, b) ∉ l1) as Hno by (intros b Hx; apply Hr1, fst_in; by exists b).
      pose proof (Hno true). pose proof (Hno false).
      specialize (Hr r). specialize (Hw r).
      unfold rw_off in *. rewrite Hst, decide_False by done. destruct (decide (r = p)) as [->|Hrp].
      * rewrite fn_lookup_insert. destruct Hn as (? & ? & _). tauto.
      * rewrite fn_lookup_insert_ne by done. destruct (f r); tauto.
Qed.

Lemma queue_head_cons ps h t p b (l : list (nat * bool)) :
  queue ps h t ((p, b) :: l).*1 ->
  h = Some p /\ queue ps (fst (dequeue p t ps)) (snd (dequeue p t ps)) l.*1.
Proof using. apply dequeue_queue. Qed.
Lemma queue_head ps h t (l : list (nat * bool)) :
  queue ps h t l.*1 -> h = match l with [] => None | (p, _) :: _ => Some p end.
Proof using. intros (_ & Hc & _). by destruct l as [|[? ?] ?]; [|destruct Hc]. Qed.

Lemma run_runlock q f p a :
  rwrel (mkRSys q f) a -> f p = Reading ->
  exists q', runlock q = (Ok tt, q') /\ rkeeps (mkRSys q' (<[p := ROut]> f)).
Proof using.
  intros Hr Hp. pose proof (rw_out _ _ p Hr) as Hpw. cbn in Hpw. rewrite Hp in Hpw.
  specialize (Hpw ltac:(done) ltac:(done)). pose proof Hr as Hr0. rw_open Hr0.
  destruct (Hn p Hpw) as (_ & _ & Hin). rewrite Hp in Hin. destruct Hin as [Hin Hnw].
  apply elem_of_Permutation in Hin as [rd Hrd']. destruct Hsh as (S1 & S2 & S3). rewrite Hrd' in S1.
  apply NoDup_cons in S1 as [S0 S1].
  assert (wr a = None) as Ew by (destruct (wr a); [|done]; rewrite S2 in Hrd' by done;
    by apply Permutation_nil_l in Hrd').
  assert (w_readers (rw q) - 1 = zlen rd) as Ez by (rewrite Hrd; unfold zlen; rewrite Hrd'; cbn; lia).
  assert (forall r, r ∈ rd <-> r ∈ rds a /\ r <> p) as Hmem
    by (intros r; rewrite Hrd', elem_of_cons; split; [intros H; split; [by right|congruence]|intros [[?|?] ?]; done]).
  specialize (S3 Ew). unfold runlock, setrw, setrps. rewrite bind_gets, bind_modify. unfold id.
  pose proof (queue_head _ _ _ _ Hq) as Eh. destruct (wq a) as [|[h b] w] eqn:Eq; rewrite Eh.
  - eexists. split; [reflexivity|]. exists (mkRAbs rd None []).
    eapply (rw_hand _ _ _ _ a []); [exact Hr|tauto|done| | | | | | |]; cbn; try done.
    + by rewrite Hwr, Ew.
    + intros r. rewrite Hmem. split; [tauto|]. intros [?|Hx]; [done|by apply not_elem_of_nil in Hx].
    + intros r. rewrite Ew. split; [done|]. intros [[? _]|Hx]; [done|by apply not_elem_of_nil in Hx].
  - rewrite Ez. destruct S3 as [S3 ->]. destruct (Z.ltb_spec 0 (zlen rd)) as [Hz|Hz].
    + eexists. split; [reflexivity|]. exists (mkRAbs rd None ((h, true) :: w)).
      eapply (rw_hand _ _ _ _ a []); [exact Hr|tauto|done| | | | | | |]; cbn; try done.
      * by rewrite Hwr, Ew.
      * split_and!; cbn; try done. intros _. split; [|done]. intros ->. by change (zlen (@nil nat)) with 0 in Hz.
      * intros r. rewrite Hmem. split; [tauto|]. intros [?|Hx]; [done|by apply not_elem_of_nil in Hx].
      * intros r. rewrite Ew. split; [done|]. intros [[? _]|Hx]; [done|by apply not_elem_of_nil in Hx].
    + assert (rd = []) as -> by (pose proof (zlen_nonneg rd); apply zlen_0_inv; lia).
      destruct (Hi h true ltac:(by left)) as (_ & _ & Hst & _). cbn [rprocs]. rewrite bool_decide_eq_true_2 by done.
      cbn [negb]. destruct (queue_head_cons _ _ _ _ _ _ Hq) as [_ Hq']. cbn [rw w_tail].
      destruct (dequeue h (w_tail (rw q)) (rprocs q)) as [h' t']. cbn [fst snd] in Hq'. rewrite !bind_modify.
      eexists. split; [reflexivity|]. exists (mkRAbs [] (Some h) w).
      eapply (rw_hand _ _ _ _ a [(h, true)]); [exact Hr|tauto|done| | | | | | |]; cbn; try done.
      * eapply queue_ext; [|exact Hq']. intros r _. destruct (decide (r = h)) as [->|]; by procs.
      * intros r. destruct (decide (r ∈ [h])) as [Hx|Hx]; rewrite list_elem_of_singleton in Hx; [subst|]; by procs.
      * intros r. rewrite list_elem_of_singleton. specialize (Hmem r). split; [by intros ?%not_elem_of_nil|].
        intros [Hx|[=]]. by apply Hmem in Hx.
      * intros r. rewrite Ew, list_elem_of_singleton. split; [intros [= ->]; by right|].
        by intros [[? _]|[= ->]].
Qed.

(** The leading readers of a queue. *)
Lemma leading (l : list (nat * bool)) :
  exists l1 l2, l = l1 ++ l2 /\ Forall (fun x => x.2 = false) l1 /\
    match l2 with [] => True | (_, b) :: _ => b = true end.
Proof using.
  induction l as [|[p b] l (l1 & l2 & -> & H1 & H2)]; [by exists [], []|]. destruct b.
  - exists [], ((p, true) :: l1 ++ l2). by split_and!.
  - exists ((p, false) :: l1), l2. split_and!; [done|by constructor|done].
Qed.
Lemma leading_in (l1 : list (nat * bool)) r b : Forall (fun x => x.2 = false) l1 -> (r, b) ∈ l1 -> b = false.
Proof using. intros Hf Hin. rewrite Forall_forall in Hf. by apply (Hf _ Hin). Qed.

(** [wunlock] that hands the lock to readers. *)
Lemma run_wunlock_readers q f p a l1 l2 :
  rwrel (mkRSys q f) a -> wr a = Some p -> rds a = [] -> f p = Writing -> wq a = l1 ++ l2 -> l1 <> [] ->
  Forall (fun x => x.2 = false) l1 -> match l2 with [] => True | (_, b) :: _ => b = true end ->
  exists q', (wake_readers (S nproc);;
      s ← gets id;
      (if decide (w_head (rw s) = None) then setrw (set_queue None None) else mret tt);;
      setrw (set_writer 0)) q = (Ok tt, q') /\
    rwrel (mkRSys q' (<[p := ROut]> f)) (mkRAbs l1.*1 None l2).
Proof using.
  intros Hr Ew Er Hp Eq Hne Hl1 Hl2. pose proof Hr as Hr0. rw_open Hr0. rewrite Eq, fmap_app in *.
  pose proof Hq as (Hnd & Hc & Ht). apply Forall_app in Hf as [Hf1 Hf2].
  destruct (wake_readers_spec (S nproc) q l1.*1 l2.*1 Hc Hnd) as (q1 & E & Hc1 & Ht1 & Erd & Ewr & Hst).
  - assert (length (l1.*1 ++ l2.*1) <= nproc)%nat as Hb.
    { rewrite <- (length_seq nproc 0). apply submseteq_length, NoDup_submseteq; [done|].
      intros r Hin. apply elem_of_seq. assert (Forall (fun p => (p < nproc)%nat) (l1.*1 ++ l2.*1)) as Hf'
        by by apply Forall_app. rewrite Forall_forall in Hf'. specialize (Hf' _ Hin). lia. }
    rewrite length_app in Hb. lia.
  - apply Forall_forall. intros r [b Hb]%fst_in. rewrite (leading_in _ _ _ Hl1 Hb) in Hb.
    destruct (Hi r false) as (_ & _ & H3 & _); [rewrite elem_of_app; by left|done].
  - destruct l2 as [|[r b] l2]; [done|]. subst b. cbn.
    destruct (Hi r true) as (_ & _ & H3 & _); [rewrite elem_of_app; right; by left|]. by rewrite H3.
  - rewrite (bind_ok _ _ _ _ _ E), bind_gets. unfold id.
    set (h := w_head (rw q1)) in *.
    assert (exists q', ((if decide (h = None) then setrw (set_queue None None) else mret tt);;
      setrw (set_writer 0)) q1 = (Ok tt, q') /\ rprocs q' = rprocs q1 /\ w_head (rw q') = h /\
      w_tail (rw q') = (if decide (h = None) then None else w_tail (rw q1)) /\
      w_readers (rw q') = w_readers (rw q1) /\ w_writer (rw q') = 0) as (q' & E' & P1 & P2 & P3 & P4 & P5).
    { destruct (decide (h = None)) as [Eh|Eh]; unfold setrw; rewrite ?bind_modify, ?bind_mret; eexists;
        (split; [reflexivity|]); cbn; by rewrite ?Eh. }
    exists q'. split; [exact E'|]. eapply (rw_hand _ _ _ _ a l1); [exact Hr|tauto|done| | | | | | |].
    + rewrite P1, P2, P3. split_and!; [by apply NoDup_app in Hnd as (_ & _ & ?)|exact Hc1|].
      destruct l2 as [|[r b] l2]; [by rewrite decide_True|]. destruct Hc1 as [Eh _]. fold h in Eh.
      rewrite decide_False by (by rewrite Eh). rewrite Ht1, Ht. cbn [fmap list_fmap]. apply last_app_cons.
    + rewrite P4, Erd, Hrd, Er. change (zlen (@nil nat)) with 0. lia.
    + done.
    + split_and!; cbn; [by apply NoDup_app in Hnd as (? & _)|done|]. intros _. destruct l2 as [|[r b] l2]; [done|].
      split; [|done]. by destruct l1.
    + intros r. by rewrite P1, Hst.
    + intros r. rewrite Er, fst_in. split; [|intros [[?%not_elem_of_nil _]|?]; [done|by eexists]].
      intros [b Hb]. right. by rewrite <- (leading_in _ _ _ Hl1 Hb).
    + intros r. rewrite Ew. split; [done|]. intros [[[= ->] ?]|Hb]; [done|]. by apply (leading_in _ _ _ Hl1) in Hb.
Qed.

Lemma run_wunlock q f p a :
  rwrel (mkRSys q f) a -> f p = Writing ->
  exists q', wunlock nproc q = (Ok tt, q') /\ rkeeps (mkRSys q' (<[p := ROut]> f)).
Proof using.
  intros Hr Hp. pose proof (rw_out _ _ p Hr) as Hpw. cbn in Hpw. rewrite Hp in Hpw.
  specialize (Hpw ltac:(done) ltac:(done)). pose proof Hr as Hr0. rw_open Hr0.
  destruct (Hn p Hpw) as (_ & _ & Hin). rewrite Hp in Hin. destruct Hin as [Hnr Ew].
  destruct Hsh as (_ & S2 & _). specialize (S2 ltac:(by rewrite Ew)).
  unfold wunlock. rewrite bind_gets. unfold id. pose proof (queue_head _ _ _ _ Hq) as Eh.
  destruct (wq a) as [|[h b] w] eqn:Eq; rewrite Eh.
  - eexists. split; [reflexivity|]. exists (mkRAbs [] None []).
    eapply (rw_hand _ _ _ _ a []); [exact Hr|tauto|done| | | | | | |]; cbn; try done.
    + by rewrite Hrd, S2.
    + split_and!; cbn; [constructor|done|done].
    + intros r. rewrite S2. split; [by intros ?%not_elem_of_nil|]. intros [[Hx _]|Hx]; by apply not_elem_of_nil in Hx.
    + intros r. rewrite Ew. split; [done|]. intros [[[= ->] ?]|Hx]; [done|by apply not_elem_of_nil in Hx].
  - destruct (Hi h b ltac:(by left)) as (_ & _ & Hst & _). rewrite Hst. destruct b; cbn [wants].
    + rewrite decide_True by done. destruct (queue_head_cons _ _ _ _ _ _ Hq) as [_ Hq'].
      destruct (dequeue h (w_tail (rw q)) (rprocs q)) as [h' t']. cbn [fst snd] in Hq'.
      unfold setrw, setrps. rewrite !bind_modify. eexists. split; [reflexivity|]. exists (mkRAbs [] (Some h) w).
      eapply (rw_hand _ _ _ _ a [(h, true)]); [exact Hr|tauto|done| | | | | | |]; cbn; try done.
      * eapply queue_ext; [|exact Hq']. intros r _. destruct (decide (r = h)) as [->|]; by procs.
      * by rewrite Hrd, S2.
      * by rewrite Hwr, Ew.
      * split_and!; cbn; [constructor|done|done].
      * intros r. destruct (decide (r ∈ [h])) as [Hx|Hx]; rewrite list_elem_of_singleton in Hx; [subst|]; by procs.
      * intros r. rewrite S2, list_elem_of_singleton. split; [by intros ?%not_elem_of_nil|].
        intros [[Hx _]|[=]]. by apply not_elem_of_nil in Hx.
      * intros r. rewrite Ew, list_elem_of_singleton. split; [intros [= ->]; by right|].
        by intros [[[= ->] ?]|[= ->]].
    + rewrite decide_False, bool_decide_eq_true_2 by done. cbn [negb].
      destruct (leading (wq a)) as (l1 & l2 & El & Hl1 & Hl2).
      destruct (run_wunlock_readers q f p a l1 l2 Hr Ew S2 Hp El) as (q' & E' & Hr'); [|done|done|].
      { intros ->. cbn in El. rewrite Eq in El. by subst l2. }
      exists q'. split; [exact E'|by eexists].
Qed.

Lemma keep_wake q f p a :
  rwrel (mkRSys q f) a -> f p = WaitR \/ f p = WaitW -> p_state (rprocs q p) = Ready ->
  rwrel (mkRSys (mkRS (rw q) (set_pstate p Running (rprocs q)))
    (<[p := match f p with WaitR => Reading | _ => Writing end]> f)) a.
Proof using.
  intros Hr Hph Hs. assert (p ∉ (wq a).*1) as Hw.
  { intros [b Hb]%fst_in. rw_open Hr. destruct (Hi _ _ Hb) as (_ & _ & E & _). rewrite Hs in E. by destruct b. }
  eapply rw_local; [exact Hr|exact Hw|done| | |].
  - intros r. cbn. destruct (decide (r = p)) as [->|]; by procs.
  - intros r Hrp. split; [by rewrite fn_lookup_insert_ne|]. unfold same_state. cbn. by procs.
  - rewrite fn_lookup_insert. cbn. rw_open Hr. destruct (Hn p Hw) as (_ & _ & H). unfold rw_off. procs.
    split; [done|]. split; [done|]. destruct Hph as [E|E]; rewrite E in H |- *; tauto.
Qed.

Lemma rstep_keeps s s' : rstep s s' -> rkeeps s -> rkeeps s'.
Proof using.
  intros Hs Hk. destruct Hs as [p q f r q' Hp Ho E _|p q f r q' Hp Ho E _|p q f r q' Ho E|p q f q' Ho E|p q f q' Ho E
    |p q f Hph Hst|p st q f Hph H1 H2].
  - by eapply keep_rlock.
  - by eapply keep_wlock.
  - by eapply keep_canrlock.
  - destruct Hk as [a Hr]. destruct (run_runlock _ _ _ _ Hr Ho) as (q1 & E1 & Hk). rewrite E in E1.
    by injection E1 as <-.
  - destruct Hk as [a Hr]. destruct (run_wunlock _ _ _ _ Hr Ho) as (q1 & E1 & Hk). rewrite E in E1.
    by injection E1 as <-.
  - destruct Hk as [a Hr]. exists a. by apply keep_wake.
  - destruct Hk as [a Hr]. exists a. pose proof (rw_out _ _ p Hr) as Hw. cbn in Hw.
    assert (p ∉ (wq a).*1) as Hw' by (apply Hw; intros E; rewrite E in Hph; by destruct Hph as [?|[?|?]]). clear Hw.
    eapply rw_local; [exact Hr|exact Hw'|done| | |].
    + intros r. cbn. destruct (decide (r = p)) as [->|]; by procs.
    + intros r Hrp. split; [done|]. unfold same_state. cbn. by procs.
    + cbn. rw_open Hr. destruct (Hn p Hw') as (_ & _ & H). unfold rw_off. procs. split; [done|]. split; [done|].
      destruct Hph as [E|[E|E]]; rewrite E in H |- *; tauto.
Qed.

(** A lock nobody uses. *)
Definition ridle (s : RSys) : Prop :=
  rw (rsq s) = mkRW None None 0 0 /\
  forall p, rph s p = ROut /\ p_state (rprocs (rsq s) p) <> QueueingR /\ p_state (rprocs (rsq s) p) <> QueueingW.

Lemma ridle_keeps s : ridle s -> rkeeps s.
Proof using.
  intros [E Hp]. exists (mkRAbs [] None []). unfold rwrel. rewrite E. cbn [rds wr wq].
  split; [split_and!; [constructor|done|done]|]. split; [done|]. split; [done|].
  split; [split_and!; [constructor|done|done]|]. split; [constructor|]. split.
  - intros p b Hin. by apply not_elem_of_nil in Hin.
  - intros p _. destruct (Hp p) as (-> & ? & ?). split_and!; [done|done|apply not_elem_of_nil|done].
Qed.

(** Who has the lock, or has been handed it. *)
Definition has_read (s : RSys) (p : nat) : Prop :=
  rph s p = Reading \/ rph s p = WaitR /\ p_state (rprocs (rsq s) p) = Ready.
Definition has_write (s : RSys) (p : nat) : Prop :=
  rph s p = Writing \/ rph s p = WaitW /\ p_state (rprocs (rsq s) p) = Ready.

Lemma rwrel_has s a p : rwrel s a -> (has_read s p <-> p ∈ rds a) /\ (has_write s p <-> wr a = Some p).
Proof using.
  intros Hr. destruct s as [q f]. rw_open Hr. unfold has_read, has_write. cbn.
  destruct (decide (p ∈ (wq a).*1)) as [[b Hb]%fst_in|Hout].
  - destruct (Hi _ _ Hb) as (H1 & H2 & H3 & H4). rewrite H3, H4. destruct b; cbn; intuition congruence.
  - destruct (Hn p Hout) as (_ & _ & H). destruct (f p); intuition congruence.
Qed.

(** C17. Readers and writers: in every state processes can reach through
    [rlock], [canrlock], [runlock], [wlock] and [wunlock], a writer excludes
    every reader and every other writer; the counts of the lock are the
    processes that have it; a process that waits has somebody to wait for; and
    the unlocking routines always return: their panics are never reached and the
    loop that wakes the readers ends. *)
Theorem rwlock_exclusion s0 s :
  rtc rstep s0 s -> ridle s0 ->
  (forall p, has_write s p -> forall r, (has_write s r -> r = p) /\ ~ has_read s r) /\
  (exists l, NoDup l /\ (forall p, p ∈ l <-> has_read s p) /\ w_readers (rw (rsq s)) = zlen l) /\
  (w_writer (rw (rsq s)) <> 0 <-> exists p, has_write s p) /\
  (forall p, p_state (rprocs (rsq s) p) = QueueingR \/ p_state (rprocs (rsq s) p) = QueueingW ->
     exists r, has_read s r \/ has_write s r) /\
  (forall p, rph s p = Reading -> exists q', runlock (rsq s) = (Ok tt, q')) /\
  (forall p, rph s p = Writing -> exists q', wunlock nproc (rsq s) = (Ok tt, q')).
Proof using.
  intros Hs Hid. assert (rkeeps s) as [a Hr].
  { apply ridle_keeps in Hid. induction Hs; eauto using rstep_keeps. }
  pose proof (fun p => rwrel_has s a p Hr) as Hh. split; [|split; [|split; [|split; [|split]]]].
  - intros p Hp. apply Hh in Hp. intros r. split; [intros H; apply Hh in H; congruence|].
    intros H. apply Hh in H. destruct Hr as (_ & _ & _ & (_ & S2 & _) & _). rewrite S2 in H by (by rewrite Hp).
    by apply not_elem_of_nil in H.
  - exists (rds a). destruct Hr as (_ & Hrd & _ & (S1 & _) & _). split_and!; try done. intros p. symmetry. apply Hh.
  - destruct Hr as (_ & _ & Hwr & _). rewrite Hwr. destruct (wr a) as [o|] eqn:E.
    + split; [|done]. intros _. exists o. by apply Hh.
    + split; [done|]. intros [p Hp]. apply Hh in Hp. congruence.
  - intros p Hp. destruct s as [q f]. pose proof Hr as Hr0. rw_open Hr0. destruct Hsh as (_ & _ & S3).
    destruct (wr a) as [o|] eqn:Ew; [exists o; right; apply Hh; done|]. specialize (S3 eq_refl).
    destruct (wq a) as [|[h b] w].
    + destruct (Hn p ltac:(apply not_elem_of_nil)) as (? & ? & _). by destruct Hp.
    + destruct S3 as [S3 _]. destruct (rds a) as [|r rd]; [done|]. exists r. left. apply Hh. by left.
  - intros p Hp. destruct s as [q f]. destruct (run_runlock _ _ _ _ Hr Hp) as (q' & E & _). by exists q'.
  - intros p Hp. destruct s as [q f]. destruct (run_wunlock _ _ _ _ Hr Hp) as (q' & E & _). by exists q'.
Qed.
End rw.

(** ** Witness: 0 and 1 read, 2 and then 3 wait to write and to read; the
    readers leave, 2 writes and leaves, 3 has been woken. *)

Definition rsys_idle : RSys := mkRSys (mkRS (mkRW None None 0 0) (fun _ => mkProc Running None false false)) (fun _ => ROut).
Lemma rsys_idle_ok : ridle rsys_idle.
Proof. split; [reflexivity|]. intros p. split_and!; done. Qed.

Definition rw1 : RS := snd (rlock (Some 0%nat) (rsq rsys_idle)).
Definition rw2 : RS := snd (rlock (Some 1%nat) rw1).
Definition rw3 : RS := snd (wlock (Some 2%nat) rw2).
Definition rw4 : RS := snd (rlock (Some 3%nat) rw3).
Definition rw5 : RS := snd (runlock rw4).
Definition rw6 : RS := snd (runlock rw5).
Definition rw7 : RS := mkRS (rw rw6) (set_pstate 2 Running (rprocs rw6)).
Definition rw8 : RS := snd (wunlock 4 rw7).
Definition rph8 : nat -> RPhase :=
  <[2%nat := ROut]> (<[2%nat := Writing]> (<[1%nat := ROut]> (<[0%nat := ROut]> (<[3%nat := WaitR]>
    (<[2%nat := WaitW]> (<[1%nat := Reading]> (<[0%nat := Reading]> (fun _ => ROut)))))))).
Lemma rsys8_reach : rtc (rstep 4) rsys_idle (mkRSys rw8 rph8).
Proof.
  eapply rtc_l; [apply (r_rlock 4 0 _ _ (Ok tt) rw1); [lia|reflexivity|reflexivity|done]|].
  eapply rtc_l; [apply (r_rlock 4 1 _ _ (Ok tt) rw2); [lia|reflexivity|reflexivity|done]|].
  eapply rtc_l; [apply (r_wlock 4 2 _ _ (Ret Sched) rw3); [lia|reflexivity|reflexivity|done]|].
  eapply rtc_l; [apply (r_rlock 4 3 _ _ (Ret Sched) rw4); [lia|reflexivity|reflexivity|done]|].
  eapply rtc_l; [apply (r_runlock 4 0 _ _ rw5); reflexivity|].
  eapply rtc_l; [apply (r_runlock 4 1 _ _ rw6); reflexivity|].
  eapply rtc_l; [apply (r_wake 4 2 rw6); [right; reflexivity|reflexivity]|].
  apply rtc_once. apply (r_wunlock 4 2 rw7); reflexivity.
Qed.

Lemma rwlock_exclusion_witness :
  rtc (rstep 4) rsys_idle (mkRSys rw8 rph8) /\ has_read (mkRSys rw8 rph8) 3 /\
  rw rw8 = mkRW None None 1 0 /\
  ~ (exists p, has_write (mkRSys rw8 rph8) p).
Proof.
  split; [exact rsys8_reach|]. split; [right; split; reflexivity|]. split; [reflexivity|].
  intros Hw. apply (proj1 (proj2 (proj2 (rwlock_exclusion 4 rsys_idle _ rsys8_reach rsys_idle_ok)))) in Hw.
  apply Hw. reflexivity.
Defined.
