(* ===== verification/Fgrp.v ===== *)
(** * File descriptor tables: [sysfile.c], [pgrp.c] and [devself.c]

    A [Fgrp] is its array of channels ([None]: [nil]), as long as [nfd], and its
    other fields.  The store is one table, the process's [up->fgrp], and every
    [Chan]'s reference count, flag and mode; other tables and other holders of
    references appear in the theorems.  The table's lock is held over each
    routine's work on it.  A table whose own count [f_ref] is zero is one
    [closefgrp] has freed or is freeing.  [mem] says whether [malloc] succeeds; it returns
    cleared memory.  An index outside the array is [Ub]. *)
From S2P Require Import Prelude CMonad.
From stdpp Require Export functions.
Local Open Scope Z_scope.

(** ** Data *)

Definition DELTAFD : Z := 20.
Definition CMSG : Z := 0x0002.
Definition CFREE : Z := 0x0010.
Definition OREAD : Z := 0x01.
Definition OWRITE : Z := 0x02.
Definition ORDWR : Z := Z.lor OREAD OWRITE.
Definition OEXEC : Z := 0x04.
Definition OKMODE : Z := 0xff.

Record Chan : Type := mkChan { c_ref : Z; c_flag : Z; c_mode : Z }.
Record Fgrp : Type := mkFgrp { fds : list (option nat); maxfd : Z; exceed : Z; f_ref : Z }.
Definition nfd (f : Fgrp) : Z := zlen (fds f).

(** The table, the channels, and the channels left to the close queue. *)
Record FS : Type := mkFS { fg : Fgrp; chans : nat -> Chan; clunkq : list nat }.

(** [error(...)] and [panic]. *)
Definition Ebadfd : Z := 1.
Definition Ebadusefd : Z := 2.
Definition Enofd : Z := 3.
Definition Enomem : Z := 4.
Definition Ebadarg : Z := 5.
Definition FdPanic : Z := 6.

Definition set_fds l f := mkFgrp l (maxfd f) (exceed f) (f_ref f).
Definition set_maxfd v f := mkFgrp (fds f) v (exceed f) (f_ref f).
Definition set_exceed v f := mkFgrp (fds f) (maxfd f) v (f_ref f).
Definition set_fref v f := mkFgrp (fds f) (maxfd f) (exceed f) v.

Definition getf : M FS Fgrp := gets fg.
Definition updf (f : Fgrp -> Fgrp) : M FS () := modify (fun s => mkFS (f (fg s)) (chans s) (clunkq s)).
Definition updc (c : nat) (f : Chan -> Chan) : M FS () :=
  modify (fun s => mkFS (fg s) (<[c := f (chans s c)]> (chans s)) (clunkq s)).

(** [f->fd[fd]] read and written. *)
Definition getfd (fd : Z) : M FS (option nat) := f ← getf; of_option (zget (fds f) fd).
Definition setfd (fd : Z) (v : option nat) : M FS () :=
  f ← getf;
  if (0 <=? fd) && (fd <? nfd f) then updf (set_fds (<[Z.to_nat fd := v]> (fds f))) else undefined.

(** ** References *)

(** The count is an [int]: [ainc] wraps. *)
Definition incref (c : nat) : M FS () :=
  s ← gets id;
  updc c (fun x => mkChan (i32 (c_ref x + 1)) (c_flag x) (c_mode x));;
  if i32 (c_ref (chans s c) + 1) <=? 0 then leave FdPanic else mret tt.

(** The count after.  [cclose] and [ccloseq] have tested that the count before
    is positive, so [adec] does not wrap. *)
Definition decref (c : nat) : M FS Z :=
  s ← gets id;
  updc c (fun x => mkChan (c_ref x - 1) (c_flag x) (c_mode x));;
  if c_ref (chans s c) - 1 <? 0 then leave FdPanic else mret (c_ref (chans s c) - 1).

(** [c->r.ref < 1 || c->flag&CFREE] *)
Definition bad_chan (x : Chan) : bool := (c_ref x <? 1) || negb (Z.land (c_flag x) CFREE =? 0).

Definition cclose (c : nat) : M FS () :=
  s ← gets id;
  if bad_chan (chans s c) then leave FdPanic
  else
    r ← decref c;
    if negb (r =? 0) then mret tt
    else updc c (fun x => mkChan (c_ref x) CFREE (c_mode x)).

Definition ccloseq (c : nat) : M FS () :=
  s ← gets id;
  if bad_chan (chans s c) then leave FdPanic
  else
    r ← decref c;
    if negb (r =? 0) then mret tt
    else modify (fun s => mkFS (fg s) (chans s) (clunkq s ++ [c])).

(** ** The table *)

Definition unlockfgrp : M FS () := updf (set_exceed 0).

Definition growfd (mem : bool) (fd : Z) : M FS Z :=
  f ← getf;
  if fd <? nfd f then mret 0
  else if nfd f + DELTAFD <=? fd then mret (-1)
  else if 5000 <=? nfd f then mret (-1)
  else if negb mem then mret (-1)
  else
    updf (fun f => set_fds (fds f ++ replicate (Z.to_nat DELTAFD) None) f);;
    (if maxfd f <? fd then
       (if Z.quot (maxfd f) 100 <? Z.quot fd 100 then updf (set_exceed (Z.quot fd 100 * 100)) else mret tt);;
       updf (set_maxfd fd)
     else mret tt);;
    mret 1.

(** The loop of [findfreefd] over the array from [fd] on. *)
Fixpoint free_from (l : list (option nat)) (fd : Z) : Z :=
  match l with
  | Some _ :: l => free_from l (fd + 1)
  | _ => fd
  end.

Definition findfreefd (mem : bool) (start : Z) : M FS Z :=
  f ← getf;
  let fd := free_from (drop (Z.to_nat start) (fds f)) start in
  if nfd f <=? fd then
    r ← growfd mem fd;
    if r <? 0 then mret (-1) else mret fd
  else mret fd.

Definition newfd (mem : bool) (c : nat) : M FS Z :=
  fd ← findfreefd mem 0;
  if fd <? 0 then unlockfgrp;; mret (-1)
  else
    f ← getf;
    (if maxfd f <? fd then updf (set_maxfd fd) else mret tt);;
    setfd fd (Some c);;
    unlockfgrp;;
    mret fd.

(** Two descriptors for a pipe: 0 and the pair, or -1. *)
Definition newfd2 (mem : bool) (c0 c1 : nat) : M FS (Z * (Z * Z)) :=
  fd0 ← findfreefd mem 0;
  if fd0 <? 0 then unlockfgrp;; mret (-1, (fd0, 0))
  else
    fd1 ← findfreefd mem (fd0 + 1);
    if fd1 <? 0 then unlockfgrp;; mret (-1, (fd0, fd1))
    else
      f ← getf;
      (if maxfd f <? fd1 then updf (set_maxfd fd1) else mret tt);;
      setfd fd0 (Some c0);;
      setfd fd1 (Some c1);;
      unlockfgrp;;
      mret (0, (fd0, fd1)).

(** [mode == ~0] *)
Definition anymode : Z := 2 ^ 64 - 1.

Definition fdtochan (fd mode : Z) (chkmnt iref : bool) : M FS nat :=
  f ← getf;
  if (fd <? 0) || (nfd f <=? fd) then leave Ebadfd
  else
    o ← getfd fd;
    match o with
    | None => leave Ebadfd
    | Some c =>
        (if iref then incref c else mret tt);;
        s ← gets id;
        let x := chans s c in
        if chkmnt && negb (Z.land (c_flag x) CMSG =? 0) then
          (if iref then cclose c else mret tt);; leave Ebadusefd
        else if (mode =? anymode) || (c_mode x =? ORDWR) then mret c
        else if negb (Z.land mode (c_mode x) =? mode) then
          (if iref then cclose c else mret tt);; leave Ebadusefd
        else mret c
    end.

Definition openmode (omode : Z) : M FS Z :=
  if negb (Z.land omode OEXEC =? 0) && negb (Z.land omode ORDWR =? 0) then leave Ebadarg
  else if Z.land omode OKMODE =? OEXEC then mret (Z.land (Z.lor omode OREAD) (Z.lnot OEXEC))
  else mret omode.

(** ** System calls *)

Definition sysdup (mem : bool) (ofd nfd' : Z) : M FS Z :=
  oc ← fdtochan ofd anymode false true;
  if negb (nfd' =? -1) then
    r ← (if nfd' <? 0 then mret (-1) else growfd mem nfd');
    if r <? 0 then unlockfgrp;; cclose oc;; leave Ebadfd
    else
      f ← getf;
      (if maxfd f <? nfd' then updf (set_maxfd nfd') else mret tt);;
      nc ← getfd nfd';
      setfd nfd' (Some oc);;
      unlockfgrp;;
      (match nc with Some nc => cclose nc | None => mret tt end);;
      mret nfd'
  else
    fd ← newfd mem oc;
    if fd <? 0 then cclose oc;; leave Enofd else mret fd.

(** [for(i = fd; --i >= 0 && f->fd[i] == 0; ) f->maxfd = i;]: the slots below
    [fd], the nearest first. *)
Fixpoint lower_maxfd (below : list (option nat)) (i mx : Z) : Z :=
  match below with
  | None :: below => lower_maxfd below (i - 1) (i - 1)
  | _ => mx
  end.

Definition fdclose (fd flag : Z) : M FS () :=
  o ← getfd fd;
  match o with
  | None => mret tt
  | Some c =>
      s ← gets id;
      if negb (flag =? 0) && (Z.land (c_flag (chans s c)) flag =? 0) then mret tt
      else
        setfd fd None;;
        f ← getf;
        (if fd =? maxfd f then
           updf (set_maxfd (lower_maxfd (reverse (take (Z.to_nat fd) (fds f))) fd (maxfd f)))
         else mret tt);;
        cclose c
  end.

Definition sysclose (fd : Z) : M FS Z :=
  fdtochan fd anymode false false;;
  fdclose fd 0;;
  mret 0.

(** ** Groups *)

(** [dupfgrp(nil)] *)
Definition newfgrp : Fgrp := mkFgrp (replicate (Z.to_nat DELTAFD) None) 0 0 1.

(** The copying loop: the slots from [i] on that are to be copied. *)
Fixpoint incref_all (l : list (option nat)) : M FS () :=
  match l with
  | [] => mret tt
  | None :: l => incref_all l
  | Some c :: l => incref c;; incref_all l
  end.

Definition dupfgrp (mem : bool) : M FS Fgrp :=
  f ← getf;
  let n := maxfd f + 1 in
  let i := Z.rem n DELTAFD in
  let n := if negb (i =? 0) then n + (DELTAFD - i) else n in
  if negb mem then leave Enomem
  else if nfd f <? maxfd f + 1 then undefined
  else
    let used := take (Z.to_nat (maxfd f + 1)) (fds f) in
    incref_all used;;
    mret (mkFgrp (used ++ replicate (Z.to_nat n - length used) None) (maxfd f) 0 1).

(** The loop of [closefgrp] and [forceclosefgrp]: [n] slots from [i] on. *)
Fixpoint close_slots (close : nat -> M FS ()) (n : nat) (i : Z) : M FS () :=
  match n with
  | O => mret tt
  | S n =>
      o ← getfd i;
      (match o with
       | Some c => setfd i None;; close c
       | None => mret tt
       end);;
      close_slots close n (i + 1)
  end.

Definition closefgrp : M FS () :=
  f ← getf;
  updf (set_fref (f_ref f - 1));;
  if f_ref f - 1 <? 0 then leave FdPanic
  else if negb (f_ref f - 1 =? 0) then mret tt
  else close_slots cclose (Z.to_nat (maxfd f + 1)) 0.

(** [up->closingfgrp] is the table. *)
Definition forceclosefgrp : M FS () :=
  f ← getf;
  close_slots ccloseq (Z.to_nat (maxfd f + 1)) 0.
