(* ===== verification/FgrpThms.v ===== *)
(** * The table's invariant and what each routine does to references *)
From S2P Require Import Prelude CMonad Fgrp.
From stdpp Require Import list.
Local Open Scope Z_scope.

(** ** Counting slots *)

Definition isc (c : nat) (o : option nat) : Z := if decide (o = Some c) then 1 else 0.
Fixpoint cnt (c : nat) (l : list (option nat)) : Z :=
  match l with [] => 0 | o :: l => isc c o + cnt c l end.

Lemma isc_range c o : 0 <= isc c o <= 1.
Proof. unfold isc. destruct (decide _); lia. Qed.
Lemma isc_None c : isc c None = 0.
Proof. done. Qed.
Lemma isc_Some c d : isc c (Some d) = if decide (d = c) then 1 else 0.
Proof. unfold isc. destruct (decide (d = c)) as [->|]; [by rewrite decide_True|]. rewrite decide_False by congruence. done. Qed.
Lemma cnt_nonneg c l : 0 <= cnt c l.
Proof. induction l as [|o l IH]; cbn; [lia|]. pose proof (isc_range c o). lia. Qed.
Lemma cnt_app c l l' : cnt c (l ++ l') = cnt c l + cnt c l'.
Proof. induction l as [|o l IH]; cbn; lia. Qed.
Lemma cnt_replicate c n : cnt c (replicate n None) = 0.
Proof. induction n as [|n IH]; cbn; [done|]. rewrite IH. done. Qed.
Lemma cnt_insert c l i v o : l !! i = Some o -> cnt c (<[i:=v]> l) = cnt c l - isc c o + isc c v.
Proof.
  revert i. induction l as [|x l IH]; intros [|i]; cbn; try done; [intros [= ->]; lia|]. intros H. rewrite IH by done. lia.
Qed.
Lemma cnt_lookup c l i : l !! i = Some (Some c) -> 1 <= cnt c l.
Proof.
  revert i. induction l as [|x l IH]; intros [|i]; cbn; try done.
  - intros [= ->]. rewrite isc_Some, decide_True by done. pose proof (cnt_nonneg c l). lia.
  - intros H. pose proof (isc_range c x). specialize (IH _ H). lia.
Qed.
Lemma cnt_none c l : (forall i, l !! i <> Some (Some c)) -> cnt c l = 0.
Proof.
  induction l as [|x l IH]; intros H; cbn; [done|]. rewrite IH by (intros i; apply (H (S i))).
  unfold isc. rewrite decide_False; [done|]. intros ->. by apply (H 0%nat).
Qed.

(** ** The invariant *)

(** The slots above [maxfd] are empty, and the array has not outgrown its
    bound. *)
Definition fok (f : Fgrp) : Prop :=
  0 <= maxfd f < nfd f /\ nfd f mod DELTAFD = 0 /\ nfd f <= 5000 /\
  forall i o, maxfd f < Z.of_nat i -> fds f !! i = Some o -> o = None.
(** A channel with references is not on the free list. *)
Definition alive (s : FS) : Prop := forall c, 0 < c_ref (chans s c) -> Z.land (c_flag (chans s c)) CFREE = 0.
(** The references of a channel that are not slots of this table, and counts
    that a routine cannot make overflow. *)
Definition slack (s : FS) (c : nat) : Z := c_ref (chans s c) - cnt c (fds (fg s)).
Definition room (s : FS) : Prop := forall c, c_ref (chans s c) + 5000 < 2 ^ 31.
Definition sok (s : FS) : Prop := fok (fg s) /\ alive s /\ forall c, 0 <= slack s c.

(** [s'] is a good store in which the outside references changed by [d]. *)
Definition gives (s s' : FS) (d : nat -> Z) : Prop :=
  fok (fg s') /\ alive s' /\ f_ref (fg s') = f_ref (fg s) /\ forall c, slack s' c = slack s c + d c.

Lemma zget_nat {A} (l : list A) (i : Z) : 0 <= i -> zget l i = l !! Z.to_nat i.
Proof. intros Hi. unfold zget. by rewrite (proj2 (Z.ltb_ge i 0)). Qed.
Lemma lookup_in (f : Fgrp) i : 0 <= i < nfd f -> exists o, fds f !! Z.to_nat i = Some o.
Proof. intros Hi. apply lookup_lt_is_Some. unfold nfd, zlen in Hi. lia. Qed.

Section wps.
Context {A : Type}.
Implicit Types (Q : A -> FS -> Prop) (R : Z -> FS -> Prop).

Lemma wp_getf (Q : Fgrp -> FS -> Prop) R s : Q (fg s) s -> wp getf Q R s.
Proof using. done. Qed.
Lemma wp_updf f (Q : () -> FS -> Prop) R s : Q tt (mkFS (f (fg s)) (chans s) (clunkq s)) -> wp (updf f) Q R s.
Proof using. done. Qed.
Lemma wp_getfd fd o (Q : option nat -> FS -> Prop) R s :
  0 <= fd -> fds (fg s) !! Z.to_nat fd = Some o -> Q o s -> wp (getfd fd) Q R s.
Proof using.
  intros Hf E HQ. unfold getfd. apply wp_bind, wp_getf. rewrite zget_nat, E by done. done.
Qed.
Lemma wp_setfd fd v (Q : () -> FS -> Prop) R s :
  0 <= fd < nfd (fg s) -> Q tt (mkFS (set_fds (<[Z.to_nat fd := v]> (fds (fg s))) (fg s)) (chans s) (clunkq s)) ->
  wp (setfd fd v) Q R s.
Proof using.
  intros Hf HQ. unfold setfd. apply wp_bind, wp_getf. rewrite (proj2 (Z.leb_le _ _)), (proj2 (Z.ltb_lt _ _)) by lia.
  done.
Qed.
End wps.

(** ** References *)

(** A store whose channels differ in one reference count. *)
Lemma slack_ref f ch k c x d :
  slack (mkFS f (<[c := x]> ch) k) d = slack (mkFS f ch k) d + (if decide (c = d) then c_ref x - c_ref (ch c) else 0).
Proof.
  unfold slack. cbn. destruct (decide (c = d)) as [->|Hn]; [rewrite fn_lookup_insert; lia|].
  rewrite fn_lookup_insert_ne by congruence. lia.
Qed.

Lemma wp_incref c (Q : () -> FS -> Prop) R s :
  alive s -> 0 < c_ref (chans s c) < 2 ^ 31 - 1 ->
  (forall s', fg s' = fg s -> alive s' -> clunkq s' = clunkq s ->
     (forall d, c_flag (chans s' d) = c_flag (chans s d) /\ c_mode (chans s' d) = c_mode (chans s d)) ->
     (forall d, slack s' d = slack s d + isc d (Some c)) -> Q tt s') ->
  wp (incref c) Q R s.
Proof.
  intros Ha Hc HQ. unfold incref. apply wp_bind, wp_gets. unfold id, updc. apply wp_bind, wp_modify.
  assert (i32 (c_ref (chans s c) + 1) = c_ref (chans s c) + 1) as E by (wraps; dlia). rewrite E.
  rewrite (proj2 (Z.leb_gt _ _)) by lia. apply wp_ret, HQ; try done.
  - intros d. cbn. destruct (decide (c = d)) as [->|Hn]; [|rewrite fn_lookup_insert_ne by congruence; apply Ha].
    rewrite fn_lookup_insert. cbn. intros _. apply Ha, Hc.
  - intros d. cbn. destruct (decide (c = d)) as [->|Hn]; [by rewrite fn_lookup_insert|by rewrite fn_lookup_insert_ne].
  - intros d. destruct s as [f ch k]. cbn [chans] in E. rewrite slack_ref, isc_Some. cbn in *. rewrite ?E. destruct (decide (c = d)) as [->|]; lia.
Qed.

(** Dropping a reference: the count falls by one; the last one frees. *)
Lemma wp_close_gen (fin : M FS ()) c (Q : () -> FS -> Prop) R s :
  alive s -> 0 < c_ref (chans s c) ->
  (forall s', fg s' = fg s -> alive s' -> (forall d, slack s' d = slack s d - isc d (Some c)) -> Q tt s') ->
  (forall s1, c_ref (chans s1 c) = 0 -> fg s1 = fg s ->
     (forall d, slack s1 d = slack s d - isc d (Some c)) ->
     (forall d, d <> c -> 0 < c_ref (chans s1 d) -> Z.land (c_flag (chans s1 d)) CFREE = 0) ->
     wp fin Q R s1) ->
  wp (s0 ← gets id;
      if bad_chan (chans s0 c) then leave FdPanic
      else r ← decref c; if negb (r =? 0) then mret tt else fin) Q R s.
Proof.
  intros Ha Hc HQ Hfin. apply wp_bind, wp_gets. unfold id, bad_chan.
  rewrite (proj2 (Z.ltb_ge _ _)), (Ha c Hc) by lia. cbn [orb negb Z.eqb].
  unfold decref, updc. apply wp_bind, wp_bind, wp_gets, wp_bind, wp_modify. unfold id.
  rewrite (proj2 (Z.ltb_ge (c_ref (chans s c) - 1) 0)) by lia. apply wp_ret.
  set (s1 := mkFS _ _ _).
  assert (forall d, slack s1 d = slack s d - isc d (Some c)) as Hs.
  { intros d. destruct s as [f ch k]. unfold s1. rewrite slack_ref, isc_Some. cbn.
    destruct (decide (c = d)) as [->|]; lia. }
  assert (forall d, d <> c -> 0 < c_ref (chans s1 d) -> Z.land (c_flag (chans s1 d)) CFREE = 0) as Hal.
  { intros d Hd. cbn. rewrite fn_lookup_insert_ne by congruence. apply Ha. }
  destruct (Z.eqb_spec (c_ref (chans s c) - 1) 0) as [E|E]; cbn [negb].
  - apply Hfin; try done. cbn. by rewrite fn_lookup_insert.
  - apply wp_ret, HQ; try done. intros d Hd. destruct (decide (d = c)) as [->|Hn]; [|by apply Hal].
    cbn. rewrite fn_lookup_insert. cbn. by apply Ha.
Qed.

Lemma wp_cclose c (Q : () -> FS -> Prop) R s :
  alive s -> 0 < c_ref (chans s c) ->
  (forall s', fg s' = fg s -> alive s' -> (forall d, slack s' d = slack s d - isc d (Some c)) -> Q tt s') ->
  wp (cclose c) Q R s.
Proof.
  intros Ha Hc HQ. apply wp_close_gen; try done. intros s1 Hz Hf Hs Hal. unfold updc. apply wp_modify, HQ; [done| |].
  - intros d. cbn. destruct (decide (c = d)) as [->|Hn]; [rewrite fn_lookup_insert; cbn; lia|].
    rewrite fn_lookup_insert_ne by congruence. apply Hal. congruence.
  - intros d. destruct s1 as [f ch k]. cbn in *. rewrite slack_ref, <- Hs. cbn. destruct (decide (c = d)); lia.
Qed.
Lemma wp_ccloseq c (Q : () -> FS -> Prop) R s :
  alive s -> 0 < c_ref (chans s c) ->
  (forall s', fg s' = fg s -> alive s' -> (forall d, slack s' d = slack s d - isc d (Some c)) -> Q tt s') ->
  wp (ccloseq c) Q R s.
Proof.
  intros Ha Hc HQ. apply wp_close_gen; try done. intros s1 Hz Hf Hs Hal. apply wp_modify, HQ; [done| |done].
  intros d. cbn. destruct (decide (c = d)) as [->|Hn]; [lia|]. apply Hal. congruence.
Qed.

(** ** The table's fields *)

Lemma DELTAFD_eq : DELTAFD = 20.
Proof. reflexivity. Qed.
Lemma fok_insert f fd v : fok f -> 0 <= fd <= maxfd f -> fok (set_fds (<[Z.to_nat fd := v]> (fds f)) f).
Proof.
  intros (H1 & H2 & H3 & H4) Hf. unfold fok, nfd, zlen in *. cbn. rewrite length_insert.
  split_and!; try done; try lia. intros i o Hi. rewrite list_lookup_insert_ne by lia. by apply H4.
Qed.
Lemma fok_maxfd f m : fok f -> maxfd f <= m < nfd f -> fok (set_maxfd m f).
Proof.
  intros (H1 & H2 & H3 & H4) Hm. unfold fok, nfd in *. cbn. split_and!; try done; try lia.
  intros i o Hi. apply H4. lia.
Qed.
Lemma fok_exceed f v : fok f -> fok (set_exceed v f).
Proof. done. Qed.
Lemma fok_grow f :
  fok f -> nfd f < 5000 -> fok (set_fds (fds f ++ replicate (Z.to_nat DELTAFD) None) f) /\
  nfd (set_fds (fds f ++ replicate (Z.to_nat DELTAFD) None) f) = nfd f + DELTAFD.
Proof.
  intros (H1 & H2 & H3 & H4) Hm. unfold fok, nfd, zlen in *. cbn [fds set_fds maxfd].
  rewrite length_app, length_replicate, DELTAFD_eq in *. split; [|lia].
  assert (Z.of_nat (length (fds f) + Z.to_nat 20) = Z.of_nat (length (fds f)) + 20) as -> by lia.
  split_and!; try lia; try dlia. intros i o Hi Hl. apply lookup_app_Some in Hl as [Hl|[_ Hl]]; [by eapply H4|].
  by apply lookup_replicate in Hl as [-> _].
Qed.

Lemma wp_growfd mem fd (Q : Z -> FS -> Prop) R s :
  fok (fg s) -> 0 <= fd ->
  (fd < nfd (fg s) -> Q 0 s) ->
  (nfd (fg s) <= fd -> nfd (fg s) + DELTAFD <= fd \/ 5000 <= nfd (fg s) \/ mem = false -> Q (-1) s) ->
  (forall s', nfd (fg s) <= fd < nfd (fg s) + DELTAFD -> mem = true /\ nfd (fg s) < 5000 -> fok (fg s') ->
     fds (fg s') = fds (fg s) ++ replicate (Z.to_nat DELTAFD) None -> maxfd (fg s') = fd ->
     f_ref (fg s') = f_ref (fg s) -> chans s' = chans s -> Q 1 s') ->
  wp (growfd mem fd) Q R s.
Proof.
  intros Hok Hfd Q0 Qm Q1. unfold growfd. apply wp_bind, wp_getf.
  destruct (Z.ltb_spec fd (nfd (fg s))); [by apply wp_ret, Q0|].
  destruct (Z.leb_spec (nfd (fg s) + DELTAFD) fd); [apply wp_ret, Qm; tauto|].
  destruct (Z.leb_spec 5000 (nfd (fg s))); [apply wp_ret, Qm; tauto|].
  destruct mem; cbn [negb]; [|apply wp_ret, Qm; tauto].
  apply wp_bind, wp_updf. destruct (fok_grow _ Hok ltac:(lia)) as [Hok' Hn].
  pose proof Hok as (Hmx & _). apply wp_bind. rewrite (proj2 (Z.ltb_lt _ _)) by lia.
  set (f1 := set_fds _ _) in *. apply wp_bind.
  assert (forall f2, fok f2 -> nfd f2 = nfd f1 -> maxfd f2 = maxfd f1 -> fds f2 = fds f1 -> f_ref f2 = f_ref f1 ->
    wp (updf (set_maxfd fd)) (fun _ s' => wp (mret 1) Q R s') R (mkFS f2 (chans s) (clunkq s))) as Hgo.
  { intros f2 Hf2 En Em Ef Er. apply wp_updf, wp_ret, Q1; cbn; try done; try (split; done); try lia. apply fok_maxfd; [done|].
    rewrite Em, En, Hn. change (maxfd f1) with (maxfd (fg s)). lia. }
  destruct (_ <? _); [apply wp_updf|apply wp_ret]; by apply Hgo.
Qed.

(** ** Finding a free slot *)

Lemma free_from_spec l k :
  exists n, (n <= length l)%nat /\ free_from l k = k + Z.of_nat n /\
    (forall i, (i < n)%nat -> exists c, l !! i = Some (Some c)) /\ ((n < length l)%nat -> l !! n = Some None).
Proof.
  revert k. induction l as [|[c|] l IH]; intros k; cbn.
  - exists 0%nat. split_and!; try lia; intros; lia.
  - destruct (IH (k + 1)) as (n & H1 & H2 & H3 & H4). exists (S n). split_and!; try lia.
    + intros [|i] Hi; [by exists c|]. cbn. apply H3. lia.
    + intros Hn. apply H4. lia.
  - exists 0%nat. split_and!; try lia; try done; intros; lia.
Qed.

(** The table after a search: as it was, or one step longer. *)
Definition grown (mem : bool) (l l' : list (option nat)) : Prop :=
  l' = l \/ l' = l ++ replicate (Z.to_nat DELTAFD) None /\ mem = true /\ zlen l < 5000.
Lemma grown_lookup mem l l' i o : grown mem l l' -> l !! i = Some o -> l' !! i = Some o.
Proof. intros [->|[-> _]] H; [done|]. by apply lookup_app_l_Some. Qed.
Lemma grown_cnt mem l l' c : grown mem l l' -> cnt c l' = cnt c l.
Proof. intros [->|[-> _]]; [done|]. rewrite cnt_app, cnt_replicate. lia. Qed.
Lemma grown_new mem l l' i o : grown mem l l' -> l' !! i = Some o -> l !! i = Some o \/ o = None.
Proof.
  intros [->|[-> _]] H; [by left|]. apply lookup_app_Some in H as [H|[_ H]]; [by left|]. right.
  by apply lookup_replicate in H as [-> _].
Qed.

(** All the slots from [start] to [fd] are in use. *)
Definition used (l : list (option nat)) (start fd : Z) : Prop :=
  forall i, start <= Z.of_nat i < fd -> exists c, l !! i = Some (Some c).

Lemma wp_findfreefd mem start (Q : Z -> FS -> Prop) R s :
  fok (fg s) -> 0 <= start <= nfd (fg s) ->
  (forall fd s', start <= fd < nfd (fg s') -> fok (fg s') -> grown mem (fds (fg s)) (fds (fg s')) ->
     maxfd (fg s) <= maxfd (fg s') -> used (fds (fg s)) start fd -> fds (fg s') !! Z.to_nat fd = Some None ->
     f_ref (fg s') = f_ref (fg s) -> chans s' = chans s -> Q fd s') ->
  (used (fds (fg s)) start (nfd (fg s)) -> 5000 <= nfd (fg s) \/ mem = false -> Q (-1) s) ->
  wp (findfreefd mem start) Q R s.
Proof.
  intros Hok Hst HQ Qm. unfold findfreefd. apply wp_bind, wp_getf.
  destruct (free_from_spec (drop (Z.to_nat start) (fds (fg s))) start) as (n & H1 & -> & H3 & H4).
  rewrite length_drop in H1, H4. assert (used (fds (fg s)) start (start + Z.of_nat n)) as Hu.
  { intros i Hi. destruct (H3 (i - Z.to_nat start)%nat) as [c Hc]; [lia|]. exists c. rewrite lookup_drop in Hc.
    by replace (Z.to_nat start + (i - Z.to_nat start))%nat with i in Hc by lia. }
  unfold nfd, zlen in Hst. destruct (Z.leb_spec (nfd (fg s)) (start + Z.of_nat n)) as [Hge|Hlt].
  - assert (start + Z.of_nat n = nfd (fg s)) as E by (unfold nfd, zlen in *; lia). rewrite E in *.
    apply wp_bind, wp_growfd; [done|unfold nfd, zlen; lia|lia| |].
    + intros _ Hc. apply wp_ret, Qm; [done|]. destruct Hc as [Hc|Hc]; [rewrite DELTAFD_eq in Hc; lia|done].
    + intros s' Hr Hwhy Hok' Ef Em Er Ec. rewrite (proj2 (Z.ltb_ge 1 0)) by lia. pose proof Hok as (Hm & _).
      apply wp_ret, HQ; try done.
      * unfold nfd, zlen in *. rewrite Ef, length_app, length_replicate, DELTAFD_eq in *. lia.
      * right. by destruct Hwhy.
      * lia.
      * rewrite Ef. unfold nfd, zlen. rewrite Nat2Z.id. rewrite lookup_app_r by lia. by rewrite Nat.sub_diag.
  - apply wp_ret, HQ; try done; [lia|by left|].
    replace (Z.to_nat (start + Z.of_nat n)) with (Z.to_nat start + n)%nat by lia.
    rewrite <- lookup_drop. apply H4. unfold nfd, zlen in Hlt. lia.
Qed.

(** What [newfd] leaves: the lowest free descriptor holds [c]. *)
Definition took_fd (mem : bool) (c : nat) (fd : Z) (s s' : FS) : Prop :=
  exists l, grown mem (fds (fg s)) l /\ 0 <= fd /\ used (fds (fg s)) 0 fd /\ l !! Z.to_nat fd = Some None /\
    fds (fg s') = <[Z.to_nat fd := Some c]> l.
Definition table_full (mem : bool) (s : FS) : Prop :=
  used (fds (fg s)) 0 (nfd (fg s)) /\ (5000 <= nfd (fg s) \/ mem = false).

Lemma wp_newfd mem c (Q : Z -> FS -> Prop) R s :
  fok (fg s) ->
  (forall fd s', took_fd mem c fd s s' -> fok (fg s') -> f_ref (fg s') = f_ref (fg s) -> chans s' = chans s -> Q fd s') ->
  (forall s', table_full mem s -> fds (fg s') = fds (fg s) -> fok (fg s') -> f_ref (fg s') = f_ref (fg s) ->
     chans s' = chans s -> Q (-1) s') ->
  wp (newfd mem c) Q R s.
Proof.
  intros Hok HQ Qm. unfold newfd. pose proof Hok as (Hm & _). apply wp_bind, wp_findfreefd; [done|lia| |].
  - intros fd s1 Hfd Hok1 Hg Hmx Hu Hnone Er Ec. rewrite (proj2 (Z.ltb_ge fd 0)) by lia.
    apply wp_bind, wp_getf, wp_bind.
    assert (forall f2, fok f2 -> fds f2 = fds (fg s1) -> fd <= maxfd f2 -> f_ref f2 = f_ref (fg s1) ->
      wp (setfd fd (Some c);; unlockfgrp;; mret fd) Q R (mkFS f2 (chans s1) (clunkq s1))) as Hgo.
    { intros f2 Hf2 Ef Hle Er2. unfold unlockfgrp.
      apply wp_bind, wp_setfd; [cbn [fg]; unfold nfd in *; rewrite Ef; lia|].
      apply wp_bind, wp_updf, wp_ret, HQ; cbn; try congruence.
      - exists (fds (fg s1)). rewrite <- Ef. cbn. split_and!; rewrite ?Ef; try done; lia.
      - apply fok_exceed, fok_insert; [done|lia]. }
    destruct (Z.ltb_spec (maxfd (fg s1)) fd).
    + apply wp_updf, Hgo; [|done|cbn; lia|done]. apply fok_maxfd; [done|lia].
    + apply wp_ret. destruct s1. by apply Hgo.
  - intros Hu Hw. change (-1 <? 0) with true. cbv iota. unfold unlockfgrp. apply wp_bind, wp_updf, wp_ret, Qm; try done.
Qed.

(** ** Descriptors to channels *)

Lemma slot_ref s c i : (forall d, 0 <= slack s d) -> fds (fg s) !! i = Some (Some c) -> 0 < c_ref (chans s c).
Proof. intros Hs Hi. specialize (Hs c). unfold slack in Hs. pose proof (cnt_lookup c _ _ Hi). lia. Qed.
Lemma slack_ref_pos s c : 0 < slack s c -> 0 < c_ref (chans s c).
Proof. unfold slack. pose proof (cnt_nonneg c (fds (fg s))). lia. Qed.

(** The descriptor names [c]. *)
Definition names (s : FS) (fd : Z) (c : nat) : Prop :=
  0 <= fd < nfd (fg s) /\ fds (fg s) !! Z.to_nat fd = Some (Some c).
Definition bad_mode (s : FS) (c : nat) (mode : Z) (chkmnt : bool) : bool :=
  chkmnt && negb (Z.land (c_flag (chans s c)) CMSG =? 0) ||
  negb ((mode =? anymode) || (c_mode (chans s c) =? ORDWR)) && negb (Z.land mode (c_mode (chans s c)) =? mode).

Lemma wp_fdtochan fd mode (chk iref : bool) (Q : nat -> FS -> Prop) R s :
  sok s -> (iref = true -> room s) ->
  (forall c s', names s fd c -> bad_mode s c mode chk = false -> fg s' = fg s -> alive s' ->
     (forall d, slack s' d = slack s d + (if iref then isc d (Some c) else 0)) -> Q c s') ->
  ((forall c, ~ names s fd c) -> R Ebadfd s) ->
  (forall c s', names s fd c -> bad_mode s c mode chk = true -> fg s' = fg s -> alive s' ->
     (forall d, slack s' d = slack s d) -> R Ebadusefd s') ->
  wp (fdtochan fd mode chk iref) Q R s.
Proof.
  intros (Hok & Hal & Hsl) Hroom HQ Hbad Huse. unfold fdtochan. apply wp_bind, wp_getf.
  destruct ((fd <? 0) || (nfd (fg s) <=? fd)) eqn:Er.
  { apply wp_leave, Hbad. intros c [Hr _]. apply orb_true_iff in Er as [?%Z.ltb_lt|?%Z.leb_le]; lia. }
  apply orb_false_iff in Er as [H1%Z.ltb_ge H2%Z.leb_gt]. destruct (lookup_in (fg s) fd ltac:(lia)) as [o Ho].
  apply wp_bind, (wp_getfd fd o); [done..|]. destruct o as [c|].
  2: { apply wp_leave, Hbad. intros c [_ Hc]. congruence. }
  assert (names s fd c) as Hnm by (split; [lia|done]).
  pose proof (slot_ref _ _ _ Hsl Ho) as Hpos.
  assert (forall s1, fg s1 = fg s -> alive s1 ->
    (forall d, c_flag (chans s1 d) = c_flag (chans s d) /\ c_mode (chans s1 d) = c_mode (chans s d)) ->
    (forall d, slack s1 d = slack s d + (if iref then isc d (Some c) else 0)) ->
    wp (s0 ← gets id;
        let x := chans s0 c in
        if chk && negb (Z.land (c_flag x) CMSG =? 0) then (if iref then cclose c else mret tt);; leave Ebadusefd
        else if (mode =? anymode) || (c_mode x =? ORDWR) then mret c
        else if negb (Z.land mode (c_mode x) =? mode) then (if iref then cclose c else mret tt);; leave Ebadusefd
        else mret c) Q R s1) as Hgo.
  { intros s1 Hf Ha Hfl Hs. apply wp_bind, wp_gets. unfold id. cbv zeta. destruct (Hfl c) as [-> ->].
    assert (bad_mode s c mode chk = true -> wp ((if iref then cclose c else mret tt);; leave Ebadusefd) Q R s1) as Hb.
    { intros Hb. apply wp_bind. destruct iref.
      - apply wp_cclose; [done| |].
        + apply slack_ref_pos. rewrite Hs, isc_Some, decide_True by done. specialize (Hsl c). lia.
        + intros s2 Hf2 Ha2 Hs2. apply wp_leave, (Huse c); [done|done|congruence|done|].
          intros d. rewrite Hs2, Hs. lia.
      - apply wp_ret, wp_leave, (Huse c); try done. intros d. rewrite Hs. lia. }
    unfold bad_mode in *. destruct (chk && negb (Z.land (c_flag (chans s c)) CMSG =? 0)) eqn:E1; [by apply Hb|].
    destruct ((mode =? anymode) || (c_mode (chans s c) =? ORDWR)) eqn:E2; cbn [negb orb andb] in *.
    { apply wp_ret, HQ; try done. rewrite E1, E2. done. }
    destruct (negb (Z.land mode (c_mode (chans s c)) =? mode)) eqn:E3; [by apply Hb|].
    apply wp_ret, HQ; try done. rewrite E1, E2, E3. done. }
  apply wp_bind. destruct iref.
  - apply wp_incref; [done|specialize (Hroom eq_refl c); lia|]. intros s1 Hf Ha _ Hfl Hs. by apply Hgo.
  - apply wp_ret, Hgo; try done. intros d. lia.
Qed.

(** ** [dup] *)

Lemma slack_set f ch k l d :
  slack (mkFS (set_fds l f) ch k) d = slack (mkFS f ch k) d + cnt d (fds f) - cnt d l.
Proof. unfold slack. cbn. lia. Qed.
Lemma slack_fg f f' ch k k' d : fds f' = fds f -> slack (mkFS f' ch k) d = slack (mkFS f ch k') d.
Proof. unfold slack. cbn. by intros ->. Qed.
Lemma gives_eq s s' d : fok (fg s') -> f_ref (fg s') = f_ref (fg s) -> alive s ->
  chans s' = chans s -> (forall c, cnt c (fds (fg s')) = cnt c (fds (fg s)) - d c) -> gives s s' d.
Proof.
  intros H1 H2 Ha Hc Hn. split_and!; [done| |done|].
  - intros c. rewrite Hc. apply Ha.
  - intros c. unfold slack. rewrite Hc, Hn. lia.
Qed.

Lemma took_fd_cnt mem c fd s s' d : took_fd mem c fd s s' -> cnt d (fds (fg s')) = cnt d (fds (fg s)) + isc d (Some c).
Proof. intros (l & Hg & _ & _ & Hl & ->). rewrite (cnt_insert _ _ _ _ _ Hl), (grown_cnt _ _ _ _ Hg), isc_None. lia. Qed.

(** The outcomes of [sysdup]. *)
Definition dup_ok (mem : bool) (ofd nfd' r : Z) (s s' : FS) : Prop :=
  exists c, names s ofd c /\
    if nfd' =? -1 then took_fd mem c r s s'
    else r = nfd' /\ 0 <= r /\ exists l, grown mem (fds (fg s)) l /\ fds (fg s') = <[Z.to_nat r := Some c]> l.
Lemma dup_ok_fds mem ofd nfd' r s s1 s2 : fds (fg s2) = fds (fg s1) -> dup_ok mem ofd nfd' r s s1 -> dup_ok mem ofd nfd' r s s2.
Proof. intros E. unfold dup_ok, took_fd. by rewrite E. Qed.
Definition dup_err (mem : bool) (ofd nfd' v : Z) (s s' : FS) : Prop :=
  fds (fg s') = fds (fg s) /\
  (v = Ebadfd /\ ((forall c, ~ names s ofd c) \/
     nfd' < -1 \/ nfd (fg s) <= nfd' /\ (nfd (fg s) + DELTAFD <= nfd' \/ 5000 <= nfd (fg s) \/ mem = false)) \/
   v = Enofd /\ nfd' = -1 /\ table_full mem s).

Lemma wp_sysdup_to mem ofd nfd' c s s1 (Q : Z -> FS -> Prop) R :
  sok s -> names s ofd c -> 0 <= nfd' -> fg s1 = fg s -> alive s1 ->
  (forall d, slack s1 d = slack s d + isc d (Some c)) ->
  (forall s2, fok (fg s2) -> f_ref (fg s2) = f_ref (fg s) -> grown mem (fds (fg s)) (fds (fg s2)) ->
     nfd' < nfd (fg s2) -> chans s2 = chans s1 ->
     (forall r s', gives s s' (fun _ => 0) -> dup_ok mem ofd nfd' r s s' -> Q r s') ->
     wp (f ← getf;
         (if maxfd f <? nfd' then updf (set_maxfd nfd') else mret tt);;
         nc ← getfd nfd';
         setfd nfd' (Some c);;
         unlockfgrp;;
         (match nc with Some nc => cclose nc | None => mret tt end);;
         mret nfd') Q R s2).
Proof.
  intros (Hok & Hal & Hsl) Hnm H0 Hf1 Ha1 Hs1 s2 Hok2 Er2 Hg Hlt Hc2 HQ.
  apply wp_bind, wp_getf, wp_bind.
  assert (forall f2, fok f2 -> f_ref f2 = f_ref (fg s) -> fds f2 = fds (fg s2) -> nfd' <= maxfd f2 ->
    wp (nc ← getfd nfd';
         setfd nfd' (Some c);;
         unlockfgrp;;
         (match nc with Some nc => cclose nc | None => mret tt end);;
         mret nfd') Q R (mkFS f2 (chans s2) (clunkq s2))) as Hgo.
  { intros f2 Hf2 Erf Ef Hle. destruct (lookup_in f2 nfd') as [o Ho]; [unfold nfd in *; rewrite Ef; lia|].
    apply wp_bind, (wp_getfd nfd' o); [done|done|]. apply wp_bind, wp_setfd; [unfold nfd in *; cbn; rewrite Ef; lia|].
    unfold unlockfgrp. apply wp_bind, wp_updf, wp_bind. cbn [fg chans clunkq].
    set (s3 := mkFS _ _ _).
    assert (fok (fg s3)) as Hok3 by (apply fok_exceed, fok_insert; [done|lia]).
    assert (alive s3) as Ha3 by (intros d; cbn; rewrite Hc2; apply Ha1).
    assert (forall d, slack s3 d = slack s d + isc d o) as Hs3.
    { intros d. unfold slack. cbn. rewrite (cnt_insert _ _ _ _ _ Ho), Ef, (grown_cnt _ _ _ _ Hg), Hc2.
      specialize (Hs1 d). unfold slack in Hs1. rewrite Hf1 in Hs1. lia. }
    assert (dup_ok mem ofd nfd' nfd' s s3) as Hd.
    { exists c. split; [done|]. rewrite (proj2 (Z.eqb_neq _ _)) by lia. split; [done|]. split; [done|].
      exists (fds (fg s2)). split; [done|]. cbn. by rewrite Ef. }
    destruct o as [nc|].
    - apply wp_cclose; [done| |].
      + apply slack_ref_pos. rewrite Hs3, isc_Some, decide_True by done. specialize (Hsl nc). lia.
      + intros s4 Hf4 Ha4 Hs4. apply wp_ret, HQ.
        * split_and!; [by rewrite Hf4|done|by rewrite Hf4|]. intros d. rewrite Hs4, Hs3. lia.
        * by eapply dup_ok_fds; [|exact Hd]; rewrite Hf4.
    - apply wp_ret, wp_ret, HQ; [|done]. by split_and!. }
  destruct (Z.ltb_spec (maxfd (fg s2)) nfd').
  - apply wp_updf, Hgo; [|done|done|cbn; lia]. apply fok_maxfd; [done|lia].
  - apply wp_ret. destruct s2. by apply Hgo.
Qed.

Lemma wp_sysdup mem ofd nfd' (Q : Z -> FS -> Prop) R s :
  sok s -> room s ->
  (forall r s', gives s s' (fun _ => 0) -> dup_ok mem ofd nfd' r s s' -> Q r s') ->
  (forall v s', gives s s' (fun _ => 0) -> dup_err mem ofd nfd' v s s' -> R v s') ->
  wp (sysdup mem ofd nfd') Q R s.
Proof.
  intros Hs Hroom HQ HR. pose proof Hs as (Hok & Hal & Hsl). unfold sysdup. apply wp_bind, wp_fdtochan; [done|done| | |].
  3: { intros c s' _ Hb. unfold bad_mode in Hb. cbn in Hb. by rewrite Z.eqb_refl in Hb. }
  2: { intros Hn. apply HR; [by apply gives_eq; try done; intros; lia|]. split; [done|]. left. tauto. }
  intros c s1 Hnm _ Hf1 Ha1 Hs1.
  assert (forall v s2, fok (fg s2) -> f_ref (fg s2) = f_ref (fg s) -> fds (fg s2) = fds (fg s) -> chans s2 = chans s1 ->
    (forall s3, fds (fg s3) = fds (fg s) -> dup_err mem ofd nfd' v s s3) -> wp (cclose c;; leave v) Q R s2) as Hfail.
  { intros v s2 Ho2 Er2 Ef2 Hc2 Hd. assert (forall d, slack s2 d = slack s d + isc d (Some c)) as Hs2.
    { intros d. rewrite <- Hs1. unfold slack. by rewrite Hc2, Ef2, Hf1. }
    apply wp_bind, wp_cclose.
    - intros d. rewrite Hc2. apply Ha1.
    - apply slack_ref_pos. rewrite Hs2, isc_Some, decide_True by done. specialize (Hsl c). lia.
    - intros s3 Hf3 Ha3 Hs3. apply wp_leave, HR; [|apply Hd; by rewrite Hf3].
      split_and!; [by rewrite Hf3|done|by rewrite Hf3|]. intros d. rewrite Hs3, Hs2. lia. }
  destruct (Z.eqb_spec nfd' (-1)) as [->|Hn1]; cbn [negb].
  - apply wp_bind, wp_newfd; [by rewrite Hf1| |].
    + intros fd s2 Ht Ho2 Er2 Hc2. pose proof Ht as (_ & _ & Hfd & _). rewrite (proj2 (Z.ltb_ge fd 0)) by lia.
      apply wp_ret, HQ.
      * split_and!; [done|intros d; rewrite Hc2; apply Ha1|by rewrite Er2, Hf1|]. intros d. specialize (Hs1 d).
        unfold slack in *. rewrite (took_fd_cnt _ _ _ _ _ _ Ht), Hc2, Hf1 in *. lia.
      * exists c. split; [done|]. cbn. unfold took_fd in *. by rewrite Hf1 in Ht.
    + intros s2 Hfull Ef2 Ho2 Er2 Hc2. change (-1 <? 0) with true. cbv iota.
      apply Hfail; [done|by rewrite Er2, Hf1|by rewrite Ef2, Hf1|done|].
      intros s3 Ef3. split; [done|]. right. unfold table_full in *. rewrite Hf1 in Hfull. tauto.
  - destruct (Z.ltb_spec nfd' 0) as [Hneg|Hpos].
    + apply wp_bind, wp_ret. change (-1 <? 0) with true. cbv iota. unfold unlockfgrp. apply wp_bind, wp_updf.
      apply Hfail; cbn; rewrite ?Hf1; try done. intros s3 Ef3. split; [done|]. left. split; [done|]. right. left. lia.
    + apply wp_bind, wp_growfd; [by rewrite Hf1|done| | |].
      * intros Hlt. rewrite (proj2 (Z.ltb_ge 0 0)) by lia.
        apply (wp_sysdup_to mem ofd nfd' c s s1 Q R Hs Hnm Hpos Hf1 Ha1 Hs1 s1);
          [by rewrite Hf1|by rewrite Hf1|left; by rewrite Hf1|done|done|done].
      * rewrite Hf1. intros Hge Hwhy. change (-1 <? 0) with true. cbv iota. unfold unlockfgrp. apply wp_bind, wp_updf.
        apply Hfail; cbn; rewrite ?Hf1; try done. intros s3 Ef3. split; [done|]. left. split; [done|]. right. right. done.
      * rewrite Hf1. intros s2 Hr Hwhy Ho2 Ef2 Em2 Er2 Hc2. rewrite (proj2 (Z.ltb_ge 1 0)) by lia.
        apply (wp_sysdup_to mem ofd nfd' c s s1 Q R Hs Hnm Hpos Hf1 Ha1 Hs1 s2); [done|congruence|right; destruct Hwhy; split; [congruence|done]| |done|done].
        unfold nfd, zlen in *. rewrite Ef2, length_app, length_replicate, DELTAFD_eq in *. lia.
Qed.

(** ** [close] *)

Lemma lower_maxfd_spec l n mx :
  (n <= length l)%nat -> Z.of_nat n <= mx ->
  exists m, lower_maxfd (reverse (take n l)) (Z.of_nat n) mx = m /\ (m = mx \/ 0 <= m < Z.of_nat n) /\
    (forall i, m <= Z.of_nat i -> (i < n)%nat -> l !! i = Some None).
Proof.
  revert mx. induction n as [|n IH]; intros mx Hn Hm.
  { exists mx. split_and!; [done|by left|]. intros; lia. }
  destruct (lookup_lt_is_Some_2 l n ltac:(lia)) as [o Ho].
  rewrite (take_S_r _ _ _ Ho), reverse_snoc. cbn [lower_maxfd]. destruct o as [c|].
  - exists mx. split_and!; [done|by left|]. intros; lia.
  - replace (Z.of_nat (S n) - 1) with (Z.of_nat n) by lia.
    destruct (IH (Z.of_nat n) ltac:(lia) ltac:(lia)) as (m & E & Hr & Hi). exists m. split_and!; [done| |].
    + right. lia.
    + intros i Hi1 Hi2. destruct (decide (i = n)) as [->|]; [done|]. apply Hi; lia.
Qed.

Lemma wp_fdclose fd flag (Q : () -> FS -> Prop) R s :
  sok s -> 0 <= fd < nfd (fg s) ->
  ((forall c, ~ names s fd c) -> Q tt s) ->
  (forall c, names s fd c -> flag <> 0 -> Z.land (c_flag (chans s c)) flag = 0 -> Q tt s) ->
  (forall c s', names s fd c -> flag = 0 \/ Z.land (c_flag (chans s c)) flag <> 0 -> gives s s' (fun _ => 0) ->
     fds (fg s') = <[Z.to_nat fd := None]> (fds (fg s)) -> Q tt s') ->
  wp (fdclose fd flag) Q R s.
Proof.
  intros (Hok & Hal & Hsl) Hfd Hnone Hflag HQ. unfold fdclose. destruct (lookup_in _ _ Hfd) as [o Ho].
  apply wp_bind, (wp_getfd fd o); [lia|done|]. destruct o as [c|].
  2: { apply wp_ret, Hnone. intros c [_ Hc]. congruence. }
  assert (names s fd c) as Hnm by done. apply wp_bind, wp_gets. unfold id.
  destruct (Z.eqb_spec flag 0) as [Ef|Ef], (Z.eqb_spec (Z.land (c_flag (chans s c)) flag) 0) as [Ec|Ec]; cbn [negb andb];
    try (apply wp_ret; by apply (Hflag c)).
  all: assert (forall s1, fok (fg s1) -> f_ref (fg s1) = f_ref (fg s) -> chans s1 = chans s ->
      fds (fg s1) = <[Z.to_nat fd := None]> (fds (fg s)) -> wp (cclose c) Q R s1) as Hgo.
  all: try (intros s1 Ho1 Er1 Ec1 Ef1;
    assert (forall d, slack s1 d = slack s d + isc d (Some c)) as Hs1
      by (intros d; unfold slack; rewrite Ec1, Ef1, (cnt_insert _ _ _ _ _ Ho), isc_None; lia);
    apply wp_cclose;
      [intros d; rewrite Ec1; apply Hal
      |apply slack_ref_pos; rewrite Hs1, isc_Some, decide_True by done; specialize (Hsl c); lia
      |intros s2 Hf2 Ha2 Hs2; apply (HQ c);
        [done|tauto|split_and!; [by rewrite Hf2|done|by rewrite Hf2|intros d; rewrite Hs2, Hs1; lia]|by rewrite Hf2]]).
  all: apply wp_bind, wp_setfd; [done|]; apply wp_bind, wp_getf, wp_bind; cbn [fg chans clunkq maxfd set_fds fds].
  all: set (f1 := set_fds _ _); pose proof Hok as (Hm & Hmod & Hle & Hab).
  all: assert (fd <= maxfd (fg s)) as Hfm
    by (destruct (Z.le_gt_cases fd (maxfd (fg s))) as [|Hgt]; [done|]; by specialize (Hab (Z.to_nat fd) _ ltac:(lia) Ho)).
  all: assert (fok f1) as Hok1 by (apply fok_insert; [done|lia]).
  all: destruct (Z.eqb_spec fd (maxfd (fg s))) as [Emax|Emax]; [apply wp_updf|apply wp_ret]; apply Hgo; try done; cbn [fg].
  all: destruct (lower_maxfd_spec (<[Z.to_nat fd:=None]> (fds (fg s))) (Z.to_nat fd) (maxfd (fg s))) as (m & Em & Hmr & Hmi);
    [rewrite length_insert; unfold nfd, zlen in Hfd; lia|lia|]; rewrite Z2Nat.id in Em by lia;
    rewrite Em; destruct Hok1 as (H1 & H2 & H3 & H4); unfold fok, nfd in *; cbn in *; split_and!; try done; try lia;
    intros i x Hi Hx; destruct (Z.lt_ge_cases (maxfd (fg s)) (Z.of_nat i)); [by eapply H4|];
    destruct (Z.eq_dec (Z.of_nat i) fd) as [Ei|Ei];
    [replace i with (Z.to_nat fd) in Hx by lia; rewrite list_lookup_insert_eq in Hx by (unfold zlen in *; lia); congruence
    |rewrite Hmi in Hx by lia; congruence].
Qed.

Lemma wp_sysclose fd (Q : Z -> FS -> Prop) R s :
  sok s ->
  (forall c s', names s fd c -> gives s s' (fun _ => 0) -> fds (fg s') = <[Z.to_nat fd := None]> (fds (fg s)) -> Q 0 s') ->
  ((forall c, ~ names s fd c) -> R Ebadfd s) ->
  wp (sysclose fd) Q R s.
Proof.
  intros Hs HQ HR. unfold sysclose. apply wp_bind, wp_fdtochan; [done|done| |done|].
  2: { intros c s' _ Hb. unfold bad_mode in Hb. cbn in Hb. by rewrite Z.eqb_refl in Hb. }
  intros c s1 Hnm _ Hf1 Ha1 Hs1. pose proof Hs as (Hok & Hal & Hsl).
  assert (sok s1) as Hs1' by (split_and!; [by rewrite Hf1|done|intros d; rewrite Hs1; specialize (Hsl d); lia]).
  assert (names s1 fd c) as Hnm1 by (unfold names; by rewrite Hf1).
  apply wp_bind, wp_fdclose; [done|apply Hnm1| | |].
  - intros Hno. by destruct (Hno c).
  - by intros d _ [].
  - intros d s2 Hd _ (G1 & G2 & G3 & G4) Ef2. apply wp_ret, (HQ c); [done| |by rewrite Ef2, Hf1].
    split_and!; [done|done|by rewrite G3, Hf1|]. intros e. rewrite G4, Hs1. lia.
Qed.
