(* ===== verification/FgrpProps.v ===== *)
(** * Descriptor tables: copying and closing tables, and the properties *)
From S2P Require Import Prelude CMonad Fgrp FgrpThms.
From stdpp Require Import list relations.
Local Open Scope Z_scope.

(** ** A pair of descriptors *)

(** What a successful [newfd2] leaves: [fd0] and [fd1] are the two lowest free
    descriptors. *)
Definition took_fd2 (mem : bool) (c0 c1 : nat) (fd0 fd1 : Z) (s s' : FS) : Prop :=
  exists l1 l, grown mem (fds (fg s)) l1 /\ grown mem l1 l /\ 0 <= fd0 < fd1 /\
    used l 0 fd0 /\ used l (fd0 + 1) fd1 /\
    l !! Z.to_nat fd0 = Some None /\ l !! Z.to_nat fd1 = Some None /\
    fds (fg s') = <[Z.to_nat fd1 := Some c1]> (<[Z.to_nat fd0 := Some c0]> l).

Lemma grown_used mem l l' a b : grown mem l l' -> used l a b -> used l' a b.
Proof. intros Hg Hu i Hi. destruct (Hu i Hi) as [c Hc]. exists c. by eapply grown_lookup. Qed.

Lemma took_fd2_cnt mem c0 c1 fd0 fd1 s s' d :
  took_fd2 mem c0 c1 fd0 fd1 s s' ->
  cnt d (fds (fg s')) = cnt d (fds (fg s)) + isc d (Some c0) + isc d (Some c1).
Proof.
  intros (l1 & l & Hg1 & Hg & Hr & _ & _ & H0 & H1 & ->).
  rewrite (cnt_insert d (<[Z.to_nat fd0:=Some c0]> l) _ (Some c1) None), (cnt_insert _ _ _ _ _ H0), (grown_cnt _ _ _ _ Hg), (grown_cnt _ _ _ _ Hg1), isc_None; [lia|].
  rewrite list_lookup_insert_ne by lia. done.
Qed.

Lemma wp_newfd2 mem c0 c1 (Q : Z * (Z * Z) -> FS -> Prop) R s :
  fok (fg s) ->
  (forall fd0 fd1 s', took_fd2 mem c0 c1 fd0 fd1 s s' -> fok (fg s') -> f_ref (fg s') = f_ref (fg s) ->
     chans s' = chans s -> Q (0, (fd0, fd1)) s') ->
  (forall p s', fok (fg s') -> f_ref (fg s') = f_ref (fg s) -> chans s' = chans s ->
     grown mem (fds (fg s)) (fds (fg s')) -> Q (-1, p) s') ->
  wp (newfd2 mem c0 c1) Q R s.
Proof.
  intros Hok HQ Qm. unfold newfd2, unlockfgrp. pose proof Hok as (Hm & _). apply wp_bind, wp_findfreefd; [done|lia| |].
  2: { intros _ _. change (-1 <? 0) with true. cbv iota. apply wp_bind, wp_updf, wp_ret, Qm; try done. by left. }
  intros fd0 s1 H0 Hok1 Hg1 Hmx1 Hu0 Hn0 Er1 Ec1. rewrite (proj2 (Z.ltb_ge fd0 0)) by lia.
  apply wp_bind, wp_findfreefd; [done|lia| |].
  2: { intros _ _. change (-1 <? 0) with true. cbv iota. apply wp_bind, wp_updf, wp_ret, Qm; cbn; done. }
  intros fd1 s2 H1 Hok2 Hg2 Hmx2 Hu1 Hn1 Er2 Ec2. rewrite (proj2 (Z.ltb_ge fd1 0)) by lia.
  apply wp_bind, wp_getf, wp_bind. pose proof (grown_lookup _ _ _ _ _ Hg2 Hn0) as Hn0'.
  assert (forall f2, fok f2 -> fds f2 = fds (fg s2) -> fd1 <= maxfd f2 -> f_ref f2 = f_ref (fg s2) ->
    wp (setfd fd0 (Some c0);; setfd fd1 (Some c1);; updf (set_exceed 0);; mret (0, (fd0, fd1))) Q R
      (mkFS f2 (chans s2) (clunkq s2))) as Hgo.
  { intros f2 Hf2 Ef Hle Er. apply wp_bind, wp_setfd; [cbn [fg]; unfold nfd in *; rewrite Ef; lia|].
    apply wp_bind, wp_setfd; [cbn; unfold nfd, zlen in *; cbn; rewrite length_insert, Ef; lia|]. cbn [fg chans clunkq].
    apply wp_bind, wp_updf, wp_ret, HQ; cbn [fg fds set_fds set_exceed f_ref chans]; try congruence.
    - exists (fds (fg s1)), (fds (fg s2)). cbn. rewrite Ef. split_and!; try done; try lia.
      + by do 2 (eapply grown_used; [done|]).
      + by eapply grown_used.
    - pose proof (fok_insert f2 fd0 (Some c0) Hf2 ltac:(lia)) as Hf3.
      pose proof (fok_insert _ fd1 (Some c1) Hf3 ltac:(cbn; lia)) as Hf4. done. }
  destruct (Z.ltb_spec (maxfd (fg s2)) fd1).
  - apply wp_updf, Hgo; [|done|cbn; lia|done]. apply fok_maxfd; [done|lia].
  - apply wp_ret. destruct s2. by apply Hgo.
Qed.

(** ** Copying a table *)

Lemma wp_incref_all l (Q : () -> FS -> Prop) R s :
  alive s -> (forall c, In (Some c) l -> 0 < c_ref (chans s c) /\ c_ref (chans s c) + cnt c l < 2 ^ 31) ->
  (forall s', fg s' = fg s -> alive s' -> clunkq s' = clunkq s ->
     (forall d, slack s' d = slack s d + cnt d l) -> Q tt s') ->
  wp (incref_all l) Q R s.
Proof.
  revert s. induction l as [|[c|] l IH]; intros s Ha Hin HQ; cbn [incref_all].
  - apply wp_ret, HQ; try done. intros d. cbn. lia.
  - destruct (Hin c (or_introl eq_refl)) as [Hc1 Hc2].
    cbn [cnt] in Hc2. rewrite isc_Some, decide_True in Hc2 by done. pose proof (cnt_nonneg c l).
    apply wp_bind, wp_incref; [done|lia|]. intros s1 Hf1 Ha1 Hk1 _ Hs1. apply IH; [done| |].
    + intros d Hd. specialize (Hin d (or_intror Hd)). specialize (Hs1 d). unfold slack in Hs1. rewrite Hf1 in Hs1.
      cbn [cnt] in Hin. pose proof (isc_range d (Some c)). lia.
    + intros s2 Hf2 Ha2 Hk2 Hs2. apply HQ; [congruence|done|congruence|]. intros d. rewrite Hs2, Hs1. cbn [cnt]. lia.
  - apply IH; [done| |].
    + intros d Hd. destruct (Hin d (or_intror Hd)) as [H1 H2]. cbn [cnt] in H2. rewrite isc_None in H2. lia.
    + intros s2 Hf2 Ha2 Hk2 Hs2. by apply HQ.
Qed.

Lemma cnt_length c l : cnt c l <= zlen l.
Proof. induction l as [|o l IH]; cbn [cnt]; rewrite ?zlen_cons; [done|]. pose proof (isc_range c o). lia. Qed.
Lemma cnt_take_fok f c : fok f -> cnt c (take (Z.to_nat (maxfd f + 1)) (fds f)) = cnt c (fds f).
Proof.
  intros (Hm & _ & _ & Ha). rewrite <- (take_drop (Z.to_nat (maxfd f + 1)) (fds f)) at 2. rewrite cnt_app.
  rewrite (cnt_none c (drop _ _)); [lia|]. intros i Hi. rewrite lookup_drop in Hi. apply Ha in Hi; [done|lia].
Qed.

(** The copy: the slots in use, rounded up to a multiple of [DELTAFD]. *)
Definition copied (f new : Fgrp) : Prop :=
  fok new /\ f_ref new = 1 /\ maxfd new = maxfd f /\ nfd new <= nfd f /\
  (forall c, cnt c (fds new) = cnt c (fds f)) /\
  forall i, Z.of_nat i < nfd new -> fds new !! i = fds f !! i.

Lemma copy_ok f n :
  fok f -> maxfd f + 1 <= n <= nfd f -> n mod DELTAFD = 0 ->
  let used := take (Z.to_nat (maxfd f + 1)) (fds f) in
  copied f (mkFgrp (used ++ replicate (Z.to_nat n - length used) None) (maxfd f) 0 1).
Proof.
  intros Hok Hn Hmod used. pose proof Hok as (Hm & _ & Hle & Ha).
  assert (length used = Z.to_nat (maxfd f + 1)) as El by (unfold used, nfd, zlen in *; rewrite length_take; lia).
  assert (nfd (mkFgrp (used ++ replicate (Z.to_nat n - length used) None) (maxfd f) 0 1) = n) as En
    by (unfold nfd, zlen; cbn; rewrite length_app, length_replicate; lia).
  assert (forall i o, fds f !! i = Some o -> Z.of_nat i < n ->
    (used ++ replicate (Z.to_nat n - length used) None) !! i = Some o) as Hl.
  { intros i o Ho Hi. destruct (decide (i < length used)%nat).
    - rewrite lookup_app_l by done. unfold used. rewrite lookup_take_lt by lia. done.
    - rewrite lookup_app_r by lia. rewrite (Ha i o) by (done || lia). apply lookup_replicate. split; [done|lia]. }
  unfold copied, fok. rewrite En. cbn [maxfd f_ref fds]. split_and!; try done; try lia.
  - intros i o Hi H. apply lookup_app_Some in H as [H|[_ H]]; [|by apply lookup_replicate in H as [-> _]].
    apply lookup_lt_Some in H. lia.
  - intros c. rewrite cnt_app, cnt_replicate. unfold used. rewrite cnt_take_fok by done. lia.
  - intros i Hi. unfold nfd, zlen in Hn. destruct (lookup_lt_is_Some_2 (fds f) i ltac:(lia)) as [o Ho].
    rewrite Ho. by apply Hl.
Qed.

Lemma wp_dupfgrp mem (Q : Fgrp -> FS -> Prop) R s :
  sok s -> room s ->
  (forall new s', mem = true -> copied (fg s) new -> fg s' = fg s -> alive s' -> clunkq s' = clunkq s ->
     (forall d, slack s' d = slack s d + cnt d (fds new)) -> Q new s') ->
  (mem = false -> R Enomem s) ->
  wp (dupfgrp mem) Q R s.
Proof.
  intros (Hok & Hal & Hsl) Hroom HQ HR. unfold dupfgrp. apply wp_bind, wp_getf. cbv zeta.
  destruct mem; cbn [negb]; [|by apply wp_leave, HR]. pose proof Hok as (Hm & Hmod & _).
  rewrite (proj2 (Z.ltb_ge _ _)) by lia. apply wp_bind, wp_incref_all; [done| |].
  { intros c Hc. apply list_elem_of_In, list_elem_of_lookup in Hc as [i Hi].
    apply lookup_take_Some in Hi as [Hi _]. split; [by eapply slot_ref|].
    rewrite cnt_take_fok by done. pose proof (cnt_length c (fds (fg s))). specialize (Hroom c).
    destruct Hok as (_ & _ & Hle & _). unfold nfd in Hle. lia. }
  intros s' Hf' Ha' Hk' Hs'. apply wp_ret.
  set (n := if negb _ then _ else _). assert (maxfd (fg s) + 1 <= n <= nfd (fg s) /\ n mod DELTAFD = 0) as [Hn Hnm].
  { unfold n. rewrite DELTAFD_eq in *. rewrite Z.rem_mod_nonneg by lia.
    destruct (Z.eqb_spec ((maxfd (fg s) + 1) mod 20) 0); cbn [negb]; [lia|]. dlia. }
  pose proof (copy_ok (fg s) n Hok Hn Hnm) as Hc. cbv zeta in Hc. apply HQ; try done.
  intros d. rewrite Hs'. destruct Hc as (_ & _ & _ & _ & Hc & _). rewrite Hc, cnt_take_fok by done. done.
Qed.

(** ** Closing a table *)

Section closing.
Context (close : nat -> M FS ()).
Hypothesis close_ok : forall c (Q : () -> FS -> Prop) R s, alive s -> 0 < c_ref (chans s c) ->
  (forall s', fg s' = fg s -> alive s' -> (forall d, slack s' d = slack s d - isc d (Some c)) -> Q tt s') ->
  wp (close c) Q R s.

Lemma wp_close_slots n i (Q : () -> FS -> Prop) R s :
  sok s -> 0 <= i -> i + Z.of_nat n <= maxfd (fg s) + 1 ->
  (forall s', gives s s' (fun _ => 0) -> maxfd (fg s') = maxfd (fg s) -> nfd (fg s') = nfd (fg s) ->
     (forall j, i <= Z.of_nat j < i + Z.of_nat n -> fds (fg s') !! j = Some None) ->
     (forall j, Z.of_nat j < i \/ i + Z.of_nat n <= Z.of_nat j -> fds (fg s') !! j = fds (fg s) !! j) -> Q tt s') ->
  wp (close_slots close n i) Q R s.
Proof using close_ok.
  revert i s. induction n as [|n IH]; intros i s Hs Hi Hn HQ; cbn [close_slots].
  { apply wp_ret, HQ; try done; [|intros; lia]. destruct Hs as (H1 & H2 & H3). split_and!; try done. intros. lia. }
  pose proof Hs as (Hok & Hal & Hsl). pose proof Hok as (Hm & _). destruct (lookup_in (fg s) i ltac:(lia)) as [o Ho].
  apply wp_bind, (wp_getfd i o); [done|done|]. apply wp_bind.
  assert (forall s1, gives s s1 (fun _ => 0) -> maxfd (fg s1) = maxfd (fg s) -> nfd (fg s1) = nfd (fg s) ->
     fds (fg s1) !! Z.to_nat i = Some None ->
     (forall j, j <> Z.to_nat i -> fds (fg s1) !! j = fds (fg s) !! j) -> wp (close_slots close n (i + 1)) Q R s1) as Hgo.
  { intros s1 (G1 & G2 & G3 & G4) Em1 En1 Hi1 Hj1. apply IH; [|lia|lia|].
    - split_and!; [done|done|]. intros c. rewrite G4. specialize (Hsl c). lia.
    - intros s2 (K1 & K2 & K3 & K4) Em2 En2 Hi2 Hj2. apply HQ; try congruence.
      + split_and!; [done|done|congruence|]. intros c. rewrite K4, G4. lia.
      + intros j Hj. destruct (decide (j = Z.to_nat i)) as [->|].
        * rewrite Hj2 by lia. done.
        * apply Hi2. lia.
      + intros j Hj. rewrite Hj2, Hj1 by lia. done. }
  destruct o as [c|].
  - apply wp_bind, wp_setfd; [lia|]. set (s1 := mkFS _ _ _).
    assert (forall d, slack s1 d = slack s d + isc d (Some c)) as Hs1.
    { intros d. unfold slack. cbn. rewrite (cnt_insert _ _ _ _ _ Ho), isc_None. lia. }
    apply close_ok; [done| |].
    + apply slack_ref_pos. rewrite Hs1, isc_Some, decide_True by done. specialize (Hsl c). lia.
    + intros s2 Hf2 Ha2 Hs2. assert (fok (fg s1)) as Hok1 by (apply fok_insert; [done|lia]).
      apply Hgo; rewrite ?Hf2; cbn; try done.
      * split_and!; rewrite ?Hf2; try done. intros d. rewrite Hs2, Hs1. lia.
      * unfold nfd, zlen. cbn. by rewrite length_insert.
      * apply list_lookup_insert_eq. unfold nfd, zlen in Hm. lia.
      * intros j Hj. apply list_lookup_insert_ne. congruence.
  - apply wp_ret, Hgo; try done. by split_and!; try done; intros; lia.
Qed.

(** All slots: the table ends empty. *)
Lemma wp_close_all (Q : () -> FS -> Prop) R s :
  sok s ->
  (forall s', gives s s' (fun _ => 0) -> fds (fg s') = replicate (length (fds (fg s))) None -> Q tt s') ->
  wp (close_slots close (Z.to_nat (maxfd (fg s) + 1)) 0) Q R s.
Proof using close_ok.
  intros Hs HQ. pose proof Hs as (Hok & _ & _). pose proof Hok as (Hm & _ & _ & Hab).
  apply wp_close_slots; [done|done|lia|]. intros s' Hg Em En Hin Hout. apply HQ; [done|].
  assert (length (fds (fg s')) = length (fds (fg s))) as El by (unfold nfd, zlen in En; lia).
  symmetry. apply replicate_as_elem_of. split; [done|]. intros o Ho. apply list_elem_of_lookup in Ho as [j Hj].
  destruct (Z.lt_ge_cases (maxfd (fg s)) (Z.of_nat j)) as [Hlt|Hge].
  - rewrite Hout in Hj by lia. by eapply Hab.
  - rewrite Hin in Hj by lia. congruence.
Qed.
End closing.

Lemma sok_fref s v : sok s -> sok (mkFS (set_fref v (fg s)) (chans s) (clunkq s)).
Proof. done. Qed.

Lemma wp_closefgrp (Q : () -> FS -> Prop) R s :
  sok s -> 0 < f_ref (fg s) ->
  (forall s', 1 < f_ref (fg s) -> s' = mkFS (set_fref (f_ref (fg s) - 1) (fg s)) (chans s) (clunkq s) -> Q tt s') ->
  (forall s', f_ref (fg s) = 1 -> gives (mkFS (set_fref 0 (fg s)) (chans s) (clunkq s)) s' (fun _ => 0) ->
     fds (fg s') = replicate (length (fds (fg s))) None -> Q tt s') ->
  wp closefgrp Q R s.
Proof.
  intros Hs Hr Hshared Hlast. unfold closefgrp. apply wp_bind, wp_getf, wp_bind, wp_updf.
  rewrite (proj2 (Z.ltb_ge _ _)) by lia. destruct (Z.eqb_spec (f_ref (fg s) - 1) 0) as [E|E]; cbn [negb].
  - rewrite E. apply (wp_close_all cclose wp_cclose _ _ (mkFS (set_fref 0 (fg s)) (chans s) (clunkq s))); [done|].
    intros s' Hg Ef. apply Hlast; [lia|done|done].
  - apply wp_ret, Hshared; [lia|done].
Qed.

Lemma wp_forceclosefgrp (Q : () -> FS -> Prop) R s :
  sok s ->
  (forall s', gives s s' (fun _ => 0) -> fds (fg s') = replicate (length (fds (fg s))) None -> Q tt s') ->
  wp forceclosefgrp Q R s.
Proof.
  intros Hs HQ. unfold forceclosefgrp. apply wp_bind, wp_getf. by apply (wp_close_all ccloseq wp_ccloseq).
Qed.

(** ** Tables, channels and the other holders of references

    Processes share tables ([f_ref] counts them); [ext c] is the number of
    references to [c] held elsewhere: by system calls in progress, mounts,
    directories. *)
Record FSys : Type := mkFSys { tabs : list Fgrp; pool : nat -> Chan; closeq : list nat; ext : nat -> Z }.
Definition view (σ : FSys) (t : Fgrp) : FS := mkFS t (pool σ) (closeq σ).
Definition put (σ : FSys) (k : nat) (s : FS) (e : nat -> Z) : FSys :=
  mkFSys (<[k := fg s]> (tabs σ)) (chans s) (clunkq s) e.

(** The routines as operations on one table, and the references of the caller
    that each takes over. *)
Inductive FOp : Type :=
| FNew (mem : bool) (c : nat)
| FNew2 (mem : bool) (c0 c1 : nat)
| FDup (mem : bool) (ofd nfd' : Z)
| FClose (fd : Z)
| FFdclose (fd flag : Z)
| FTochan (fd mode : Z) (chkmnt : bool)
| FHold (c : nat)
| FDrop (c : nat)
| FDropq (c : nat)
| FCloseall
| FForce.

Definition fop_run (op : FOp) : M FS Z :=
  match op with
  | FNew mem c => newfd mem c
  | FNew2 mem c0 c1 => r ← newfd2 mem c0 c1; mret (fst r)
  | FDup mem ofd nfd' => sysdup mem ofd nfd'
  | FClose fd => sysclose fd
  | FFdclose fd flag => fdclose fd flag;; mret 0
  | FTochan fd mode chk => c ← fdtochan fd mode chk true; mret (Z.of_nat c)
  | FHold c => incref c;; mret 0
  | FDrop c => cclose c;; mret 0
  | FDropq c => ccloseq c;; mret 0
  | FCloseall => closefgrp;; mret 0
  | FForce => forceclosefgrp;; mret 0
  end.

(** What the caller must hold and guarantee: [fdclose] is given a descriptor of
    the table, [forceclosefgrp] a table that is being freed. *)
Definition need (op : FOp) (d : nat) : Z :=
  match op with
  | FNew _ c | FHold c | FDrop c | FDropq c => isc d (Some c)
  | FNew2 _ c0 c1 => isc d (Some c0) + isc d (Some c1)
  | _ => 0
  end.
Definition fop_pre (op : FOp) (t : Fgrp) : Prop :=
  match op with
  | FFdclose fd _ => 0 < f_ref t /\ 0 <= fd < nfd t
  | FForce => f_ref t = 0
  | _ => 0 < f_ref t
  end.
(** What the caller holds after. *)
Definition gained (op : FOp) (r : Res Z) (d : nat) : Z :=
  match op, r with
  | FNew _ _, Ok v | FNew2 _ _ _, Ok v => if v <? 0 then 0 else - need op d
  | FTochan _ _ _, Ok v => isc d (Some (Z.to_nat v))
  | FHold c, _ => isc d (Some c)
  | FDrop c, _ | FDropq c, _ => - isc d (Some c)
  | _, _ => 0
  end.

(** One step: an operation, a process created with a copy of a table, with an
    empty one or sharing one, a channel made by [newchan] from a free one, and
    its flags or mode set by a holder. *)
Inductive fstep (σ : FSys) : FSys -> Prop :=
| fstep_op k t op r s' :
    tabs σ !! k = Some t -> fop_pre op t -> (forall d, need op d <= ext σ d) -> room (view σ t) ->
    fop_run op (view σ t) = (r, s') ->
    fstep σ (put σ k s' (fun d => ext σ d + gained op r d))
| fstep_copy k t mem new s' :
    tabs σ !! k = Some t -> 0 < f_ref t -> room (view σ t) -> dupfgrp mem (view σ t) = (Ok new, s') ->
    fstep σ (mkFSys (tabs σ ++ [new]) (chans s') (clunkq s') (ext σ))
| fstep_empty : fstep σ (mkFSys (tabs σ ++ [newfgrp]) (pool σ) (closeq σ) (ext σ))
| fstep_share k t :
    tabs σ !! k = Some t -> 0 < f_ref t ->
    fstep σ (mkFSys (<[k := set_fref (f_ref t + 1) t]> (tabs σ)) (pool σ) (closeq σ) (ext σ))
| fstep_newchan c x :
    c_ref (pool σ c) = 0 -> c_ref x = 1 -> Z.land (c_flag x) CFREE = 0 ->
    fstep σ (mkFSys (tabs σ) (<[c := x]> (pool σ)) (closeq σ) (<[c := 1]> (ext σ)))
| fstep_flags c x :
    0 < ext σ c -> c_ref x = c_ref (pool σ c) -> Z.land (c_flag x) CFREE = 0 ->
    fstep σ (mkFSys (tabs σ) (<[c := x]> (pool σ)) (closeq σ) (ext σ)).

Fixpoint slots (c : nat) (ts : list Fgrp) : Z :=
  match ts with [] => 0 | t :: ts => cnt c (fds t) + slots c ts end.

Definition fsys0 : FSys := mkFSys [newfgrp] (fun _ => mkChan 0 0 0) [] (fun _ => 0).

(** ** Every operation keeps the counts *)

Definition keeps (s s' : FS) (d : nat -> Z) : Prop :=
  fok (fg s') /\ alive s' /\ 0 <= f_ref (fg s') /\ forall c, slack s' c = slack s c + d c.
Lemma gives_keeps s s' d d' : 0 <= f_ref (fg s) -> gives s s' d -> (forall c, d c = d' c) -> keeps s s' d'.
Proof. intros H (G1 & G2 & G3 & G4) E. split_and!; [done|done|lia|]. intros c. by rewrite G4, E. Qed.
Lemma fkeeps_same s s' : sok s -> 0 <= f_ref (fg s') -> fds (fg s') = fds (fg s) -> fok (fg s') -> chans s' = chans s -> keeps s s' (fun _ => 0).
Proof.
  intros (_ & Ha & _) Hf E Hok Ec. split_and!; [done| |done|].
  - intros c. rewrite Ec. apply Ha.
  - intros c. unfold slack. rewrite E, Ec. lia.
Qed.

Section ops.
Context (s : FS).
Hypothesis Hs : sok s.
Hypothesis Hroom : room s.

Local Definition ends_well (op : FOp) : Prop :=
  wp (fop_run op) (fun v s' => keeps s s' (gained op (Ok v)))
    (fun v s' => v <> FdPanic /\ keeps s s' (gained op (Ret v))) s.

Lemma keeps_took c fd mem s' :
  0 < f_ref (fg s) -> took_fd mem c fd s s' -> fok (fg s') -> f_ref (fg s') = f_ref (fg s) -> chans s' = chans s ->
  keeps s s' (gained (FNew mem c) (Ok fd)).
Proof using Hs.
  intros Hf Ht Hok Er Ec. destruct Hs as (_ & Ha & _). pose proof Ht as (_ & _ & Hfd & _).
  split_and!; [done|intros d; rewrite Ec; apply Ha|lia|]. intros d. unfold slack. rewrite Ec, (took_fd_cnt _ _ _ _ _ _ Ht).
  cbn. rewrite (proj2 (Z.ltb_ge _ _)) by lia. lia.
Qed.

Lemma ends_new mem c : 0 < f_ref (fg s) -> ends_well (FNew mem c).
Proof using Hs.
  intros Hf. pose proof Hs as (Hok & Ha & _). apply wp_newfd; [done| |].
  - intros fd s' Ht Ho Er Ec. by apply keeps_took.
  - intros s' _ Ef Ho Er Ec. apply fkeeps_same; rewrite ?Er; done || lia.
Qed.

Lemma ends_new2 mem c0 c1 : 0 < f_ref (fg s) -> ends_well (FNew2 mem c0 c1).
Proof using Hs.
  intros Hf. pose proof Hs as (Hok & Ha & _). apply wp_bind, wp_newfd2; [done| |].
  - intros fd0 fd1 s' Ht Ho Er Ec. apply wp_ret. split_and!; [done|intros d; rewrite Ec; apply Ha|lia|].
    intros d. unfold slack. rewrite Ec, (took_fd2_cnt _ _ _ _ _ _ _ _ Ht). cbn. lia.
  - intros p s' Ho Er Ec Hg. apply wp_ret. split_and!; [done|intros d; rewrite Ec; apply Ha|lia|].
    intros d. unfold slack. rewrite Ec, (grown_cnt _ _ _ _ Hg). cbn. lia.
Qed.

Lemma ends_tochan fd mode chk : 0 < f_ref (fg s) -> ends_well (FTochan fd mode chk).
Proof using Hs Hroom.
  intros Hf. pose proof Hs as (Hok & Ha & _). apply wp_bind, wp_fdtochan; [done|done| | |].
  - intros c s' _ _ Ef Ha' Hsl. apply wp_ret. unfold keeps. rewrite Ef. split_and!; [done|done|lia|].
    intros d. rewrite Hsl. cbn. by rewrite Nat2Z.id.
  - intros _. split; [done|]. apply fkeeps_same; done || lia.
  - intros c s' _ _ Ef Ha' Hsl. split; [done|]. unfold keeps. rewrite Ef. split_and!; [done|done|lia|].
    intros d. rewrite Hsl. cbn. lia.
Qed.

Lemma ends_ref op c :
  (forall d, need op d = isc d (Some c)) -> (forall d, need op d <= slack s d) -> 0 < c_ref (chans s c).
Proof using.
  intros E Hn. specialize (Hn c). rewrite E, isc_Some, decide_True in Hn by done. apply slack_ref_pos. lia.
Qed.

Lemma ends_hold c : 0 < f_ref (fg s) -> (forall d, need (FHold c) d <= slack s d) -> ends_well (FHold c).
Proof using Hs Hroom.
  intros Hf Hn. pose proof Hs as (Hok & Ha & _). pose proof (ends_ref (FHold c) c (fun _ => eq_refl) Hn).
  apply wp_bind, wp_incref; [done|specialize (Hroom c); lia|]. intros s' Ef Ha' _ _ Hsl. apply wp_ret.
  unfold keeps. rewrite Ef. split_and!; done || lia.
Qed.

Lemma ends_drop c : 0 < f_ref (fg s) -> (forall d, need (FDrop c) d <= slack s d) ->
  ends_well (FDrop c) /\ ends_well (FDropq c).
Proof using Hs.
  intros Hf Hn. pose proof Hs as (Hok & Ha & _). pose proof (ends_ref (FDrop c) c (fun _ => eq_refl) Hn).
  split; apply wp_bind; [apply wp_cclose|apply wp_ccloseq]; try done; intros s' Ef Ha' Hsl; apply wp_ret;
    unfold keeps; rewrite Ef; (split_and!; [done|done|lia|]); intros d; rewrite Hsl; cbn; lia.
Qed.

Lemma ends_fdclose fd flag : 0 < f_ref (fg s) -> 0 <= fd < nfd (fg s) -> ends_well (FFdclose fd flag).
Proof using Hs.
  intros Hf Hr. pose proof Hs as (Hok & Ha & _). apply wp_bind, wp_fdclose; [done|done| | |].
  1, 2: intros; apply wp_ret, fkeeps_same; done || lia.
  intros c s' _ _ Hg _. apply wp_ret. by eapply gives_keeps; [lia|done|].
Qed.

Lemma ends_closeall : 0 < f_ref (fg s) -> ends_well FCloseall.
Proof using Hs.
  intros Hf. pose proof Hs as (Hok & Ha & _). apply wp_bind, wp_closefgrp; [done|done| |].
  - intros s' Hr ->. apply wp_ret, fkeeps_same; cbn; done || lia.
  - intros s' Hr (G1 & G2 & G3 & G4) _. apply wp_ret. split_and!; [done|done|rewrite G3; cbn; lia|done].
Qed.

Lemma fop_keeps op :
  fop_pre op (fg s) -> 0 <= f_ref (fg s) -> (forall d, need op d <= slack s d) -> ends_well op.
Proof using Hs Hroom.
  destruct op; cbn [fop_pre]; intros Hp Hf Hn.
  - by apply ends_new.
  - by apply ends_new2.
  - apply wp_sysdup; [done|done|..].
    + intros r s' Hg _. by eapply gives_keeps.
    + intros v s' Hg (_ & Hv). split; [destruct Hv as [[-> _]|[-> _]]; done|]. by eapply gives_keeps.
  - apply wp_sysclose; [done|..].
    + intros c s' _ Hg _. by eapply gives_keeps.
    + intros _. split; [done|]. by apply fkeeps_same; [| | |apply Hs|].
  - destruct Hp. by apply ends_fdclose.
  - by apply ends_tochan.
  - by apply ends_hold.
  - by apply ends_drop.
  - by apply ends_drop.
  - by apply ends_closeall.
  - apply wp_bind, wp_forceclosefgrp; [done|]. intros s' Hg _. apply wp_ret. by eapply gives_keeps.
Qed.
End ops.

(** ** The system's invariant *)

Definition sinv (σ : FSys) : Prop :=
  (forall t, t ∈ tabs σ -> fok t /\ 0 <= f_ref t) /\
  (forall c, 0 < c_ref (pool σ c) -> Z.land (c_flag (pool σ c)) CFREE = 0) /\
  (forall c, 0 <= ext σ c) /\
  forall c, c_ref (pool σ c) = slots c (tabs σ) + ext σ c.

Lemma slots_nonneg c ts : 0 <= slots c ts.
Proof. induction ts as [|t ts IH]; cbn; [lia|]. pose proof (cnt_nonneg c (fds t)). lia. Qed.
Lemma slots_app c ts ts' : slots c (ts ++ ts') = slots c ts + slots c ts'.
Proof. induction ts as [|t ts IH]; cbn; lia. Qed.
Lemma slots_insert c ts k t t' : ts !! k = Some t -> slots c (<[k := t']> ts) = slots c ts - cnt c (fds t) + cnt c (fds t').
Proof.
  revert k. induction ts as [|x ts IH]; intros [|k] E; try done.
  - injection E as ->. change (<[0%nat:=t']> (t :: ts)) with (t' :: ts). cbn [slots]. lia.
  - change (<[S k:=t']> (x :: ts)) with (x :: <[k:=t']> ts). cbn [slots]. rewrite (IH k E). lia.
Qed.
Lemma slots_lookup c ts k t : ts !! k = Some t -> cnt c (fds t) <= slots c ts.
Proof.
  intros E. pose proof (slots_insert c ts k t newfgrp E). pose proof (slots_nonneg c (<[k:=newfgrp]> ts)).
  assert (cnt c (fds newfgrp) = 0) by apply cnt_replicate. lia.
Qed.

Lemma newfgrp_ok : fok newfgrp.
Proof.
  split_and!; try done. intros i o _ Hi. by apply lookup_replicate in Hi as [-> _].
Qed.

Lemma sinv_view σ k t : sinv σ -> tabs σ !! k = Some t -> sok (view σ t) /\ 0 <= f_ref t /\ forall d, ext σ d <= slack (view σ t) d.
Proof.
  intros (Ht & Ha & He & Hc) Ek. destruct (Ht t) as [Hok Hf]; [by eapply list_elem_of_lookup_2|].
  assert (forall d, ext σ d <= slack (view σ t) d) as Hsl.
  { intros d. unfold slack, view. cbn. rewrite Hc. pose proof (slots_lookup d _ _ _ Ek). lia. }
  split; [|by split]. split; [done|split; [done|]]. intros c. specialize (Hsl c). specialize (He c). lia.
Qed.

Lemma elem_insert {A} (P : A -> Prop) (l : list A) (k : nat) x : (forall y, y ∈ l -> P y) -> P x -> forall y, y ∈ <[k := x]> l -> P y.
Proof.
  intros Hl Hx y Hy. apply list_elem_of_lookup in Hy as [j Hj].
  apply list_lookup_insert_Some in Hj as [(_ & <- & _)|(_ & Hj)]; [done|]. apply Hl. by eapply list_elem_of_lookup_2.
Qed.

Lemma sinv_put σ k t s' d :
  sinv σ -> tabs σ !! k = Some t -> keeps (view σ t) s' d -> (forall c, 0 <= ext σ c + d c) ->
  sinv (put σ k s' (fun c => ext σ c + d c)).
Proof.
  intros (Ht & Ha & He & Hc) Ek (K1 & K2 & K3 & K4) Hd. split_and!; cbn; [|done|done|].
  - by apply elem_insert.
  - intros c. rewrite (slots_insert _ _ _ _ _ Ek). specialize (K4 c). specialize (Hc c). unfold slack, view in K4. cbn in K4. lia.
Qed.

Lemma gained_held op r e d : need op d <= e -> 0 <= e -> 0 <= e + gained op r d.
Proof.
  intros Hn He. destruct op as [| | | | | |c|c|c| |], r; cbn in *;
    repeat case_match;
    repeat match goal with |- context [isc d ?o] => pose proof (isc_range d o); generalize dependent (isc d o); intros end; lia.
Qed.

Lemma sinv_op σ k t op :
  sinv σ -> tabs σ !! k = Some t -> fop_pre op t -> (forall d, need op d <= ext σ d) -> room (view σ t) ->
  exists r s', fop_run op (view σ t) = (r, s') /\ r <> Ub /\ r <> Ret FdPanic /\ keeps (view σ t) s' (gained op r).
Proof.
  intros Hi Ek Hp Hn Hr. destruct (sinv_view _ _ _ Hi Ek) as (Hs & Hf & Hsl).
  destruct (wp_run _ _ _ _ (fop_keeps _ Hs Hr op Hp Hf (fun d => Z.le_trans _ _ _ (Hn d) (Hsl d))))
    as [(v & s' & E & K)|(v & s' & E & Hv & K)]; [exists (Ok v), s'|exists (Ret v), s']; split_and!; try done. congruence.
Qed.

Lemma sinv_step σ σ' : sinv σ -> fstep σ σ' -> sinv σ'.
Proof.
  intros Hi Hst. pose proof Hi as (Ht & Ha & He & Hc). destruct Hst as [k t op r s' Ek Hp Hn Hr E|k t mem new s' Ek Hf Hr E| |k t Ek Hf|c x H0 H1 Hx|c x H0 H1 Hx].
  - destruct (sinv_op _ _ _ _ Hi Ek Hp Hn Hr) as (r' & s1 & E' & _ & _ & K). rewrite E in E'. injection E' as <- <-.
    apply (sinv_put _ _ _ _ _ Hi Ek K). intros c. by apply gained_held.
  - destruct (sinv_view _ _ _ Hi Ek) as (Hs & _ & _).
    assert (wp (dupfgrp mem) (fun new s' => copied t new /\ fg s' = t /\ alive s' /\
      forall d, slack s' d = slack (view σ t) d + cnt d (fds new)) (fun _ _ => True) (view σ t)) as W.
    { apply wp_dupfgrp; [done|done| |done]. intros; by split_and!. }
    destruct (wp_at _ _ _ _ _ _ W E) as ((C1 & C2 & _) & Ef & Ha' & Hsl).
    split_and!; cbn; [|done|done|].
    + intros y [Hy|Hy%list_elem_of_singleton]%elem_of_app; [by apply Ht|]. subst y. split; [done|lia].
    + intros c. rewrite slots_app. cbn. specialize (Hsl c). specialize (Hc c). unfold slack, view in Hsl. rewrite Ef in Hsl.
      cbn in Hsl. lia.
  - split_and!; cbn; [|done|done|].
    + intros y [Hy|Hy%list_elem_of_singleton]%elem_of_app; [by apply Ht|]. subst y. split; [apply newfgrp_ok|done].
    + intros c. rewrite slots_app. specialize (Hc c). cbn [slots]. assert (cnt c (fds newfgrp) = 0) by apply cnt_replicate. lia.
  - destruct (Ht t) as [Hok Hf']; [by eapply list_elem_of_lookup_2|]. split_and!; cbn; [|done|done|].
    + apply elem_insert; [done|]. split; [done|cbn; lia].
    + intros c. rewrite (slots_insert _ _ _ _ _ Ek). cbn. specialize (Hc c). lia.
  - split_and!; cbn; [done| | |]; intros d; destruct (decide (c = d)) as [<-|Hn];
      rewrite ?fn_lookup_insert, ?fn_lookup_insert_ne by done; try done; try apply Ha; try apply He.
    pose proof (Hc c). pose proof (He c). pose proof (slots_nonneg c (tabs σ)). lia.
  - split_and!; cbn; [done| |done|]; intros d; destruct (decide (c = d)) as [<-|Hn];
      rewrite ?fn_lookup_insert, ?fn_lookup_insert_ne by done; try done; try apply Ha; try apply He. by rewrite H1.
Qed.

Lemma sinv_reach σ : rtc fstep fsys0 σ -> sinv σ.
Proof.
  intros Hr. cut (sinv fsys0); [|].
  - induction Hr as [|σ1 σ2 σ3 Hst _ IH]; [done|]. intros Hi. apply IH. by eapply sinv_step.
  - split_and!; cbn; try done.
    + intros t ->%list_elem_of_singleton. split; [apply newfgrp_ok|done].
Qed.

(** ** The properties *)

Lemma full_no_fd mem c fd s s' : took_fd mem c fd s s' -> table_full mem s -> False.
Proof.
  intros (l & Hg & H0 & Hu & Hn & _) (Hfull & Hwhy). destruct Hg as [->|(-> & -> & Hlt)].
  - destruct (Hfull (Z.to_nat fd)) as [d Hd]; [|congruence]. apply lookup_lt_Some in Hn. unfold nfd, zlen. lia.
  - unfold nfd in Hwhy. destruct Hwhy; [lia|done].
Qed.

(** [newfd] installs the channel in the lowest free descriptor, growing
    the table by one step when it is full, and returns -1 exactly when every
    descriptor is in use and the table cannot grow; no other slot changes. *)
Theorem newfd_lowest mem c s :
  fok (fg s) ->
  exists v s', newfd mem c s = (Ok v, s') /\ fok (fg s') /\ chans s' = chans s /\
    (v = -1 <-> table_full mem s) /\ (v = -1 -> fds (fg s') = fds (fg s)) /\
    (v <> -1 -> used (fds (fg s)) 0 v /\ fds (fg s') !! Z.to_nat v = Some (Some c) /\
       fds (fg s) !! Z.to_nat v <> Some (Some c) /\
       forall i, i <> Z.to_nat v -> fds (fg s') !! i = fds (fg s) !! i \/ fds (fg s) !! i = None /\ fds (fg s') !! i = Some None).
Proof.
  intros Hok. assert (wp (newfd mem c) (fun v s' => fok (fg s') /\ chans s' = chans s /\
    (took_fd mem c v s s' \/ v = -1 /\ table_full mem s /\ fds (fg s') = fds (fg s))) (fun _ _ => False) s) as W.
  { apply wp_newfd; [done|..]; intros; split_and!; try done; [by left|by right]. }
  destruct (wp_run_ok _ _ _ W) as (v & s' & E & Ho & Ec & H). exists v, s'. split_and!; try done.
  - split; [|intros Hf; destruct H as [H|(H & _)]; [by destruct (full_no_fd _ _ _ _ _ H Hf)|done]].
    intros ->. destruct H as [(? & _ & H & _)|(_ & H & _)]; [lia|done].
  - intros ->. destruct H as [(? & _ & H & _)|(_ & _ & H)]; [lia|done].
  - intros Hv. destruct H as [(l & Hg & H0 & Hu & Hn & ->)|(H & _)]; [|done]. split_and!; [done| | |].
    + apply list_lookup_insert_eq. by eapply lookup_lt_Some.
    + intros Hc. pose proof (grown_lookup _ _ _ _ _ Hg Hc). congruence.
    + intros i Hi. rewrite list_lookup_insert_ne by done. destruct Hg as [->|(-> & _)]; [by left|].
      destruct (decide (i < length (fds (fg s)))%nat); [left; by apply lookup_app_l|].
      rewrite lookup_app_r, (lookup_ge_None_2 (fds (fg s))) by lia.
      destruct (replicate _ _ !! _) as [o|] eqn:Eo; [|by left]. apply lookup_replicate in Eo as [-> _]. by right.
Qed.

(** A table of twenty descriptors in use by channel 0, and its copy. *)
Definition fs_full : FS :=
  mkFS (mkFgrp (replicate 20 (Some 0%nat)) 19 0 1) (fun c => mkChan (if decide (c = 0%nat) then 20 else 1) 0 1) [].

Lemma fs_full_ok : fok (fg fs_full).
Proof. split_and!; try done. intros i o Hi H. apply (lookup_replicate 20) in H as [_ H]. cbn in Hi. lia. Qed.

Lemma newfd_lowest_witness : fst (newfd true 1 fs_full) = Ok 20 /\ ~ table_full true fs_full.
Proof.
  destruct (newfd_lowest true 1 fs_full fs_full_ok) as (v & s' & E & _ & _ & Hv & _).
  assert (fst (newfd true 1 fs_full) = Ok 20) as E' by (vm_compute; reflexivity).
  split; [done|]. rewrite <- Hv. rewrite E in E'. cbn in E'. congruence.
Defined.

(** C18. [dup] returns a descriptor that now names the old one's channel - the
    lowest free one, or the one asked for after closing what it named - or
    fails with the table as it was for a bad descriptor or a full table; in
    every case the references held outside the table are those before. *)
Theorem sysdup_spec mem ofd nfd' s :
  sok s -> room s ->
  exists s', gives s s' (fun _ => 0) /\
    ((exists r, sysdup mem ofd nfd' s = (Ok r, s') /\ dup_ok mem ofd nfd' r s s') \/
     (exists v, sysdup mem ofd nfd' s = (Ret v, s') /\ dup_err mem ofd nfd' v s s')).
Proof.
  intros Hs Hr. assert (wp (sysdup mem ofd nfd') (fun r s' => gives s s' (fun _ => 0) /\ dup_ok mem ofd nfd' r s s')
    (fun v s' => gives s s' (fun _ => 0) /\ dup_err mem ofd nfd' v s s') s) as W by (apply wp_sysdup; done).
  destruct (wp_run _ _ _ _ W) as [(r & s' & E & G & D)|(v & s' & E & G & D)]; exists s'; split; try done; eauto.
Qed.

Lemma fs_full_sok : sok fs_full /\ room fs_full.
Proof.
  split; [split; [apply fs_full_ok|split]|]; intros c; cbn; unfold slack, room; cbn; unfold isc;
    destruct (decide (c = 0%nat)) as [->|Hn]; cbn; try done; try lia.
  rewrite !decide_False by congruence. lia.
Qed.

(** Descriptor 3 is closed and reused for a copy of descriptor 0. *)
Lemma sysdup_spec_witness :
  fst (sysdup true 0 3 fs_full) = Ok 3 /\ slack (snd (sysdup true 0 3 fs_full)) 0%nat = slack fs_full 0%nat.
Proof.
  destruct (sysdup_spec true 0 3 fs_full (proj1 fs_full_sok) (proj2 fs_full_sok)) as (s' & (_ & _ & _ & G) & H).
  assert (fst (sysdup true 0 3 fs_full) = Ok 3) as E by (vm_compute; reflexivity).
  split; [done|]. destruct H as [(r & E' & _)|(v & E' & _)]; rewrite E' in E |- *; [|done]. cbn [snd]. rewrite G. lia.
Defined.

(** C19. In every reachable state of the tables, a channel's count is the
    number of slots that name it plus the references held elsewhere, a channel
    with a count is not free, every table is well formed; and no operation
    whose caller holds what it hands over reads outside a table or reaches
    the panics of [incref], [decref], [cclose] and [ccloseq]. *)
Theorem fd_refcounts σ :
  rtc fstep fsys0 σ ->
  sinv σ /\
  forall k t op, tabs σ !! k = Some t -> fop_pre op t -> (forall d, need op d <= ext σ d) -> room (view σ t) ->
    exists r s', fop_run op (view σ t) = (r, s') /\ r <> Ub /\ r <> Ret FdPanic /\
      fstep σ (put σ k s' (fun d => ext σ d + gained op r d)).
Proof.
  intros Hr%sinv_reach. split; [done|]. intros k t op Ek Hp Hn Hm.
  destruct (sinv_op _ _ _ _ Hr Ek Hp Hn Hm) as (r & s' & E & H1 & H2 & _). exists r, s'. split_and!; try done.
  by eapply fstep_op.
Qed.

(** A channel is made and installed. *)
Definition fsys1 : FSys :=
  mkFSys [newfgrp] (<[0%nat := mkChan 1 0 1]> (fun _ => mkChan 0 0 0)) [] (<[0%nat := 1]> (fun _ => 0)).

Lemma fd_refcounts_witness :
  rtc fstep fsys0 fsys1 /\ exists s', fop_run (FNew true 0) (view fsys1 newfgrp) = (Ok 0, s') /\
    fstep fsys1 (put fsys1 0 s' (fun d => ext fsys1 d + gained (FNew true 0) (Ok 0) d)).
Proof.
  assert (rtc fstep fsys0 fsys1) as R by (apply rtc_once; by apply (fstep_newchan fsys0 0 (mkChan 1 0 1))).
  split; [done|].
  destruct (fd_refcounts fsys1 R) as (_ & H). destruct (H 0%nat newfgrp (FNew true 0) eq_refl eq_refl) as (r & s' & E & _ & _ & S).
  - intros d. cbn. rewrite isc_Some. destruct (decide (0%nat = d)) as [<-|]; [rewrite fn_lookup_insert; lia|].
    rewrite fn_lookup_insert_ne by done. lia.
  - intros d. cbn. destruct (decide (0%nat = d)) as [<-|]; [rewrite fn_lookup_insert; cbn; lia|].
    rewrite fn_lookup_insert_ne by done. cbn. lia.
  - exists s'. assert (fst (fop_run (FNew true 0) (view fsys1 newfgrp)) = Ok 0) as E' by (vm_compute; reflexivity).
    rewrite E in E'. cbn [fst] in E'. subst r. by split.
Defined.

(** A table copied by [dupfgrp] names the same channels at the same
    descriptors, and closing the copy with [closefgrp] empties it and returns
    every channel's count to what it was. *)
Theorem dupfgrp_closefgrp s new s1 :
  sok s -> room s -> dupfgrp true s = (Ok new, s1) ->
  copied (fg s) new /\
  exists s2, closefgrp (mkFS new (chans s1) (clunkq s1)) = (Ok tt, s2) /\
    fds (fg s2) = replicate (length (fds new)) None /\
    forall c, c_ref (chans s2 c) = c_ref (chans s c).
Proof.
  intros Hs Hr E. assert (wp (dupfgrp true) (fun new s' => copied (fg s) new /\ fg s' = fg s /\ alive s' /\
    forall d, slack s' d = slack s d + cnt d (fds new)) (fun _ _ => True) s) as W.
  { apply wp_dupfgrp; [done|done| |done]. intros; by split_and!. }
  destruct (wp_at _ _ _ _ _ _ W E) as (Hc & Ef & Ha & Hsl). split; [done|].
  pose proof Hc as (Hok & H1 & _ & _ & Hcnt & _). destruct Hs as (_ & _ & Hp).
  assert (forall c, slack (mkFS new (chans s1) (clunkq s1)) c = slack s c + cnt c (fds new)) as Hnew.
  { intros c. specialize (Hsl c). unfold slack in *. rewrite Ef in Hsl. cbn. rewrite Hcnt in *. lia. }
  assert (wp closefgrp (fun _ s2 => fds (fg s2) = replicate (length (fds new)) None /\
      forall c, c_ref (chans s2 c) = c_ref (chans s c)) (fun _ _ => False) (mkFS new (chans s1) (clunkq s1))) as W2.
  { apply wp_closefgrp; [|cbn; lia|cbn; lia|].
    - split; [done|]. split; [done|]. intros c. rewrite Hnew. specialize (Hp c). pose proof (cnt_nonneg c (fds new)). lia.
    - intros s2 _ (_ & _ & _ & G) Ef2. cbn in Ef2. split; [done|]. intros c. specialize (G c). specialize (Hnew c).
      unfold slack in *. rewrite Ef2, cnt_replicate in G. cbn in *. rewrite Hcnt in *. lia. }
  destruct (wp_run_ok _ _ _ W2) as ([] & s2 & E2 & H). by exists s2.
Qed.

Lemma dupfgrp_closefgrp_witness :
  exists new s1 s2, dupfgrp true fs_full = (Ok new, s1) /\ c_ref (chans s1 0%nat) = 40 /\
    closefgrp (mkFS new (chans s1) (clunkq s1)) = (Ok tt, s2) /\ c_ref (chans s2 0%nat) = 20.
Proof.
  assert (fst (dupfgrp true fs_full) = Ok (mkFgrp (replicate 20 (Some 0%nat)) 19 0 1)) as E1 by (vm_compute; reflexivity).
  assert (c_ref (chans (snd (dupfgrp true fs_full)) 0%nat) = 40) as E2 by (vm_compute; reflexivity).
  assert (c_ref (chans fs_full 0%nat) = 20) as E3 by reflexivity.
  destruct (dupfgrp true fs_full) as [r s1] eqn:E. cbn [fst snd] in E1, E2. subst r.
  destruct (dupfgrp_closefgrp fs_full _ s1 (proj1 fs_full_sok) (proj2 fs_full_sok) E) as (_ & s2 & E4 & _ & H).
  eexists _, s1, s2. split; [exact eq_refl|]. split; [exact E2|]. split; [exact E4|]. rewrite H. exact E3.
Defined.
