(* ===== verification/Umem.v ===== *)
(** * User pages: the pool of [umem/pages.c]

    The pool's pages, the memory regions new pages are cut from, the words that
    hold page numbers ([PagePointer *slot]: an index into [slots]; 0 is an empty
    slot, [i + 1] names page [i]) and the contents of physical pages.  Sections
    under the pool's lock, [cas32], [xchg32u], [incref], [decref] and single
    loads and stores are the atomic actions of [Prog].  A [PagePointer] variable
    of a routine itself is a value passed along, not a slot. *)
From S2P Require Import Prelude CMonad Conc.
From stdpp Require Export functions.
Local Open Scope Z_scope.

(** ** Data *)

Definition PGSZ : Z := 4096.
Definition INT32_MAX : Z := 2147483647.

Record UserPage : Type := mkPage { p_ref : Z; p_next : Z; p_pa : Z }.
Record MemoryRegion : Type := mkRegion { r_base : Z; r_npages : Z; r_used : Z }.
(** [sizeof(MemoryRegion)]: a pointer and two [int]s. *)
Definition region_size : Z := 16.

Record US : Type := mkUS {
  pages : list UserPage; freepages : Z; firstfree : Z; blankpages : Z;
  regions : list MemoryRegion; nregions : Z;
  slots : list Z; content : Z -> list Z }.
Definition npages (u : US) : Z := zlen (pages u).

Definition set_pages l u := mkUS l (freepages u) (firstfree u) (blankpages u) (regions u) (nregions u) (slots u) (content u).
Definition set_free n f u := mkUS (pages u) n f (blankpages u) (regions u) (nregions u) (slots u) (content u).
Definition set_blank n u := mkUS (pages u) (freepages u) (firstfree u) n (regions u) (nregions u) (slots u) (content u).
Definition set_regions l n u := mkUS (pages u) (freepages u) (firstfree u) (blankpages u) l n (slots u) (content u).
Definition set_slots l u := mkUS (pages u) (freepages u) (firstfree u) (blankpages u) (regions u) (nregions u) l (content u).
Definition set_content c u := mkUS (pages u) (freepages u) (firstfree u) (blankpages u) (regions u) (nregions u) (slots u) c.

Definition UPanic : Z := 1.

Definition getu : M US US := gets id.
(** [pool.pages[i]] read and updated. *)
Definition page (i : Z) : M US UserPage := u ← getu; of_option (zget (pages u) i).
Definition upd_page (i : Z) (f : UserPage -> UserPage) : M US () :=
  p ← page i; modify (fun u => set_pages (<[Z.to_nat i := f p]> (pages u)) u).
Definition set_ref v p := mkPage v (p_next p) (p_pa p).
Definition set_next v p := mkPage (p_ref p) v (p_pa p).
Definition set_pa v p := mkPage (p_ref p) (p_next p) v.

(** ** Physical memory *)

Definition allocate_region (base n' : Z) : M US Z :=
  u ← getu;
  let n := nregions u + 1 in
  if zlen (regions u) * region_size <? n then mret 0
  else if zlen (regions u) <=? nregions u then undefined
  else
    modify (set_regions (<[Z.to_nat (nregions u) := mkRegion base n' 0]> (regions u)) n);;
    mret 1.

Definition umem_region (base n : Z) : M US Z :=
  '(r, base, n) ←
    (if i32 n <? 0 then
       r ← allocate_region base INT32_MAX;
       mret (r, u64 (base + INT32_MAX * PGSZ), u32 (n - INT32_MAX))
     else mret (0, base, n));
  r' ← allocate_region base (i32 n);
  mret (r + r').

Definition umem_init (mem : bool) : M US () :=
  u ← getu;
  let n := foldr (fun r n => r_npages r + n) 0 (regions u) in
  let n := if INT32_MAX <? n then INT32_MAX else n in
  if negb mem then leave UPanic
  else
    modify (fun u => set_blank n (set_free 0 n (set_pages (replicate (Z.to_nat n) (mkPage 0 0 0)) u))).

Definition new_physical_page : M US Z :=
  u ← getu;
  if nregions u =? 0 then mret 0
  else
    r ← of_option (zget (regions u) (nregions u - 1));
    let addr := u64 (r_base r + r_used r * PGSZ) in
    let r := mkRegion (r_base r) (r_npages r) (r_used r + 1) in
    modify (set_regions (<[Z.to_nat (nregions u - 1) := r]> (regions u))
      (if r_used r =? r_npages r then nregions u - 1 else nregions u));;
    mret addr.

Definition umem_available (need : Z) : M US bool :=
  u ← getu; mret (1 + need / PGSZ <? freepages u + blankpages u).

(** ** Pages *)

(** The locked part of [page_new]: the page taken, if there is one. *)
Definition page_get : M US (option Z) :=
  u ← getu;
  if firstfree u <? npages u then
    let pindex := firstfree u in
    p ← page pindex;
    modify (set_free (freepages u - 1) (p_next p));;
    mret (Some pindex)
  else if 0 <? blankpages u then
    pa ← new_physical_page;
    if pa =? 0 then leave UPanic
    else
      let pindex := npages u - blankpages u in
      upd_page pindex (set_pa pa);;
      modify (set_blank (blankpages u - 1));;
      mret (Some pindex)
  else mret None.

(** The page goes back on the free list: where [page_new] finds its slot filled,
    and the end of [page_dispose], which takes the number from the page. *)
Definition page_unget (pindex : Z) : M US () :=
  upd_page pindex (set_ref 0);;
  u ← getu;
  upd_page pindex (set_next (firstfree u));;
  modify (set_free (freepages u + 1) pindex).
Definition page_free (i : Z) : M US () :=
  p ← page i;
  let pindex := p_next p in
  u ← getu;
  upd_page i (set_next (firstfree u));;
  modify (set_free (freepages u + 1) pindex).

Definition incref (i : Z) : M US () :=
  p ← page i;
  upd_page i (set_ref (i32 (p_ref p + 1)));;
  if i32 (p_ref p + 1) <=? 0 then leave UPanic else mret tt.
(** No page has a count below zero, so [adec] does not wrap. *)
Definition decref (i : Z) : M US Z :=
  p ← page i;
  upd_page i (set_ref (p_ref p - 1));;
  if p_ref p - 1 <? 0 then leave UPanic else mret (p_ref p - 1).

Definition load_slot (s : nat) : M US Z := u ← getu; of_option (slots u !! s).
Definition store_slot (s : nat) (v : Z) : M US () := modify (fun u => set_slots (<[s := v]> (slots u)) u).
Definition cas32 (s : nat) (old new : Z) : M US bool :=
  v ← load_slot s;
  if v =? old then store_slot s new;; mret true else mret false.
Definition xchg32u (s : nat) (v : Z) : M US Z := o ← load_slot s; store_slot s v;; mret o.

(** [memset] and [memmove] of a page. *)
Definition zero_page (i : Z) : M US () :=
  p ← page i; modify (fun u => set_content (<[p_pa p := replicate (Z.to_nat PGSZ) 0]> (content u)) u).
Definition copy_page (d o : Z) : M US () :=
  pd ← page d; po ← page o; modify (fun u => set_content (<[p_pa pd := content u (p_pa po)]> (content u)) u).

(** [page_new] on a word that [rd] reads and [cas] sets from 0. *)
Definition page_new_gen (rd : Prog US Z) (cas : Z -> Prog US bool) (clear : bool) : Prog US (Z * Z) :=
  v ← rd;
  if negb (v =? 0) then mret (0, 0)
  else
    o ← atomic page_get;
    match o with
    | None => mret (0, 0)
    | Some pindex =>
        atomic (upd_page pindex (set_ref 1));;
        atomic (upd_page pindex (set_next pindex));;
        (if clear then atomic (zero_page pindex) else mret tt);;
        ok ← cas (pindex + 1);
        if negb ok then atomic (page_unget pindex);; mret (0, 0) else mret (1, pindex + 1)
    end.

Definition page_new (s : nat) (clear : bool) : Prog US Z :=
  r ← page_new_gen (atomic (load_slot s)) (fun v => atomic (cas32 s 0 v)) clear; mret (fst r).
(** [page_new(&dindex, clear)] of a variable that is 0: the result and the
    variable. *)
Definition page_new_var (clear : bool) : Prog US (Z * Z) :=
  page_new_gen (mret 0) (fun _ => atomic (mret true)) clear.

(** [pindex > pool.npages - pool.blankpages] and [p->next != pindex - 1] *)
Definition check_pool (pindex : Z) : Prog US () :=
  n ← atomic (gets (fun u => npages u - blankpages u)); if n <? pindex then Crash else mret tt.
Definition check_used (i : Z) : Prog US () :=
  p ← atomic (page i); if negb (p_next p =? i) then Crash else mret tt.

(** [page_dispose] from the value taken from the slot on. *)
Definition page_dispose_var (pindex : Z) : Prog US Z :=
  if pindex =? 0 then mret 0
  else
    check_pool pindex;;
    let i := pindex - 1 in
    check_used i;;
    r ← atomic (decref i);
    (if r =? 0 then atomic (page_free i) else mret tt);;
    mret 1.
Definition page_dispose (s : nat) : Prog US Z :=
  pindex ← atomic (xchg32u s 0); page_dispose_var pindex.

(** [page_duplicate] on a word that [rd] reads and [cas] replaces: the result
    and the duplicate. *)
Definition page_duplicate_gen (rd : Prog US Z) (cas : Z -> Z -> Prog US bool) : Prog US (Z * Z) :=
  oindex ← rd;
  if oindex =? 0 then mret (0, 0)
  else
    check_pool oindex;;
    check_used (oindex - 1);;
    '(r, dindex) ← page_new_var false;
    if r =? 0 then mret (0, 0)
    else
      atomic (copy_page (dindex - 1) (oindex - 1));;
      ok ← cas oindex dindex;
      if (ok : bool) then page_dispose_var oindex;; mret (1, dindex)
      else page_dispose_var dindex;; mret (0, 0).
Definition page_duplicate (s : nat) : Prog US Z :=
  r ← page_duplicate_gen (atomic (load_slot s)) (fun o d => atomic (cas32 s o d)); mret (fst r).

Definition page_duplicate_shared (s : nat) : Prog US Z :=
  oindex ← atomic (load_slot s);
  if oindex =? 0 then mret 0
  else
    check_pool oindex;;
    p ← atomic (page (oindex - 1));
    '(r, nindex) ←
      (if 1 <? p_ref p then page_duplicate_gen (mret oindex) (fun _ _ => atomic (mret true))
       else mret (1, oindex));
    if r =? 0 then mret 0
    else if negb (oindex =? nindex) then
      ok ← atomic (cas32 s oindex nindex);
      if negb ok then page_dispose_var nindex;; mret 0 else mret 1
    else mret 1.

Definition page_assign (target : nat) (pg : Z) : Prog US Z :=
  if pg =? 0 then Crash
  else
    check_pool pg;;
    v ← atomic (load_slot target);
    if negb (v =? 0) then v ← atomic (load_slot target); mret (if v =? pg then 1 else 0)
    else
      check_used (pg - 1);;
      atomic (incref (pg - 1));;
      ok ← atomic (cas32 target 0 pg);
      if negb ok then
        atomic (decref (pg - 1));;
        v ← atomic (load_slot target);
        mret (if v =? pg then 1 else 0)
      else mret 1.

(** The address of a page. *)
Definition page_pa (pindex : Z) : Prog US Z :=
  if pindex =? 0 then Crash
  else check_pool pindex;; check_used (pindex - 1);; p ← atomic (page (pindex - 1)); mret (p_pa p).
