(* ===== verification/UmemInv.v ===== *)
(** * The page pool's invariant

    A running routine accounts for a page in one of these ways: [TFresh]: taken
    from the pool, its count possibly already 1; [TOwn]: new, in no slot yet;
    [TRef]: one counted reference in a variable; [TDead]: the last reference was
    dropped, the page is not on the free list yet.  [TSlot s v]: the routine has
    exclusive use of slot [s], which holds [v]; [TStale s v]: it has, and has
    given up the reference the slot stands for.  A slot that no routine has
    exclusive use of is shared. *)
From S2P Require Import Prelude CMonad Conc Umem.
From stdpp Require Import list.
Local Open Scope Z_scope.

Inductive Tok : Type :=
| TFresh (i : Z) (counted : bool)
| TOwn (i : Z)
| TRef (i : Z)
| TDead (i : Z)
| TSlot (s : nat) (v : Z)
| TStale (s : nat) (v : Z).

Definition tok_excl (t : Tok) : list Z := match t with TFresh i _ | TOwn i | TDead i => [i] | _ => [] end.
Definition tok_refs (t : Tok) : list Z := match t with TRef i => [i] | _ => [] end.
Definition tok_stale (t : Tok) : list nat := match t with TStale s _ => [s] | _ => [] end.
Definition tok_priv (t : Tok) : list nat := match t with TSlot s _ | TStale s _ => [s] | _ => [] end.

Definition excl (T : list Tok) : list Z := T ≫= tok_excl.
Definition stales (T : list Tok) : list nat := T ≫= tok_stale.
Definition privs (T : list Tok) : list nat := T ≫= tok_priv.

Fixpoint cntv (v : Z) (l : list Z) : Z :=
  match l with [] => 0 | x :: l => (if decide (x = v) then 1 else 0) + cntv v l end.
Definition refs (T : list Tok) (i : Z) : Z := cntv i (T ≫= tok_refs).

(** The slots, those whose reference has been given up read as empty; the
    references of a page. *)
Definition eslots (u : US) (T : list Tok) : list Z :=
  imap (fun s v => if decide (s ∈ stales T) then 0 else v) (slots u).
Definition eff (u : US) (T : list Tok) (i : Z) : Z := cntv (i + 1) (eslots u T) + refs T i.
Definition nalloc (u : US) : Z := npages u - blankpages u.

(** ** Counting *)

Lemma cntv_nonneg v l : 0 <= cntv v l.
Proof. induction l; cbn; [lia|]. case_decide; lia. Qed.
Lemma cntv_app v l l' : cntv v (l ++ l') = cntv v l + cntv v l'.
Proof. induction l; cbn; lia. Qed.
Lemma cntv_perm v l l' : l ≡ₚ l' -> cntv v l = cntv v l'.
Proof. induction 1; cbn; lia. Qed.
Lemma cntv_insert v l (i : nat) x y : l !! i = Some x ->
  cntv v (<[i := y]> l) = cntv v l - (if decide (x = v) then 1 else 0) + (if decide (y = v) then 1 else 0).
Proof.
  intros E. rewrite (insert_take_drop l i y) by (by eapply lookup_lt_Some). rewrite <- (take_drop_middle l i x E) at 3.
  rewrite !cntv_app. cbn. lia.
Qed.
Lemma cntv_none v l : v ∉ l -> cntv v l = 0.
Proof. induction l as [|x l IH]; cbn; [done|]. rewrite not_elem_of_cons. intros [H1 H2]. rewrite decide_False by congruence. auto. Qed.
Lemma cntv_in v l : v ∈ l -> 1 <= cntv v l.
Proof.
  intros (l1 & l2 & ->)%list_elem_of_split. rewrite cntv_app. cbn. rewrite decide_True by done.
  pose proof (cntv_nonneg v l1). pose proof (cntv_nonneg v l2). lia.
Qed.
Lemma cntv_length v l : cntv v l <= zlen l.
Proof. induction l; cbn; [done|]. rewrite zlen_cons. case_decide; lia. Qed.

Lemma bind_perm {A B} (f : A -> list B) T T' : T ≡ₚ T' -> T ≫= f ≡ₚ T' ≫= f.
Proof. intros H. by rewrite H. Qed.
Lemma elem_bind_perm {A B} (f : A -> list B) T T' x : T ≡ₚ T' -> x ∈ T ≫= f -> x ∈ T' ≫= f.
Proof. intros H. by rewrite (bind_perm f _ _ H). Qed.
Lemma eslots_perm u T T' : T ≡ₚ T' -> eslots u T = eslots u T'.
Proof.
  intros H. apply imap_ext. intros s v _. apply decide_ext. split; by apply elem_bind_perm.
Qed.
Lemma refs_perm T T' i : T ≡ₚ T' -> refs T i = refs T' i.
Proof. intros H. by apply cntv_perm, bind_perm. Qed.
Lemma eff_perm u T T' i : T ≡ₚ T' -> eff u T i = eff u T' i.
Proof. intros H. unfold eff. by rewrite (eslots_perm _ _ _ H), (refs_perm _ _ _ H). Qed.
Lemma eff_nonneg u T i : 0 <= eff u T i.
Proof. unfold eff, refs. pose proof (cntv_nonneg (i + 1) (eslots u T)). pose proof (cntv_nonneg i (T ≫= tok_refs)). lia. Qed.

(** A token that is neither a reference nor a stale slot does not count. *)
Lemma eff_cons u t T i : tok_refs t = [] -> tok_stale t = [] -> eff u (t :: T) i = eff u T i.
Proof. intros Hr Hs. unfold eff, eslots, refs, stales. cbn. by rewrite Hr, Hs. Qed.
Lemma eff_ref u j T i : eff u (TRef j :: T) i = eff u T i + (if decide (j = i) then 1 else 0).
Proof. unfold eff, refs. cbn. unfold eslots, stales. cbn. lia. Qed.
Lemma eff_slots u u' T i : slots u' = slots u -> eff u' T i = eff u T i.
Proof. intros E. unfold eff, eslots. by rewrite E. Qed.

Lemma eslots_lookup u T s v : s ∉ stales T -> slots u !! s = Some v -> eslots u T !! s = Some v.
Proof. intros Hs E. unfold eslots. rewrite list_lookup_imap, E. cbn. by rewrite decide_False. Qed.
Lemma eslots_store u T s w : s ∉ stales T -> eslots (set_slots (<[s := w]> (slots u)) u) T = <[s := w]> (eslots u T).
Proof.
  intros Hs. apply list_eq. intros j. unfold eslots. cbn [slots set_slots]. rewrite list_lookup_imap.
  destruct (decide (s = j)) as [->|Hn].
  - destruct (decide (j < length (slots u))%nat).
    + rewrite !list_lookup_insert_eq by (rewrite ?length_imap; done). cbn. by rewrite decide_False.
    + rewrite !lookup_ge_None_2; rewrite ?length_insert, ?length_imap; done || lia.
  - rewrite !list_lookup_insert_ne by done. by rewrite list_lookup_imap.
Qed.
Lemma eff_store u T s v w i : s ∉ stales T -> slots u !! s = Some v ->
  eff (set_slots (<[s := w]> (slots u)) u) T i =
    eff u T i - (if decide (v = i + 1) then 1 else 0) + (if decide (w = i + 1) then 1 else 0).
Proof.
  intros Hs E. unfold eff. rewrite eslots_store by done.
  rewrite (cntv_insert _ _ _ _ _ (eslots_lookup _ _ _ _ Hs E)). lia.
Qed.
Lemma eslots_stale u T s v : slots u !! s = Some v -> eslots u (TStale s v :: T) = <[s := 0]> (eslots u T).
Proof.
  intros E. apply list_eq. intros j. unfold eslots. rewrite list_lookup_imap. destruct (decide (s = j)) as [->|Hn].
  - rewrite E, list_lookup_insert_eq by (rewrite length_imap; by eapply lookup_lt_Some). cbn. rewrite decide_True; [done|].
    by left.
  - rewrite list_lookup_insert_ne by done. rewrite list_lookup_imap. destruct (slots u !! j); [|done]. cbn. f_equal.
    apply decide_ext. unfold stales. cbn. rewrite elem_of_cons. split; [intros [->|]; done|by right].
Qed.
Lemma eff_stale u T s v i : s ∉ stales T -> slots u !! s = Some v -> 0 <= i ->
  eff u (TStale s v :: T) i = eff u T i - (if decide (v = i + 1) then 1 else 0).
Proof.
  intros Hs E Hi. unfold eff. rewrite (eslots_stale _ _ _ _ E), (cntv_insert _ _ _ _ _ (eslots_lookup _ _ _ _ Hs E)).
  rewrite (decide_False (P := 0 = i + 1)) by lia. change (refs (TStale s v :: T) i) with (refs T i). lia.
Qed.

(** A reference in a variable or in a slot of one's own counts. *)
Lemma eff_ref_pos u T i : 1 <= eff u (TRef i :: T) i.
Proof. rewrite eff_ref, decide_True by done. pose proof (eff_nonneg u T i). lia. Qed.
Lemma eff_slot_pos u T s v : s ∉ stales T -> slots u !! s = Some v -> 1 <= eff u T (v - 1).
Proof.
  intros Hs E. unfold eff, refs. replace (v - 1 + 1) with v by lia.
  pose proof (cntv_in v (eslots u T) (list_elem_of_lookup_2 _ _ _ (eslots_lookup _ _ _ _ Hs E))).
  pose proof (cntv_nonneg (v - 1) (T ≫= tok_refs)). lia.
Qed.
Lemma stales_privs T s : s ∈ stales T -> s ∈ privs T.
Proof.
  unfold stales, privs. intros (t & Ht & Hin)%list_elem_of_bind. apply list_elem_of_bind. exists t. split; [|done].
  destruct t; cbn in *; try done; by apply not_elem_of_nil in Ht.
Qed.

(** ** Physical memory *)

(** The pages a region still has, and those of all regions. *)
Definition region_pages (r : MemoryRegion) : list Z :=
  (fun k => r_base r + k * PGSZ) <$> seqZ (r_used r) (r_npages r - r_used r).
Definition live_regions (u : US) : list MemoryRegion := take (Z.to_nat (nregions u)) (regions u).
Definition future (u : US) : list Z := live_regions u ≫= region_pages.
Definition pas (u : US) : list Z := p_pa <$> take (Z.to_nat (nalloc u)) (pages u).

Definition region_ok (r : MemoryRegion) : Prop :=
  0 <= r_used r < r_npages r /\ 0 < r_base r /\ r_base r + r_npages r * PGSZ <= 2 ^ 64.
Definition regions_ok (u : US) : Prop :=
  0 <= nregions u <= zlen (regions u) /\ forall r, r ∈ live_regions u -> region_ok r.
(** No address is given out twice, and there is one for every blank page. *)
Definition phys_ok (u : US) : Prop :=
  regions_ok u /\ blankpages u <= zlen (future u) /\ NoDup (pas u ++ future u).

Lemma region_pages_cons r : region_ok r ->
  region_pages r = (r_base r + r_used r * PGSZ) :: region_pages (mkRegion (r_base r) (r_npages r) (r_used r + 1)).
Proof.
  intros (Hu & _). unfold region_pages. rewrite seqZ_cons by lia. cbn.
  by replace (Z.pred (r_npages r - r_used r)) with (r_npages r - (r_used r + 1)) by lia.
Qed.

Lemma last_region u : 0 < nregions u <= zlen (regions u) ->
  exists r, zget (regions u) (nregions u - 1) = Some r /\
    live_regions u = take (Z.to_nat (nregions u - 1)) (regions u) ++ [r].
Proof.
  intros Hn. unfold zlen in Hn. destruct (lookup_lt_is_Some_2 (regions u) (Z.to_nat (nregions u - 1)) ltac:(lia)) as [r Er].
  exists r. unfold zget, live_regions. rewrite (proj2 (Z.ltb_ge _ _)) by lia. split; [done|].
  rewrite <- (take_S_r _ _ _ Er). f_equal. lia.
Qed.

Lemma live_set_regions u r' n : 0 < nregions u <= zlen (regions u) -> n = nregions u - 1 \/ n = nregions u ->
  live_regions (set_regions (<[Z.to_nat (nregions u - 1) := r']> (regions u)) n u) =
    take (Z.to_nat (nregions u - 1)) (regions u) ++ (if n =? nregions u then [r'] else []).
Proof.
  intros Hr Hn. unfold live_regions, zlen in *. cbn. set (k := Z.to_nat (nregions u - 1)).
  assert (k < length (regions u))%nat as Hk by lia. destruct Hn as [->| ->].
  - rewrite (proj2 (Z.eqb_neq _ _)), app_nil_r by lia. fold k. by rewrite take_insert_ge.
  - rewrite Z.eqb_refl. replace (Z.to_nat (nregions u)) with (S k) by lia.
    rewrite (take_S_r _ k r') by (by apply list_lookup_insert_eq). by rewrite take_insert_ge.
Qed.

Lemma wp_new_physical_page (Q : Z -> US -> Prop) R u :
  phys_ok u -> 0 < blankpages u ->
  (forall pa u', pa <> 0 -> future u ≡ₚ pa :: future u' -> regions_ok u' ->
     (exists l n, u' = set_regions l n u) -> Q pa u') ->
  wp new_physical_page Q R u.
Proof.
  intros ((Hn & Hr) & Hb & _) Hbl HQ. unfold new_physical_page. apply wp_bind, wp_gets. unfold id.
  destruct (Z.eqb_spec (nregions u) 0) as [E|E].
  { assert (future u = []) as Ef by (unfold future, live_regions; by rewrite E). rewrite Ef, zlen_nil in Hb. lia. }
  destruct (last_region u ltac:(lia)) as (r & Er & El). apply wp_bind, (wp_of_option _ r); [done|].
  destruct (Hr r) as (Hu & Hba & Htop); [rewrite El; apply elem_of_app; right; by left|].
  assert (region_ok r) as Hok by done. cbv zeta. cbn [r_used r_npages].
  set (r' := mkRegion (r_base r) (r_npages r) (r_used r + 1)). set (n := if _ =? _ then _ else _).
  assert (n = nregions u - 1 /\ r_used r + 1 = r_npages r \/ n = nregions u /\ r_used r + 1 < r_npages r) as Hcase
    by (unfold n; destruct (Z.eqb_spec (r_used r + 1) (r_npages r)); [by left|right; lia]).
  assert (0 < r_used r * PGSZ + r_base r < 2 ^ 64) as Ha by (unfold PGSZ in *; lia).
  apply wp_bind, wp_modify, wp_ret. rewrite u64_id by (unfold PGSZ in *; lia). apply HQ; [unfold PGSZ in *; lia| | |by eauto].
  - unfold future. rewrite live_set_regions by (try done; lia). rewrite El, !bind_app. cbn [mbind list_bind].
    rewrite app_nil_r, (region_pages_cons r Hok). fold r'. rewrite <- Permutation_middle. apply perm_skip, Permutation_app_head.
    destruct Hcase as [[-> Hx]|[-> Hx]].
    + rewrite (proj2 (Z.eqb_neq _ _)) by lia. cbn. unfold region_pages. cbn. by rewrite seqZ_nil by lia.
    + rewrite Z.eqb_refl. cbn. by rewrite app_nil_r.
  - unfold regions_ok. rewrite live_set_regions by (try done; lia). cbn. unfold zlen. rewrite length_insert. split; [unfold zlen in *; lia|].
    intros x [Hx|Hx]%elem_of_app; [apply Hr; rewrite El; apply elem_of_app; by left|].
    destruct Hcase as [[-> Hy]|[-> Hy]]; [rewrite (proj2 (Z.eqb_neq _ _)) in Hx by lia; by apply not_elem_of_nil in Hx|].
    rewrite Z.eqb_refl in Hx. apply list_elem_of_singleton in Hx as ->. unfold region_ok, r'. cbn. lia.
Qed.

(** ** The invariant *)

(** The free list from [f] on. *)
Fixpoint chain (pg : list UserPage) (f : Z) (ch : list Z) : Prop :=
  match ch with
  | [] => f = zlen pg
  | i :: ch => f = i /\ exists p, zget pg i = Some p /\ chain pg (p_next p) ch
  end.

Section uinv.
Context (N : Z) (private : nat -> bool).

Definition tok_ok (u : US) (t : Tok) : Prop :=
  match t with
  | TFresh i counted => counted = true -> exists p, zget (pages u) i = Some p /\ p_ref p = 1
  | TOwn i => exists p, zget (pages u) i = Some p /\ p_ref p = 1 /\ p_next p = i
  | TRef i => 0 <= i < nalloc u
  | TDead i => exists p, zget (pages u) i = Some p /\ p_ref p = 0 /\ p_next p = i
  | TSlot s v | TStale s v => private s = true /\ slots u !! s = Some v
  end.

(** A page outside [E] is referred to by as many slots and variables as its
    count says. *)
Definition page_ok (u : US) (T : list Tok) (E : list Z) (i : Z) (p : UserPage) : Prop :=
  if decide (i ∈ E) then eff u T i = 0 else 0 < eff u T i /\ p_ref p = eff u T i /\ p_next p = i.

Definition ustatic (u : US) : Prop :=
  zlen (slots u) = N /\ 0 <= blankpages u <= npages u /\ npages u <= INT32_MAX /\
  (forall v, v ∈ slots u -> 0 <= v <= nalloc u) /\ phys_ok u.

Definition upool (u : US) (T : list Tok) (ch : list Z) : Prop :=
  chain (pages u) (firstfree u) ch /\ freepages u = zlen ch /\ NoDup (ch ++ excl T) /\
  (forall i, i ∈ ch ++ excl T -> 0 <= i < nalloc u) /\
  (forall i p, 0 <= i < nalloc u -> zget (pages u) i = Some p -> page_ok u T (ch ++ excl T) i p) /\
  (forall i p, i ∈ ch -> zget (pages u) i = Some p -> p_ref p = 0).

Definition uinv (u : US) (T : list Tok) : Prop :=
  ustatic u /\ (forall t, t ∈ T -> tok_ok u t) /\ NoDup (privs T) /\ exists ch, upool u T ch.

Lemma upool_perm u T T' ch : T ≡ₚ T' -> upool u T ch -> upool u T' ch.
Proof using.
  intros H (H1 & H2 & H3 & H4 & H5 & H6).
  assert (ch ++ excl T ≡ₚ ch ++ excl T') as HE by (apply Permutation_app_head, bind_perm, H).
  split_and!; try done.
  - by rewrite <- HE.
  - intros i Hi. apply H4. by rewrite HE.
  - intros i p Hi Ep. specialize (H5 i p Hi Ep). unfold page_ok in *. rewrite <- (eff_perm u T T' i H).
    destruct (decide (i ∈ ch ++ excl T)) as [E|E], (decide (i ∈ ch ++ excl T')) as [E'|E']; try done;
      [destruct E'; by rewrite <- HE|destruct E; by rewrite HE].
Qed.
Lemma uinv_perm u T T' : T ≡ₚ T' -> uinv u T -> uinv u T'.
Proof using.
  intros H (H1 & H2 & H3 & ch & H4). split; [done|]. split; [|split].
  - intros t Ht. apply H2. by rewrite H.
  - unfold privs. by rewrite <- (bind_perm _ _ _ H).
  - exists ch. by eapply upool_perm.
Qed.

(** *** Access *)

Lemma zget_insert {A} (l : list A) i j x : 0 <= i < zlen l -> zget (<[Z.to_nat i := x]> l) j = if decide (i = j) then Some x else zget l j.
Proof using.
  intros Hi. unfold zget, zlen in *. destruct (Z.ltb_spec j 0); [by rewrite decide_False by lia|]. case_decide as E.
  - subst j. rewrite list_lookup_insert_eq by lia. done.
  - by rewrite list_lookup_insert_ne by lia.
Qed.
Lemma zget_range {A} (l : list A) i x : zget l i = Some x -> 0 <= i < zlen l.
Proof using.
  unfold zget, zlen. destruct (Z.ltb_spec i 0); [done|]. intros Hx%lookup_lt_Some. lia.
Qed.
Lemma nalloc_page u i : ustatic u -> 0 <= i < nalloc u -> exists p, zget (pages u) i = Some p.
Proof using. intros (_ & Hb & _) Hi. apply zget_Some. unfold nalloc, npages in *. lia. Qed.

Lemma wp_page i p (Q : UserPage -> US -> Prop) R u : zget (pages u) i = Some p -> Q p u -> wp (page i) Q R u.
Proof using. intros E HQ. unfold page. apply wp_bind, wp_gets. by apply (wp_of_option _ p). Qed.
Lemma wp_upd_page i f p (Q : () -> US -> Prop) R u : zget (pages u) i = Some p ->
  Q tt (set_pages (<[Z.to_nat i := f p]> (pages u)) u) -> wp (upd_page i f) Q R u.
Proof using. intros E HQ. unfold upd_page. by apply wp_bind, (wp_page i p), wp_modify. Qed.
Lemma wp_load_slot s v (Q : Z -> US -> Prop) R u : slots u !! s = Some v -> Q v u -> wp (load_slot s) Q R u.
Proof using. intros E HQ. unfold load_slot. apply wp_bind, wp_gets. by apply (wp_of_option _ v). Qed.

(** *** Parts that do not change *)

Lemma ustatic_upd u i p p' : ustatic u -> zget (pages u) i = Some p -> p_pa p' = p_pa p ->
  ustatic (set_pages (<[Z.to_nat i := p']> (pages u)) u).
Proof using.
  intros (H1 & H2 & H3 & H4 & H5 & H6 & H7) Ep Hp. pose proof (zget_range _ _ _ Ep) as Hr.
  set (u' := set_pages _ u). assert (npages u' = npages u) as En by (unfold npages, zlen; cbn; by rewrite length_insert).
  assert (nalloc u' = nalloc u) as Ea by (unfold nalloc; by rewrite En).
  assert (pas u' = pas u) as Epa.
  { unfold pas. rewrite Ea, !fmap_take. f_equal. cbn. rewrite list_fmap_insert, list_insert_id; [done|].
    rewrite list_lookup_fmap. unfold zget in Ep. rewrite (proj2 (Z.ltb_ge _ _)) in Ep by lia. rewrite Ep. cbn. by rewrite Hp. }
  unfold ustatic, phys_ok. rewrite En, Ea, Epa. done.
Qed.
Lemma ustatic_free u n f : ustatic u -> ustatic (set_free n f u).
Proof using. done. Qed.
Lemma ustatic_content u c : ustatic u -> ustatic (set_content c u).
Proof using. done. Qed.
Lemma ustatic_store u s w : ustatic u -> 0 <= w <= nalloc u -> ustatic (set_slots (<[s := w]> (slots u)) u).
Proof using.
  intros (H1 & H2 & H3 & H4 & H5) Hw. unfold ustatic. split_and!; try done; try apply H2.
  - unfold zlen in *. cbn. by rewrite length_insert.
  - intros v Hv. cbn in Hv. apply list_elem_of_lookup in Hv as [j Hj].
    apply list_lookup_insert_Some in Hj as [(_ & <- & _)|(_ & Hj)]; [done|]. apply H4. by eapply list_elem_of_lookup_2.
Qed.

Lemma chain_upd pg f ch i p : 0 <= i < zlen pg -> i ∉ ch -> chain pg f ch -> chain (<[Z.to_nat i := p]> pg) f ch.
Proof using.
  intros Hi. revert f. induction ch as [|j ch IH]; intros f; cbn.
  - intros _ ->. unfold zlen. by rewrite length_insert.
  - rewrite not_elem_of_cons. intros [Hn Hc] (-> & q & Eq & H). split; [done|]. exists q. rewrite zget_insert, decide_False by done. auto.
Qed.

(** *** Changes of the accounts *)

Lemma upool_eff u u' T T' ch :
  upool u T ch -> pages u' = pages u -> firstfree u' = firstfree u -> freepages u' = freepages u -> blankpages u' = blankpages u ->
  excl T' = excl T -> (forall j, 0 <= j -> eff u' T' j = eff u T j) -> upool u' T' ch.
Proof using.
  intros (H1 & H2 & H3 & H4 & H5 & H6) Ep Ef Efr Eb Ex He. unfold upool, nalloc, npages in *. rewrite Ep, Ef, Efr, Eb, Ex.
  split_and!; try done. intros i p Hi Hp. specialize (H5 i p Hi Hp). unfold page_ok in *. by rewrite He by lia.
Qed.

(** Page [d] leaves the pages accounted for one by one: its first reference. *)
Lemma upool_publish u u' T T' ch d p :
  upool u T ch -> pages u' = pages u -> firstfree u' = firstfree u -> freepages u' = freepages u -> blankpages u' = blankpages u ->
  excl T ≡ₚ d :: excl T' -> zget (pages u) d = Some p -> p_ref p = 1 -> p_next p = d ->
  (forall j, 0 <= j -> eff u' T' j = eff u T j + (if decide (d = j) then 1 else 0)) -> upool u' T' ch.
Proof using.
  intros (H1 & H2 & H3 & H4 & H5 & H6) Ep Ef Efr Eb Ex Ed Hr Hn He. unfold upool, nalloc, npages in *. rewrite Ep, Ef, Efr, Eb.
  assert (ch ++ excl T ≡ₚ d :: ch ++ excl T') as HE by (rewrite Ex; by rewrite Permutation_middle).
  assert (NoDup (d :: ch ++ excl T')) as Hnd by (by rewrite <- HE). apply NoDup_cons in Hnd as [Hd Hnd].
  split_and!; try done.
  - intros i Hi. apply H4. rewrite HE. by right.
  - intros i q Hi Hq. specialize (H5 i q Hi Hq). unfold page_ok in *. rewrite He by lia.
    destruct (decide (d = i)) as [<-|Hne].
    + rewrite (decide_False (P := d ∈ ch ++ excl T')) by done.
      rewrite decide_True in H5 by (rewrite HE; by left). rewrite H5. replace q with p by congruence. split_and!; [lia|lia|done].
    + rewrite Z.add_0_r. destruct (decide (i ∈ ch ++ excl T)) as [E|E], (decide (i ∈ ch ++ excl T')) as [E'|E']; try done.
      * rewrite HE in E. apply elem_of_cons in E as [->|E]; done.
      * destruct E. rewrite HE. by right.
Qed.

(** A page accounted for is updated. *)
Lemma upool_excl_upd u T T' ch i p' :
  upool u T ch -> i ∈ excl T -> 0 <= i < zlen (pages u) -> excl T' = excl T -> (forall j, eff u T' j = eff u T j) ->
  upool (set_pages (<[Z.to_nat i := p']> (pages u)) u) T' ch.
Proof using.
  intros (H1 & H2 & H3 & H4 & H5 & H6) Hi Hr Ex He. set (u' := set_pages _ u).
  assert (nalloc u' = nalloc u) as Ea by (unfold nalloc, npages, zlen; cbn; by rewrite length_insert).
  assert (forall j, eff u' T' j = eff u T j) as He' by (intros j; rewrite <- He; by apply eff_slots).
  assert (i ∉ ch) as Hc by (apply NoDup_app in H3 as (_ & Hd & _); intros Hx; by apply (Hd i)).
  unfold upool. rewrite Ea, Ex. split_and!; try done.
  - by apply chain_upd.
  - intros j q Hj Hq. unfold page_ok. rewrite He'. cbn in Hq. rewrite zget_insert in Hq by done. case_decide as E; [|by apply H5].
    subst j. rewrite decide_True by (apply elem_of_app; by right). pose proof (zget_Some i (pages u) Hr) as [p Ep].
    specialize (H5 i p Hj Ep). unfold page_ok in H5. rewrite decide_True in H5 by (apply elem_of_app; by right). done.
  - intros j q Hj Hq. cbn in Hq. rewrite zget_insert in Hq by done. case_decide as E; [by subst j|]. by eapply H6.
Qed.

(** It goes to the front of the free list. *)
Lemma upool_free u T T' ch i p :
  upool u T ch -> excl T = i :: excl T' -> 0 <= i < zlen (pages u) -> zget (pages u) i = Some p -> p_ref p = 0 ->
  (forall j, eff u T' j = eff u T j) ->
  upool (set_free (freepages u + 1) i (set_pages (<[Z.to_nat i := set_next (firstfree u) p]> (pages u)) u)) T' (i :: ch).
Proof using.
  intros (H1 & H2 & H3 & H4 & H5 & H6) Ex Hr Ep Hz He. set (u' := set_free _ _ _).
  assert (nalloc u' = nalloc u) as Ea by (unfold nalloc, npages, zlen; cbn; by rewrite length_insert).
  assert (forall j, eff u' T' j = eff u T j) as He' by (intros j; rewrite <- He; by apply eff_slots).
  assert (ch ++ excl T ≡ₚ i :: ch ++ excl T') as HE by (rewrite Ex; by rewrite Permutation_middle).
  assert (NoDup (i :: ch ++ excl T')) as Hnd by (by rewrite <- HE). pose proof Hnd as [Hni _]%NoDup_cons.
  unfold upool. rewrite Ea. split_and!; try done.
  - cbn. split; [done|]. eexists. rewrite zget_insert, decide_True by done. split; [done|]. cbn. apply chain_upd; [done| |done].
    intros Hx. apply Hni. apply elem_of_app. by left.
  - cbn. rewrite zlen_cons, H2. lia.
  - intros j Hj. apply H4. rewrite HE. done.
  - intros j q Hj Hq. unfold page_ok. rewrite He'. cbn [pages u' set_free set_pages] in Hq. rewrite zget_insert in Hq by done.
    assert (page_ok u T (ch ++ excl T) j (if decide (i = j) then p else q)) as Hok by (case_decide; [subst j|]; by apply H5).
    unfold page_ok in Hok. cbn [app]. destruct (decide (j ∈ ch ++ excl T)) as [E|E], (decide (j ∈ i :: ch ++ excl T')) as [E'|E']; try done.
    + by rewrite HE in E.
    + by rewrite <- HE in E'.
    + rewrite decide_False in Hok by (intros <-; apply E'; by left). done.
  - intros j q Hj Hq. cbn [pages u' set_free set_pages] in Hq. rewrite zget_insert in Hq by done. case_decide as E.
    + injection Hq as <-. done.
    + apply (H6 j); [|done]. by apply elem_of_cons in Hj as [->|].
Qed.
End uinv.
