(* ===== verification/UmemThms.v ===== *)
(** * The page pool: every atomic action keeps the invariant *)
From S2P Require Import Prelude CMonad Conc Umem UmemInv.
From stdpp Require Import list.
Local Open Scope Z_scope.

Section actions.
Context (N : Z) (private : nat -> bool).
Local Notation uinv := (uinv N private).
Local Notation tok_ok := (tok_ok private).
Local Notation ustatic := (ustatic N).

Lemma uinv_head u t F : uinv u (t :: F) -> tok_ok u t.
Proof using. intros (_ & H & _). apply H. by left. Qed.

(** The page of a token that accounts for it alone. *)
Lemma uinv_excl_page u t F i : uinv u (t :: F) -> tok_excl t = [i] ->
  0 <= i < nalloc u /\ 0 <= i < npages u /\ i ∉ excl F /\ exists p, zget (pages u) i = Some p.
Proof using.
  intros (Hst & _ & _ & ch & _ & _ & Hnd & Hr & _) Ht.
  assert (i ∈ ch ++ excl (t :: F)) as Hi by (apply elem_of_app; right; unfold excl; cbn; rewrite Ht; by left).
  specialize (Hr i Hi). split; [done|]. split_and!; try lia.
  - destruct Hst as (_ & Hb & _). unfold nalloc in *. lia.
  - apply NoDup_app in Hnd as (_ & _ & Hnd). unfold excl in Hnd. cbn in Hnd. rewrite Ht in Hnd. by apply NoDup_cons_1_1 in Hnd.
  - by apply (nalloc_page N).
Qed.

(** A page that somebody counts on. *)
Lemma uinv_live u T i : uinv u T -> 0 <= i < nalloc u -> 0 < eff u T i ->
  exists p, zget (pages u) i = Some p /\ p_ref p = eff u T i /\ p_next p = i.
Proof using.
  intros (Hst & _ & _ & ch & _ & _ & _ & _ & Hok & _) Hi He. destruct (nalloc_page N u i Hst Hi) as [p Ep].
  exists p. specialize (Hok i p Hi Ep). unfold page_ok in Hok. case_decide; [lia|tauto].
Qed.
Lemma uinv_ref u F i : uinv u (TRef i :: F) -> 0 <= i < nalloc u /\ 0 < eff u (TRef i :: F) i.
Proof using. intros H. split; [by apply (uinv_head _ _ _ H)|]. pose proof (eff_ref_pos u F i). lia. Qed.

Lemma uinv_slot u s v F : uinv u (TSlot s v :: F) ->
  slots u !! s = Some v /\ private s = true /\ s ∉ privs F /\ s ∉ stales (TSlot s v :: F) /\ 0 <= v <= nalloc u.
Proof using.
  intros H. destruct (uinv_head _ _ _ H) as [Hp Hs]. destruct H as ((_ & _ & _ & Hb & _) & _ & Hnd & _).
  unfold privs in Hnd. cbn in Hnd. apply NoDup_cons_1_1 in Hnd. split_and!; try done.
  - intros Hx. apply Hnd. change (s ∈ privs F). apply stales_privs. done.
  - by apply Hb, (list_elem_of_lookup_2 _ s).
  - by apply Hb, (list_elem_of_lookup_2 _ s).
Qed.
Lemma uinv_slot_live u s v F : uinv u (TSlot s v :: F) -> v <> 0 ->
  0 <= v - 1 < nalloc u /\ 0 < eff u (TSlot s v :: F) (v - 1).
Proof using.
  intros H Hv. destruct (uinv_slot _ _ _ _ H) as (Hs & _ & _ & Hst & Hr). pose proof (eff_slot_pos u _ s v Hst Hs). lia.
Qed.

(** ** Tokens under a change of the store *)

Lemma tok_ok_pages u u' t : (forall i p, i ∈ tok_excl t -> zget (pages u) i = Some p -> zget (pages u') i = Some p) ->
  slots u' = slots u -> nalloc u <= nalloc u' -> tok_ok u t -> tok_ok u' t.
Proof using.
  intros Hp Hs Hn. destruct t as [i b|i|i|i|s v|s v]; cbn; rewrite ?Hs; try done; try lia.
  - intros H Hb. destruct (H Hb) as (p & Ep & Er). exists p. split; [|done]. apply Hp; [by left|done].
  - intros (p & Ep & Er). exists p. split; [|done]. apply Hp; [by left|done].
  - intros (p & Ep & Er). exists p. split; [|done]. apply Hp; [by left|done].
Qed.
Lemma tok_ok_upd u i p F : 0 <= i < npages u -> i ∉ excl F -> (forall t, t ∈ F -> tok_ok u t) ->
  forall t, t ∈ F -> tok_ok (set_pages (<[Z.to_nat i := p]> (pages u)) u) t.
Proof using.
  intros Hr Hi H t Ht. apply (tok_ok_pages u); [|done| |by apply H].
  - intros j q Hj Eq. cbn. rewrite zget_insert, decide_False; [done| |done]. intros ->. apply Hi.
    apply list_elem_of_bind. by exists t.
  - unfold nalloc, npages, zlen. cbn. rewrite length_insert. lia.
Qed.
Lemma tok_ok_store u s w F : s ∉ privs F -> (forall t, t ∈ F -> tok_ok u t) ->
  forall t, t ∈ F -> tok_ok (set_slots (<[s := w]> (slots u)) u) t.
Proof using.
  intros Hs H t Ht. specialize (H t Ht). destruct t as [i b|i|i|i|s' v|s' v]; try done; cbn in *.
  all: rewrite list_lookup_insert_ne; [done|]; intros ->; apply Hs, list_elem_of_bind.
  - exists (TSlot s' v). split; [by left|done].
  - exists (TStale s' v). split; [by left|done].
Qed.

Lemma toks_cons u t F : tok_ok u t -> (forall x, x ∈ F -> tok_ok u x) -> forall x, x ∈ t :: F -> tok_ok u x.
Proof using. intros Ht HF x [->|Hx]%elem_of_cons; [done|by apply HF]. Qed.
Lemma uinv_tail_toks u t F : uinv u (t :: F) -> forall x, x ∈ F -> tok_ok u x.
Proof using. intros (_ & H & _) x Hx. apply H. by right. Qed.

(** ** [page_get] *)

Lemma nalloc_set_pages u l : length l = length (pages u) -> nalloc (set_pages l u) = nalloc u.
Proof using. unfold nalloc, npages, zlen. cbn. by intros ->. Qed.

Lemma page_get_free u F ch i : uinv u F -> upool u F ch -> firstfree u < npages u -> i = firstfree u ->
  exists p, zget (pages u) i = Some p /\ uinv (set_free (freepages u - 1) (p_next p) u) (TFresh i false :: F).
Proof using.
  intros (Hst & Hok & Hnd & _) (H1 & H2 & H3 & H4 & H5 & H6) Hlt ->. destruct ch as [|j ch].
  { cbn in H1. unfold npages in Hlt. lia. }
  destruct H1 as (<- & p & Ep & Hch). exists p. split; [done|].
  assert ((firstfree u :: ch) ++ excl F ≡ₚ ch ++ excl (TFresh (firstfree u) false :: F)) as HE by (unfold excl; cbn; by rewrite Permutation_middle).
  split; [done|]. split; [|split; [done|]].
  - apply toks_cons; [done|]. exact Hok.
  - exists ch. split_and!; try done; cbn [freepages set_free].
    + rewrite H2, zlen_cons. lia.
    + by rewrite <- HE.
    + intros i Hi. apply H4. by rewrite HE.
    + intros i q Hi Hq. specialize (H5 i q Hi Hq). unfold page_ok in *. rewrite eff_cons by done.
      rewrite (eff_slots u) by done. destruct (decide (i ∈ (firstfree u :: ch) ++ excl F)) as [E|E],
        (decide (i ∈ ch ++ excl (TFresh (firstfree u) false :: F))) as [E'|E']; try done; [by rewrite HE in E|by rewrite <- HE in E'].
    + intros i q Hi Hq. apply (H6 i); [by right|done].
Qed.

Lemma page_get_blank u F u1 pa : uinv u F -> 0 < blankpages u -> pa <> 0 ->
  future u ≡ₚ pa :: future u1 -> regions_ok u1 -> (exists l n, u1 = set_regions l n u) ->
  exists p, zget (pages u1) (npages u1 - blankpages u1) = Some p /\
    uinv (set_blank (blankpages u1 - 1) (set_pages (<[Z.to_nat (npages u1 - blankpages u1) := set_pa pa p]> (pages u1)) u1))
      (TFresh (npages u1 - blankpages u1) false :: F).
Proof using.
  intros (Hst & Hok & Hnd & ch & Hp) Hb Hpa Hfut Hreg (l & n & ->). cbn [pages npages blankpages set_regions].
  destruct Hst as (H1 & H2 & H3 & H4 & H5 & H6 & H7). destruct Hp as (P1 & P2 & P3 & P4 & P5 & P6).
  change (npages (set_regions l n u)) with (npages u). set (i := npages u - blankpages u).
  assert (0 <= i < npages u) as Hi by (unfold i; lia). destruct (zget_Some i (pages u) Hi) as [p Ep]. exists p. split; [done|].
  set (u' := set_blank _ _). assert (npages u' = npages u) as En by (unfold npages, zlen; cbn; by rewrite length_insert).
  assert (nalloc u' = nalloc u + 1) as Ea by (unfold nalloc; rewrite En; cbn; lia).
  assert (nalloc u = i) as Eai by done.
  assert (i ∉ ch ++ excl F) as Hni by (intros Hx; specialize (P4 i Hx); lia).
  assert (eff u F i = 0) as Heff.
  { unfold eff, refs. rewrite cntv_none, (cntv_none i); [done| |].
    - intros (t & Hx & Ht)%list_elem_of_bind. specialize (Hok t Ht). destruct t; cbn in Hx; try by apply not_elem_of_nil in Hx.
      apply list_elem_of_singleton in Hx as ->. cbn in Hok. lia.
    - intros Hx. apply list_elem_of_lookup in Hx as [s Hx]. unfold eslots in Hx. rewrite list_lookup_imap in Hx.
      destruct (slots u !! s) as [v|] eqn:Es; [|done]. cbn in Hx. apply list_elem_of_lookup_2 in Es. specialize (H4 v Es).
      case_decide; injection Hx as Hx; lia. }
  assert (zget (<[Z.to_nat i:=set_pa pa p]> (pages u)) i = Some (set_pa pa p)) as Ei by (by rewrite zget_insert, decide_True by done).
  split; [|split; [|split; [done|]]].
  - unfold ustatic. rewrite En, Ea. split; [done|]. split; [cbn; lia|]. split; [done|]. split; [intros v Hv; specialize (H4 v Hv); lia|].
    split; [exact Hreg|]. change (future u') with (future (set_regions l n u)). split.
    + assert (zlen (future u) = zlen (future (set_regions l n u)) + 1) as El by (unfold zlen; rewrite Hfut; cbn; lia). cbn. lia.
    + assert (pas u' = pas u ++ [pa]) as ->; [|rewrite <- app_assoc; cbn; by rewrite <- Hfut].
      unfold pas. rewrite Ea. replace (Z.to_nat (nalloc u + 1)) with (S (Z.to_nat i)) by lia. cbn [pages u' set_blank set_pages].
      rewrite (take_S_r _ _ (set_pa pa p)) by (unfold zget in Ei; by rewrite (proj2 (Z.ltb_ge _ _)) in Ei by lia).
      rewrite fmap_app, take_insert_ge by lia. by rewrite Eai.
  - apply toks_cons; [done|]. intros t Ht. apply (tok_ok_pages u); [|done|lia|by apply Hok].
    intros j q Hj Hq. cbn [pages u' set_blank set_pages set_regions]. rewrite zget_insert, decide_False; [done| |done]. intros <-. apply Hni.
    apply elem_of_app. right. apply list_elem_of_bind. by exists t.
  - exists ch. assert (ch ++ excl (TFresh i false :: F) ≡ₚ i :: ch ++ excl F) as HE by (unfold excl; cbn; by rewrite Permutation_middle).
    split_and!; try done.
    + cbn. apply chain_upd; [done| |done]. intros Hx. apply Hni, elem_of_app. by left.
    + rewrite HE. by apply NoDup_cons.
    + intros j Hj. rewrite HE in Hj. rewrite Ea. apply elem_of_cons in Hj as [->|Hj]; [lia|]. specialize (P4 j Hj). lia.
    + intros j q Hj Hq. unfold page_ok. rewrite eff_cons by done. rewrite (eff_slots u) by done. rewrite Ea in Hj.
      destruct (decide (j = i)) as [->|Hne]; [rewrite decide_True by (rewrite HE; by left); done|].
      cbn in Hq. rewrite zget_insert, decide_False in Hq by (done || congruence). specialize (P5 j q ltac:(lia) Hq). unfold page_ok in P5.
      destruct (decide (j ∈ ch ++ excl F)) as [E|E], (decide (j ∈ ch ++ excl (TFresh i false :: F))) as [E'|E']; try done.
      * destruct E'. rewrite HE. by right.
      * rewrite HE in E'. by apply elem_of_cons in E' as [->|E'].
    + intros j q Hj Hq. cbn in Hq. rewrite zget_insert in Hq by done. case_decide as E; [subst j|by eapply P6].
      destruct Hni. apply elem_of_app. by left.
Qed.

Lemma wp_page_get u F : uinv u F ->
  wp page_get (fun o u' => match o with Some i => uinv u' (TFresh i false :: F) | None => uinv u' F end) (fun _ _ => False) u.
Proof using.
  intros H. pose proof H as (Hst & _ & _ & ch & Hp). unfold page_get. apply wp_bind, wp_gets. unfold id.
  destruct (Z.ltb_spec (firstfree u) (npages u)) as [Hlt|Hge].
  - destruct (page_get_free u F ch _ H Hp Hlt eq_refl) as (p & Ep & Hi). apply wp_bind, (wp_page _ p); [done|].
    by apply wp_bind, wp_modify, wp_ret.
  - destruct (Z.ltb_spec 0 (blankpages u)) as [Hb|Hb]; [|by apply wp_ret]. apply wp_bind, wp_new_physical_page; [apply Hst|done|].
    intros pa u1 Hpa Hfut Hreg Hex. rewrite (proj2 (Z.eqb_neq _ _)) by done.
    destruct (page_get_blank u F u1 pa H Hb Hpa Hfut Hreg Hex) as (p & Ep & Hi). destruct Hex as (l & n & ->).
    apply wp_bind, (wp_upd_page _ _ p); [done|]. by apply wp_bind, wp_modify, wp_ret.
Qed.

(** ** A new page until it is published *)

Lemma uinv_excl_upd u t t' F i p p' :
  uinv u (t :: F) -> tok_excl t = [i] -> tok_excl t' = [i] ->
  tok_refs t = [] -> tok_refs t' = [] -> tok_stale t = [] -> tok_stale t' = [] -> tok_priv t' = [] ->
  zget (pages u) i = Some p -> p_pa p' = p_pa p ->
  tok_ok (set_pages (<[Z.to_nat i := p']> (pages u)) u) t' ->
  uinv (set_pages (<[Z.to_nat i := p']> (pages u)) u) (t' :: F).
Proof using.
  intros H Ex Ex' Er Er' Es Es' Epr Ep Hpa Ht'. destruct (uinv_excl_page _ _ _ _ H Ex) as (_ & Hr & Hni & _).
  pose proof (uinv_tail_toks _ _ _ H) as Htl. destruct H as (Hst & Hok & Hnd & ch & Hp).
  split; [by eapply ustatic_upd|]. split; [|split].
  - apply toks_cons; [done|]. by apply tok_ok_upd.
  - unfold privs in *. cbn in *. rewrite Epr. by apply NoDup_app in Hnd as (_ & _ & Hnd).
  - exists ch. apply (upool_excl_upd u (t :: F)); try done.
    + unfold excl. cbn. rewrite Ex. by left.
    + unfold excl. cbn. by rewrite Ex, Ex'.
    + intros j. by rewrite !eff_cons.
Qed.

Lemma wp_set_ref1 u i b F : uinv u (TFresh i b :: F) ->
  wp (upd_page i (set_ref 1)) (fun _ u' => uinv u' (TFresh i true :: F)) (fun _ _ => False) u.
Proof using.
  intros H. destruct (uinv_excl_page _ _ _ i H eq_refl) as (_ & Hr & _ & p & Ep). apply (wp_upd_page _ _ p); [done|].
  apply (uinv_excl_upd u (TFresh i b) (TFresh i true) F i p); try done. cbn. intros _. eexists.
  rewrite zget_insert, decide_True by done. done.
Qed.
Lemma wp_set_next u i F : uinv u (TFresh i true :: F) ->
  wp (upd_page i (set_next i)) (fun _ u' => uinv u' (TOwn i :: F)) (fun _ _ => False) u.
Proof using.
  intros H. destruct (uinv_excl_page _ _ _ i H eq_refl) as (_ & Hr & _ & _).
  destruct (uinv_head _ _ _ H eq_refl) as (p & Ep & Hp). apply (wp_upd_page _ _ p); [done|].
  apply (uinv_excl_upd u (TFresh i true) (TOwn i) F i p); try done. cbn. eexists.
  rewrite zget_insert, decide_True by done. done.
Qed.

Lemma uinv_content u T c : uinv u T -> uinv (set_content c u) T.
Proof using.
  intros (Hst & Hok & Hnd & ch & Hp). split; [done|]. split; [|split; [done|]].
  - intros t Ht. apply (tok_ok_pages u); try done. by apply Hok.
  - by exists ch.
Qed.
Lemma wp_zero_page u i F : uinv u (TOwn i :: F) ->
  wp (zero_page i) (fun _ u' => uinv u' (TOwn i :: F)) (fun _ _ => False) u.
Proof using.
  intros H. destruct (uinv_excl_page _ _ _ i H eq_refl) as (_ & _ & _ & p & Ep).
  apply wp_bind, (wp_page _ p); [done|]. by apply wp_modify, uinv_content.
Qed.

(** Back to the free list. *)
Lemma uinv_free u t F i p : uinv u (t :: F) -> tok_excl t = [i] -> tok_refs t = [] -> tok_stale t = [] ->
  zget (pages u) i = Some p -> p_ref p = 0 ->
  uinv (set_free (freepages u + 1) i (set_pages (<[Z.to_nat i := set_next (firstfree u) p]> (pages u)) u)) F.
Proof using.
  intros H Ex Er Es Ep Hz. destruct (uinv_excl_page _ _ _ _ H Ex) as (_ & Hr & Hni & _).
  pose proof (uinv_tail_toks _ _ _ H) as Htl. destruct H as (Hst & Hok & Hnd & ch & Hp).
  split; [apply ustatic_free; by eapply ustatic_upd|]. split; [|split].
  - intros x Hx. apply (tok_ok_pages (set_pages (<[Z.to_nat i := set_next (firstfree u) p]> (pages u)) u)); try done.
    by apply (tok_ok_upd u i _ F).
  - unfold privs in *. cbn in Hnd. by apply NoDup_app in Hnd as (_ & _ & Hnd).
  - exists (i :: ch). apply (upool_free u (t :: F)); try done.
    + unfold excl. cbn. by rewrite Ex.
    + intros j. by rewrite eff_cons.
Qed.

Lemma wp_page_unget u i F : uinv u (TOwn i :: F) ->
  wp (page_unget i) (fun _ u' => uinv u' F) (fun _ _ => False) u.
Proof using.
  intros H. destruct (uinv_excl_page _ _ _ i H eq_refl) as (_ & Hr & _ & p & Ep). unfold page_unget.
  apply wp_bind, (wp_upd_page _ _ p); [done|]. set (u1 := set_pages _ u).
  assert (uinv u1 (TFresh i false :: F)) as H1 by (by apply (uinv_excl_upd u (TOwn i) (TFresh i false) F i p)).
  assert (zget (pages u1) i = Some (set_ref 0 p)) as Ep1 by (unfold u1; cbn; by rewrite zget_insert, decide_True by done).
  apply wp_bind, wp_gets. unfold id. apply wp_bind, (wp_upd_page _ _ (set_ref 0 p)); [done|]. apply wp_modify.
  by apply (uinv_free u1 (TFresh i false) F i (set_ref 0 p)).
Qed.
Lemma wp_page_free u i F : uinv u (TDead i :: F) ->
  wp (page_free i) (fun _ u' => uinv u' F) (fun _ _ => False) u.
Proof using.
  intros H. destruct (uinv_excl_page _ _ _ i H eq_refl) as (_ & Hr & _ & _). destruct (uinv_head _ _ _ H) as (p & Ep & Hz & Hn).
  unfold page_free. apply wp_bind, (wp_page _ p); [done|]. cbv zeta. rewrite Hn. apply wp_bind, wp_gets. unfold id.
  apply wp_bind, (wp_upd_page _ _ p); [done|]. apply wp_modify. by apply (uinv_free u (TDead i) F i p).
Qed.

(** ** Slots *)

Lemma shared_slot u T s : uinv u T -> private s = false -> s ∉ privs T /\ s ∉ stales T.
Proof using.
  intros (_ & Hok & _) Hs. assert (s ∉ privs T) as Hp.
  { intros (t & Hin & Ht)%list_elem_of_bind. specialize (Hok t Ht).
    destruct t; cbn in *; try (by apply not_elem_of_nil in Hin); apply list_elem_of_singleton in Hin as ->; destruct Hok; congruence. }
  split; [done|]. intros Hx. by apply Hp, stales_privs.
Qed.
Lemma slot_exists u T (s : nat) : uinv u T -> Z.of_nat s < N -> exists v, slots u !! s = Some v /\ 0 <= v <= nalloc u.
Proof using.
  intros ((Hl & _ & _ & Hb & _) & _) Hs. unfold zlen in Hl. destruct (lookup_lt_is_Some_2 (slots u) s ltac:(lia)) as [v Ev].
  exists v. split; [done|]. by apply Hb, (list_elem_of_lookup_2 _ s).
Qed.

(** A store to a slot nobody else uses, where the references balance. *)
Lemma uinv_store u s w T T' F t' :
  uinv u (T ++ F) -> s ∉ privs F -> 0 <= w <= nalloc u ->
  (forall t, t ∈ t' -> tok_ok (set_slots (<[s := w]> (slots u)) u) t) ->
  NoDup (privs (t' ++ F)) -> T' = t' ++ F ->
  (forall ch, upool u (T ++ F) ch -> upool (set_slots (<[s := w]> (slots u)) u) T' ch) ->
  uinv (set_slots (<[s := w]> (slots u)) u) T'.
Proof using.
  intros (Hst & Hok & _ & ch & Hp) Hs Hw Ht' Hnd -> Hch. split; [by apply ustatic_store|]. split; [|split; [done|]].
  - intros x [Hx|Hx]%elem_of_app; [by apply Ht'|]. apply (tok_ok_store u s w F); try done. intros y Hy. apply Hok, elem_of_app. by right.
  - exists ch. by apply Hch.
Qed.

Lemma own_page u i F : uinv u (TOwn i :: F) -> exists p, zget (pages u) i = Some p /\ p_ref p = 1 /\ p_next p = i.
Proof using. intros H. by apply (uinv_head _ _ _ H). Qed.

(** [page_new]'s compare-and-swap of a shared slot. *)
Lemma wp_cas_new u s i F : uinv u (TOwn i :: F) -> private s = false -> Z.of_nat s < N ->
  wp (cas32 s 0 (i + 1)) (fun ok u' => if ok then uinv u' F else uinv u' (TOwn i :: F)) (fun _ _ => False) u.
Proof using.
  intros H Hs Hn. destruct (slot_exists _ _ _ H Hn) as (v & Ev & _). unfold cas32. apply wp_bind, (wp_load_slot _ v); [done|].
  destruct (Z.eqb_spec v 0) as [->|]; [|by apply wp_ret]. unfold store_slot. apply wp_bind, wp_modify, wp_ret.
  destruct (uinv_excl_page _ _ _ i H eq_refl) as (Hi & _). destruct (own_page _ _ _ H) as (p & Ep & Hr & Hnx).
  destruct (shared_slot _ _ _ H Hs) as [Hsp Hss]. pose proof H as (_ & _ & Hnd & _).
  apply (uinv_store u s (i + 1) [TOwn i] F F []); try done; [lia|intros t Hx; by apply not_elem_of_nil in Hx|].
  intros ch Hp. apply (upool_publish u _ (TOwn i :: F) F ch i p); try done.
  intros j Hj. rewrite (eff_store u F s 0 (i + 1)), eff_cons by done. rewrite (decide_False (P := 0 = j + 1)) by lia.
  rewrite (decide_ext (i + 1 = j + 1) (i = j)) by lia. lia.
Qed.

(** The exchange of [page_dispose]. *)
Lemma wp_xchg_shared u s F : uinv u F -> private s = false -> Z.of_nat s < N ->
  wp (xchg32u s 0) (fun v u' => 0 <= v /\ uinv u' ((if decide (v = 0) then [] else [TRef (v - 1)]) ++ F)) (fun _ _ => False) u.
Proof using.
  intros H Hs Hn. destruct (slot_exists _ _ _ H Hn) as (v & Ev & Hv). unfold xchg32u, store_slot. apply wp_bind, (wp_load_slot _ v); [done|].
  apply wp_bind, wp_modify, wp_ret. split; [lia|].
  destruct (shared_slot _ _ _ H Hs) as [Hsp Hss]. pose proof H as (_ & _ & Hnd & _).
  apply (uinv_store u s 0 [] _ F (if decide (v = 0) then [] else [TRef (v - 1)])); try done.
  - lia.
  - intros t Hx. case_decide; [by apply not_elem_of_nil in Hx|]. apply list_elem_of_singleton in Hx as ->. cbn. unfold nalloc, npages in *. cbn. lia.
  - by case_decide.
  - intros ch Hp. apply (upool_eff u _ F); try done; [by case_decide|]. intros j Hj. case_decide as Ez; cbn [app].
    + rewrite (eff_store u F s v 0) by done. subst v. rewrite !decide_False by lia. lia.
    + rewrite eff_ref, (eff_store u F s v 0) by done. rewrite (decide_False (P := 0 = j + 1)) by lia.
      rewrite (decide_ext (v - 1 = j) (v = j + 1)) by lia. lia.
Qed.

Lemma wp_xchg_private u s v F : uinv u (TSlot s v :: F) ->
  wp (xchg32u s 0) (fun v' u' => v' = v /\ uinv u' ((if decide (v = 0) then [] else [TRef (v - 1)]) ++ TSlot s 0 :: F)) (fun _ _ => False) u.
Proof using.
  intros H. destruct (uinv_slot _ _ _ _ H) as (Ev & Hpr & Hsp & Hss & Hv). unfold xchg32u, store_slot. apply wp_bind, (wp_load_slot _ v); [done|].
  apply wp_bind, wp_modify, wp_ret. split; [done|]. pose proof H as (_ & _ & Hnd & _).
  assert (slots u !! s = Some v) as Hl by done. apply lookup_lt_Some in Hl.
  apply (uinv_store u s 0 [TSlot s v] _ F ((if decide (v = 0) then [] else [TRef (v - 1)]) ++ [TSlot s 0])); try done.
  - lia.
  - intros t [Hx|Hx]%elem_of_app.
    + case_decide; [by apply not_elem_of_nil in Hx|]. apply list_elem_of_singleton in Hx as ->. cbn. unfold nalloc, npages in *. cbn. lia.
    + apply list_elem_of_singleton in Hx as ->. cbn. split; [done|]. by apply list_lookup_insert_eq.
  - by case_decide.
  - by rewrite <- app_assoc.
  - intros ch Hp. apply (upool_eff u _ (TSlot s v :: F)); try done; [by case_decide|]. intros j Hj. case_decide as Ez; cbn [app].
    + rewrite !(eff_cons _ (TSlot _ _)) by done. rewrite (eff_store u F s v 0) by done. subst v. rewrite !decide_False by lia. lia.
    + rewrite eff_ref, !(eff_cons _ (TSlot _ _)), (eff_store u F s v 0) by done. rewrite (decide_False (P := 0 = j + 1)) by lia.
      rewrite (decide_ext (v - 1 = j) (v = j + 1)) by lia. lia.
Qed.

(** ** References *)

(** A reference in a variable given up. *)
Lemma wp_decref u i F : uinv u (TRef i :: F) ->
  wp (decref i) (fun r u' => uinv u' ((if decide (r = 0) then [TDead i] else []) ++ F) /\ r = eff u F i) (fun _ _ => False) u.
Proof using.
  intros H. destruct (uinv_ref _ _ _ H) as [Hi He]. destruct (uinv_live _ _ _ H Hi He) as (p & Ep & Hr & Hn).
  pose proof (zget_range _ _ _ Ep) as Hrange. rewrite eff_ref, decide_True in Hr by done. pose proof (eff_nonneg u F i) as Hpos.
  unfold decref. apply wp_bind, (wp_page _ p); [done|]. apply wp_bind, (wp_upd_page _ _ p); [done|].
  replace (p_ref p - 1) with (eff u F i) by lia. rewrite (proj2 (Z.ltb_ge _ _)) by lia. apply wp_ret. split; [|done].
  set (p' := set_ref (eff u F i) p). set (u' := set_pages _ u). set (T' := _ ++ F).
  pose proof H as (Hst & Hok & Hnd & ch & P1 & P2 & P3 & P4 & P5 & P6).
  assert (i ∉ ch ++ excl F) as Hni.
  { intros Hx. specialize (P5 i p Hi Ep). unfold page_ok in P5. rewrite decide_True in P5 by done. lia. }
  assert (nalloc u' = nalloc u) as Ea by (apply nalloc_set_pages; by rewrite length_insert).
  assert (forall j, eff u' T' j = eff u F j) as He'.
  { intros j. unfold T'. case_decide; cbn [app]; rewrite ?(eff_cons _ (TDead _)) by done; by apply eff_slots. }
  assert (zget (pages u') i = Some p') as Ei by (unfold u'; cbn; by rewrite zget_insert, decide_True by done).
  assert (excl T' = (if decide (eff u F i = 0) then [i] else []) ++ excl F) as Ex by (unfold T'; by case_decide).
  assert (ch ++ excl T' ≡ₚ (if decide (eff u F i = 0) then [i] else []) ++ ch ++ excl F) as HE.
  { rewrite Ex. case_decide; cbn; [by rewrite Permutation_middle|done]. }
  split; [by eapply ustatic_upd|]. split; [|split].
  - intros t [Hx|Hx]%elem_of_app.
    + case_decide as Ez; [|by apply not_elem_of_nil in Hx]. apply list_elem_of_singleton in Hx as ->. cbn. exists p'.
      split; [done|]. by split.
    + apply (tok_ok_upd u i p' F); try done; [intros Hx'; apply Hni, elem_of_app; by right|exact (uinv_tail_toks _ _ _ H)].
  - unfold T'. case_decide; exact Hnd.
  - exists ch. split; [|split; [done|split; [|split; [|split]]]].
    + cbn. apply chain_upd; [done| |done]. intros Hx. apply Hni, elem_of_app. by left.
    + rewrite HE. case_decide; [by apply NoDup_cons|done].
    + intros j Hj. rewrite HE in Hj. rewrite Ea. apply elem_of_app in Hj as [Hj|Hj]; [|by apply P4].
      case_decide; [|by apply not_elem_of_nil in Hj]. by apply list_elem_of_singleton in Hj as ->.
    + intros j q Hj Hq. rewrite Ea in Hj. unfold page_ok. rewrite He'. cbn in Hq. rewrite zget_insert in Hq by done.
      destruct (decide (i = j)) as [<-|Hne].
      * injection Hq as <-. destruct (decide (i ∈ ch ++ excl T')) as [E|E].
        -- rewrite HE in E. case_decide; [done|]. done.
        -- rewrite HE in E. case_decide; [destruct E; by left|]. split; [lia|]. split; [reflexivity|exact Hn].
      * specialize (P5 j q Hj Hq). unfold page_ok in P5. rewrite eff_ref, (decide_False (P := i = j)) in P5 by done. rewrite Z.add_0_r in P5.
        change (excl (TRef i :: F)) with (excl F) in P5.
        destruct (decide (j ∈ ch ++ excl F)) as [E|E], (decide (j ∈ ch ++ excl T')) as [E'|E']; try done.
        -- destruct E'. rewrite HE. apply elem_of_app. by right.
        -- rewrite HE in E'. apply elem_of_app in E' as [E'|E']; [|done]. case_decide; [|by apply not_elem_of_nil in E'].
           apply list_elem_of_singleton in E' as ->. done.
    + intros j q Hj Hq. cbn in Hq. rewrite zget_insert in Hq by done. case_decide as E; [|by eapply P6]. subst j.
      destruct Hni. apply elem_of_app. by left.
Qed.

(** A reference taken to a page that is in use. *)
Lemma wp_page_incref u i F : uinv u F -> 0 <= i < nalloc u -> 0 < eff u F i -> eff u F i < 2 ^ 31 - 1 ->
  wp (incref i) (fun _ u' => uinv u' (TRef i :: F) /\ slots u' = slots u) (fun _ _ => False) u.
Proof using.
  intros H Hi He Hmax. destruct (uinv_live _ _ _ H Hi He) as (p & Ep & Hr & Hn). pose proof (zget_range _ _ _ Ep) as Hrange.
  unfold incref. apply wp_bind, (wp_page _ p); [done|]. apply wp_bind, (wp_upd_page _ _ p); [done|]. rewrite Hr.
  assert (i32 (eff u F i + 1) = eff u F i + 1) as Ew by (wraps; dlia). rewrite Ew. rewrite (proj2 (Z.leb_gt _ _)) by lia.
  apply wp_ret. split; [|done]. set (p' := set_ref (eff u F i + 1) p). set (u' := set_pages _ u).
  pose proof H as (Hst & Hok & Hnd & ch & P1 & P2 & P3 & P4 & P5 & P6).
  assert (i ∉ ch ++ excl F) as Hni.
  { intros Hx. specialize (P5 i p Hi Ep). unfold page_ok in P5. rewrite decide_True in P5 by done. lia. }
  assert (nalloc u' = nalloc u) as Ea by (apply nalloc_set_pages; by rewrite length_insert).
  split; [by eapply ustatic_upd|]. split; [|split; [done|]].
  - apply toks_cons; [cbn; by rewrite Ea|]. apply (tok_ok_upd u i p' F); try done. intros Hx. apply Hni, elem_of_app; by right.
  - exists ch. change (excl (TRef i :: F)) with (excl F). split; [|split; [done|split; [done|split; [by rewrite Ea|split]]]].
    + cbn. apply chain_upd; [done| |done]. intros Hx. apply Hni, elem_of_app. by left.
    + intros j q Hj Hq. rewrite Ea in Hj. unfold page_ok. rewrite eff_ref, (eff_slots u) by done. cbn in Hq. rewrite zget_insert in Hq by done.
      destruct (decide (i = j)) as [<-|Hne].
      * injection Hq as <-. change (excl (TRef i :: F)) with (excl F). rewrite decide_False by done. split; [lia|]. split; [reflexivity|exact Hn].
      * rewrite Z.add_0_r. by apply P5.
    + intros j q Hj Hq. cbn in Hq. rewrite zget_insert in Hq by done. case_decide as E; [|by eapply P6]. subst j.
      destruct Hni. apply elem_of_app. by left.
Qed.

(** The references of a page are slots and variables. *)
Lemma eff_bound u T i : uinv u T -> eff u T i <= N + zlen T.
Proof using.
  intros ((Hl & _) & _). unfold eff, refs. pose proof (cntv_length (i + 1) (eslots u T)) as H1.
  assert (zlen (eslots u T) = N) as E by (unfold eslots, zlen in *; rewrite length_imap; lia). rewrite E in H1.
  pose proof (cntv_length i (T ≫= tok_refs)) as H2. assert (zlen (T ≫= tok_refs) <= zlen T) as H3; [|lia].
  clear. induction T as [|t T IH]; [done|]. cbn. rewrite zlen_cons, zlen_app. assert (zlen (tok_refs t) <= 1); [|lia].
  destruct t; cbn; rewrite ?zlen_cons, ?zlen_nil; lia.
Qed.

(** [page_assign]'s compare-and-swap: the reference moves to the slot. *)
Lemma wp_cas_assign u s i F : uinv u (TRef i :: F) -> private s = false -> Z.of_nat s < N ->
  wp (cas32 s 0 (i + 1)) (fun ok u' => if ok then uinv u' F else uinv u' (TRef i :: F)) (fun _ _ => False) u.
Proof using.
  intros H Hs Hn. destruct (slot_exists _ _ _ H Hn) as (v & Ev & _). unfold cas32. apply wp_bind, (wp_load_slot _ v); [done|].
  destruct (Z.eqb_spec v 0) as [->|]; [|by apply wp_ret]. unfold store_slot. apply wp_bind, wp_modify, wp_ret.
  destruct (uinv_ref _ _ _ H) as [Hi _]. destruct (shared_slot _ _ _ H Hs) as [Hsp Hss]. pose proof H as (_ & _ & Hnd & _).
  apply (uinv_store u s (i + 1) [TRef i] F F []); try done; [lia|intros t Hx; by apply not_elem_of_nil in Hx|].
  intros ch Hp. apply (upool_eff u _ (TRef i :: F)); try done.
  intros j Hj. rewrite (eff_store u F s 0 (i + 1)), eff_ref by done. rewrite (decide_False (P := 0 = j + 1)) by lia.
  rewrite (decide_ext (i + 1 = j + 1) (i = j)) by lia. lia.
Qed.

(** Both on a slot of one's own. *)
Lemma wp_cas_new_own u s i F : uinv u (TOwn i :: TSlot s 0 :: F) ->
  wp (cas32 s 0 (i + 1)) (fun ok u' => ok = true /\ uinv u' (TSlot s (i + 1) :: F)) (fun _ _ => False) u.
Proof using.
  intros H. assert (uinv u (TSlot s 0 :: TOwn i :: F)) as H' by (eapply uinv_perm; [apply perm_swap|done]).
  destruct (uinv_slot _ _ _ _ H') as (Ev & Hpr & Hsp & Hss & _). unfold cas32. apply wp_bind, (wp_load_slot _ 0); [done|].
  cbn [Z.eqb]. unfold store_slot. apply wp_bind, wp_modify, wp_ret. split; [done|].
  destruct (uinv_excl_page _ _ _ i H eq_refl) as (Hi & _). destruct (own_page _ _ _ H) as (p & Ep & Hr & Hnx).
  pose proof H' as (_ & _ & Hnd & _). pose proof (lookup_lt_Some _ _ _ Ev) as Hl.
  apply (uinv_store u s (i + 1) [TOwn i; TSlot s 0] _ F [TSlot s (i + 1)]); try done.
  - lia.
  - intros t Hx. apply list_elem_of_singleton in Hx as ->. cbn. split; [done|]. by apply list_lookup_insert_eq.
  - intros ch Hp. apply (upool_publish u _ ([TOwn i; TSlot s 0] ++ F) _ ch i p); try done.
    intros j Hj. cbn [app]. assert (s ∉ stales F) as Hsf by done.
    rewrite !(eff_cons _ (TSlot _ _)), (eff_store u F s 0 (i + 1)), (eff_cons _ (TOwn _)), (eff_cons _ (TSlot _ _)) by done.
    rewrite (decide_False (P := 0 = j + 1)), (decide_ext (i + 1 = j + 1) (i = j)) by lia. lia.
Qed.
Lemma wp_cas_assign_own u s i F : uinv u (TRef i :: TSlot s 0 :: F) ->
  wp (cas32 s 0 (i + 1)) (fun ok u' => ok = true /\ uinv u' (TSlot s (i + 1) :: F)) (fun _ _ => False) u.
Proof using.
  intros H. assert (uinv u (TSlot s 0 :: TRef i :: F)) as H' by (eapply uinv_perm; [apply perm_swap|done]).
  destruct (uinv_slot _ _ _ _ H') as (Ev & Hpr & Hsp & Hss & _). unfold cas32. apply wp_bind, (wp_load_slot _ 0); [done|].
  cbn [Z.eqb]. unfold store_slot. apply wp_bind, wp_modify, wp_ret. split; [done|].
  destruct (uinv_ref _ _ _ H) as [Hi _]. pose proof H' as (_ & _ & Hnd & _). pose proof (lookup_lt_Some _ _ _ Ev) as Hl.
  apply (uinv_store u s (i + 1) [TRef i; TSlot s 0] _ F [TSlot s (i + 1)]); try done.
  - lia.
  - intros t Hx. apply list_elem_of_singleton in Hx as ->. cbn. split; [done|]. by apply list_lookup_insert_eq.
  - intros ch Hp. apply (upool_eff u _ ([TRef i; TSlot s 0] ++ F)); try done.
    intros j Hj. cbn [app]. assert (s ∉ stales F) as Hsf by done.
    rewrite eff_ref, !(eff_cons _ (TSlot _ _)), (eff_store u F s 0 (i + 1)) by done.
    rewrite (decide_False (P := 0 = j + 1)), (decide_ext (i + 1 = j + 1) (i = j)) by lia. lia.
Qed.

(** [page_duplicate]'s: the new page's first reference is the slot, the old
    page's one is in a variable. *)
Lemma wp_cas_duplicate u s o d F : uinv u (TSlot s o :: TOwn d :: F) -> o <> 0 ->
  wp (cas32 s o (d + 1)) (fun ok u' => ok = true /\ uinv u' (TRef (o - 1) :: TSlot s (d + 1) :: F)) (fun _ _ => False) u.
Proof using.
  intros H Ho. destruct (uinv_slot _ _ _ _ H) as (Ev & Hpr & Hsp & Hss & Hv). unfold cas32. apply wp_bind, (wp_load_slot _ o); [done|].
  rewrite Z.eqb_refl. unfold store_slot. apply wp_bind, wp_modify, wp_ret. split; [done|].
  assert (uinv u (TOwn d :: TSlot s o :: F)) as H' by (eapply uinv_perm; [apply perm_swap|done]).
  destruct (uinv_excl_page _ _ _ d H' eq_refl) as (Hd & _). destruct (own_page _ _ _ H') as (p & Ep & Hr & Hnx).
  pose proof H as (_ & _ & Hnd & _). pose proof (lookup_lt_Some _ _ _ Ev) as Hl.
  apply (uinv_store u s (d + 1) [TSlot s o; TOwn d] _ F [TRef (o - 1); TSlot s (d + 1)]); try done.
  - lia.
  - intros t Hx. apply elem_of_cons in Hx as [->|Hx]; [cbn; unfold nalloc, npages in *; cbn; lia|].
    apply list_elem_of_singleton in Hx as ->. cbn. split; [done|]. by apply list_lookup_insert_eq.
  - intros ch Hp. apply (upool_publish u _ ([TSlot s o; TOwn d] ++ F) _ ch d p); try done.
    intros j Hj. cbn [app]. assert (s ∉ stales F) as Hsf by done.
    rewrite eff_ref, !(eff_cons _ (TSlot _ _)), (eff_store u F s o (d + 1)), (eff_cons _ (TOwn _)) by done.
    rewrite (decide_ext (d + 1 = j + 1) (d = j)), (decide_ext (o - 1 = j) (o = j + 1)) by lia. lia.
Qed.

(** The same of a variable that holds the slot's value: the slot goes stale. *)
Lemma uinv_go_stale u s o F : uinv u (TSlot s o :: F) -> o <> 0 -> uinv u (TRef (o - 1) :: TStale s o :: F).
Proof using.
  intros H Ho. destruct (uinv_slot _ _ _ _ H) as (Ev & Hpr & Hsp & Hss & Hv).
  pose proof (uinv_tail_toks _ _ _ H) as Htl. pose proof H as (Hst & Hok & Hnd & ch & Hp). split; [done|]. split; [|split; [done|]].
  - apply toks_cons; [cbn; lia|]. by apply toks_cons.
  - exists ch. apply (upool_eff u u (TSlot s o :: F)); try done. intros j Hj.
    rewrite eff_ref, (eff_stale u F s o j), eff_cons by done. rewrite (decide_ext (o - 1 = j) (o = j + 1)) by lia. lia.
Qed.
(** It is given the new page. *)
Lemma wp_cas_stale u s o d F : uinv u (TStale s o :: TOwn d :: F) ->
  wp (cas32 s o (d + 1)) (fun ok u' => ok = true /\ uinv u' (TSlot s (d + 1) :: F)) (fun _ _ => False) u.
Proof using.
  intros H. destruct (uinv_head _ _ _ H) as [Hpr Ev]. unfold cas32. apply wp_bind, (wp_load_slot _ o); [done|].
  rewrite Z.eqb_refl. unfold store_slot. apply wp_bind, wp_modify, wp_ret. split; [done|].
  assert (uinv u (TOwn d :: TStale s o :: F)) as H' by (eapply uinv_perm; [apply perm_swap|done]).
  destruct (uinv_excl_page _ _ _ d H' eq_refl) as (Hd & _). destruct (own_page _ _ _ H') as (p & Ep & Hr & Hnx).
  pose proof H as (Hst & _ & Hnd & _). pose proof (lookup_lt_Some _ _ _ Ev) as Hl.
  assert (s ∉ privs F) as Hsp by (unfold privs in Hnd; cbn in Hnd; by apply NoDup_cons_1_1 in Hnd).
  assert (s ∉ stales F) as Hss by (intros Hx; by apply Hsp, stales_privs).
  assert (0 <= o) as Ho by (destruct Hst as (_ & _ & _ & Hb & _); by apply Hb, (list_elem_of_lookup_2 _ s)).
  apply (uinv_store u s (d + 1) [TStale s o; TOwn d] _ F [TSlot s (d + 1)]); try done.
  - lia.
  - intros t Hx. apply list_elem_of_singleton in Hx as ->. cbn. split; [done|]. by apply list_lookup_insert_eq.
  - intros ch Hp. apply (upool_publish u _ ([TStale s o; TOwn d] ++ F) _ ch d p); try done.
    intros j Hj. cbn [app]. assert (s ∉ stales (TOwn d :: F)) as Hsd by done.
    rewrite (eff_cons _ (TSlot _ _)), (eff_store u F s o (d + 1)), (eff_stale u (TOwn d :: F) s o j), (eff_cons _ (TOwn _)) by done.
    rewrite (decide_ext (d + 1 = j + 1) (d = j)) by lia. lia.
Qed.
End actions.
