(* ===== verification/UmemSafe.v ===== *)
(** * The page pool: the routines are safe programs *)
From S2P Require Import Prelude CMonad Conc Umem UmemInv UmemThms.
From stdpp Require Import list.
Local Open Scope Z_scope.

Section routines.
Context (N : Z) (private : nat -> bool) (cap : nat).
(** A count stays an [int]. *)
Hypothesis room : N + Z.of_nat cap < 2 ^ 31 - 1.
Notation inv := (uinv N private).
Notation psafe := (safe (uinv N private) cap).

Lemma psafe_read {A} K (m : M US A) t (Q : A -> list Tok -> Prop) :
  (length t <= K)%nat ->
  (forall u F, inv u (t ++ F) -> wp m (fun a u' => u' = u /\ Q a t) (fun _ _ => False) u) -> psafe K (atomic m) t Q.
Proof using.
  intros Hl H. apply safe_atomic; [done|]. intros u F Hi _. eapply wp_mono; [by apply (H u F)| |done].
  intros a u' [-> HQ]. by exists t.
Qed.
Lemma psafe_atomic {A} K (m : M US A) t t' (Q : A -> list Tok -> Prop) :
  (length t <= K)%nat -> (length t' <= K)%nat ->
  (forall u F, inv u (t ++ F) -> wp m (fun a u' => inv u' (t' ++ F) /\ Q a t') (fun _ _ => False) u) -> psafe K (atomic m) t Q.
Proof using.
  intros Hl Hl' H. apply safe_atomic; [done|]. intros u F Hi _. eapply wp_mono; [by apply (H u F)| |done].
  intros a u' [Hi' HQ]. by exists t'.
Qed.
(** [t] with its tokens in another order. *)
Lemma psafe_reorder {A} K (p : Prog US A) t t' (Q : A -> list Tok -> Prop) :
  t ≡ₚ t' -> (forall a u, Q a u -> forall u', u ≡ₚ u' -> Q a u') -> psafe K p t Q -> psafe K p t' Q.
Proof using.
  intros Ht HQ. apply (safe_perm (uinv N private) cap (uinv_perm N private)); [|done]. intros a u u' Hu Hq. by apply (HQ a u).
Qed.
Lemma psafe_frame {A} K K' (p : Prog US A) t r (Q : A -> list Tok -> Prop) (Q' : A -> list Tok -> Prop) :
  (K + length r <= K')%nat -> psafe K p t Q -> (forall a t, Q a t -> Q' a (t ++ r)) -> psafe K' p (t ++ r) Q'.
Proof using.
  intros HK Hp HQ. eapply safe_mono; [exact HK| |by apply (safe_frame (uinv N private) cap _ _ _ r)].
  intros a t' (t0 & -> & H). by apply HQ.
Qed.

Lemma check_pool_safe K v t : (length t <= K)%nat -> (forall u F, inv u (t ++ F) -> v <= nalloc u) ->
  psafe K (check_pool v) t (fun _ t' => t' = t).
Proof using.
  intros Hl H. apply (safe_bind _ _ _ _ _ _ (fun n t' => t' = t /\ v <= n)).
  - apply psafe_read; [done|]. intros u F Hi. apply wp_gets. split; [done|]. split; [done|]. by apply (H u F).
  - intros n t' _ [-> Hn]. rewrite (proj2 (Z.ltb_ge _ _)) by done. by apply safe_done.
Qed.
Lemma check_used_safe K i t : (length t <= K)%nat ->
  (forall u F, inv u (t ++ F) -> exists p, zget (pages u) i = Some p /\ p_next p = i) ->
  psafe K (check_used i) t (fun _ t' => t' = t).
Proof using.
  intros Hl H. apply (safe_bind _ _ _ _ _ _ (fun p t' => t' = t /\ p_next p = i)).
  - apply psafe_read; [done|]. intros u F Hi. destruct (H u F Hi) as (p & Ep & Hn). apply (wp_page _ p); done.
  - intros p t' _ [-> Hn]. rewrite Hn, Z.eqb_refl. by apply safe_done.
Qed.

(** The continuation of a program whose tokens at its end are known. *)
Lemma psafe_bind {A B} K (p : Prog US A) (f : A -> Prog US B) t Q' Q :
  psafe K p t Q' -> (forall a t, (length t <= K)%nat -> Q' a t -> psafe K (f a) t Q) -> psafe K (p ≫= f) t Q.
Proof using. apply safe_bind. Qed.
(** An action that turns the tokens into others. *)
Lemma psafe_turn {B} K (m : M US ()) (f : () -> Prog US B) t t' Q :
  (length t <= K)%nat -> (length t' <= K)%nat ->
  (forall u F, inv u (t ++ F) -> wp m (fun _ u' => inv u' (t' ++ F)) (fun _ _ => False) u) ->
  psafe K (f tt) t' Q -> psafe K (atomic m ≫= f) t Q.
Proof using.
  intros Hl Hl' Hm Hf. apply (psafe_bind _ _ _ _ (fun _ x => x = t')); [|by intros [] x _ ->].
  apply (psafe_atomic _ _ _ t'); [done..|]. intros u F Hi. eapply wp_mono; [by apply Hm|done|done].
Qed.

(** ** [page_new] *)

Lemma page_new_gen_safe (rd : Prog US Z) (cas : Z -> Prog US bool) clear r (G : Prop) (Q : Z * Z -> list Tok -> Prop) :
  let K := S (length r) in
  psafe K rd r (fun v t => t = r /\ (v = 0 -> G)) -> Q (0, 0) r ->
  (G -> forall i, psafe K (cas (i + 1)) (TOwn i :: r) (fun ok t => if (ok : bool) then Q (1, i + 1) t else t = TOwn i :: r)) ->
  psafe K (page_new_gen rd cas clear) r Q.
Proof using.
  intros K Hrd HQ0 HQ1. unfold page_new_gen. eapply psafe_bind; [exact Hrd|]. intros v t _ [-> HG].
  destruct (Z.eqb_spec v 0) as [Hv|_]; cbn [negb]; [specialize (HG Hv)|by apply safe_done; [lia|]].
  apply (psafe_bind _ _ _ _ (fun o t => t = match o with Some i => TFresh i false :: r | None => r end)).
  { apply safe_atomic; [lia|]. intros u F Hi _. eapply wp_mono; [by apply wp_page_get| |done].
    intros [i|] u' Hi'; [exists (TFresh i false :: r)|exists r]; (split; [cbn; lia|split; [exact Hi'|reflexivity]]). }
  intros [i|] t Hl ->; [|by apply safe_done].
  apply (psafe_turn _ _ _ _ (TFresh i true :: r)); [done|done| |]; [intros u F; apply wp_set_ref1|].
  apply (psafe_turn _ _ _ _ (TOwn i :: r)); [done|done| |]; [intros u F; apply wp_set_next|].
  apply (psafe_bind _ _ _ _ (fun _ t => t = TOwn i :: r)).
  { destruct clear; [|by apply safe_done]. apply (psafe_atomic _ _ _ (TOwn i :: r)); [done|done|].
    intros u F Hi. eapply wp_mono; [by eapply wp_zero_page|done|done]. }
  intros _ t _ ->. eapply psafe_bind; [by apply HQ1|]. intros [] t Hl' Ht; cbn [negb]; [by apply safe_done|]. subst t.
  apply (psafe_turn _ _ _ _ r); [done|lia| |by apply safe_done; [lia|]]. intros u F. apply wp_page_unget.
Qed.

Lemma load_shared_safe K s t : (length t <= K)%nat -> Z.of_nat s < N -> psafe K (atomic (load_slot s)) t (fun _ t' => t' = t).
Proof using.
  intros Hl Hs. apply psafe_read; [done|]. intros u F Hi. destruct (slot_exists _ _ _ _ _ Hi Hs) as (v & Ev & _).
  by apply (wp_load_slot _ v).
Qed.

Lemma page_new_safe s clear : private s = false -> Z.of_nat s < N -> psafe 1 (page_new s clear) [] (fun _ t => t = []).
Proof using.
  intros Hp Hs. apply (psafe_bind _ _ _ _ (fun _ t => t = [])); [|intros r t _ ->; apply safe_done; [cbn; lia|done]].
  apply (page_new_gen_safe _ _ clear [] True); [|done|].
  - eapply safe_mono; [done| |apply load_shared_safe; [cbn; lia|done]]. by intros v t ->.
  - intros _ i. apply safe_atomic; [cbn; lia|].
    intros u F Hi _. eapply wp_mono; [by eapply (wp_cas_new N private u s i F)| |done].
    intros [] u' Hi'; [exists []|exists [TOwn i]]; (split; [cbn; lia|split; [exact Hi'|done]]).
Qed.

Lemma page_new_var_safe clear :
  psafe 1 (page_new_var clear) [] (fun r t => (fst r = 0 /\ t = []) \/ (fst r = 1 /\ exists i, snd r = i + 1 /\ t = [TOwn i])).
Proof using.
  apply (page_new_gen_safe _ _ clear [] True); [apply safe_done; [cbn; lia|done]|by left|]. intros _ i. apply psafe_read; [cbn; lia|].
  intros u F Hi. apply wp_ret. split; [done|]. right. split; [done|]. by exists i.
Qed.

(** ** [page_dispose] *)

Lemma ref_checks u i F : inv u (TRef i :: F) -> i + 1 <= nalloc u /\ exists p, zget (pages u) i = Some p /\ p_next p = i.
Proof using.
  clear room. intros H. destruct (uinv_ref _ _ _ _ _ H) as [Hi He]. split; [lia|].
  destruct (uinv_live _ _ _ _ _ H Hi He) as (p & Ep & _ & Hn). by exists p.
Qed.

Lemma page_dispose_var_safe v :
  psafe 1 (page_dispose_var v) (if decide (v = 0) then [] else [TRef (v - 1)]) (fun _ t => t = []).
Proof using.
  unfold page_dispose_var. destruct (Z.eqb_spec v 0) as [->|Hv]; [rewrite decide_True by done; apply safe_done; [cbn; lia|done]|].
  rewrite decide_False by done. eapply psafe_bind; [apply check_pool_safe; [cbn; lia|]|].
  { intros u F Hi. destruct (ref_checks _ _ _ Hi). lia. }
  intros _ t _ ->. eapply psafe_bind; [apply check_used_safe; [cbn; lia|]|].
  { intros u F Hi. by destruct (ref_checks _ _ _ Hi). }
  intros _ t _ ->. apply (psafe_bind _ _ _ _ (fun r t => t = if decide (r = 0) then [TDead (v - 1)] else [])).
  { apply safe_atomic; [cbn; lia|]. intros u F Hi _. eapply wp_mono; [by eapply wp_decref| |done].
    intros r u' [Hi' _]. exists (if decide (r = 0) then [TDead (v - 1)] else []). split; [|by split]. case_decide; cbn; lia. }
  intros r t _ ->. apply (psafe_bind _ _ _ _ (fun _ t => t = [])).
  - destruct (Z.eqb_spec r 0) as [->|Hr]; [|rewrite decide_False by done; apply safe_done; [cbn; lia|done]].
    rewrite decide_True by done. apply (psafe_atomic _ _ _ []); [cbn; lia..|]. intros u F Hi. eapply wp_mono; [by eapply wp_page_free|done|done].
  - intros _ t' _ ->. apply safe_done; [cbn; lia|done].
Qed.

Lemma page_dispose_safe s : private s = false -> Z.of_nat s < N -> psafe 1 (page_dispose s) [] (fun _ t => t = []).
Proof using.
  intros Hp Hs. apply (psafe_bind _ _ _ _ (fun v t => t = if decide (v = 0) then [] else [TRef (v - 1)])).
  - apply safe_atomic; [cbn; lia|]. intros u F Hi _. eapply wp_mono; [by eapply (wp_xchg_shared N private u s F)| |done].
    intros v u' [_ Hi']. exists (if decide (v = 0) then [] else [TRef (v - 1)]). split; [|by split]. case_decide; cbn; lia.
  - intros v t _ ->. apply page_dispose_var_safe.
Qed.

(** ** [page_duplicate] and [page_duplicate_shared]

    The slot is the caller's own: the segment's lock is held. *)

Lemma slot_checks u s v F : inv u (TSlot s v :: F) -> v <> 0 ->
  v <= nalloc u /\ exists p, zget (pages u) (v - 1) = Some p /\ p_ref p = eff u (TSlot s v :: F) (v - 1) /\ p_next p = v - 1.
Proof using.
  clear room. intros H Hv. destruct (uinv_slot_live _ _ _ _ _ _ H Hv) as [Hi He]. split; [lia|].
  by apply (uinv_live _ _ _ _ _ H).
Qed.
Lemma own_dead u d F : inv u (TOwn d :: F) -> eff u (TOwn d :: F) d = 0.
Proof using.
  clear room. intros H. destruct (uinv_excl_page _ _ _ _ _ d H eq_refl) as (Hd & _ & _ & p & Ep).
  destruct H as (_ & _ & _ & ch & _ & _ & _ & _ & Hok & _). specialize (Hok d p Hd Ep). unfold page_ok in Hok.
  rewrite decide_True in Hok; [done|]. apply elem_of_app. right. by left.
Qed.
Lemma load_own_safe K s v t : (length (TSlot s v :: t) <= K)%nat ->
  psafe K (atomic (load_slot s)) (TSlot s v :: t) (fun x t' => x = v /\ t' = TSlot s v :: t).
Proof using.
  intros Hl. apply psafe_read; [done|]. intros u F Hi. destruct (uinv_slot _ _ _ _ _ _ Hi) as (Ev & _).
  by apply (wp_load_slot _ v).
Qed.
Lemma checks_own_safe K s v t {A} (f : Prog US A) (Q : A -> list Tok -> Prop) :
  v <> 0 -> (length (TSlot s v :: t) <= K)%nat -> psafe K f (TSlot s v :: t) Q ->
  psafe K (check_pool v;; check_used (v - 1);; f) (TSlot s v :: t) Q.
Proof using.
  intros Hv Hl Hf. eapply psafe_bind; [apply check_pool_safe; [done|]|].
  { intros u F Hi. by destruct (slot_checks _ _ _ _ Hi Hv). }
  intros _ x _ ->. eapply psafe_bind; [apply check_used_safe; [done|]|by intros _ x _ ->].
  intros u F Hi. destruct (slot_checks _ _ _ _ Hi Hv) as (_ & p & Ep & _ & Hn). by exists p.
Qed.

Lemma page_new_own_safe s v clear : psafe 2 (page_new s clear) [TSlot s v] (fun _ t => exists v', t = [TSlot s v']).
Proof using.
  apply (psafe_bind _ _ _ _ (fun _ t => exists v', t = [TSlot s v'])); [|intros r t Hl [v' ->]; apply safe_done; [done|by exists v']].
  apply (page_new_gen_safe _ _ clear [TSlot s v] (v = 0)); [|by exists v|].
  - eapply safe_mono; [done| |apply load_own_safe; cbn; lia]. by intros x t [-> ->].
  - intros -> i. apply (psafe_atomic _ _ _ [TSlot s (i + 1)]); [cbn; lia..|]. intros u F Hi.
    eapply wp_mono; [by eapply (wp_cas_new_own N private u s i F)| |done]. intros ok u' [-> Hi']. split; [done|]. by exists (i + 1).
Qed.

(** The part [page_duplicate] does after its checks, for any way to replace the
    old page by the new one. *)
Lemma duplicate_body_safe s v t' (cas : Z -> Z -> Prog US bool) (Q : Z * Z -> list Tok -> Prop) :
  v <> 0 -> Q (0, 0) [TSlot s v] ->
  (forall d, psafe 3 (cas v (d + 1)) [TSlot s v; TOwn d] (fun ok t => ok = true /\ t = TRef (v - 1) :: t' d)) ->
  (forall d, d + 1 <> v -> (length (t' d) <= 2)%nat /\ Q (1, d + 1) (t' d)) ->
  psafe 3 ('(r, dindex) ← page_new_var false;
    if r =? 0 then mret (0, 0)
    else
      atomic (copy_page (dindex - 1) (v - 1));;
      ok ← cas v dindex;
      if (ok : bool) then page_dispose_var v;; mret (1, dindex)
      else page_dispose_var dindex;; mret (0, 0)) [TSlot s v] Q.
Proof using.
  intros Hv HQ0 Hcas HQ1.
  apply (psafe_bind _ _ _ _ (fun r t => (fst r = 0 /\ t = [TSlot s v]) \/ (fst r = 1 /\ exists d, snd r = d + 1 /\ t = [TOwn d; TSlot s v]))).
  { apply (psafe_frame 1 3 _ [] [TSlot s v] _ _ ltac:(cbn; lia) (page_new_var_safe false)).
    intros r t [[Hr ->]|(Hr & d & Hd & ->)]; [by left|right]. split; [done|]. by exists d. }
  intros [r dindex] t _ [[Hr ->]|(Hr & d & Hd & ->)]; cbn [fst snd] in *; subst; [apply safe_done; [cbn; lia|done]|].
  rewrite (proj2 (Z.eqb_neq 1 0)) by done. apply (psafe_bind _ _ _ _ (fun _ t => t = [TSlot s v; TOwn d] /\ d + 1 <> v)).
  { apply (psafe_atomic _ _ _ [TSlot s v; TOwn d]); [cbn; lia..|]. intros u F Hi. replace (d + 1 - 1) with d by lia.
    destruct (uinv_excl_page _ _ _ _ _ d Hi eq_refl) as (_ & _ & _ & p & Ep).
    assert (inv u (TSlot s v :: TOwn d :: F)) as Hi' by (eapply uinv_perm; [apply perm_swap|done]).
    destruct (slot_checks _ _ _ _ Hi' Hv) as (_ & q & Eq & _). apply wp_bind, (wp_page _ p); [done|].
    apply wp_bind, (wp_page _ q); [done|]. apply wp_modify. split; [by apply uinv_content|]. split; [done|]. intros <-.
    destruct (uinv_slot_live _ _ _ _ _ _ Hi' Hv) as [_ He]. pose proof (own_dead _ _ _ Hi) as Hz.
    replace (d + 1 - 1) with d in He by lia. rewrite eff_cons in He, Hz by done. rewrite eff_cons in He, Hz by done. lia. }
  intros _ t _ [-> Hne]. eapply psafe_bind; [apply Hcas|]. intros ok t Hl [-> ->]. destruct (HQ1 d Hne) as [Hd HQd].
  apply (psafe_bind _ _ _ _ (fun _ t => t = t' d)).
  - apply (psafe_frame 1 3 _ [TRef (v - 1)] (t' d) (fun _ t => t = [])); [lia| |by intros _ t ->].
    pose proof (page_dispose_var_safe v) as H. by rewrite decide_False in H by done.
  - intros _ t _ ->. apply safe_done; [lia|done].
Qed.

Lemma page_duplicate_safe s v : psafe 3 (page_duplicate s) [TSlot s v] (fun _ t => exists v', t = [TSlot s v']).
Proof using.
  apply (psafe_bind _ _ _ _ (fun _ t => exists v', t = [TSlot s v'])); [|intros r t Hl [v' ->]; apply safe_done; [done|by exists v']].
  unfold page_duplicate_gen. eapply psafe_bind; [apply load_own_safe; cbn; lia|]. intros x t _ [-> ->].
  destruct (Z.eqb_spec v 0) as [->|Hv]; [apply safe_done; [cbn; lia|by eexists]|].
  apply checks_own_safe; [done|cbn; lia|]. apply (duplicate_body_safe s v (fun d => [TSlot s (d + 1)]) (fun o d => atomic (cas32 s o d))); [done|by eexists| |].
  - intros d. apply (psafe_atomic _ _ _ [TRef (v - 1); TSlot s (d + 1)]); [cbn; lia..|]. intros u F Hi.
    eapply wp_mono; [by eapply (wp_cas_duplicate N private u s v d F)| |done]. by intros ok u' [-> Hi'].
  - intros d _. split; [cbn; lia|]. by eexists.
Qed.

Lemma page_duplicate_shared_safe s v : psafe 3 (page_duplicate_shared s) [TSlot s v] (fun _ t => exists v', t = [TSlot s v']).
Proof using.
  unfold page_duplicate_shared. eapply psafe_bind; [apply load_own_safe; cbn; lia|]. intros x t _ [-> ->].
  destruct (Z.eqb_spec v 0) as [->|Hv]; [apply safe_done; [cbn; lia|by eexists]|].
  eapply psafe_bind; [apply check_pool_safe; [cbn; lia|]|].
  { intros u F Hi. by destruct (slot_checks _ _ _ _ Hi Hv). }
  intros _ t _ ->. apply (psafe_bind _ _ _ _ (fun _ t => t = [TSlot s v])).
  { apply psafe_read; [cbn; lia|]. intros u F Hi. destruct (slot_checks _ _ _ _ Hi Hv) as (_ & p & Ep & _). by apply (wp_page _ p). }
  intros p t _ ->.
  apply (psafe_bind _ _ _ _ (fun r t => t = [TSlot s v] /\ (fst r = 0 \/ snd r = v) \/
     (fst r = 1 /\ exists d, snd r = d + 1 /\ d + 1 <> v /\ t = [TStale s v; TOwn d]))).
  { destruct (1 <? p_ref p); [|apply safe_done; [cbn; lia|left; split; [done|by right]]].
    unfold page_duplicate_gen. change (mret v ≫= ?f) with (f v). cbv beta. rewrite (proj2 (Z.eqb_neq v 0)) by done.
    apply checks_own_safe; [done|cbn; lia|]. apply (duplicate_body_safe s v (fun d => [TStale s v; TOwn d]) (fun _ _ => atomic (mret true))); [done|left; split; [done|by left]| |].
    - intros d. apply (psafe_atomic _ _ _ [TRef (v - 1); TStale s v; TOwn d]); [cbn; lia..|]. intros u F Hi.
      apply wp_ret. split; [|done]. by apply uinv_go_stale.
    - intros d Hne. split; [cbn; lia|]. right. split; [done|]. by exists d. }
  intros [r nindex] t Hl [[-> Hr]|(Hr & d & Hd & Hne & ->)]; cbn in Hr.
  - destruct (Z.eqb_spec r 0); [apply safe_done; [done|by eexists]|]. destruct Hr as [->| ->]; [done|].
    rewrite Z.eqb_refl. apply safe_done; [done|by eexists].
  - cbn in Hd. subst. rewrite (proj2 (Z.eqb_neq 1 0)), (proj2 (Z.eqb_neq v (d + 1))) by (done || congruence). cbn [negb].
    apply (psafe_bind _ _ _ _ (fun ok t => ok = true /\ t = [TSlot s (d + 1)])).
    + apply (psafe_atomic _ _ _ [TSlot s (d + 1)]); [cbn; lia..|]. intros u F Hi.
      eapply wp_mono; [by eapply (wp_cas_stale N private u s v d F)| |done]. by intros ok u' [-> Hi'].
    + intros ok t _ [-> ->]. apply safe_done; [cbn; lia|by eexists].
Qed.

(** ** [page_assign] of the page in a slot of one's own to a shared slot *)

Lemma page_assign_safe tg s v : private tg = false -> Z.of_nat tg < N -> v <> 0 ->
  psafe 3 (page_assign tg v) [TSlot s v] (fun _ t => t = [TSlot s v]).
Proof using room.
  intros Hp Htg Hv. unfold page_assign. rewrite (proj2 (Z.eqb_neq v 0)) by done.
  eapply psafe_bind; [apply check_pool_safe; [cbn; lia|]|].
  { intros u F Hi. by destruct (slot_checks _ _ _ _ Hi Hv). }
  intros _ t _ ->. eapply psafe_bind; [apply load_shared_safe; [cbn; lia|done]|]. intros x t _ ->.
  destruct (negb (x =? 0)).
  { eapply psafe_bind; [apply load_shared_safe; [cbn; lia|done]|]. intros y t _ ->. apply safe_done; [cbn; lia|done]. }
  eapply psafe_bind; [apply check_used_safe; [cbn; lia|]|].
  { intros u F Hi. destruct (slot_checks _ _ _ _ Hi Hv) as (_ & p & Ep & _ & Hn). by exists p. }
  intros _ t _ ->. apply (psafe_bind _ _ _ _ (fun _ t => t = [TRef (v - 1); TSlot s v])).
  { apply safe_atomic; [cbn; lia|]. intros u F Hi Hc. destruct (uinv_slot_live _ _ _ _ _ _ Hi Hv) as [Hr He].
    pose proof (eff_bound _ _ _ _ (v - 1) Hi) as Hb. unfold zlen in Hb. eapply wp_mono; [apply (wp_page_incref N private); [exact Hi|done|done|lia]| |done].
    intros _ u' [Hi' _]. exists [TRef (v - 1); TSlot s v]. split; [cbn; lia|]. by split. }
  intros _ t _ ->. apply (psafe_bind _ _ _ _ (fun ok t => t = if (ok : bool) then [TSlot s v] else [TRef (v - 1); TSlot s v])).
  { apply safe_atomic; [cbn; lia|]. intros u F Hi _. replace v with (v - 1 + 1) at 1 by lia.
    eapply wp_mono; [apply (wp_cas_assign N private u tg (v - 1) (TSlot s v :: F)); done| |done].
    intros [] u' Hi'; [exists [TSlot s v]|exists [TRef (v - 1); TSlot s v]]; (split; [cbn; lia|by split]). }
  intros [] t _ ->; cbn [negb]; [apply safe_done; [cbn; lia|done]|].
  apply (psafe_bind _ _ _ _ (fun _ t => t = [TSlot s v])).
  { apply safe_atomic; [cbn; lia|]. intros u F Hi _. eapply wp_mono; [by apply (wp_decref N private u (v - 1) (TSlot s v :: F))| |done].
    intros r u' [Hi' Hr]. destruct (uinv_slot _ _ _ _ _ _ (uinv_perm _ _ _ _ _ (perm_swap _ _ _) Hi)) as (Ev & _ & Hsp & Hss & _).
    pose proof (eff_slot_pos u (TSlot s v :: F) s v Hss Ev) as H1. rewrite decide_False in Hi' by lia.
    exists [TSlot s v]. split; [cbn; lia|]. by split. }
  intros _ t _ ->. eapply psafe_bind; [apply load_shared_safe; [cbn; lia|done]|]. intros y t _ ->. apply safe_done; [cbn; lia|done].
Qed.

Lemma page_dispose_own_safe s v : psafe 2 (page_dispose s) [TSlot s v] (fun _ t => t = [TSlot s 0]).
Proof using.
  apply (psafe_bind _ _ _ _ (fun x t => t = (if decide (x = 0) then [] else [TRef (x - 1)]) ++ [TSlot s 0])).
  - apply safe_atomic; [cbn; lia|]. intros u F Hi _. eapply wp_mono; [by apply (wp_xchg_private N private u s v F)| |done].
    intros x u' [-> Hi']. exists ((if decide (v = 0) then [] else [TRef (v - 1)]) ++ [TSlot s 0]). split; [case_decide; cbn; lia|].
    split; [by rewrite <- app_assoc|done].
  - intros x t _ ->. apply (psafe_frame 1 2 _ _ [TSlot s 0] (fun _ t => t = [])); [cbn; lia|apply page_dispose_var_safe|by intros _ t ->].
Qed.
End routines.
