(* ===== verification/UmemProps.v ===== *)
(** * The page pool: properties *)
From S2P Require Import Prelude CMonad Conc Umem UmemInv UmemThms UmemSafe.
From stdpp Require Import list relations.
Local Open Scope Z_scope.

(** ** Processes that use the pool

    Each runs a list of routines; [own] are the slots it alone uses, under its
    segments' locks.  [UShare] is the step of [table_clone]: the page of a slot
    of one's own is assigned to another slot. *)
Inductive UOp : Type :=
| UNew (s : nat) (clear : bool)
| UDispose (s : nat)
| UDuplicate (s : nat)
| UDupShared (s : nat)
| UShare (target src : nat).

Definition uop_prog (op : UOp) : Prog US Z :=
  match op with
  | UNew s clear => page_new s clear
  | UDispose s => page_dispose s
  | UDuplicate s => page_duplicate s
  | UDupShared s => page_duplicate_shared s
  | UShare target src => v ← atomic (load_slot src); if v =? 0 then mret 0 else page_assign target v
  end.
Fixpoint uprog (ops : list UOp) : Prog US (list Z) :=
  match ops with
  | [] => mret []
  | op :: ops => r ← uop_prog op; rs ← uprog ops; mret (r :: rs)
  end.

Section ops.
Context (N : Z) (private : nat -> bool) (own : list nat).

Definition shared (s : nat) : Prop := private s = false /\ Z.of_nat s < N.
Definition uop_ok (op : UOp) : Prop :=
  match op with
  | UNew s _ | UDispose s => shared s \/ s ∈ own
  | UDuplicate s | UDupShared s => s ∈ own
  | UShare target src => shared target /\ src ∈ own
  end.

Definition own_toks (f : nat -> Z) (l : list nat) : list Tok := (fun s => TSlot s (f s)) <$> l.
Definition holds (t : list Tok) : Prop := exists f, t ≡ₚ own_toks f own.

Lemma own_toks_insert f s v l : s ∉ l -> own_toks (<[s := v]> f) l = own_toks f l.
Proof using.
  intros Hs. apply list_fmap_ext. intros i x Hx. apply list_elem_of_lookup_2 in Hx.
  rewrite fn_lookup_insert_ne; [done|]. intros ->. done.
Qed.
Lemma own_toks_length f l : length (own_toks f l) = length l.
Proof using. apply length_fmap. Qed.

Section safe_ops.
Context (cap : nat).
Hypothesis room : N + Z.of_nat cap < 2 ^ 31 - 1.
Hypothesis own_nodup : NoDup own.
Local Notation psafe := (safe (uinv N private) cap).

(** A routine on one slot of one's own leaves the others. *)
Lemma holds_frame {A} k s (p : Prog US A) t :
  s ∈ own -> holds t -> (k <= 3)%nat -> (forall v, psafe k p [TSlot s v] (fun _ t => exists v', t = [TSlot s v'])) ->
  psafe (length own + 3) p t (fun _ t => holds t).
Proof using own_nodup.
  intros Hs (f & Ht) Hk Hp. apply list_elem_of_split in Hs as (l1 & l2 & E). set (l := l1 ++ l2).
  assert (own ≡ₚ s :: l) as Ho by (rewrite E; unfold l; by rewrite Permutation_middle).
  assert (s ∉ l) as Hsl by (rewrite Ho in own_nodup; by apply NoDup_cons_1_1 in own_nodup).
  assert (forall g, own_toks g own ≡ₚ [TSlot s (g s)] ++ own_toks g l) as Hg by (intros g; unfold own_toks at 1; rewrite Ho; done).
  apply (psafe_reorder N private cap _ _ ([TSlot s (f s)] ++ own_toks f l)).
  - by rewrite Ht, Hg.
  - intros a x (g & Hx) y Hy. exists g. by rewrite <- Hy.
  - eapply (psafe_frame N private cap k); [|apply Hp|].
    + rewrite own_toks_length. assert (length own = S (length l)) as -> by (rewrite Ho; done). lia.
    + intros a x (v' & ->). exists (<[s := v']> f). rewrite Hg, fn_lookup_insert, own_toks_insert by done. done.
Qed.
(** A routine that needs no slot of one's own leaves them all. *)
Lemma holds_frame_nil {A} (p : Prog US A) t :
  holds t -> psafe 1 p [] (fun _ t => t = []) -> psafe (length own + 3) p t (fun _ t => holds t).
Proof using.
  intros (f & Ht) Hp. eapply (psafe_frame N private cap 1 _ _ [] t); [|exact Hp|].
  - rewrite Ht, own_toks_length. lia.
  - intros a x ->. by exists f.
Qed.

Lemma uop_safe op t : uop_ok op -> holds t -> psafe (length own + 3) (uop_prog op) t (fun _ t => holds t).
Proof using room own_nodup.
  intros Hop Ht. destruct op as [s clear|s|s|s|tg s]; cbn [uop_prog].
  - destruct Hop as [[Hp Hs]|Hs].
    + apply holds_frame_nil; [done|]. by apply page_new_safe.
    + apply (holds_frame 2 s); [done|done|lia|]. intros v. apply page_new_own_safe.
  - destruct Hop as [[Hp Hs]|Hs].
    + apply holds_frame_nil; [done|]. by apply page_dispose_safe.
    + apply (holds_frame 2 s); [done|done|lia|]. intros v. eapply safe_mono; [done| |by apply page_dispose_own_safe].
      intros _ x ->. by exists 0.
  - apply (holds_frame 3 s); [done|done|lia|]. intros v. apply page_duplicate_safe.
  - apply (holds_frame 3 s); [done|done|lia|]. intros v. apply page_duplicate_shared_safe.
  - destruct Hop as [[Hp Htg] Hs]. apply (holds_frame 3 s); [done|done|lia|]. intros v.
    eapply psafe_bind; [apply load_own_safe; cbn; lia|]. intros x y _ [-> ->].
    destruct (Z.eqb_spec v 0); [apply safe_done; [cbn; lia|by exists v]|].
    eapply safe_mono; [done| |by apply page_assign_safe]. intros _ x ->. by exists v.
Qed.

Lemma uprog_safe ops t : (forall op, op ∈ ops -> uop_ok op) -> holds t ->
  psafe (length own + 3) (uprog ops) t (fun _ t => holds t).
Proof using room own_nodup.
  revert t. induction ops as [|op ops IH]; intros t Hops Ht; cbn [uprog].
  - apply safe_done; [|done]. destruct Ht as (f & ->). rewrite own_toks_length. lia.
  - eapply psafe_bind; [apply uop_safe; [apply Hops; by left|done]|]. intros r t1 _ Ht1.
    eapply psafe_bind; [apply IH; [intros o Ho; apply Hops; by right|done]|]. intros rs t2 Hl Ht2. by apply safe_done.
Qed.
End safe_ops.
End ops.

(** ** A pool at rest *)

(** Every page that has been given memory is either on the free list with no
    reference, or counts the slots that name it; no two pages share memory. *)
Definition balanced (u : US) : Prop :=
  exists ch, chain (pages u) (firstfree u) ch /\ freepages u = zlen ch /\ NoDup ch /\
    (forall i p, 0 <= i < nalloc u -> zget (pages u) i = Some p ->
       if decide (i ∈ ch) then p_ref p = 0 /\ cntv (i + 1) (slots u) = 0
       else p_ref p = cntv (i + 1) (slots u) /\ 0 < p_ref p /\ p_next p = i) /\
    (forall i, i ∈ ch -> 0 <= i < nalloc u) /\ NoDup (pas u ++ future u).

Definition slots_only (T : list Tok) : Prop := forall t, t ∈ T -> exists s v, t = TSlot s v.
Lemma slots_only_proj {B} (g : Tok -> list B) T : (forall s v, g (TSlot s v) = []) -> slots_only T -> T ≫= g = [].
Proof.
  intros Hg. induction T as [|t T IH]; [done|]. intros HT. destruct (HT t (list_elem_of_here _ _)) as (s & v & ->).
  change (g (TSlot s v) ++ (T ≫= g) = []). rewrite Hg, IH; [done|]. intros x Hx. apply HT. by right.
Qed.
Lemma eff_slots_only u T i : slots_only T -> eff u T i = cntv (i + 1) (slots u).
Proof.
  intros HT. unfold eff, refs, eslots, stales. rewrite !slots_only_proj by done. cbn. rewrite Z.add_0_r. f_equal.
  apply list_eq. intros s. rewrite list_lookup_imap. destruct (slots u !! s); [|done]. cbn. rewrite decide_False; [done|].
  apply not_elem_of_nil.
Qed.
Lemma uinv_balanced N private u T : slots_only T -> uinv N private u T -> balanced u.
Proof.
  intros HT ((_ & _ & _ & _ & _ & _ & Hnd) & _ & _ & ch & P1 & P2 & P3 & P4 & P5 & P6).
  unfold excl in *. rewrite slots_only_proj, app_nil_r in P3, P4, P5 by done. exists ch. split_and!; try done.
  intros i p Hi Ep. specialize (P5 i p Hi Ep). unfold page_ok in P5. rewrite eff_slots_only in P5 by done. case_decide.
  - split; [by eapply P6|done].
  - destruct P5 as (H1 & H2 & H3). split_and!; [done|lia|done].
Qed.
Lemma holds_slots_only own t : holds own t -> slots_only t.
Proof.
  intros (f & Ht) x Hx. rewrite Ht in Hx. apply list_elem_of_fmap in Hx as (s & -> & _). by exists s, (f s).
Qed.

(** ** The pool after [umem_init] *)

(** The regions registered do not overlap; the rest of the array is zero. *)
Definition boot (N : Z) (u : US) : Prop :=
  zlen (slots u) = N /\ (forall v, v ∈ slots u -> v = 0) /\ regions_ok u /\ NoDup (future u) /\
  (forall r, r ∈ live_regions u -> r_used r = 0) /\ (forall r, r ∈ drop (Z.to_nat (nregions u)) (regions u) -> r_npages r = 0).

Definition total_pages (l : list MemoryRegion) : Z := foldr (fun r n => r_npages r + n) 0 l.
Lemma total_pages_app l l' : total_pages (l ++ l') = total_pages l + total_pages l'.
Proof. induction l as [|r l IH]; [done|]. cbn in *. unfold total_pages in *. lia. Qed.
Lemma total_pages_0 l : (forall r, r ∈ l -> r_npages r = 0) -> total_pages l = 0.
Proof.
  induction l as [|r l IH]; intros H; [done|]. change (r_npages r + total_pages l = 0). rewrite H, IH; [done| |by left].
  intros x Hx. apply H. by right.
Qed.
Lemma total_pages_future l : (forall r, r ∈ l -> region_ok r /\ r_used r = 0) -> total_pages l = zlen (l ≫= region_pages).
Proof.
  induction l as [|r l IH]; intros H; [done|]. change (r_npages r + total_pages l = zlen (region_pages r ++ (l ≫= region_pages))).
  rewrite zlen_app, IH by (intros x Hx; apply H; by right). destruct (H r (list_elem_of_here _ _)) as [Hr Hu].
  destruct Hr as (H1 & _). assert (zlen (region_pages r) = r_npages r) as ->; [|done].
  unfold region_pages, zlen. rewrite length_fmap, length_seqZ, Hu. lia.
Qed.

Lemma privs_own_toks f l : privs (own_toks f l) = l.
Proof.
  induction l as [|s l IH]; [done|]. change (s :: privs (own_toks f l) = s :: l). by rewrite IH.
Qed.
Lemma boot_inv N private own u u' :
  boot N u -> umem_init true u = (Ok tt, u') -> NoDup own -> (forall s, s ∈ own -> private s = true /\ Z.of_nat s < N) ->
  uinv N private u' (own_toks (fun _ => 0) own).
Proof.
  intros (HN & Hz & Hreg & Hnd & Hu & Hd) E Hown Hpriv. unfold umem_init, getu in E. rewrite bind_gets in E. cbv zeta in E. cbn [negb id] in E.
  change (foldr (fun r n => r_npages r + n) 0 (regions u)) with (total_pages (regions u)) in E.
  assert (total_pages (regions u) = zlen (future u)) as Et.
  { rewrite <- (take_drop (Z.to_nat (nregions u)) (regions u)), total_pages_app, (total_pages_0 (drop _ _)) by done.
    rewrite Z.add_0_r. apply total_pages_future. intros r Hr. split; [by apply Hreg|by apply Hu]. }
  rewrite Et in E. set (n := if INT32_MAX <? zlen (future u) then INT32_MAX else zlen (future u)) in E.
  assert (0 <= n <= zlen (future u) /\ n <= INT32_MAX) as [Hn Hmax]
    by (unfold n; pose proof (zlen_nonneg (future u)); unfold INT32_MAX; destruct (Z.ltb_spec 2147483647 (zlen (future u))); lia).
  clearbody n. injection E as <-. set (u' := set_blank _ _).
  assert (npages u' = n) as En by (unfold npages, zlen; cbn; rewrite length_replicate; lia).
  assert (nalloc u' = 0) as Ea by (unfold nalloc; rewrite En; cbn; lia).
  assert (slots_only (own_toks (fun _ => 0) own)) as Hso by (apply (holds_slots_only own); by exists (fun _ => 0)).
  split; [|split; [|split]].
  - split; [done|]. rewrite En, Ea. split; [cbn; lia|]. split; [done|]. split; [intros v Hv; rewrite (Hz v Hv); lia|].
    split; [done|]. split; [cbn; change (future u') with (future u); lia|]. unfold pas. by rewrite Ea.
  - intros t (s & -> & Hs)%list_elem_of_fmap. destruct (Hpriv s Hs) as [Hp Hl]. split; [done|]. cbn.
    unfold zlen in HN. destruct (lookup_lt_is_Some_2 (slots u) s ltac:(lia)) as [v Ev]. rewrite Ev. f_equal.
    by apply Hz, (list_elem_of_lookup_2 _ s).
  - by rewrite privs_own_toks.
  - exists []. unfold upool. unfold excl. rewrite slots_only_proj by done. cbn. split; [|split; [done|split; [constructor|split; [|split]]]].
    + cbn. unfold zlen. rewrite length_replicate. lia.
    + intros i Hi. by apply not_elem_of_nil in Hi.
    + intros i p Hi. rewrite Ea in Hi. lia.
    + intros i p Hi. by apply not_elem_of_nil in Hi.
Qed.

(** ** The properties *)

Definition Thread : Type := list nat * list UOp.
Definition owned (ths : list Thread) : list nat := concat (fst <$> ths).
Definition is_owned (ths : list Thread) (s : nat) : bool := bool_decide (s ∈ owned ths).
Definition thread_ok (N : Z) (m : nat) (ths : list Thread) (th : Thread) : Prop :=
  (length (fst th) <= m)%nat /\ forall op, op ∈ snd th -> uop_ok N (is_owned ths) (fst th) op.

Lemma own_toks_concat f ls : concat (own_toks f <$> ls) = own_toks f (concat ls).
Proof. induction ls as [|l ls IH]; [done|]. cbn. rewrite IH. unfold own_toks. by rewrite fmap_app. Qed.
Lemma nodup_concat_in {A} (ls : list (list A)) l : NoDup (concat ls) -> l ∈ ls -> NoDup l.
Proof.
  intros Hn Hl. apply list_elem_of_split in Hl as (a & b & ->). rewrite concat_app in Hn. cbn in Hn.
  apply NoDup_app in Hn as (_ & _ & Hn). by apply NoDup_app in Hn as (Hn & _).
Qed.

Lemma pool_boot_ok N m ths u0 u1 :
  boot N u0 -> umem_init true u0 = (Ok tt, u1) -> NoDup (owned ths) -> (forall s, s ∈ owned ths -> Z.of_nat s < N) ->
  (forall th, th ∈ ths -> thread_ok N m ths th) -> N + Z.of_nat ((m + 3) * length ths) < 2 ^ 31 - 1 ->
  pool_ok (uinv N (is_owned ths)) ((m + 3) * length ths) (m + 3) (length ths)
    (fun i _ t => holds (default [] ((fst <$> ths) !! i)) t) (u1, (fun th : Thread => uprog (snd th)) <$> ths).
Proof.
  intros Hb E Hnd Hlt Hth Hroom. exists (own_toks (fun _ => 0) <$> (fst <$> ths)). rewrite !length_fmap.
  split; [done|]. split; [cbn; by rewrite length_fmap|]. split.
  - rewrite own_toks_concat. apply (boot_inv _ _ _ u0); try done. intros s Hs. split; [by apply bool_decide_eq_true|by apply Hlt].
  - intros i p t Hp Ht. cbn [snd] in Hp. rewrite !list_lookup_fmap in *. unfold Thread in *.
    destruct (ths !! i) as [th|] eqn:Ei; [|done]. cbn in *. injection Hp as <-. injection Ht as <-. apply list_elem_of_lookup_2 in Ei. destruct (Hth th Ei) as [Hlen Hops].
    assert (NoDup (fst th)) as Hn by (apply (nodup_concat_in (fst <$> ths)); [done|apply list_elem_of_fmap; by exists th]).
    pose proof (uprog_safe N (is_owned ths) (fst th) _ Hroom Hn (snd th) (own_toks (fun _ => 0) (fst th)) Hops) as Hsafe.
    eapply safe_mono; [| |apply Hsafe; by exists (fun _ => 0)]; [lia|done].
Qed.


(** A schedule: the process that acts at each step. *)
Fixpoint sched {S A} (sch : list nat) (c : S * list (Prog S A)) : S * list (Prog S A) :=
  match sch with
  | [] => c
  | i :: sch =>
      match snd c !! i with
      | Some (Act f k) => sched sch (f (fst c), <[i := k (fst c)]> (snd c))
      | _ => sched sch c
      end
  end.
Lemma sched_steps {S A} sch (c : S * list (Prog S A)) : rtc pstep c (sched sch c).
Proof.
  revert c. induction sch as [|i sch IH]; intros c; cbn; [done|]. destruct (snd c !! i) as [[a| |f k]|] eqn:E; try apply IH.
  eapply rtc_l; [|apply IH]. by exists i, f, k.
Qed.

(** Two processes and three pages: the first fills its slot, copies the page
    and shares the copy while the second takes a page and disposes of the
    shared one. *)
Definition boot_ex : US :=
  mkUS [] 0 0 0 (mkRegion 1048576 3 0 :: replicate 15 (mkRegion 0 0 0)) 1 [0; 0; 0] (fun _ => []).
Definition ths_ex : list Thread := [([0%nat], [UNew 0 true; UDuplicate 0; UShare 1 0]); ([], [UNew 2 false; UDispose 1])].
Definition start_ex : US * list (Prog US (list Z)) :=
  (snd (umem_init true boot_ex), (fun th : Thread => uprog (snd th)) <$> ths_ex).
Definition end_ex := sched (concat (replicate 60 [0%nat; 0%nat; 0%nat; 0%nat; 0%nat; 1%nat])) start_ex.

Lemma boot_ex_ok : boot 3 boot_ex.
Proof.
  assert (live_regions boot_ex = [mkRegion 1048576 3 0]) as E by reflexivity. unfold boot, regions_ok. rewrite E.
  split_and!; try done.
  - intros v Hv. cbn in Hv. repeat (apply elem_of_cons in Hv as [->|Hv]; [done|]). by apply not_elem_of_nil in Hv.
  - intros r ->%list_elem_of_singleton. split_and!; done.
  - assert (future boot_ex = [1048576; 1052672; 1056768]) as -> by reflexivity. repeat (apply NoDup_cons; split; [set_solver|]). constructor.
  - by intros r ->%list_elem_of_singleton.
  - intros r Hr. change (r ∈ replicate 15 (mkRegion 0 0 0)) in Hr. by apply elem_of_replicate in Hr as [-> _].
Qed.
Lemma ths_ex_ok th : th ∈ ths_ex -> thread_ok 3 1 ths_ex th.
Proof.
  intros [->|[->|Hx]%elem_of_cons]%elem_of_cons; [| |by apply not_elem_of_nil in Hx]; (split; [cbn; lia|]); intros op Hop; cbn in Hop;
    repeat (apply elem_of_cons in Hop as [->|Hop]; [cbn; unfold shared; set_solver|]); by apply not_elem_of_nil in Hop.
Qed.


(** [page_duplicate_shared] gives up the slot's reference to the old page before
    it replaces the slot: in between, the slot can name a page that is free. *)
Definition ths_window : list Thread := [([0%nat], [UNew 0 true; UShare 1 0; UDupShared 0]); ([], [UDispose 1])].
Definition window : US * list (Prog US (list Z)) :=
  sched (replicate 26 0%nat ++ replicate 5 1%nat) (snd (umem_init true boot_ex), (fun th : Thread => uprog (snd th)) <$> ths_window).
Lemma page_duplicate_shared_window : slots (fst window) !! 0%nat = Some 1 /\ firstfree (fst window) = 0 /\ freepages (fst window) = 1.
Proof. vm_compute. done. Qed.

(** ** A copy of a page, alone *)

Definition rwp {A} (p : Prog US A) (Q : A -> US -> Prop) (u : US) : Prop :=
  match run p u with (Some a, u') => Q a u' | (None, _) => False end.
Lemma rwp_bind {A B} (p : Prog US A) (f : A -> Prog US B) Q u : rwp p (fun a u' => rwp (f a) Q u') u -> rwp (p ≫= f) Q u.
Proof. unfold rwp. rewrite run_bind. by destruct (run p u) as [[a|] u']. Qed.
Lemma rwp_atomic {A} (m : M US A) (Q : A -> US -> Prop) u : wp m Q (fun _ _ => False) u -> rwp (atomic m) Q u.
Proof. unfold rwp, wp. rewrite run_atomic. by destruct (m u) as [[a|v|] u']. Qed.
Lemma rwp_mono {A} (p : Prog US A) (Q Q' : A -> US -> Prop) u : rwp p Q u -> (forall a u', Q a u' -> Q' a u') -> rwp p Q' u.
Proof. unfold rwp. destruct (run p u) as [[a|] u']; auto. Qed.
Lemma rwp_ret {A} (a : A) (Q : A -> US -> Prop) u : Q a u -> rwp (mret a) Q u.
Proof. done. Qed.

(** Slots, contents and addresses stay. *)
Definition same (u u' : US) : Prop :=
  slots u' = slots u /\ content u' = content u /\ p_pa <$> pages u' = p_pa <$> pages u.
Lemma same_upd u i p p' : zget (pages u) i = Some p -> p_pa p' = p_pa p -> same u (set_pages (<[Z.to_nat i := p']> (pages u)) u).
Proof.
  intros Ep Hp. split; [done|]. split; [done|]. cbn. rewrite list_fmap_insert, list_insert_id; [done|].
  rewrite list_lookup_fmap. pose proof (zget_range _ _ _ Ep) as Hr. unfold zget in Ep. rewrite (proj2 (Z.ltb_ge _ _)) in Ep by lia.
  rewrite Ep. cbn. by rewrite Hp.
Qed.
Lemma same_trans u u1 u2 : same u u1 -> same u1 u2 -> same u u2.
Proof. intros (H1 & H2 & H3) (K1 & K2 & K3). unfold same. by rewrite K1, K2, K3. Qed.
Lemma same_pa u u' i p p' : same u u' -> zget (pages u) i = Some p -> zget (pages u') i = Some p' -> p_pa p' = p_pa p.
Proof.
  intros (_ & _ & H) Ep Ep'. pose proof (zget_range _ _ _ Ep) as Hr. unfold zget in *. rewrite (proj2 (Z.ltb_ge _ _)) in Ep, Ep' by lia.
  assert ((p_pa <$> pages u') !! Z.to_nat i = (p_pa <$> pages u) !! Z.to_nat i) as E by (by rewrite H).
  rewrite !list_lookup_fmap, Ep, Ep' in E. by injection E.
Qed.

Lemma wp_both {A} (m : M US A) Q Q' R u : wp m Q R u -> wp m Q' (fun _ _ => True) u -> wp m (fun a u' => Q a u' /\ Q' a u') R u.
Proof. unfold wp. destruct (m u) as [[a|v|] u']; auto. Qed.

Section alone.
Context (N : Z) (private : nat -> bool).
Notation inv := (uinv N private).

Lemma rwp_check_pool v u : v <= nalloc u -> forall Q : () -> US -> Prop, Q tt u -> rwp (check_pool v) Q u.
Proof using. intros Hv Q HQ. apply rwp_bind, rwp_atomic, wp_gets. by rewrite (proj2 (Z.ltb_ge _ _)) by done. Qed.
Lemma rwp_check_used i p u : zget (pages u) i = Some p -> p_next p = i -> forall Q : () -> US -> Prop, Q tt u -> rwp (check_used i) Q u.
Proof using. intros Ep Hn Q HQ. apply rwp_bind, rwp_atomic, (wp_page _ p); [done|]. by rewrite Hn, Z.eqb_refl. Qed.

(** What [page_dispose_var] leaves, whether or not the page is freed. *)
Lemma rwp_dispose_var v u F (Q : Z -> US -> Prop) : v <> 0 -> inv u (TRef (v - 1) :: F) ->
  (forall u', inv u' F -> same u u' -> Q 1 u') -> rwp (page_dispose_var v) Q u.
Proof using.
  intros Hv H HQ. unfold page_dispose_var. rewrite (proj2 (Z.eqb_neq v 0)) by done.
  destruct (ref_checks N private _ _ _ H) as (Hb & p & Ep & Hn). apply rwp_bind, rwp_check_pool; [lia|].
  apply rwp_bind, (rwp_check_used _ p); [done..|]. apply rwp_bind, rwp_atomic.
  assert (wp (decref (v - 1)) (fun _ u' => same u u') (fun _ _ => True) u) as Hs.
  { unfold decref. apply wp_bind, (wp_page _ p); [done|]. apply wp_bind, (wp_upd_page _ _ p); [done|].
    destruct (_ <? _); [done|]. apply wp_ret. by apply (same_upd _ _ p). }
  eapply wp_mono; [exact (wp_both _ _ _ _ _ (wp_decref N private u (v - 1) F H) Hs)| |done]. intros r u1 [[Hi1 _] Hs1].
  apply rwp_bind. destruct (Z.eqb_spec r 0) as [->|Hr].
  - rewrite decide_True in Hi1 by done. apply rwp_atomic. destruct (uinv_head _ _ _ _ _ Hi1) as (q & Eq & _).
    assert (wp (page_free (v - 1)) (fun _ u' => same u1 u') (fun _ _ => True) u1) as Hs'.
    { unfold page_free. apply wp_bind, (wp_page _ q); [done|]. apply wp_bind, wp_gets. unfold id. apply wp_bind, (wp_upd_page _ _ q); [done|].
      apply wp_modify. pose proof (same_upd u1 (v - 1) q (set_next (firstfree u1) q) Eq eq_refl) as S. exact S. }
    eapply wp_mono; [exact (wp_both _ _ _ _ _ (wp_page_free N private u1 (v - 1) F Hi1) Hs')| |done]. intros [] u2 [Hi2 Hs2].
    apply rwp_ret, HQ; [done|]. by eapply same_trans.
  - rewrite decide_False in Hi1 by done. by apply rwp_ret, rwp_ret, HQ.
Qed.

(** Slots, contents and the addresses of the pages already in use stay. *)
Definition near (u u' : US) : Prop :=
  slots u' = slots u /\ content u' = content u /\
  forall i p, 0 <= i < nalloc u -> zget (pages u) i = Some p -> exists p', zget (pages u') i = Some p' /\ p_pa p' = p_pa p.
Lemma same_near u u1 u2 : near u u1 -> same u1 u2 -> length (pages u2) = length (pages u1) -> near u u2.
Proof using.
  intros (H1 & H2 & H3) Hs Hl. pose proof Hs as (K1 & K2 & K3). split; [congruence|]. split; [congruence|]. intros i p Hi Ep.
  destruct (H3 i p Hi Ep) as (p1 & E1 & Hp1). pose proof (zget_range _ _ _ E1) as Hr.
  destruct (zget_Some i (pages u2)) as [p2 E2]; [unfold zlen in *; lia|]. exists p2. split; [done|].
  rewrite (same_pa _ _ _ _ _ Hs E1 E2). done.
Qed.
Definition exhausted (u : US) : Prop := npages u <= firstfree u /\ blankpages u = 0.


Lemma pwp_page i (Q : UserPage -> US -> Prop) u : (forall p, zget (pages u) i = Some p -> Q p u) -> pwp (page i) Q u.
Proof using. intros H. apply pwp_bind, pwp_gets, pwp_of_option, H. Qed.
Lemma pwp_upd_page i f (Q : () -> US -> Prop) u :
  (forall p, zget (pages u) i = Some p -> Q tt (set_pages (<[Z.to_nat i := f p]> (pages u)) u)) -> pwp (upd_page i f) Q u.
Proof using. intros H. apply pwp_bind, pwp_page. intros p Ep. by apply pwp_modify, H. Qed.
Lemma page_get_near u : 0 <= blankpages u <= npages u ->
  pwp page_get (fun o u' => near u u' /\ (o = None -> exhausted u)) u.
Proof using.
  intros Hb. unfold page_get. apply pwp_bind, pwp_gets. unfold id. destruct (Z.ltb_spec (firstfree u) (npages u)) as [Hlt|Hge].
  - apply pwp_bind, pwp_page. intros p Ep. apply pwp_bind, pwp_modify, pwp_ret. split; [|done].
    split; [done|]. split; [done|]. intros i q _ Eq. by exists q.
  - destruct (Z.ltb_spec 0 (blankpages u)) as [Hbl|Hbl].
    + apply pwp_bind. unfold new_physical_page. apply pwp_bind, pwp_gets. unfold id.
      assert (forall l n pa, pwp (if pa =? 0 then leave UPanic else upd_page (npages u - blankpages u) (set_pa pa);;
        modify (set_blank (blankpages u - 1));; mret (Some (npages u - blankpages u)))
        (fun o u' => near u u' /\ (o = None -> exhausted u)) (set_regions l n u)) as Hgo.
      { intros l n pa. destruct (pa =? 0); [by intros a u'|]. apply pwp_bind, pwp_upd_page. intros p Ep. apply pwp_bind, pwp_modify, pwp_ret.
        split; [|done]. split; [done|]. split; [done|]. intros i q Hi Eq. exists q. split; [|done]. cbn. rewrite zget_insert.
        - rewrite decide_False; [done|]. unfold nalloc in Hi. lia.
        - by eapply zget_range. }
      destruct (_ =? 0); [apply pwp_ret; destruct u; apply Hgo|]. apply pwp_bind, pwp_of_option. intros r _.
      apply pwp_bind, pwp_modify, pwp_ret, Hgo.
    + apply pwp_ret. split; [split; [done|split; [done|]]; intros i q _ Eq; by exists q|]. intros _. split; lia.
Qed.

(** [page_new] of a variable, alone. *)
Lemma rwp_new_var u F (Q : Z * Z -> US -> Prop) :
  inv u F -> (forall u', inv u' F -> near u u' -> exhausted u -> Q (0, 0) u') ->
  (forall i u', inv u' (TOwn i :: F) -> near u u' -> Q (1, i + 1) u') -> rwp (page_new_var false) Q u.
Proof using.
  intros H HQ0 HQ1. unfold page_new_var, page_new_gen. apply rwp_bind, rwp_ret. cbn [negb Z.eqb]. apply rwp_bind, rwp_atomic.
  assert (0 <= blankpages u <= npages u) as Hb by apply H.
  eapply wp_mono; [exact (wp_pwp _ _ _ _ _ (wp_page_get N private u F H) (page_get_near u Hb))| |done].
  intros [i|] u1 [Hi1 [Hn1 Hex]]; [|apply rwp_ret, HQ0; [done|done|by apply Hex]].
  destruct (uinv_excl_page _ _ _ _ _ i Hi1 eq_refl) as (_ & _ & _ & p & Ep).
  assert (forall w f, (forall p, p_pa (f p) = p_pa p) -> near u w -> pwp (upd_page i f) (fun _ w' => near u w') w) as Hu.
  { intros w f Hf Hw. apply pwp_upd_page. intros q Eq. eapply same_near; [exact Hw|by apply (same_upd _ _ q)|cbn; by rewrite length_insert]. }
  apply rwp_bind, rwp_atomic. eapply wp_mono; [exact (wp_pwp _ _ _ _ _ (wp_set_ref1 N private u1 i false F Hi1) (Hu u1 (set_ref 1) (fun _ => eq_refl) Hn1))| |done].
  intros _ u2 [Hi2 Hn2]. apply rwp_bind, rwp_atomic.
  eapply wp_mono; [exact (wp_pwp _ _ _ _ _ (wp_set_next N private u2 i F Hi2) (Hu u2 (set_next i) (fun _ => eq_refl) Hn2))| |done].
  intros _ u3 [Hi3 Hn3]. apply rwp_bind, rwp_ret, rwp_bind, rwp_atomic, wp_ret. cbn [negb]. by apply rwp_ret, HQ1.
Qed.

(** The pages in use have addresses of their own. *)
Lemma pa_distinct u T i j p q : inv u T -> 0 <= i < nalloc u -> 0 <= j < nalloc u -> i <> j ->
  zget (pages u) i = Some p -> zget (pages u) j = Some q -> p_pa p <> p_pa q.
Proof using.
  intros ((_ & _ & _ & _ & _ & _ & Hnd) & _) Hi Hj Hne Ep Eq E. apply NoDup_app in Hnd as (Hnd & _). apply Hne.
  assert (forall k r, 0 <= k < nalloc u -> zget (pages u) k = Some r -> pas u !! Z.to_nat k = Some (p_pa r)) as Hl.
  { intros k r Hk Er. unfold pas. rewrite list_lookup_fmap, lookup_take_lt by lia. unfold zget in Er.
    rewrite (proj2 (Z.ltb_ge _ _)) in Er by lia. by rewrite Er. }
  pose proof (Hl i p Hi Ep) as H1. pose proof (Hl j q Hj Eq) as H2. rewrite E in H1.
  pose proof (NoDup_lookup _ _ _ _ Hnd H1 H2). lia.
Qed.

(** The outcomes of [page_duplicate_shared] alone, for a slot that names a
    page: it names one of its own, with the same contents. *)
Definition private_page (u u' : US) (s : nat) (v : Z) : Prop :=
  exists d p q, slots u' = <[s := d]> (slots u) /\ cntv d (slots u') = 1 /\
    zget (pages u) (v - 1) = Some p /\ zget (pages u') (d - 1) = Some q /\ p_ref q = 1 /\
    content u' (p_pa q) = content u (p_pa p) /\
    (forall a, a <> p_pa q -> content u' a = content u a) /\
    forall i p', 0 <= i < nalloc u' -> i <> d - 1 -> zget (pages u') i = Some p' -> p_pa p' <> p_pa q.

Lemma slot_count u s v T : slots_only T -> inv u (TSlot s v :: T) -> v <> 0 ->
  exists p, zget (pages u) (v - 1) = Some p /\ p_ref p = cntv v (slots u) /\ 0 <= v - 1 < nalloc u.
Proof using.
  intros HT H Hv. destruct (uinv_slot_live _ _ _ _ _ _ H Hv) as [Hi He]. destruct (uinv_live _ _ _ _ _ H Hi He) as (p & Ep & Hr & _).
  exists p. split; [done|]. split; [|done]. rewrite Hr, eff_slots_only; [f_equal; lia|].
  intros t [->|Ht]%elem_of_cons; [by exists s, v|by apply HT].
Qed.

Lemma duplicate_outcome u u1 u3 s v d T p q : slots_only T -> v <> 0 -> inv u (TSlot s v :: T) -> near u u1 ->
  inv u1 (TOwn d :: TSlot s v :: T) -> zget (pages u) (v - 1) = Some p -> zget (pages u1) d = Some q -> d + 1 <> v ->
  same (set_content (<[p_pa q := content u1 (p_pa p)]> (content u1)) u1) u3 ->
  inv u3 (TStale s v :: TOwn d :: T) ->
  inv (set_slots (<[s := d + 1]> (slots u3)) u3) (TSlot s (d + 1) :: T) ->
  private_page u (set_slots (<[s := d + 1]> (slots u3)) u3) s v.
Proof using.
  intros HT Hv H (N1 & N2 & N3) Hi1 Ep Eq Hne S Hi3 Hi4. pose proof S as (S1 & S2 & S3). cbn in S1, S2, S3.
  set (u4 := set_slots _ u3) in *. destruct (slot_count u4 s (d + 1) T HT Hi4 ltac:(intros E; by destruct (uinv_excl_page _ _ _ _ _ d Hi1 eq_refl); lia))
    as (q4 & E4 & Hr4 & Hd4). replace (d + 1 - 1) with d in * by lia.
  assert (p_pa q4 = p_pa q) as Hpa by (apply (same_pa _ u3 d q q4 S); done).
  assert (p_ref q4 = 1) as Hone.
  { assert (inv u3 (TOwn d :: TStale s v :: T)) as Hx by (eapply uinv_perm; [apply perm_swap|done]).
    destruct (own_page _ _ _ _ _ Hx) as (q' & Eq' & Hr' & _). change (pages u4) with (pages u3) in E4. congruence. }
  exists (d + 1), p, q4. replace (d + 1 - 1) with d by lia. rewrite Hpa. split_and!; try done.
  - cbn. congruence.
  - congruence.
  - cbn. rewrite S2, fn_lookup_insert. congruence.
  - intros a Ha. cbn. rewrite S2, fn_lookup_insert_ne by done. congruence.
  - intros i p' Hi Hne' Ei. rewrite <- Hpa. by apply (pa_distinct u4 _ i d p' q4 Hi4).
Qed.
End alone.

(** C21. Before a shared writable page is written [page_duplicate_shared] makes
    the slot name a page of its own: one reference, one slot, an address no
    other page has, the contents of the old page, and no other contents changed;
    it fails only when the pool is exhausted, and then changes nothing. *)
Theorem page_duplicate_shared_private N private u s v T :
  uinv N private u (TSlot s v :: T) -> slots_only T -> v <> 0 ->
  exists r u', run (page_duplicate_shared s) u = (Some r, u') /\ uinv N private u' (TSlot s (default 0 (slots u' !! s)) :: T) /\
    (r = 0 /\ exhausted u /\ slots u' = slots u /\ content u' = content u \/ r = 1 /\ private_page u u' s v).
Proof.
  intros H HT Hv. set (Q := fun (r : Z) (u' : US) => uinv N private u' (TSlot s (default 0 (slots u' !! s)) :: T) /\
    (r = 0 /\ exhausted u /\ slots u' = slots u /\ content u' = content u \/ r = 1 /\ private_page u u' s v)).
  cut (rwp (page_duplicate_shared s) Q u).
  { unfold rwp. destruct (run _ u) as [[r|] u'] eqn:E; [|done]. intros HQ. by exists r, u'. }
  destruct (uinv_slot _ _ _ _ _ _ H) as (Ev & _ & _ & Hss & Hvr). destruct (slot_checks N private _ _ _ _ H Hv) as (Hb & p & Ep & Hr & Hn).
  destruct (slot_count N private u s v T HT H Hv) as (p' & Ep' & Hrc & Hv1). replace p' with p in * by congruence. clear Ep' p'.
  unfold page_duplicate_shared. apply rwp_bind, rwp_atomic, (wp_load_slot _ v); [done|]. rewrite (proj2 (Z.eqb_neq v 0)) by done.
  apply rwp_bind, rwp_check_pool; [done|]. apply rwp_bind, rwp_atomic, (wp_page _ p); [done|]. apply rwp_bind.
  destruct (Z.ltb_spec 1 (p_ref p)) as [Hmany|Hone].
  2: { apply rwp_ret. rewrite (proj2 (Z.eqb_neq 1 0)), Z.eqb_refl by done. apply rwp_ret. split; [by rewrite Ev|]. right. split; [done|].
    pose proof (cntv_in v (slots u) (list_elem_of_lookup_2 _ _ _ Ev)).
    exists v, p, p. rewrite list_insert_id by done. split_and!; try done; [lia|lia|]. intros i q Hi Hne Ei.
    by apply (pa_distinct N private u _ i (v - 1) q p H). }
  unfold page_duplicate_gen. apply rwp_bind, rwp_ret. rewrite (proj2 (Z.eqb_neq v 0)) by done.
  apply rwp_bind, rwp_check_pool; [done|]. apply rwp_bind, (rwp_check_used _ p); [done..|]. apply rwp_bind.
  apply (rwp_new_var N private u _ _ H).
  { intros u1 Hi1 (N1 & N2 & _) Hex. apply rwp_ret, rwp_ret. split; [by rewrite N1, Ev|]. left. split_and!; done. }
  intros d u1 Hi1 Hnear. pose proof Hnear as (N1 & N2 & N3). rewrite (proj2 (Z.eqb_neq 1 0)) by done. replace (d + 1 - 1) with d by lia.
  destruct (uinv_excl_page _ _ _ _ _ d Hi1 eq_refl) as (Hd & _ & _ & q & Eq). destruct (N3 (v - 1) p Hv1 Ep) as (p1 & Ep1 & Hp1).
  assert (d + 1 <> v) as Hne.
  { intros <-. pose proof (own_dead N private _ _ _ Hi1) as Hz. rewrite eff_cons, (eff_cons _ (TSlot s (d + 1))) in Hz by done.
    rewrite (eff_slots u) in Hz by done. rewrite eff_cons in Hr by done. replace (d + 1 - 1) with d in * by lia. lia. }
  apply rwp_bind, rwp_atomic, wp_bind, (wp_page _ q); [done|]. apply wp_bind, (wp_page _ p1); [done|]. apply wp_modify.
  set (u2 := set_content _ u1). apply rwp_bind, rwp_atomic, wp_ret. apply rwp_bind.
  assert (uinv N private u2 (TRef (v - 1) :: TStale s v :: TOwn d :: T)) as Hi2.
  { apply uinv_go_stale; [|done]. eapply uinv_perm; [apply perm_swap|]. by apply uinv_content. }
  apply (rwp_dispose_var N private v u2 _ _ Hv Hi2). intros u3 Hi3 Hs3. apply rwp_ret. rewrite (proj2 (Z.eqb_neq 1 0)) by done.
  rewrite (proj2 (Z.eqb_neq v (d + 1))) by congruence. cbn [negb]. apply rwp_bind, rwp_atomic.
  destruct (uinv_head _ _ _ _ _ Hi3) as [_ Ev3]. pose proof (wp_cas_stale N private u3 s v d T Hi3) as Hcas.
  unfold cas32, store_slot in *. apply wp_bind, (wp_load_slot _ v); [done|]. rewrite Z.eqb_refl. apply wp_bind, wp_modify, wp_ret.
  assert (uinv N private (set_slots (<[s := d + 1]> (slots u3)) u3) (TSlot s (d + 1) :: T)) as Hi4.
  { eapply wp_at in Hcas; [apply Hcas|]. rewrite (bind_ok _ _ _ v u3), Z.eqb_refl; [done|]. unfold load_slot, getu. rewrite bind_gets. cbn. by rewrite Ev3. }
  cbn [negb]. apply rwp_ret. split.
  - cbn. rewrite list_lookup_insert_eq by (by eapply lookup_lt_Some). done.
  - right. split; [done|]. apply (duplicate_outcome N private u u1 u3 s v d T p q); try done. by rewrite <- Hp1.
Qed.

(** A slot whose page is shared with another slot. *)
Definition ths_shared : list Thread := [([0%nat], [UNew 0 true; UShare 1 0])].
Definition shared_ex : US * list (Prog US (list Z)) :=
  sched (replicate 20 0%nat) (snd (umem_init true boot_ex), (fun th : Thread => uprog (snd th)) <$> ths_shared).

Lemma shared_ex_inv : uinv 3 (is_owned ths_shared) (fst shared_ex) [TSlot 0 1].
Proof.
  assert (snd shared_ex = [Done [1; 1]]) as Ed by (vm_compute; reflexivity).
  assert (slots (fst shared_ex) = [1; 1; 0]) as Es by (vm_compute; reflexivity).
  assert (rtc pstep (snd (umem_init true boot_ex), (fun th : Thread => uprog (snd th)) <$> ths_shared) shared_ex) as Hr by apply sched_steps.
  revert Ed Es Hr. generalize shared_ex. intros c Ed Es Hr.
  destruct (pool_sound _ _ (uinv_perm 3 (is_owned ths_shared)) 4 1 _ _ _ (le_n 4) (pool_boot_ok 3 1 ths_shared boot_ex _ boot_ex_ok
    ltac:(vm_compute; reflexivity) ltac:(apply NoDup_singleton) ltac:(intros s ->%list_elem_of_singleton; lia)
    ltac:(intros th ->%list_elem_of_singleton; split; [cbn; lia|]; intros op Hop; cbn in Hop;
      repeat (apply elem_of_cons in Hop as [->|Hop]; [cbn; unfold shared; set_solver|]); by apply not_elem_of_nil in Hop)
    ltac:(cbn; lia)) Hr) as ([|t [|]] & Hl & _ & Hi & Hs); try done.
  destruct (Hs 0%nat (Done [1; 1]) t) as [_ (f & Hf)]; [by rewrite Ed|done|].
  cbn in Hf. assert (t = [TSlot 0 (f 0%nat)]) as -> by (by apply Permutation_singleton_r).
  cbn in Hi. destruct (uinv_slot _ _ _ _ _ _ Hi) as (E0 & _). rewrite Es in E0. cbn in E0. injection E0 as E0. by rewrite E0.
Qed.

Lemma page_duplicate_shared_private_witness :
  slots (fst shared_ex) = [1; 1; 0] /\
  exists u', run (page_duplicate_shared 0) (fst shared_ex) = (Some 1, u') /\ private_page (fst shared_ex) u' 0 1.
Proof.
  split; [vm_compute; reflexivity|].
  destruct (page_duplicate_shared_private 3 (is_owned ths_shared) (fst shared_ex) 0 1 [] shared_ex_inv) as (r & u' & E & _ & H).
  - intros t Ht. by apply not_elem_of_nil in Ht.
  - done.
  - exists u'. assert (fst (run (page_duplicate_shared 0) (fst shared_ex)) = Some 1) as E1 by (vm_compute; reflexivity).
    rewrite E in E1. cbn [fst] in E1. injection E1 as ->. split; [exact E|]. destruct H as [[H0 _]|[_ H]]; [discriminate H0|exact H].
Defined.
