(* ===== verification/Utable.v ===== *)
(** * Page tables: [table_*] of [umem/pages.c]

    A [PageTableEntry] is 256 slots of the pool from [e_slots] on and the range
    in use; a freed one is [None], and reading it is undefined.  The routines
    run alone (the segment's lock is held); the pool's routines they call are
    those of Umem.  Allocations that may fail take their outcome as an argument.
    The argument is the table, not the pointer to it, so the tests of that
    pointer and the swap of its value are left out. *)
From S2P Require Import Prelude CMonad Conc Umem.
Local Open Scope Z_scope.

Definition PTEMAPMEM : Z := 1048576.
Definition PTEPERTAB : Z := PTEMAPMEM / PGSZ.
Definition SEGMAPSIZE : Z := 65536.
Definition PGSHFT : Z := 12.

(** The macros, on 64-bit operands. *)
Definition HOWMANY (x y : Z) : Z := u64 (x + (y - 1)) / y.
Definition ROUNDUP (x y : Z) : Z := u64 (HOWMANY x y * y).
Definition ROUNDDN (x y : Z) : Z := x / y * y.

Record PageTableEntry : Type := mkPTE { e_slots : nat; e_first : Z; e_last : Z }.
Record PageTable : Type := mkTable { t_base : Z; t_mapsize : Z; t_map : list (option nat) }.
Record TS : Type := mkTS { us : US; ptes : list (option PageTableEntry); tables : list (option PageTable) }.

Definition set_us u t := mkTS u (ptes t) (tables t).
Definition set_ptes l t := mkTS (us t) l (tables t).
Definition set_tables l t := mkTS (us t) (ptes t) l.

Definition gett : M TS TS := gets id.
(** A routine of the pool, alone: a panic stops the system. *)
Definition pool {A} (p : Prog US A) : M TS A := fun t =>
  match run p (us t) with
  | (Some a, u) => (Ok a, set_us u t)
  | (None, u) => (Ret UPanic, set_us u t)
  end.
(** The memory of an entry or a table. *)
Definition entry (k : nat) : M TS PageTableEntry := t ← gett; of_option (e ← ptes t !! k; e).
Definition set_entry (k : nat) (e : option PageTableEntry) : M TS () := modify (fun t => set_ptes (<[k := e]> (ptes t)) t).
Definition table (k : nat) : M TS PageTable := t ← gett; of_option (e ← tables t !! k; e).
Definition set_table (k : nat) (e : option PageTable) : M TS () := modify (fun t => set_tables (<[k := e]> (tables t)) t).
(** [table->map[i]]; writing it. *)
Definition map_entry (tb : nat) (i : nat) : M TS (option nat) := t ← table tb; of_option (t_map t !! i).
Definition set_map (tb i : nat) (e : option nat) : M TS () :=
  t ← table tb;
  if (i <? length (t_map t))%nat then set_table tb (Some (mkTable (t_base t) (t_mapsize t) (<[i := e]> (t_map t)))) else undefined.

(** [smalloc(sizeof(PageTableEntry))]: cleared memory. *)
Definition new_entry (first last : Z) : M TS nat :=
  t ← gett;
  modify (fun t => set_us (set_slots (slots (us t) ++ replicate (Z.to_nat PTEPERTAB) 0) (us t)) t);;
  modify (fun s => set_ptes (ptes t ++ [Some (mkPTE (length (slots (us t))) first last)]) s);;
  mret (length (ptes t)).

(** ** Tables *)

Definition table_new (mem : bool) (base top : Z) : M TS (option nat) :=
  let base := ROUNDDN base PGSZ in
  let top := ROUNDUP top PGSZ in
  let npages := i32 (Z.shiftr (u64 (top - base)) PGSHFT) in
  if SEGMAPSIZE * PTEPERTAB <? u64 npages then mret None
  else
    let mapsize := u16 (HOWMANY (u64 npages) PTEPERTAB) in
    if negb mem then mret None
    else
      t ← gett;
      modify (set_tables (tables t ++ [Some (mkTable base mapsize (replicate (Z.to_nat mapsize) None))]));;
      mret (Some (length (tables t))).

(** The slot of [va]. *)
Definition table_lookup (tb : nat) (va : Z) : M TS nat :=
  t ← table tb;
  let offset := u64 (va - t_base t) in
  let pteindex := u16 (offset / (PTEPERTAB * PGSZ)) in
  if t_mapsize t <=? pteindex then leave UPanic
  else
    o ← map_entry tb (Z.to_nat pteindex);
    pte ← (match o with
           | Some k => mret k
           | None => k ← new_entry (PTEPERTAB - 1) 0; set_map tb (Z.to_nat pteindex) (Some k);; mret k
           end);
    let pindex := u8 (Z.shiftr (Z.land offset (PTEMAPMEM - 1)) PGSHFT) in
    e ← entry pte;
    set_entry pte (Some (mkPTE (e_slots e) (Z.min (e_first e) pindex) (Z.max (e_last e) pindex)));;
    mret (e_slots e + Z.to_nat pindex)%nat.

(** The pages of an entry from [first] to [last], [n] of them from [i] on. *)
Definition slot_at (e : PageTableEntry) (i : Z) : M TS nat :=
  if (0 <=? i) && (i <? PTEPERTAB) then mret (e_slots e + Z.to_nat i)%nat else undefined.
Definition span (e : PageTableEntry) : nat := Z.to_nat (e_last e - e_first e + 1).

(** [for(page = pte->first; page <= pte->last; ++page)] of [table_clone]: both
    entries have the same range. *)
Fixpoint clone_pages (k ok : nat) (n : nat) (i : Z) : M TS () :=
  match n with
  | O => mret tt
  | S n =>
      oe ← entry ok;
      os ← slot_at oe i;
      v ← pool (atomic (load_slot os));
      (if negb (v =? 0) then
         e ← entry k;
         s ← slot_at e i;
         r ← pool (page_assign s v);
         if r =? 0 then leave UPanic else mret tt
       else mret tt);;
      clone_pages k ok n (i + 1)
  end.

(** [FreePageTableEntries:] the entries below [n]. *)
Fixpoint dispose_up (k : nat) (n : nat) (i : Z) : M TS () :=
  match n with
  | O => mret tt
  | S n =>
      e ← entry k;
      s ← slot_at e i;
      pool (page_dispose s);;
      dispose_up k n (i + 1)
  end.
Fixpoint clone_undo (target : nat) (n : nat) : M TS () :=
  match n with
  | O => mret tt
  | S n =>
      o ← map_entry target n;
      (match o with
       | None => mret tt
       | Some k => e ← entry k; dispose_up k (span e) (e_first e);; set_entry k None
       end);;
      clone_undo target n
  end.

(** The loop over the entries: [n] from [i] on; [mem] says which allocations
    succeed. *)
Fixpoint clone_loop (mem : nat -> bool) (target original : nat) (n i : nat) : M TS Z :=
  match n with
  | O => mret 1
  | S n =>
      o ← map_entry original i;
      match o with
      | None => clone_loop mem target original n (S i)
      | Some ok =>
          oe ← entry ok;
          if negb (mem i) then clone_undo target i;; mret 0
          else
            k ← new_entry (e_first oe) (e_last oe);
            clone_pages k ok (span oe) (e_first oe);;
            set_map target i (Some k);;
            clone_loop mem target original n (S i)
      end
  end.

Definition table_clone (mem : nat -> bool) (target original : nat) : M TS Z :=
  to ← table original;
  tt' ← table target;
  if t_base to =? 0 then leave UPanic
  else if negb (t_base tt' =? t_base to) then leave UPanic
  else if negb (t_mapsize tt' =? t_mapsize to) then leave UPanic
  else clone_loop mem target original (Z.to_nat (t_mapsize to)) 0.

(** [for(page = pte->last; page >= pte->first; --page)]: the pages of an entry,
    the last first. *)
Fixpoint dispose_down (k : nat) (n : nat) (i : Z) : M TS () :=
  match n with
  | O => mret tt
  | S n =>
      e ← entry k;
      s ← slot_at e i;
      v ← pool (atomic (load_slot s));
      (if v =? 0 then mret tt
       else r ← pool (page_dispose s); if r =? 0 then leave UPanic else mret tt);;
      dispose_down k n (i - 1)
  end.

(** The entries of a table below [n], the last first; [fin] is what follows the
    pages of an entry. *)
Fixpoint each_entry (fin : nat -> M TS ()) (tb : nat) (n : nat) : M TS () :=
  match n with
  | O => mret tt
  | S n =>
      o ← map_entry tb n;
      (match o with
       | None => mret tt
       | Some k => e ← entry k; dispose_down k (span e) (e_last e);; fin k
       end);;
      each_entry fin tb n
  end.

Definition table_free_pages (tb : nat) : M TS () :=
  t ← table tb;
  if t_base t =? 0 then leave UPanic else each_entry (fun _ => mret tt) tb (Z.to_nat (t_mapsize t)).

Definition table_free (tb : nat) : M TS () :=
  t ← table tb;
  if t_base t =? 0 then leave UPanic
  else each_entry (fun k => set_entry k None) tb (Z.to_nat (t_mapsize t));; set_table tb None.

(** What [func] is called with: the address and the page. *)
Fixpoint walk_entry (base : Z) (i : nat) (k n : nat) (page : Z) : M TS (list (Z * Z)) :=
  match n with
  | O => mret []
  | S n =>
      e ← entry k;
      s ← slot_at e page;
      v ← pool (atomic (load_slot s));
      r ← walk_entry base i k n (page + 1);
      mret (if v =? 0 then r else (u64 (base + PGSZ * page + PGSZ * PTEPERTAB * Z.of_nat i), v - 1) :: r)
  end.
Fixpoint walk_entries (tb n i : nat) : M TS (list (Z * Z)) :=
  match n with
  | O => mret []
  | S n =>
      t ← table tb;
      o ← map_entry tb i;
      l ← (match o with None => mret [] | Some k => e ← entry k; walk_entry (t_base t) i k (span e) (e_first e) end);
      r ← walk_entries tb n (S i);
      mret (l ++ r)
  end.
Definition table_walk_pages (tb : nat) : M TS (list (Z * Z)) :=
  t ← table tb; walk_entries tb (Z.to_nat (t_mapsize t)) 0.

(** The loop after the copy of the map in [table_resize]: [n] entries of the old
    map from [i] on. *)
Fixpoint resize_rest (old n i : nat) : M TS () :=
  match n with
  | O => mret tt
  | S n =>
      o ← map_entry old i;
      (match o with
       | None => mret tt
       | Some k => e ← entry k; dispose_down k (span e) (e_last e);; set_entry k None
       end);;
      resize_rest old n (S i)
  end.

(** The result and the table. *)
Definition table_resize (mem : bool) (old : nat) (top : Z) : M TS (Z * nat) :=
  t ← table old;
  if t_base t =? 0 then leave UPanic
  else
    let top := ROUNDUP top PGSZ in
    let npages := i32 (Z.shiftr (u64 (top - t_base t)) PGSHFT) in
    if SEGMAPSIZE * PTEPERTAB <? u64 npages then mret (0, old)
    else if HOWMANY (u64 npages) PTEPERTAB <=? t_mapsize t then mret (1, old)
    else
      n ← table_new mem (t_base t) top;
      match n with
      | None => mret (0, old)
      | Some new =>
          tn ← table new;
          let copy := Z.to_nat (Z.min (t_mapsize tn) (t_mapsize t)) in
          set_table new (Some (mkTable (t_base tn) (t_mapsize tn) (take copy (t_map t) ++ drop copy (t_map tn))));;
          resize_rest old (Z.to_nat (t_mapsize t) - copy) copy;;
          set_table old None;;
          mret (1, new)
      end.
