(* ===== verification/UtableProps.v ===== *)
(** * Page tables: properties *)
From S2P Require Import Prelude CMonad Conc Umem UmemProps Utable.
From stdpp Require Import list.
Local Open Scope Z_scope.

Lemma PTEPERTAB_eq : PTEPERTAB = 256.
Proof. reflexivity. Qed.

(** ** Tables and their entries *)

(** The slots of an entry, inside the pool's. *)
Definition entry_ok (s : TS) (e : PageTableEntry) : Prop :=
  (e_slots e + 256 <= length (slots (us s)))%nat /\ 0 <= e_first e < 256 /\ 0 <= e_last e < 256.
Definition apart (e e' : PageTableEntry) : Prop := (e_slots e + 256 <= e_slots e')%nat \/ (e_slots e' + 256 <= e_slots e)%nat.
Definition has_entry (s : TS) (t : PageTable) (i : nat) (e : PageTableEntry) : Prop :=
  exists k, t_map t !! i = Some (Some k) /\ ptes s !! k = Some (Some e).

(** A table: its entries are in memory and do not overlap, and neither its map
    nor the memory it maps wraps. *)
Definition table_ok (s : TS) (tb : nat) (t : PageTable) : Prop :=
  tables s !! tb = Some (Some t) /\ zlen (t_map t) = t_mapsize t /\ t_mapsize t < 2 ^ 16 /\
  0 <= t_base t /\ t_base t + t_mapsize t * PTEMAPMEM <= 2 ^ 64 /\
  (forall i k, t_map t !! i = Some (Some k) -> exists e, ptes s !! k = Some (Some e)) /\
  (forall i e, has_entry s t i e -> entry_ok s e) /\
  forall i j e e', i <> j -> has_entry s t i e -> has_entry s t j e' -> apart e e'.

(** The slot a table has for an address, and the addresses it covers. *)
Definition slot_of (s : TS) (t : PageTable) (va slot : Z) : Prop :=
  exists e, has_entry s t (Z.to_nat ((va - t_base t) / PTEMAPMEM)) e /\
    slot = Z.of_nat (e_slots e) + (va - t_base t) mod PTEMAPMEM / PGSZ /\
    e_first e <= (va - t_base t) mod PTEMAPMEM / PGSZ <= e_last e.
Definition covers (t : PageTable) (va : Z) : Prop := t_base t <= va < t_base t + t_mapsize t * PTEMAPMEM.

Lemma wp_table tb t (Q : PageTable -> TS -> Prop) R s : tables s !! tb = Some (Some t) -> Q t s -> wp (table tb) Q R s.
Proof. intros E HQ. unfold table. apply wp_bind, wp_gets. unfold id. rewrite E. done. Qed.
Lemma wp_entry k e (Q : PageTableEntry -> TS -> Prop) R s : ptes s !! k = Some (Some e) -> Q e s -> wp (entry k) Q R s.
Proof. intros E HQ. unfold entry. apply wp_bind, wp_gets. unfold id. rewrite E. done. Qed.
Lemma wp_map_entry tb t i o (Q : option nat -> TS -> Prop) R s :
  tables s !! tb = Some (Some t) -> t_map t !! i = Some o -> Q o s -> wp (map_entry tb i) Q R s.
Proof. intros E Ei HQ. apply wp_bind, (wp_table _ t); [done|]. by rewrite Ei. Qed.

Lemma run_table tb t s : tables s !! tb = Some (Some t) -> table tb s = (Ok t, s).
Proof. intros E. unfold table, gett, gets, mbind, M_bind. cbn. unfold id. by rewrite E. Qed.

(** The index computations, on an address the table covers. *)
Lemma lookup_index t va : covers t va -> t_mapsize t < 2 ^ 16 -> 0 <= t_base t -> t_base t + t_mapsize t * PTEMAPMEM <= 2 ^ 64 ->
  let off := va - t_base t in
  u64 off = off /\ u16 (off / (PTEPERTAB * PGSZ)) = off / PTEMAPMEM /\ 0 <= off / PTEMAPMEM < t_mapsize t /\
  u8 (Z.shiftr (Z.land off (PTEMAPMEM - 1)) PGSHFT) = off mod PTEMAPMEM / PGSZ /\ 0 <= off mod PTEMAPMEM / PGSZ < 256.
Proof.
  intros [Hl Hh] Hm Hb Ht off. change (PTEPERTAB * PGSZ) with 1048576. change PTEMAPMEM with 1048576 in *. change PGSZ with 4096.
  change (1048576 - 1) with (Z.ones 20). rewrite Z.land_ones, Z.shiftr_div_pow2 by done. change (2 ^ 20) with 1048576. change (2 ^ PGSHFT) with 4096.
  assert (0 <= off < t_mapsize t * 1048576) as Ho by (unfold off; lia).
  assert (0 <= off / 1048576 < t_mapsize t) as Hi by (split; [apply Z.div_pos; lia|apply Z.div_lt_upper_bound; lia]).
  assert (0 <= off mod 1048576 / 4096 < 256) as Hj by dlia.
  split; [apply u64_id; wraps; lia|]. split; [apply u16_id; wraps; lia|]. split; [done|]. split; [apply u8_id; lia|done].
Qed.

(** ** [table_lookup] *)

(** Addresses keep their slots when an entry's range grows. *)
Lemma has_entry_set s t i k e e' j x : t_map t !! i = Some (Some k) -> ptes s !! k = Some (Some e) ->
  (forall i', t_map t !! i' = Some (Some k) -> i' = i) ->
  has_entry (set_ptes (<[k := Some e']> (ptes s)) s) t j x <-> (j = i /\ x = e') \/ (j <> i /\ has_entry s t j x).
Proof.
  intros Hi Hk Hinj. assert (k < length (ptes s))%nat as Hl by (by eapply lookup_lt_Some). split.
  - intros (k' & Hj & Hx). cbn in Hx. apply list_lookup_insert_Some in Hx as [(<- & [= <-] & _)|(Hne & Hx)].
    + left. split; [by apply Hinj|done].
    + right. split; [intros ->; congruence|]. by exists k'.
  - intros [[-> ->]|[Hne (k' & Hj & Hx)]].
    + exists k. split; [done|]. cbn. by apply list_lookup_insert_eq.
    + exists k'. split; [done|]. cbn. rewrite list_lookup_insert_ne; [done|]. intros <-. by apply Hne, Hinj.
Qed.

Lemma entries_inj s tb t i j k : table_ok s tb t -> t_map t !! i = Some (Some k) -> t_map t !! j = Some (Some k) -> j = i.
Proof.
  intros (_ & _ & _ & _ & _ & Hd & _ & Ha) Hi Hj. destruct (decide (j = i)) as [|Hne]; [done|]. exfalso.
  destruct (Hd i k Hi) as [e He]. destruct (Ha j i e e Hne) as [H|H]; [by exists k|by exists k|lia|lia].
Qed.

Definition grow (e : PageTableEntry) (p : Z) : PageTableEntry := mkPTE (e_slots e) (Z.min (e_first e) p) (Z.max (e_last e) p).

(** The result of a lookup in the entry it finds. *)
Lemma lookup_found s tb t va i k e :
  table_ok s tb t -> t_map t !! i = Some (Some k) -> ptes s !! k = Some (Some e) ->
  i = Z.to_nat ((va - t_base t) / PTEMAPMEM) -> let p := (va - t_base t) mod PTEMAPMEM / PGSZ in 0 <= p < 256 ->
  let s' := set_ptes (<[k := Some (grow e p)]> (ptes s)) s in
  table_ok s' tb t /\ slot_of s' t va (Z.of_nat (e_slots e) + p) /\ (Z.of_nat (e_slots e) + p < zlen (slots (us s'))) /\
  (forall va' x, slot_of s t va' x -> slot_of s' t va' x).
Proof.
  intros Hok Hi Hk Ei p Hp s'. pose proof (fun i' => entries_inj s tb t i i' k Hok Hi) as Hinj.
  pose proof Hok as (H1 & H2 & H3 & H4 & H5 & H6 & H7 & H8). destruct (H7 i e) as (E1 & E2 & E3); [by exists k|].
  pose proof (has_entry_set s t i k e (grow e p)) as He. fold s' in He. split; [|split; [|split]].
  - split_and!; try done.
    + intros j k' Hj. destruct (decide (k' = k)) as [->|Hne].
      * eexists. cbn. apply list_lookup_insert_eq. by eapply lookup_lt_Some.
      * destruct (H6 j k' Hj) as [x Hx]. exists x. cbn. by rewrite list_lookup_insert_ne.
    + intros j x Hx. apply He in Hx as [[-> ->]|[_ Hx]]; [|by apply (H7 j)|done..]. unfold entry_ok, grow. cbn. lia.
    + intros j j' x x' Hne Hx Hx'. apply He in Hx; [|done..]. apply He in Hx'; [|done..].
      assert (has_entry s t i e) as Hbase by (by exists k).
      destruct Hx as [[-> ->]|[Hn Hx]], Hx' as [[-> ->]|[Hn' Hx']]; try done.
      * apply (H8 i j' e x'); done.
      * apply (H8 j i x e); done.
      * by apply (H8 j j' x x').
  - exists (grow e p). split; [apply He; [done..|]; left; by split|]. split; [done|]. unfold grow. cbn. fold p. lia.
  - unfold zlen. cbn. lia.
  - intros va' x (e' & Hx & -> & Hr). destruct (decide (Z.to_nat ((va' - t_base t) / PTEMAPMEM) = i)) as [E|E].
    + assert (e' = e) as -> by (rewrite E in Hx; destruct Hx as (k' & Hk' & Hx); congruence).
      exists (grow e p). split; [apply He; [done..|]; by left|]. split; [done|]. unfold grow. cbn. lia.
    + exists e'. split; [apply He; [done..|]; by right|]. done.
Qed.

(** An empty place of the map gets an entry. *)
Definition with_entry (s : TS) (tb : nat) (t : PageTable) (i : nat) : TS :=
  mkTS (set_slots (slots (us s) ++ replicate (Z.to_nat PTEPERTAB) 0) (us s))
    (ptes s ++ [Some (mkPTE (length (slots (us s))) (PTEPERTAB - 1) 0)])
    (<[tb := Some (mkTable (t_base t) (t_mapsize t) (<[i := Some (length (ptes s))]> (t_map t)))]> (tables s)).

Lemma lookup_fresh s tb t i : table_ok s tb t -> t_map t !! i = Some None ->
  let t' := mkTable (t_base t) (t_mapsize t) (<[i := Some (length (ptes s))]> (t_map t)) in
  table_ok (with_entry s tb t i) tb t' /\ (forall va x, slot_of s t va x -> slot_of (with_entry s tb t i) t' va x).
Proof.
  intros (H1 & H2 & H3 & H4 & H5 & H6 & H7 & H8) Hi t'. set (s' := with_entry s tb t i).
  set (e0 := mkPTE (length (slots (us s))) (PTEPERTAB - 1) 0).
  assert (forall j k', t_map t !! j = Some (Some k') -> (k' < length (ptes s))%nat) as Hlt
    by (intros j k' Hj; destruct (H6 j k' Hj) as [e He]; by eapply lookup_lt_Some).
  assert (forall j e, has_entry s' t' j e <-> (j = i /\ e = e0) \/ (j <> i /\ has_entry s t j e)) as He.
  { intros j e. split.
    - intros (k & Hk & Hx). cbn in Hk, Hx. apply list_lookup_insert_Some in Hk as [(<- & [= <-] & _)|(Hne & Hk)].
      + left. rewrite lookup_app_r, Nat.sub_diag in Hx by lia. by injection Hx as <-.
      + right. split; [done|]. exists k. split; [done|]. by rewrite lookup_app_l in Hx by (by eapply Hlt).
    - intros [[-> ->]|[Hne (k & Hk & Hx)]].
      + exists (length (ptes s)). split; [by apply list_lookup_insert_eq; eapply lookup_lt_Some|]. cbn. by rewrite lookup_app_r, Nat.sub_diag by lia.
      + exists k. split; [by cbn; rewrite list_lookup_insert_ne|]. cbn. by apply lookup_app_l_Some. }
  assert (forall e, entry_ok s e -> entry_ok s' e) as Hmono by (intros e (E1 & E2); split; [|done]; cbn; rewrite length_app; lia).
  split.
  - split_and!; try done.
    + cbn. apply list_lookup_insert_eq. by eapply lookup_lt_Some.
    + cbn. unfold zlen in *. by rewrite length_insert.
    + intros j k Hk. cbn in Hk. apply list_lookup_insert_Some in Hk as [(_ & [= <-] & _)|(_ & Hk)].
      * exists e0. cbn. by rewrite lookup_app_r, Nat.sub_diag by lia.
      * destruct (H6 j k Hk) as [e Ee]. exists e. cbn. by apply lookup_app_l_Some.
    + intros j e [[-> ->]|[_ Hx]]%He; [|by eapply Hmono, H7]. split; [|split; done]. unfold s', e0. cbn [with_entry us slots set_slots e_slots]. rewrite length_app, length_replicate. change (Z.to_nat PTEPERTAB) with 256%nat. lia.
    + intros j j' e e' Hne [[-> ->]|[Hn Hx]]%He [[-> ->]|[Hn' Hx']]%He; try done.
      * destruct (H7 _ _ Hx') as [E1 _]. right. cbn. lia.
      * destruct (H7 _ _ Hx) as [E1 _]. left. cbn. lia.
      * by apply (H8 j j').
  - intros va x (e & Hx & Hs). exists e. split; [|done]. apply He. right. split; [|done]. intros E. cbn in E.
    destruct Hx as (k & Hk & _). congruence.
Qed.

Lemma wp_table_lookup tb t va (Q : nat -> TS -> Prop) R s :
  table_ok s tb t -> covers t va ->
  (forall slot s' t', table_ok s' tb t' -> t_base t' = t_base t -> t_mapsize t' = t_mapsize t ->
     slot_of s' t' va (Z.of_nat slot) -> (slot < length (slots (us s')))%nat ->
     (forall va' x, slot_of s t va' x -> slot_of s' t' va' x) ->
     (slots (us s') = slots (us s) \/ slots (us s') = slots (us s) ++ replicate (Z.to_nat PTEPERTAB) 0) -> Q slot s') ->
  wp (table_lookup tb va) Q R s.
Proof.
  intros Hok Hc HQ. pose proof Hok as (H1 & H2 & H3 & H4 & H5 & H6 & H7 & H8).
  destruct (lookup_index t va Hc H3 H4 H5) as (I1 & I2 & I3 & I4 & I5). unfold table_lookup. apply wp_bind, (wp_table _ t); [done|].
  cbv zeta in *. rewrite I1, I2, I4 in *. set (off := va - t_base t) in *. set (i := Z.to_nat (off / PTEMAPMEM)).
  set (p := off mod PTEMAPMEM / PGSZ) in *. rewrite (proj2 (Z.leb_gt _ _)) by lia.
  destruct (lookup_lt_is_Some_2 (t_map t) i) as [o Eo]; [unfold i, zlen in *; lia|].
  apply wp_bind, (wp_map_entry _ t _ o); [done|done|]. apply wp_bind.
  assert (forall s1 t1 k e, table_ok s1 tb t1 -> t_base t1 = t_base t -> t_mapsize t1 = t_mapsize t ->
    t_map t1 !! i = Some (Some k) -> ptes s1 !! k = Some (Some e) -> (forall va' x, slot_of s t va' x -> slot_of s1 t1 va' x) ->
    (slots (us s1) = slots (us s) \/ slots (us s1) = slots (us s) ++ replicate (Z.to_nat PTEPERTAB) 0) ->
    wp (e ← entry k;
        set_entry k (Some (mkPTE (e_slots e) (Z.min (e_first e) p) (Z.max (e_last e) p)));;
        mret (e_slots e + Z.to_nat p)%nat) Q R s1) as Hgo.
  { intros s1 t1 k e Hok1 Hb Hm Hi Hk Hkeep Hsl. apply wp_bind, (wp_entry _ e); [done|]. apply wp_bind, wp_modify, wp_ret.
    assert (va - t_base t1 = off) as Hoff by (unfold off; lia).
    destruct (lookup_found s1 tb t1 va i k e Hok1 Hi Hk) as (F1 & F2 & F3 & F4); rewrite ?Hoff; try done.
    rewrite Hoff in *. fold p in F1, F2, F3, F4. unfold zlen in F3. cbn in F3.
    apply (HQ _ _ t1); try done; cbn [us set_ptes]; [by replace (Z.of_nat (e_slots e + Z.to_nat p)) with (Z.of_nat (e_slots e) + p) by lia|lia|].
    intros va' x Hx. by apply F4, Hkeep. }
  destruct o as [k|].
  - destruct (H6 i k Eo) as [e Ee]. apply wp_ret. apply (Hgo s t k e); auto.
  - destruct (lookup_fresh s tb t i Hok Eo) as [Hok' Hkeep]. apply wp_bind. unfold new_entry. apply wp_bind, wp_gets. unfold id.
    apply wp_bind, wp_modify, wp_bind, wp_modify, wp_ret. apply wp_bind. unfold set_map.
    apply wp_bind, (wp_table _ t); [done|]. rewrite (proj2 (Nat.ltb_lt _ _)) by (by eapply lookup_lt_Some).
    apply wp_modify, wp_ret. apply (Hgo (with_entry s tb t i) (mkTable (t_base t) (t_mapsize t) (<[i := Some (length (ptes s))]> (t_map t)))
      (length (ptes s)) (mkPTE (length (slots (us s))) (PTEPERTAB - 1) 0)); try done.
    + cbn. apply list_lookup_insert_eq. by eapply lookup_lt_Some.
    + cbn. by rewrite lookup_app_r, Nat.sub_diag by lia.
    + by right.
Qed.

(** An address and its page, from an offset. *)
Lemma page_split off : off / PGSZ = off / PTEMAPMEM * 256 + off mod PTEMAPMEM / PGSZ.
Proof.
  change PTEMAPMEM with (256 * 4096). change PGSZ with 4096. rewrite (Z.div_mod off (256 * 4096)) at 1 by done.
  rewrite <-Z.div_add_l by done. f_equal. lia.
Qed.

Lemma slot_of_page s tb t va va' x : table_ok s tb t -> covers t va -> covers t va' -> slot_of s t va x ->
  (slot_of s t va' x <-> (va' - t_base t) / PGSZ = (va - t_base t) / PGSZ).
Proof.
  intros (_ & _ & H3 & H4 & H5 & _ & _ & H8) Hc Hc' (e & He & Hx & Hr).
  destruct (lookup_index t va Hc H3 H4 H5) as (_ & _ & I3 & _ & I5), (lookup_index t va' Hc' H3 H4 H5) as (_ & _ & J3 & _ & J5).
  cbv zeta in *. rewrite (page_split (va - t_base t)), (page_split (va' - t_base t)). revert He Hx Hr I3 I5 J3 J5. unfold slot_of.
  set (d := (va - t_base t) / PTEMAPMEM). set (d' := (va' - t_base t) / PTEMAPMEM).
  set (r := (va - t_base t) mod PTEMAPMEM / PGSZ). set (r' := (va' - t_base t) mod PTEMAPMEM / PGSZ). clearbody d d' r r'.
  intros He Hx Hr I3 I5 J3 J5. split.
  - intros (e' & He' & Hx' & _). destruct (decide (d' = d)) as [->|E].
    + assert (e' = e) as -> by (destruct He as (k & K1 & K2), He' as (k' & K1' & K2'); congruence). lia.
    + exfalso. destruct (H8 (Z.to_nat d) (Z.to_nat d') e e'); [lia|done|done|lia|lia].
  - intros E. assert (d' = d) as -> by lia. assert (r' = r) as -> by lia. by exists e.
Qed.

(** C22. [table_lookup] of an address the table covers returns a slot of the
    pool; it is the slot of exactly the addresses of the same page, addresses
    that had a slot keep it, and no slot's contents change. *)
Theorem table_lookup_slot tb t va s :
  table_ok s tb t -> covers t va ->
  exists slot s' t', table_lookup tb va s = (Ok slot, s') /\ table_ok s' tb t' /\ t_base t' = t_base t /\ t_mapsize t' = t_mapsize t /\
    (slot < length (slots (us s')))%nat /\
    (forall va', covers t va' -> slot_of s' t' va' (Z.of_nat slot) <-> (va' - t_base t) / PGSZ = (va - t_base t) / PGSZ) /\
    (forall va' x, slot_of s t va' x -> slot_of s' t' va' x) /\
    forall (i : nat) v, slots (us s) !! i = Some v -> slots (us s') !! i = Some v.
Proof.
  intros Hok Hc. assert (wp (table_lookup tb va) (fun slot s' => exists t', table_ok s' tb t' /\ t_base t' = t_base t /\ t_mapsize t' = t_mapsize t /\
    (slot < length (slots (us s')))%nat /\
    (forall va', covers t va' -> slot_of s' t' va' (Z.of_nat slot) <-> (va' - t_base t) / PGSZ = (va - t_base t) / PGSZ) /\
    (forall va' x, slot_of s t va' x -> slot_of s' t' va' x) /\
    forall (i : nat) v, slots (us s) !! i = Some v -> slots (us s') !! i = Some v) (fun _ _ => False) s) as W.
  { apply (wp_table_lookup tb t); [done|done|]. intros slot s' t' Hok' Hb Hm Hs Hl Hkeep Hsl. exists t'. split_and!; try done.
    - intros va' Hc'. assert (covers t' va /\ covers t' va') as [C1 C2] by (unfold covers in *; rewrite Hb, Hm; done).
      pose proof (slot_of_page s' tb t' va va' _ Hok' C1 C2 Hs) as Hp. by rewrite Hb in Hp.
    - intros i v Hi. destruct Hsl as [->| ->]; [done|]. by apply lookup_app_l_Some. }
  destruct (wp_run_ok _ _ _ W) as (slot & s' & E & t' & H). by exists slot, s', t'.
Qed.

(** A page of the first table, in the second entry of its map. *)
Definition ts_ex : TS := mkTS (mkUS [] 0 0 0 [] 0 [] (fun _ => [])) [] [].
Definition ts_new : TS := snd (table_new true 4194304 6000000 ts_ex).

Lemma table_lookup_slot_witness :
  table_ok ts_new 0 (mkTable 4194304 2 [None; None]) /\
  exists slot s' t', table_lookup 0 5251072 ts_new = (Ok slot, s') /\ table_ok s' 0 t' /\ slot_of s' t' 5251072 (Z.of_nat slot).
Proof.
  assert (table_ok ts_new 0 (mkTable 4194304 2 [None; None])) as Hok.
  { split; [vm_compute; reflexivity|]. split; [reflexivity|]. split; [vm_compute; reflexivity|].
    split; [vm_compute; discriminate|]. split; [vm_compute; discriminate|].
    assert (forall i k, [@None nat; None] !! i = Some (Some k) -> False) as Hno by (intros [|[|[|i]]] k; discriminate).
    split; [|split]; [intros i k Hk|intros i e (k & Hk & _)|intros i j e e' _ (k & Hk & _)]; by destruct (Hno _ _ Hk). }
  split; [exact Hok|].
  assert (covers (mkTable 4194304 2 [None; None]) 5251072) as Hc by (split; vm_compute; [discriminate|reflexivity]).
  destruct (table_lookup_slot 0 _ 5251072 ts_new Hok Hc) as (slot & s' & t' & H1 & H2 & H3 & H4 & H5 & H6 & _).
  exists slot, s', t'. split; [exact H1|]. split; [exact H2|]. apply (H6 5251072 Hc). reflexivity.
Defined.

(** ** [table_new] *)

(** The range a segment asks for, in whole pages, and the most a table maps. *)
Definition page_range (base top : Z) : Z := (top + 4095) / 4096 * 4096 - base / 4096 * 4096.
Definition TABLEMAX : Z := SEGMAPSIZE * PTEMAPMEM.

Lemma new_numbers base top : 0 <= base <= top -> top <= 2 ^ 64 - PTEMAPMEM -> page_range base top < 2 ^ 43 ->
  ROUNDDN base PGSZ = base / 4096 * 4096 /\ ROUNDUP top PGSZ = (top + 4095) / 4096 * 4096 /\
  exists n, page_range base top = n * 4096 /\ 0 <= n < 2 ^ 31 /\
    u64 (i32 (Z.shiftr (u64 (ROUNDUP top PGSZ - ROUNDDN base PGSZ)) PGSHFT)) = n /\
    HOWMANY n PTEPERTAB = (n + 255) / 256.
Proof.
  intros Hb Ht Hr. unfold page_range in *. change PTEMAPMEM with 1048576 in *. change (2 ^ 43) with 8796093022208 in *.
  change (2 ^ 64) with 18446744073709551616 in *. change (2 ^ 31) with 2147483648.
  assert (ROUNDUP top PGSZ = (top + 4095) / 4096 * 4096) as E2.
  { unfold ROUNDUP, HOWMANY. change (PGSZ - 1) with 4095. change PGSZ with 4096. rewrite (u64_id (top + 4095)) by lia.
    apply u64_id. dlia. }
  split; [done|]. split; [done|]. exists ((top + 4095) / 4096 - base / 4096).
  assert (base / 4096 <= (top + 4095) / 4096) by (apply Z.div_le_mono; lia).
  split; [lia|]. split; [lia|]. split.
  - rewrite E2. change (ROUNDDN base PGSZ) with (base / 4096 * 4096). rewrite (u64_id ((top + 4095) / 4096 * 4096 - _)) by lia. rewrite <-Z.mul_sub_distr_r.
    rewrite Z.shiftr_div_pow2 by done. change (2 ^ PGSHFT) with 4096. rewrite Z.div_mul by done. rewrite i32_id, u64_id; [done|lia..].
  - unfold HOWMANY. change (PTEPERTAB - 1) with 255. change PTEPERTAB with 256. by rewrite u64_id by lia.
Qed.

Lemma table_ok_empty s base n : 0 <= n < 2 ^ 16 -> 0 <= base -> base + n * PTEMAPMEM <= 2 ^ 64 ->
  let t := mkTable base n (replicate (Z.to_nat n) None) in
  table_ok (set_tables (tables s ++ [Some t]) s) (length (tables s)) t.
Proof.
  intros Hn Hb Ht t.
  assert (forall i k, t_map t !! i = Some (Some k) -> False) as Hno.
  { intros i k Hk. apply lookup_replicate in Hk as [Hk _]. done. }
  split; [cbn; by rewrite lookup_app_r, Nat.sub_diag by lia|]. split; [unfold zlen; cbn; rewrite length_replicate; lia|].
  split; [cbn; lia|]. split; [done|]. split; [done|].
  split; [|split]; [intros i k Hk|intros i e (k & Hk & _)|intros i j e e' _ (k & Hk & _)]; by destruct (Hno _ _ Hk).
Qed.

(** [table_new] of a range of at most 64 GiB less 1 MiB gives an empty
    table that covers it; more than 64 GiB, up to 8 TiB, or no memory, gives
    none.  Between the two the size of the map is truncated to 0: the table is
    made, and every lookup in it panics. *)
Theorem table_new_range mem base top s :
  0 <= base <= top -> top <= 2 ^ 64 - PTEMAPMEM -> page_range base top < 2 ^ 43 ->
  if (TABLEMAX <? page_range base top) || negb mem then table_new mem base top s = (Ok None, s)
  else exists t, let tb := length (tables s) in let s' := set_tables (tables s ++ [Some t]) s in
    table_new mem base top s = (Ok (Some tb), s') /\ table_ok s' tb t /\ t_base t = base / 4096 * 4096 /\
    (forall i o, t_map t !! i = Some o -> o = None) /\
    (page_range base top <= TABLEMAX - PTEMAPMEM -> forall va, base <= va < top -> covers t va) /\
    (TABLEMAX - PTEMAPMEM < page_range base top -> forall va, table_lookup tb va s' = (Ret UPanic, s')).
Proof.
  intros Hb Ht Hr. destruct (new_numbers base top Hb Ht Hr) as (E1 & E2 & n & En & Hn & E3 & E4).
  unfold table_new. cbv zeta. rewrite E3, E4, En. change TABLEMAX with (16777216 * 4096). change (SEGMAPSIZE * PTEPERTAB) with 16777216.
  replace (16777216 * 4096 <? n * 4096) with (16777216 <? n) by (destruct (Z.ltb_spec 16777216 n), (Z.ltb_spec (16777216 * 4096) (n * 4096)); lia).
  destruct (Z.ltb_spec 16777216 n) as [Hbig|Hsmall]; [done|]. destruct mem; [|done]. cbn [orb negb].
  change (2 ^ 64) with 18446744073709551616 in *. change PTEMAPMEM with 1048576 in *.
  unfold page_range in En. assert ((n + 255) / 256 * 256 <= n + 255 < (n + 255) / 256 * 256 + 256) as Hc by dlia.
  assert (top <= (top + 4095) / 4096 * 4096 <= top + 4095 /\ 0 <= base / 4096 * 4096 <= base) as [Hr1 Hr2] by (split; dlia).
  set (m := u16 ((n + 255) / 256)). assert (0 <= m < 2 ^ 16 /\ m <= (n + 255) / 256) as [Hm Hm'] by (unfold m; wraps; dlia).
  exists (mkTable (base / 4096 * 4096) m (replicate (Z.to_nat m) None)). split; [by rewrite E1|].
  assert (table_ok (set_tables (tables s ++ [Some (mkTable (base / 4096 * 4096) m (replicate (Z.to_nat m) None))]) s) (length (tables s))
    (mkTable (base / 4096 * 4096) m (replicate (Z.to_nat m) None))) as Hok
    by (apply table_ok_empty; [done|lia|change PTEMAPMEM with 1048576; change (2 ^ 64) with 18446744073709551616; lia]).
  split; [done|]. split; [done|]. split; [intros i o Hi; cbn in Hi; by apply lookup_replicate in Hi as [-> _]|]. split.
  - intros Hlt va Hva. change (16777216 * 4096 - 1048576) with 68718428160 in Hlt. assert (m = (n + 255) / 256) as Hmn by (apply u16_id; lia). unfold covers. cbn. change PTEMAPMEM with 1048576. lia.
  - intros Heq va. change (16777216 * 4096 - 1048576) with 68718428160 in Heq. assert ((n + 255) / 256 = 65536) as Hn' by lia. unfold table_lookup. rewrite (bind_ok _ _ _ _ _ (run_table _ _ _ (proj1 Hok))).
    cbn [t_mapsize t_base]. replace m with 0 by (unfold m; rewrite Hn'; done).
    rewrite (proj2 (Z.leb_le 0 _)) by apply u16_range. done.
Qed.

Lemma table_new_range_witness :
  (TABLEMAX <? page_range 1073741824 69793218560) || negb true = false /\
  exists t s', table_new true 1073741824 69793218560 ts_ex = (Ok (Some 0%nat), s') /\ tables s' = [Some t] /\
    table_lookup 0 1073745920 s' = (Ret UPanic, s').
Proof.
  assert (0 <= 1073741824 <= 69793218560) as Hb by lia.
  assert (69793218560 <= 2 ^ 64 - PTEMAPMEM) as Ht by (vm_compute; discriminate).
  assert (page_range 1073741824 69793218560 < 2 ^ 43) as Hr by (vm_compute; reflexivity).
  assert ((TABLEMAX <? page_range 1073741824 69793218560) || negb true = false) as E by (vm_compute; reflexivity).
  split; [exact E|]. pose proof (table_new_range true 1073741824 69793218560 ts_ex Hb Ht Hr) as H. rewrite E in H.
  destruct H as (t & H1 & _ & _ & _ & _ & H2). eexists t, _. split; [exact H1|]. split; [reflexivity|].
  apply H2. vm_compute. reflexivity.
Defined.

(** ** [table_clone] out of memory *)

Definition freed (s : TS) (k : nat) : Prop := ptes s !! k = Some None.
(** What disposing of pages leaves of the store. *)
Definition kept (s s' : TS) : Prop := ptes s' = ptes s /\ tables s' = tables s.
(** Entries stay freed; those of the first [n] places of a map have been. *)
Definition undone (t : PageTable) (n : nat) (s s' : TS) : Prop :=
  tables s' = tables s /\ (forall k, freed s k -> freed s' k) /\
  forall j k, (j < n)%nat -> t_map t !! j = Some (Some k) -> freed s' k.

Lemma pwp_pool {A} (p : Prog US A) (Q : A -> TS -> Prop) s : (forall a u, Q a (set_us u s)) -> pwp (pool p) Q s.
Proof. intros H a s' E. unfold pool in E. destruct (run p (us s)) as [[x|] u]; [|done]. by injection E as <- <-. Qed.
Lemma pwp_entry k (Q : PageTableEntry -> TS -> Prop) s : (forall e, ptes s !! k = Some (Some e) -> Q e s) -> pwp (entry k) Q s.
Proof.
  intros H. apply pwp_bind, pwp_gets, pwp_of_option. unfold id. intros e E. apply H.
  destruct (ptes s !! k) as [[x|]|]; cbn in E; congruence.
Qed.
Lemma pwp_table k (Q : PageTable -> TS -> Prop) s : (forall t, tables s !! k = Some (Some t) -> Q t s) -> pwp (table k) Q s.
Proof.
  intros H. apply pwp_bind, pwp_gets, pwp_of_option. unfold id. intros e E. apply H.
  destruct (tables s !! k) as [[x|]|]; cbn in E; congruence.
Qed.
Lemma pwp_map_entry tb i (Q : option nat -> TS -> Prop) s :
  (forall t o, tables s !! tb = Some (Some t) -> t_map t !! i = Some o -> Q o s) -> pwp (map_entry tb i) Q s.
Proof. intros H. apply pwp_bind, pwp_table. intros t Et. apply pwp_of_option. intros o Eo. by apply (H t). Qed.
Lemma pwp_slot_at e i (Q : nat -> TS -> Prop) s : (forall n, Q n s) -> pwp (slot_at e i) Q s.
Proof. intros H. unfold slot_at. destruct (_ && _); [by apply pwp_ret|apply pwp_undefined]. Qed.

Lemma dispose_up_kept k n : forall i s, pwp (dispose_up k n i) (fun _ s' => kept s s') s.
Proof.
  induction n as [|n IH]; intros i s; cbn [dispose_up]; [by apply pwp_ret|].
  apply pwp_bind, pwp_entry. intros e _. apply pwp_bind, pwp_slot_at. intros x. apply pwp_bind, pwp_pool. intros _ u.
  eapply pwp_mono; [apply IH|]. done.
Qed.
Lemma clone_pages_kept k ok n : forall i s, pwp (clone_pages k ok n i) (fun _ s' => kept s s') s.
Proof.
  induction n as [|n IH]; intros i s; cbn [clone_pages]; [by apply pwp_ret|].
  apply pwp_bind, pwp_entry. intros oe _. apply pwp_bind, pwp_slot_at. intros x. apply pwp_bind, pwp_pool. intros v u.
  apply pwp_bind. destruct (negb (v =? 0)).
  - apply pwp_bind, pwp_entry. intros e _. apply pwp_bind, pwp_slot_at. intros y. apply pwp_bind, pwp_pool. intros r u'.
    destruct (r =? 0); [apply pwp_leave|]. apply pwp_ret. eapply pwp_mono; [apply IH|]. done.
  - apply pwp_ret. eapply pwp_mono; [apply IH|]. done.
Qed.

Lemma clone_undo_frees target t n : forall s, tables s !! target = Some (Some t) ->
  pwp (clone_undo target n) (fun _ s' => undone t n s s') s.
Proof.
  induction n as [|n IH]; intros s Et; cbn [clone_undo].
  - apply pwp_ret. split; [done|]. split; [done|]. intros j k Hj. lia.
  - apply pwp_bind, pwp_map_entry. intros t' o Et' Eo. assert (t' = t) as -> by congruence.
    assert (forall s1, tables s1 = tables s -> (forall k, freed s k -> freed s1 k) -> (forall k, o = Some k -> freed s1 k) ->
      pwp (clone_undo target n) (fun _ s' => undone t (S n) s s') s1) as Hgo.
    { intros s1 Ht1 Hf Ho. eapply pwp_mono; [apply IH; congruence|]. intros _ s' (H1 & H2 & H3). split; [congruence|].
      split; [auto|]. intros j k Hj Hk. destruct (decide (j = n)) as [->|Hne]; [|apply (H3 j); [lia|done]].
      apply H2, Ho. congruence. }
    apply pwp_bind. destruct o as [k|]; [|by apply pwp_ret, Hgo].
    apply pwp_bind, pwp_entry. intros e Ee. apply pwp_bind. eapply pwp_mono; [apply dispose_up_kept|]. intros _ s1 [Hp1 Ht1].
    apply pwp_modify, Hgo; cbn; [done| |].
    + intros k' Hk'. unfold freed in *. cbn. rewrite Hp1. destruct (decide (k' = k)) as [->|Hne]; [congruence|].
      by rewrite list_lookup_insert_ne.
    + intros ? [= <-]. unfold freed. cbn. apply list_lookup_insert_eq. rewrite Hp1. by eapply lookup_lt_Some.
Qed.

(** The entries a map names are freed, all of them. *)
Definition dangling (s : TS) (t : PageTable) : Prop := forall j k, t_map t !! j = Some (Some k) -> freed s k.
Definition same_shape (t t' : PageTable) : Prop :=
  t_base t' = t_base t /\ t_mapsize t' = t_mapsize t /\ length (t_map t') = length (t_map t).

Lemma clone_loop_undone mem target original n : forall i t s, tables s !! target = Some (Some t) ->
  (forall j k, (i <= j)%nat -> t_map t !! j = Some (Some k) -> False) ->
  pwp (clone_loop mem target original n i)
    (fun r s' => r = 0 -> exists t', tables s' !! target = Some (Some t') /\ same_shape t t' /\ dangling s' t') s.
Proof.
  induction n as [|n IH]; intros i t s Et Hi; cbn [clone_loop]; [by apply pwp_ret|].
  apply pwp_bind, pwp_map_entry. intros to o Eto Eo. destruct o as [ok|].
  - apply pwp_bind, pwp_entry. intros oe Eoe. destruct (mem i); cbn [negb].
    + apply pwp_bind. unfold new_entry. apply pwp_bind, pwp_gets, pwp_bind, pwp_modify, pwp_bind, pwp_modify, pwp_ret.
      unfold id. apply pwp_bind. eapply pwp_mono; [apply clone_pages_kept|]. intros _ s1 [Hp Ht]. cbn in Ht.
      apply pwp_bind. unfold set_map. apply pwp_bind, pwp_table. intros t1 Et1. assert (t1 = t) as -> by congruence.
      destruct (Nat.ltb_spec i (length (t_map t))); [|apply pwp_undefined]. apply pwp_modify.
      set (t2 := mkTable _ _ _). eapply pwp_mono; [apply (IH (S i) t2)| ].
      * cbn. apply list_lookup_insert_eq. rewrite Ht. by eapply lookup_lt_Some.
      * intros j k Hj Hk. cbn in Hk. rewrite list_lookup_insert_ne in Hk by lia. apply (Hi j k); [lia|done].
      * intros r s' H0 Hr. destruct (H0 Hr) as (t' & H1 & (H2 & H3 & H4) & H5). exists t'. split; [done|]. split; [|done].
        split; [done|]. split; [done|]. rewrite H4. cbn. apply length_insert.
    + apply pwp_bind. eapply pwp_mono; [by apply (clone_undo_frees target t)|]. intros _ s' (H1 & H2 & H3).
      apply pwp_ret. intros _. exists t. split; [congruence|]. split; [done|]. intros j k Hk.
      destruct (decide (i <= j)%nat) as [Hj|Hj]; [by destruct (Hi j k)|]. apply (H3 j); [lia|done].
  - apply (IH (S i) t); [done|]. intros j k Hj. apply Hi. lia.
Qed.

Lemma run_map_entry tb t i o s : tables s !! tb = Some (Some t) -> t_map t !! i = Some o -> map_entry tb i s = (Ok o, s).
Proof. intros E Ei. unfold map_entry. rewrite (bind_ok _ _ _ _ _ (run_table _ _ _ E)). by rewrite Ei. Qed.

Definition unused (l : list (option nat)) : bool := forallb (fun o => bool_decide (o = None)) l.

Lemma each_entry_dangling fin tb t s n : tables s !! tb = Some (Some t) -> dangling s t -> (n <= length (t_map t))%nat ->
  each_entry fin tb n s = (if unused (take n (t_map t)) then Ok tt else Ub, s).
Proof.
  intros Et Hd. induction n as [|n IH]; intros Hn; [done|]. cbn [each_entry].
  destruct (lookup_lt_is_Some_2 (t_map t) n) as [o Eo]; [lia|]. rewrite (bind_ok _ _ _ _ _ (run_map_entry _ _ _ _ _ Et Eo)).
  rewrite (take_S_r _ _ _ Eo). unfold unused in *. rewrite forallb_app. cbn [forallb]. destruct o as [k|].
  - pose proof (Hd n k Eo) as Hk. rewrite bool_decide_eq_false_2 by done. rewrite andb_false_r.
    apply bind_ub, bind_ub. unfold entry, gett, gets, mbind, M_bind. cbn. unfold id. unfold freed in Hk. by rewrite Hk.
  - rewrite bool_decide_eq_true_2, bind_mret, andb_true_r by done. apply IH. lia.
Qed.


(** Two entries to clone, and memory for one. *)
Definition ts_two : TS := snd ((table_new true 4194304 6000000;; table_new true 4194304 6000000;; table_lookup 0 4194304;; table_lookup 0 5251072) ts_ex).

