(* ===== verification/Avl.v ===== *)
(** * AVL trees: [sys/src/lib/avl/avl.c]

    The nodes belong to the clients, which embed an [Avl] in their own records:
    the heap maps the addresses of nodes to their [Avl]s, and reading an address
    that has none is undefined.  A place that holds a pointer to a node (the
    [Avl **tp] of the routines) is the root of the tree or a child field of a
    node.  [cmp] is the client's comparison; it looks at the records, which the
    library does not change.  The walks of the tree are listed as its [walks]
    links them.  Loops and recursions run at most once per node, and once more to
    find the end; the number of nodes is their fuel. *)
From S2P Require Import Prelude CMonad.
From stdpp Require Import gmap.
Local Open Scope Z_scope.

(** ** Data *)

Record Avl : Type := mkAvl { a_p : option nat; a_n0 : option nat; a_n1 : option nat; a_bal : Z }.
(** A walk; its own address stands for it. *)
Record Avlwalk : Type := mkWalk { w_id : nat; w_started : bool; w_moved : bool; w_node : option nat }.
Record Avltree : Type := mkTree { heap : gmap nat Avl; root : option nat; walks : list Avlwalk }.

Inductive Loc : Type :=
| LRoot
| LChild (a : nat) (i : bool).

Definition AbortCalled : Z := 1.

(** [a->n[i]]. *)
Definition a_n (i : bool) (a : Avl) : option nat := if i then a_n1 a else a_n0 a.
Definition set_p p a := mkAvl p (a_n0 a) (a_n1 a) (a_bal a).
Definition set_n (i : bool) n a := if i then mkAvl (a_p a) (a_n0 a) n (a_bal a) else mkAvl (a_p a) n (a_n1 a) (a_bal a).
Definition set_bal b a := mkAvl (a_p a) (a_n0 a) (a_n1 a) b.
Definition set_heap h t := mkTree h (root t) (walks t).
Definition set_root r t := mkTree (heap t) r (walks t).
Definition set_walks w t := mkTree (heap t) (root t) w.

Definition node (a : nat) : M Avltree Avl := h ← gets heap; of_option (h !! a).
Definition upd (a : nat) (f : Avl -> Avl) : M Avltree () :=
  node a;; modify (fun t => set_heap (alter f a (heap t)) t).
(** [*tp] and [*tp = v]. *)
Definition ld (tp : Loc) : M Avltree (option nat) :=
  match tp with
  | LRoot => gets root
  | LChild a i => n ← node a; mret (a_n i n)
  end.
Definition st (tp : Loc) (v : option nat) : M Avltree () :=
  match tp with
  | LRoot => modify (set_root v)
  | LChild a i => upd a (set_n i v)
  end.
(** A pointer that is followed; [if(x) x->p = p;]. *)
Definition deref (o : option nat) : M Avltree nat := of_option o.
Definition link (x : option nat) (p : option nat) : M Avltree () :=
  match x with Some x => upd x (set_p p) | None => mret tt end.

(** ** Balancing *)

Definition pos (x : Z) : Z := if 0 <? x then x else 0.

Definition singleleft (tp : Loc) (p : option nat) : M Avltree () :=
  a ← ld tp ≫= deref;
  na ← node a;
  c ← deref (a_n1 na);
  nc ← node c;
  let r2 := a_bal nc in
  let l := pos r2 + 1 - a_bal na in
  upd a (set_n true (a_n0 nc));;
  link (a_n0 nc) (Some a);;
  upd c (set_n false (Some a));;
  link (Some a) (Some c);;
  st tp (Some c);;
  link (Some c) p;;
  upd a (set_bal (- l));;
  upd c (set_bal (r2 - (pos l + 1))).

Definition singleright (tp : Loc) (p : option nat) : M Avltree () :=
  a ← ld tp ≫= deref;
  na ← node a;
  c ← deref (a_n0 na);
  nc ← node c;
  let l2 := - a_bal nc in
  let r := a_bal na + (pos l2 + 1) in
  upd a (set_n false (a_n1 nc));;
  link (a_n1 nc) (Some a);;
  upd c (set_n true (Some a));;
  link (Some a) (Some c);;
  st tp (Some c);;
  link (Some c) p;;
  upd a (set_bal r);;
  upd c (set_bal (pos r + 1 - l2)).

Definition doublerightleft (tp : Loc) (p : option nat) : M Avltree () :=
  a ← ld tp ≫= deref;
  singleright (LChild a true) (Some a);;
  singleleft tp p.

Definition doubleleftright (tp : Loc) (p : option nat) : M Avltree () :=
  a ← ld tp ≫= deref;
  singleleft (LChild a false) (Some a);;
  singleright tp p.

Definition balance (tp : Loc) (p : option nat) : M Avltree () :=
  a ← ld tp ≫= deref;
  na ← node a;
  if a_bal na =? -2 then
    c ← deref (a_n0 na);
    nc ← node c;
    if a_bal nc <=? 0 then singleright tp p
    else if a_bal nc =? 1 then doubleleftright tp p
    else leave AbortCalled
  else if a_bal na =? 2 then
    c ← deref (a_n1 na);
    nc ← node c;
    if 0 <=? a_bal nc then singleleft tp p
    else if a_bal nc =? -1 then doublerightleft tp p
    else leave AbortCalled
  else mret tt.

Definition canoncmp (c : Z) : Z := if c <? 0 then -1 else if 0 <? c then 1 else 0.

(** The fuel of the loops. *)
Definition fuel : M Avltree nat := h ← gets heap; mret (S (size h)).

Section cmp.
Context (cmp : nat -> nat -> Z).

(** ** Insertion: the result and [*rfree] *)

Fixpoint _insertavl (n : nat) (tp : Loc) (p : option nat) (r : nat) (rfree : option nat) : M Avltree (Z * option nat) :=
  match n with
  | O => undefined
  | S n =>
      o ← ld tp;
      match o with
      | None =>
          upd r (fun _ => mkAvl p None None 0);;
          st tp (Some r);;
          mret (1, rfree)
      | Some t =>
          nt ← node t;
          let ob := a_bal nt in
          let i := canoncmp (cmp r t) in
          if negb (i =? 0) then
            '(d, rfree) ← _insertavl n (LChild t (0 <? i)) (Some t) r rfree;
            upd t (fun nt => set_bal (a_bal nt + i * d) nt);;
            balance tp p;;
            b ← (ld tp ≫= deref) ≫= node;
            mret (if (ob =? 0) && negb (a_bal b =? 0) then 1 else 0, rfree)
          else
            st tp (Some r);;
            nt ← node t;
            upd r (fun _ => nt);;
            link (a_n0 nt) (Some r);;
            link (a_n1 nt) (Some r);;
            mret (0, Some t)
      end
  end.

(** The node replaced, or nil. *)
Definition insertavl (new : nat) : M Avltree (option nat) :=
  n ← fuel;
  '(_, oldp) ← _insertavl n LRoot None new None;
  mret oldp.

(** ** Neighbours *)

(** [for(; a->n[i]; a = a->n[i]);] *)
Fixpoint descend (n : nat) (i : bool) (a : nat) : M Avltree nat :=
  match n with
  | O => undefined
  | S n =>
      na ← node a;
      match a_n i na with
      | Some c => descend n i c
      | None => mret a
      end
  end.
(** [while(a->p && a->p->n[i] == a) a = a->p; return a->p;] *)
Fixpoint ascend (n : nat) (i : bool) (a : nat) : M Avltree (option nat) :=
  match n with
  | O => undefined
  | S n =>
      na ← node a;
      match a_p na with
      | Some q =>
          nq ← node q;
          if bool_decide (a_n i nq = Some a) then ascend n i q else mret (Some q)
      | None => mret None
      end
  end.

(** [findpredecessor] is [i = false], [findsuccessor] is [i = true]. *)
Definition neighbour (i : bool) (a : option nat) : M Avltree (option nat) :=
  match a with
  | None => mret None
  | Some a =>
      n ← fuel;
      na ← node a;
      match a_n i na with
      | Some c => r ← descend n (negb i) c; mret (Some r)
      | None => ascend n i a
      end
  end.
Definition findpredecessor : option nat -> M Avltree (option nat) := neighbour false.
Definition findsuccessor : option nat -> M Avltree (option nat) := neighbour true.

(** ** Deletion: the results and [*r] or [*del] *)

Fixpoint successor (n : nat) (tp : Loc) (p : option nat) : M Avltree (Z * nat) :=
  match n with
  | O => undefined
  | S n =>
      t ← ld tp ≫= deref;
      nt ← node t;
      match a_n0 nt with
      | None =>
          st tp (a_n1 nt);;
          link (a_n1 nt) p;;
          mret (-1, t)
      | Some _ =>
          let ob := a_bal nt in
          '(d, r) ← successor n (LChild t false) (Some t);
          upd t (fun nt => set_bal (a_bal nt - d) nt);;
          balance tp p;;
          b ← (ld tp ≫= deref) ≫= node;
          mret (if negb (ob =? 0) && (a_bal b =? 0) then -1 else 0, r)
      end
  end.

(** The walks on a node that is to go move to its predecessor. *)
Definition walkdel (a : nat) : M Avltree () :=
  p ← findpredecessor (Some a);
  modify (fun t => set_walks
    ((fun w => if bool_decide (w_node w = Some a)
               then mkWalk (w_id w) (match p with None => false | Some _ => w_started w end) true p
               else w) <$> walks t) t).

Fixpoint _deleteavl (n : nat) (tp : Loc) (p : option nat) (rx : nat) (del : option nat) : M Avltree (Z * option nat) :=
  match n with
  | O => undefined
  | S n =>
      o ← ld tp;
      match o with
      | None => mret (0, del)
      | Some t =>
          nt ← node t;
          let ob := a_bal nt in
          let i := canoncmp (cmp rx t) in
          if negb (i =? 0) then
            '(d, del) ← _deleteavl n (LChild t (0 <? i)) (Some t) rx del;
            upd t (fun nt => set_bal (a_bal nt + i * d) nt);;
            balance tp p;;
            b ← (ld tp ≫= deref) ≫= node;
            mret (if negb (ob =? 0) && (a_bal b =? 0) then -1 else 0, del)
          else
            walkdel t;;
            or ← node t;
            match a_n0 or, a_n1 or with
            | None, x | x, None =>
                st tp x;;
                link x p;;
                mret (-1, Some t)
            | Some _, Some _ =>
                '(d, r) ← successor n (LChild t true) (Some t);
                upd t (fun nt => set_bal (a_bal nt + d) nt);;
                or ← node t;
                upd r (set_bal (a_bal or));;
                upd r (set_n false (a_n0 or));;
                upd r (set_n true (a_n1 or));;
                st tp (Some r);;
                upd r (set_p p);;
                link (a_n0 or) (Some r);;
                link (a_n1 or) (Some r);;
                balance tp p;;
                b ← (ld tp ≫= deref) ≫= node;
                mret (if negb (ob =? 0) && (a_bal b =? 0) then -1 else 0, Some t)
            end
      end
  end.

(** The node deleted, or nil. *)
Definition deleteavl (key : nat) : M Avltree (option nat) :=
  n ← fuel;
  '(_, oldp) ← _deleteavl n LRoot None key None;
  mret oldp.

(** ** Lookup *)

Fixpoint lookup_loop (n : nat) (t : nat) (p : option nat) (r : nat) (neighbor : Z) : M Avltree (option nat) :=
  match n with
  | O => undefined
  | S n =>
      nt ← node t;
      if negb (bool_decide (a_p nt = p)) then leave AbortCalled
      else
        let i := canoncmp (cmp r t) in
        if i =? 0 then mret (Some t)
        else
          match a_n (0 <? i) nt with
          | Some c => lookup_loop n c (Some t) r neighbor
          | None =>
              if neighbor =? 0 then mret None
              else if neighbor <? 0 then
                if 0 <? i then mret (Some t) else findpredecessor (Some t)
              else
                if i <? 0 then mret (Some t) else findsuccessor (Some t)
          end
  end.
Definition _lookupavl (t : option nat) (r : nat) (neighbor : Z) : M Avltree (option nat) :=
  match t with
  | None => mret None
  | Some t => n ← fuel; lookup_loop n t None r neighbor
  end.
Definition searchavl (key : nat) (neighbor : Z) : M Avltree (option nat) :=
  t ← gets root; _lookupavl t key neighbor.
Definition lookupavl (key : nat) : M Avltree (option nat) :=
  t ← gets root; _lookupavl t key 0.
End cmp.

(** ** Walks *)

Definition mkavltree (mem : bool) (h : gmap nat Avl) : option Avltree :=
  if mem then Some (mkTree h None []) else None.

(** [m] is what [malloc] returns. *)
Definition avlwalk (m : option nat) : M Avltree (option nat) :=
  match m with
  | None => mret None
  | Some w => modify (fun t => set_walks (mkWalk w false false None :: walks t) t);; mret (Some w)
  end.

Definition the_walk (w : nat) (l : list Avlwalk) : option Avlwalk := find (fun x => (w_id x =? w)%nat) l.
Definition walk (w : nat) : M Avltree Avlwalk := l ← gets walks; of_option (the_walk w l).
Definition set_walk (x : Avlwalk) : M Avltree () :=
  modify (fun t => set_walks ((fun y => if (w_id y =? w_id x)%nat then x else y) <$> walks t) t).

(** The end of the tree a walk starts from. *)
Definition first_node (i : bool) : M Avltree (option nat) :=
  r ← gets root;
  match r with
  | None => mret None
  | Some r => n ← fuel; a ← descend n i r; mret (Some a)
  end.

Definition avlnext (w : nat) : M Avltree (option nat) :=
  x ← walk w;
  if negb (w_started x) then
    a ← first_node false;
    set_walk (mkWalk w true (w_moved x) a);;
    mret a
  else
    a ← findsuccessor (w_node x);
    if bool_decide (a = w_node x) then leave AbortCalled
    else set_walk (mkWalk w (w_started x) (w_moved x) a);; mret a.

Definition avlprev (w : nat) : M Avltree (option nat) :=
  x ← walk w;
  if negb (w_started x) then
    a ← first_node true;
    set_walk (mkWalk w true (w_moved x) a);;
    mret a
  else if w_moved x then
    set_walk (mkWalk w (w_started x) false (w_node x));;
    mret (w_node x)
  else
    a ← findpredecessor (w_node x);
    if bool_decide (a = w_node x) then leave AbortCalled
    else set_walk (mkWalk w (w_started x) (w_moved x) a);; mret a.

Fixpoint unlink (w : nat) (l : list Avlwalk) : list Avlwalk :=
  match l with
  | [] => []
  | x :: l => if (w_id x =? w)%nat then l else x :: unlink w l
  end.
Definition endwalk (w : nat) : M Avltree () :=
  walk w;; modify (fun t => set_walks (unlink w (walks t)) t).
