(* ===== verification/AvlHeap.v ===== *)
(** * AVL trees in the heap

    The tree a heap holds from a place on, with its parent pointers, and what a
    rotation makes of it. *)
From S2P Require Import Prelude CMonad Avl.
From stdpp Require Import gmap.
Local Open Scope Z_scope.

(** ** Trees as values *)

Inductive tree : Type :=
| E
| T (l : tree) (a : nat) (b : Z) (r : tree).

Fixpoint inorder (t : tree) : list nat := match t with E => [] | T l a _ r => inorder l ++ a :: inorder r end.
Definition root_of (t : tree) : option nat := match t with E => None | T _ a _ _ => Some a end.
Definition bal_of (t : tree) : Z := match t with E => 0 | T _ _ b _ => b end.

(** The tree [t] below the parent [p]. *)
Fixpoint rep (h : gmap nat Avl) (p : option nat) (t : tree) : Prop :=
  match t with
  | E => True
  | T l a b r => h !! a = Some (mkAvl p (root_of l) (root_of r) b) /\ rep h (Some a) l /\ rep h (Some a) r
  end.

Lemma rep_eq h h' p t : rep h p t -> (forall a, a ∈ inorder t -> h' !! a = h !! a) -> rep h' p t.
Proof.
  revert p. induction t as [|l IHl a b r IHr]; intros p; [done|]. intros (Ha & Hl & Hr) Hh. cbn. rewrite Hh by set_solver.
  split; [done|]. split; [apply IHl; [done|]|apply IHr; [done|]]; intros x Hx; apply Hh; set_solver.
Qed.
Lemma rep_some h p t a : rep h p t -> a ∈ inorder t -> is_Some (h !! a).
Proof.
  revert p. induction t as [|l IHl x b r IHr]; intros p; cbn; [set_solver|]. intros (Ha & Hl & Hr) Hin.
  apply elem_of_app in Hin as [Hin|Hin]; [by eapply IHl|]. apply elem_of_cons in Hin as [->|Hin]; [done|by eapply IHr].
Qed.
Lemma root_in t a : root_of t = Some a -> a ∈ inorder t.
Proof. destruct t; [done|]. intros [= ->]. cbn. set_solver. Qed.

(** ** The stores that the statements make *)

Definition owner (tp : Loc) : option nat := match tp with LRoot => None | LChild a _ => Some a end.
Definition side (tp : Loc) : bool := match tp with LRoot => false | LChild _ i => i end.
Definition puth (tp : Loc) (v : option nat) (h : gmap nat Avl) : gmap nat Avl :=
  match tp with LRoot => h | LChild a i => alter (set_n i v) a h end.
Definition linkh (x p : option nat) (h : gmap nat Avl) : gmap nat Avl :=
  match x with Some x => alter (set_p p) x h | None => h end.
Definition put (tp : Loc) (v : option nat) (s : Avltree) : Avltree :=
  mkTree (puth tp v (heap s)) (match tp with LRoot => v | _ => root s end) (walks s).
Definition ptr_at (tp : Loc) (s : Avltree) (x : option nat) : Prop :=
  match tp with LRoot => root s = x | LChild a i => exists n, heap s !! a = Some n /\ a_n i n = x end.
Definition exists_at (tp : Loc) (s : Avltree) : Prop :=
  match tp with LRoot => True | LChild a _ => is_Some (heap s !! a) end.

Lemma lookup_alter_if f i j (h : gmap nat Avl) : alter f i h !! j = (if decide (i = j) then f <$> h !! j else h !! j).
Proof. destruct (decide (i = j)) as [->|]; [by rewrite lookup_alter_eq|by rewrite lookup_alter_ne]. Qed.
Lemma lookup_linkh x p j h : linkh x p h !! j = (if decide (x = Some j) then set_p p <$> h !! j else h !! j).
Proof.
  destruct x as [x|]; cbn; [rewrite lookup_alter_if|]; repeat case_decide; congruence.
Qed.
Lemma lookup_puth tp v j h : puth tp v h !! j = (if decide (owner tp = Some j) then set_n (side tp) v <$> h !! j else h !! j).
Proof.
  destruct tp as [|a i]; cbn; [|rewrite lookup_alter_if]; repeat case_decide; congruence.
Qed.
Lemma some_alter f i j (h : gmap nat Avl) : is_Some (alter f i h !! j) <-> is_Some (h !! j).
Proof. apply lookup_alter_is_Some. Qed.
Lemma some_linkh x p j h : is_Some (linkh x p h !! j) <-> is_Some (h !! j).
Proof. destruct x; [apply some_alter|done]. Qed.
Lemma some_puth tp v j h : is_Some (puth tp v h !! j) <-> is_Some (h !! j).
Proof. destruct tp; [done|apply some_alter]. Qed.

Lemma wp_node a n (Q : Avl -> Avltree -> Prop) R s : heap s !! a = Some n -> Q n s -> wp (node a) Q R s.
Proof. intros Ha HQ. apply wp_bind, wp_gets. by rewrite Ha. Qed.
Lemma wp_upd a f (Q : () -> Avltree -> Prop) R s :
  is_Some (heap s !! a) -> Q tt (set_heap (alter f a (heap s)) s) -> wp (upd a f) Q R s.
Proof. intros [n Hn] HQ. by apply wp_bind, (wp_node _ n), wp_modify. Qed.
Lemma wp_link x p (Q : () -> Avltree -> Prop) R s :
  (forall y, x = Some y -> is_Some (heap s !! y)) -> Q tt (set_heap (linkh x p (heap s)) s) -> wp (link x p) Q R s.
Proof. intros Hx HQ. destruct x as [y|]; [by apply wp_upd; [apply Hx|]|]. apply wp_ret. by destruct s. Qed.
Lemma wp_ld tp x (Q : option nat -> Avltree -> Prop) R s : ptr_at tp s x -> Q x s -> wp (ld tp) Q R s.
Proof.
  destruct tp as [|a i]; cbn; [by intros <- HQ|]. intros (n & Hn & <-) HQ. by apply wp_bind, (wp_node _ n), wp_ret.
Qed.
Lemma wp_ld_deref tp a (Q : nat -> Avltree -> Prop) R s : ptr_at tp s (Some a) -> Q a s -> wp (ld tp ≫= deref) Q R s.
Proof. intros Hp HQ. by apply wp_bind, (wp_ld _ (Some a)). Qed.
Lemma wp_st tp v (Q : () -> Avltree -> Prop) R s : exists_at tp s -> Q tt (put tp v s) -> wp (st tp v) Q R s.
Proof. destruct tp as [|a i]; cbn; [by intros _ HQ|]. intros Ha HQ. by apply wp_upd. Qed.
Lemma ptr_exists tp s x : ptr_at tp s x -> exists_at tp s.
Proof. destruct tp; [done|]. intros (n & Hn & _). by exists n. Qed.

(** [s'] is [s] apart from the nodes [D], and has the nodes of [s]. *)
Definition agree (D : list nat) (s s' : Avltree) : Prop :=
  root s' = root s /\ walks s' = walks s /\ (forall a, is_Some (heap s' !! a) <-> is_Some (heap s !! a)) /\
  forall a, a ∉ D -> heap s' !! a = heap s !! a.
(** The tree [t] has come to be at [tp]. *)
Definition now (D : list nat) (tp : Loc) (p : option nat) (t : tree) (s s' : Avltree) : Prop :=
  rep (heap s') p t /\ agree D (put tp (root_of t) s) s'.
(** The place [tp] lies outside the nodes [D]. *)
Definition outside (tp : Loc) (D : list nat) : Prop := forall a, owner tp = Some a -> a ∉ D.

Lemma now_ptr D tp p t s s' : exists_at tp s -> outside tp D -> now D tp p t s s' -> ptr_at tp s' (root_of t).
Proof.
  intros He Ho (_ & Hr & _ & _ & Hh). destruct tp as [|a i]; [done|]. destruct He as [n Hn].
  exists (set_n i (root_of t) n). rewrite Hh by (by apply Ho). cbn. rewrite lookup_alter_eq, Hn. by destruct i.
Qed.

Lemma rep_link h p q t : NoDup (inorder t) -> rep h p t -> rep (linkh (root_of t) q h) q t.
Proof.
  destruct t as [|l a b r]; [done|]. cbn. intros Hnd (Ha & Hl & Hr). rewrite lookup_alter_eq, Ha. split; [done|].
  apply NoDup_app in Hnd as (_ & Hd & [Hd' _]%NoDup_cons). split.
  - apply (rep_eq h); [done|]. intros x Hx. apply lookup_alter_ne. intros <-. eapply Hd; [done|]. set_solver.
  - apply (rep_eq h); [done|]. intros x Hx. apply lookup_alter_ne. by intros <-.
Qed.

(** Lookups in the store a run of updates has made. *)
Ltac look := cbn [heap set_heap put root walks root_of] in *; repeat first [rewrite lookup_puth|rewrite lookup_linkh|rewrite lookup_alter_if].
Ltac some := intros; cbn [heap set_heap put]; repeat first [rewrite some_alter|rewrite some_linkh|rewrite some_puth].

Definition rotl (t : tree) : tree :=
  match t with
  | T A a ab (T B c cb C) => let l := pos cb + 1 - ab in T (T A a (- l) B) c (cb - (pos l + 1)) C
  | _ => t
  end.
Definition rotr (t : tree) : tree :=
  match t with
  | T (T A c cb B) a ab C => let r := ab + (pos (- cb) + 1) in T A c (pos r + 1 - - cb) (T B a r C)
  | _ => t
  end.

(** Every test left is of two addresses known to differ. *)
Ltac same_node := look; repeat case_decide; try congruence.

(** The updates of a rotation leave the node [x] of a subtree, of [B] except
    for its parent; those outside. *)
Ltac apart_ac a c := let x := fresh "x" in let Hx := fresh "Hx" in
  intros x Hx; assert (x <> a) by set_solver; assert (x <> c) by set_solver.
Ltac apart_tp tp Ho x := assert (owner tp <> Some x) by (let E := fresh in intros E; apply (Ho x E); set_solver).
Ltac apart_B B x := assert (root_of B <> Some x) by (let E := fresh in intros E%root_in; set_solver).
Ltac in_other tp Ho a c B := apart_ac a c; match goal with |- _ !! ?x = _ => apart_tp tp Ho x; apart_B B x end; same_node.
Ltac in_B tp Ho a c := apart_ac a c; match goal with |- _ !! ?x = _ => apart_tp tp Ho x end; same_node.
Ltac in_none a c B := apart_ac a c; match goal with |- _ !! ?x = _ => apart_B B x end; same_node.

Lemma wp_singleleft tp p p0 A a ab B c cb C (Q : () -> Avltree -> Prop) R s :
  let t := T A a ab (T B c cb C) in
  rep (heap s) p0 t -> NoDup (inorder t) -> ptr_at tp s (Some a) -> outside tp (inorder t) ->
  (forall s', now (inorder t) tp p (rotl t) s s' -> Q tt s') -> wp (singleleft tp p) Q R s.
Proof.
  intros t (Ha & HA & Hc & HB & HC) Hnd Hp Ho HQ. unfold singleleft.
  assert (is_Some (heap s !! a)) as Sa by done. assert (is_Some (heap s !! c)) as Sc by done.
  assert (forall y, root_of B = Some y -> is_Some (heap s !! y)) as Sb by (intros y Hy; eapply rep_some; [exact HB|by apply root_in]).
  pose proof (ptr_exists _ _ _ Hp) as He.
  apply wp_bind, (wp_ld_deref _ a); [done|]. apply wp_bind, (wp_node _ _ _ _ _ Ha). cbn [a_n1].
  apply wp_bind, wp_ret. apply wp_bind, (wp_node _ _ _ _ _ Hc). cbn [a_n0 a_bal]. cbv zeta.
  apply wp_bind, wp_upd; [done|]. apply wp_bind, wp_link; [some; by apply Sb|]. apply wp_bind, wp_upd; [by some|].
  apply wp_bind, wp_link; [intros y [= <-]; by some|]. apply wp_bind, wp_st; [destruct tp; [done|]; cbn; by some|].
  apply wp_bind, wp_link; [intros y [= <-]; by some|]. apply wp_bind, wp_upd; [by some|]. apply wp_upd; [by some|].
  apply HQ. clear HQ Q R. unfold t in *. cbn [inorder] in *.
  apply NoDup_app in Hnd as (NA & dA & [na (NB & dB & [nc NC]%NoDup_cons)%NoDup_app]%NoDup_cons).
  assert (a <> c) by set_solver. assert (owner tp <> Some a) by (intros E; apply (Ho a E); set_solver).
  assert (owner tp <> Some c) by (intros E; apply (Ho c E); set_solver).
  assert (root_of B <> Some a) by (intros E%root_in; set_solver). assert (root_of B <> Some c) by (intros E%root_in; set_solver).
  split; cbn [rotl rep root_of].
  - split; [same_node; by rewrite Hc|]. split; [split; [same_node; by rewrite Ha|split]|].
    + apply (rep_eq (heap s)); [done|]. in_other tp Ho a c B.
    + apply (rep_eq (linkh (root_of B) (Some a) (heap s))); [by eapply rep_link|]. in_B tp Ho a c.
    + apply (rep_eq (heap s)); [done|]. in_other tp Ho a c B.
  - split; [done|]. split; [done|]. split; [some; done|]. in_none a c B.
Qed.

Lemma wp_singleright tp p p0 A c cb B a ab C (Q : () -> Avltree -> Prop) R s :
  let t := T (T A c cb B) a ab C in
  rep (heap s) p0 t -> NoDup (inorder t) -> ptr_at tp s (Some a) -> outside tp (inorder t) ->
  (forall s', now (inorder t) tp p (rotr t) s s' -> Q tt s') -> wp (singleright tp p) Q R s.
Proof.
  intros t (Ha & (Hc & HA & HB) & HC) Hnd Hp Ho HQ. unfold singleright.
  assert (is_Some (heap s !! a)) as Sa by done. assert (is_Some (heap s !! c)) as Sc by done.
  assert (forall y, root_of B = Some y -> is_Some (heap s !! y)) as Sb by (intros y Hy; eapply rep_some; [exact HB|by apply root_in]).
  pose proof (ptr_exists _ _ _ Hp) as He.
  apply wp_bind, (wp_ld_deref _ a); [done|]. apply wp_bind, (wp_node _ _ _ _ _ Ha). cbn [a_n0].
  apply wp_bind, wp_ret. apply wp_bind, (wp_node _ _ _ _ _ Hc). cbn [a_n1 a_bal]. cbv zeta.
  apply wp_bind, wp_upd; [done|]. apply wp_bind, wp_link; [some; by apply Sb|]. apply wp_bind, wp_upd; [by some|].
  apply wp_bind, wp_link; [intros y [= <-]; by some|]. apply wp_bind, wp_st; [destruct tp; [done|]; cbn; by some|].
  apply wp_bind, wp_link; [intros y [= <-]; by some|]. apply wp_bind, wp_upd; [by some|]. apply wp_upd; [by some|].
  apply HQ. clear HQ Q R. unfold t in *. cbn [inorder] in *. rewrite <- app_assoc in *. cbn [app] in *.
  apply NoDup_app in Hnd as (NA & dA & [nc (NB & dB & [na NC]%NoDup_cons)%NoDup_app]%NoDup_cons).
  assert (a <> c) by set_solver. assert (owner tp <> Some a) by (intros E; apply (Ho a E); set_solver).
  assert (owner tp <> Some c) by (intros E; apply (Ho c E); set_solver).
  assert (root_of B <> Some a) by (intros E%root_in; set_solver). assert (root_of B <> Some c) by (intros E%root_in; set_solver).
  split; cbn [rotr rep root_of].
  - split; [same_node; by rewrite Hc|]. split; [|split; [same_node; by rewrite Ha|split]].
    + apply (rep_eq (heap s)); [done|]. in_other tp Ho a c B.
    + apply (rep_eq (linkh (root_of B) (Some a) (heap s))); [by eapply rep_link|]. in_B tp Ho a c.
    + apply (rep_eq (heap s)); [done|]. in_other tp Ho a c B.
  - split; [done|]. split; [done|]. split; [some; done|]. in_none a c B.
Qed.

(** The tree at a child field has changed. *)
Definition with_child (i : bool) (l : tree) (a : nat) (b : Z) (r t : tree) : tree := if i then T l a b t else T t a b r.
Lemma now_child (i : bool) D p l a b r t s s' :
  rep (heap s) p (T l a b r) -> a ∉ D -> (forall x, x ∈ inorder (if i then l else r) -> x <> a /\ x ∉ D) ->
  now D (LChild a i) (Some a) t s s' ->
  rep (heap s') p (with_child i l a b r t) /\ agree (a :: D) s s'.
Proof.
  intros (Ha & Hl & Hr) Hn Hd (Ht & H1 & H2 & Hs & H3). cbn in H1, H2. split.
  - assert (heap s' !! a = Some (set_n i (root_of t) (mkAvl p (root_of l) (root_of r) b))) as Ha'.
    { rewrite H3 by done. cbn. by rewrite lookup_alter_eq, Ha. }
    assert (forall x, x ∈ inorder (if i then l else r) -> heap s' !! x = heap s !! x) as Hk.
    { intros x Hx. destruct (Hd x Hx) as [Hxa HxD]. rewrite H3 by done. cbn. by apply lookup_alter_ne. }
    destruct i; cbn in *; (split; [done|]); (split; [|try done]); try done; by eapply rep_eq.
  - split; [done|]. split; [done|]. split; [intros x; rewrite Hs; by some|]. intros x Hx. rewrite H3 by set_solver. cbn. apply lookup_alter_ne. set_solver.
Qed.

Lemma agree_trans D s s1 s2 : agree D s s1 -> agree D s1 s2 -> agree D s s2.
Proof.
  intros (H1 & H2 & H3 & H4) (K1 & K2 & K3 & K4). split; [congruence|]. split; [congruence|].
  split; [intros a; by rewrite K3, H3|]. intros a Ha. by rewrite K4, H4.
Qed.
Lemma agree_mono D D' s s' : D ⊆ D' -> agree D s s' -> agree D' s s'.
Proof. intros HD (H1 & H2 & H3 & H4). split; [done|]. split; [done|]. split; [done|]. intros a Ha. apply H4. set_solver. Qed.
Lemma agree_put D tp v s s' : agree D s s' -> agree D (put tp v s) (put tp v s').
Proof.
  intros (H1 & H2 & H3 & H4). split; [destruct tp; [done|exact H1]|]. split; [done|].
  split; [some; done|]. intros a Ha. cbn. rewrite !lookup_puth. by rewrite H4.
Qed.
Lemma agree_ptr D tp s s' x : agree D s s' -> outside tp D -> ptr_at tp s x -> ptr_at tp s' x.
Proof. intros (H1 & _ & _ & H3) Ho. destruct tp as [|a i]; cbn; [congruence|]. rewrite H3; [done|]. by apply Ho. Qed.
Lemma agree_refl D s : agree D s s.
Proof. done. Qed.
Lemma put_same tp s x : ptr_at tp s x -> put tp x s = s.
Proof.
  destruct tp as [|a i]; destruct s as [h r w]; cbn; [by intros ->|]. intros (n & Hn & <-). unfold put. cbn. f_equal.
  apply map_eq. intros j. rewrite lookup_alter_if. destruct (decide (a = j)) as [->|]; [|done]. rewrite Hn. cbn. f_equal. by destruct i, n.
Qed.
Lemma now_same tp p t s D : rep (heap s) p t -> ptr_at tp s (root_of t) -> now D tp p t s s.
Proof. intros Hr Hp. split; [done|]. by rewrite (put_same _ _ _ Hp). Qed.
Lemma now_after D tp p t s s1 s2 : agree D s s1 -> now D tp p t s1 s2 -> now D tp p t s s2.
Proof. intros H (Hr & Ha). split; [done|]. eapply agree_trans; [by apply agree_put|done]. Qed.
Lemma now_mono D D' tp p t s s' : D ⊆ D' -> now D tp p t s s' -> now D' tp p t s s'.
Proof. intros HD (H1 & H2). split; [done|]. by eapply agree_mono. Qed.

Lemma inorder_rotl t : inorder (rotl t) = inorder t.
Proof. destruct t as [|A a ab [|B c cb C]]; [done..|]. cbn. by rewrite <- app_assoc. Qed.
Lemma inorder_rotr t : inorder (rotr t) = inorder t.
Proof. destruct t as [|[|A c cb B] a ab C]; [done..|]. cbn. by rewrite <- app_assoc. Qed.
