(* ===== verification/AvlThms.v ===== *)
(** * AVL trees: balancing

    Stored balances are differences of heights; what [balance] restores. *)
From S2P Require Import Prelude CMonad Avl AvlHeap.
From stdpp Require Import gmap sorting.
Local Open Scope Z_scope.

Fixpoint height (t : tree) : Z := match t with E => 0 | T l _ _ r => 1 + Z.max (height l) (height r) end.
Fixpoint avl (t : tree) : Prop :=
  match t with E => True | T l _ b r => b = height r - height l /\ -1 <= b <= 1 /\ avl l /\ avl r end.

Lemma height_nonneg t : 0 <= height t.
Proof. induction t; cbn; lia. Qed.
Lemma pos_max x : pos x = Z.max 0 x.
Proof. unfold pos. destruct (Z.ltb_spec 0 x); lia. Qed.

(** What [balance] makes of a tree whose subtrees are balanced and whose own
    heights differ by at most 2. *)
Definition tilted (t : tree) : Prop :=
  match t with E => False | T l _ b r => b = height r - height l /\ -2 <= b <= 2 /\ avl l /\ avl r end.
Definition heavy (t : tree) : tree := match t with E => E | T l _ b r => if 0 <? b then r else l end.
Definition settled (t t' : tree) : Prop :=
  inorder t' = inorder t /\ avl t' /\ t' <> E /\
  (-1 <= bal_of t <= 1 -> t' = t) /\
  (bal_of t < -1 \/ 1 < bal_of t ->
     height t' = height t - (if bal_of t' =? 0 then 1 else 0) /\ (bal_of (heavy t) <> 0 -> bal_of t' = 0)).

Ltac heights := rewrite ?pos_max in *; cbn [height bal_of avl] in *; lia.

Ltac avls := cbn [avl]; repeat match goal with |- _ /\ _ => split end; first [assumption|heights].

Lemma settled_same t : tilted t -> -1 <= bal_of t <= 1 -> settled t t.
Proof. destruct t as [|l a b r]; [done|]. cbn. intros (H1 & H2 & H3 & H4) H5. split; [done|]. split; [done|]. split; [done|]. split; [done|]. intros H; cbn in H; lia. Qed.

Lemma settled_left A a B c cb C : let t := T A a 2 (T B c cb C) in tilted t -> 0 <= cb -> settled t (rotl t).
Proof.
  intros t (H1 & H2 & H3 & (H4 & H5 & H6 & H7)) Hc. subst t. split; [apply inorder_rotl|]. cbn [rotl bal_of heavy]. change (0 <? 2) with true. cbv iota.
  split; [avls|]. split; [done|]. split; [lia|]. intros _. rewrite !pos_max. split.
  - match goal with |- context [?x =? 0] => destruct (Z.eqb_spec x 0) end; heights.
  - heights.
Qed.
Lemma settled_right A c cb B a C : let t := T (T A c cb B) a (-2) C in tilted t -> cb <= 0 -> settled t (rotr t).
Proof.
  intros t (H1 & H2 & (H4 & H5 & H6 & H7) & H3) Hc. subst t. split; [apply inorder_rotr|]. cbn [rotr bal_of heavy]. change (0 <? -2) with false. cbv iota.
  split; [avls|]. split; [done|]. split; [lia|]. intros _. rewrite !pos_max. split.
  - match goal with |- context [?x =? 0] => destruct (Z.eqb_spec x 0) end; heights.
  - heights.
Qed.
Lemma settled_rightleft A a B d db B' c C : let r := T (T B d db B') c (-1) C in
  tilted (T A a 2 r) -> settled (T A a 2 r) (rotl (T A a 2 (rotr r))).
Proof.
  intros r (H1 & H2 & H3 & (H4 & H5 & (H6 & H7 & H8 & H9) & H10)). subst r.
  split; [rewrite inorder_rotl; cbn [inorder]; by rewrite inorder_rotr|]. cbn [rotl rotr bal_of heavy]. change (0 <? 2) with true. cbv iota zeta.
  split; [avls|]. split; [done|]. split; [lia|]. intros _. rewrite !pos_max. split.
  - match goal with |- context [?x =? 0] => destruct (Z.eqb_spec x 0) end; heights.
  - heights.
Qed.
Lemma settled_leftright A a B d db B' c C : let l := T A a 1 (T B d db B') in
  tilted (T l c (-2) C) -> settled (T l c (-2) C) (rotr (T (rotl l) c (-2) C)).
Proof.
  intros l (H1 & H2 & (H4 & H5 & H10 & (H6 & H7 & H8 & H9)) & H3). subst l.
  split; [rewrite inorder_rotr; cbn [inorder]; by rewrite inorder_rotl|]. cbn [rotl rotr bal_of heavy]. change (0 <? -2) with false. cbv iota zeta.
  split; [avls|]. split; [done|]. split; [lia|]. intros _. rewrite !pos_max. split.
  - match goal with |- context [?x =? 0] => destruct (Z.eqb_spec x 0) end; heights.
  - heights.
Qed.

(** ** [balance] in the heap *)

Lemma wp_doublerightleft tp p A a ab B d db B' c cb C (Q : () -> Avltree -> Prop) R s :
  let r := T (T B d db B') c cb C in let t := T A a ab r in
  rep (heap s) p t -> NoDup (inorder t) -> ptr_at tp s (Some a) -> outside tp (inorder t) ->
  (forall s', now (inorder t) tp p (rotl (T A a ab (rotr r))) s s' -> Q tt s') -> wp (doublerightleft tp p) Q R s.
Proof.
  intros r t Hr Hnd Hp Ho HQ. unfold doublerightleft. apply wp_bind, (wp_ld_deref _ a); [done|]. apply wp_bind.
  pose proof Hr as (Ha & HA & Hc). pose proof Hnd as Hnd'. cbn [inorder t] in Hnd'.
  apply NoDup_app in Hnd' as (NA & dA & [na Nr]%NoDup_cons).
  eapply (wp_singleright _ _ (Some a) B d db B' c cb C); [exact Hc|exact Nr| |intros x [= <-]; set_solver|].
  - cbn. exists (mkAvl p (root_of A) (Some c) ab). done.
  - intros s1 Hn1. apply (now_child true _ p A a ab r) in Hn1; [|done|done|intros x Hx; split; set_solver]. destruct Hn1 as [Hr1 Ha1].
    cbn [with_child] in Hr1. fold r in Hr1, Ha1.
    assert (a :: inorder r ⊆ inorder t) as Hsub by (unfold t; cbn [inorder]; set_solver).
    assert (inorder (T A a ab (rotr r)) = inorder t) as Ei by (cbn [inorder]; by rewrite inorder_rotr).
    eapply (wp_singleleft tp p p A a ab _ _ _ _); [exact Hr1| | | |].
    + change (NoDup (inorder (T A a ab (rotr r)))). by rewrite Ei.
    + eapply agree_ptr; [exact Ha1| |exact Hp]. intros x Hx. specialize (Ho x Hx). set_solver.
    + change (outside tp (inorder (T A a ab (rotr r)))). by rewrite Ei.
    + intros s2 Hn2. apply HQ. change (now (inorder (T A a ab (rotr r))) tp p (rotl (T A a ab (rotr r))) s1 s2) in Hn2. rewrite Ei in Hn2.
      eapply now_after; [|exact Hn2]. by eapply agree_mono.
Qed.

Lemma wp_doubleleftright tp p A c cb B d db B' a ab C (Q : () -> Avltree -> Prop) R s :
  let l := T A c cb (T B d db B') in let t := T l a ab C in
  rep (heap s) p t -> NoDup (inorder t) -> ptr_at tp s (Some a) -> outside tp (inorder t) ->
  (forall s', now (inorder t) tp p (rotr (T (rotl l) a ab C)) s s' -> Q tt s') -> wp (doubleleftright tp p) Q R s.
Proof.
  intros l t Hr Hnd Hp Ho HQ. unfold doubleleftright. apply wp_bind, (wp_ld_deref _ a); [done|]. apply wp_bind.
  pose proof Hr as (Ha & Hl & HC). pose proof Hnd as Hnd'. cbn [inorder t] in Hnd'.
  apply NoDup_app in Hnd' as (Nl & dl & [na NC]%NoDup_cons). assert (a ∉ inorder l) as nl by (intros Hx; by apply (dl a Hx); left).
  eapply (wp_singleleft _ _ (Some a) A c cb B d db B'); [exact Hl|exact Nl| |intros x [= <-]; exact nl|].
  - cbn. exists (mkAvl p (Some c) (root_of C) ab). done.
  - intros s1 Hn1. apply (now_child false _ p l a ab C) in Hn1; [|done|exact nl|].
    2:{ intros x Hx. split; [by intros ->|]. intros Hx'. apply (dl x Hx'). by right. }
    destruct Hn1 as [Hr1 Ha1]. cbn [with_child] in Hr1. fold l in Hr1, Ha1.
    assert (a :: inorder l ⊆ inorder t) as Hsub by (unfold t; cbn [inorder]; set_solver).
    assert (inorder (T (rotl l) a ab C) = inorder t) as Ei by (cbn [inorder]; by rewrite inorder_rotl).
    eapply (wp_singleright tp p p _ _ _ _ a ab C); [exact Hr1| | | |].
    + change (NoDup (inorder (T (rotl l) a ab C))). by rewrite Ei.
    + eapply agree_ptr; [exact Ha1| |exact Hp]. intros x Hx. specialize (Ho x Hx). set_solver.
    + change (outside tp (inorder (T (rotl l) a ab C))). by rewrite Ei.
    + intros s2 Hn2. apply HQ. change (now (inorder (T (rotl l) a ab C)) tp p (rotr (T (rotl l) a ab C)) s1 s2) in Hn2. rewrite Ei in Hn2.
      eapply now_after; [|exact Hn2]. by eapply agree_mono.
Qed.

Lemma wp_balance tp p t (Q : () -> Avltree -> Prop) R s :
  tilted t -> rep (heap s) p t -> NoDup (inorder t) -> ptr_at tp s (root_of t) -> outside tp (inorder t) ->
  (forall s' t', settled t t' -> now (inorder t) tp p t' s s' -> Q tt s') -> wp (balance tp p) Q R s.
Proof.
  intros Ht Hr Hnd Hp Ho HQ. destruct t as [|l a b r]; [done|]. pose proof Ht as (H1 & H2 & H3 & H4). pose proof Hr as (Ha & Hl & Hrr).
  unfold balance. apply wp_bind, (wp_ld_deref _ a); [done|]. apply wp_bind, (wp_node _ _ _ _ _ Ha). cbn [a_bal a_n0 a_n1].
  pose proof (height_nonneg l). pose proof (height_nonneg r).
  destruct (Z.eqb_spec b (-2)) as [->|Hm]; [|destruct (Z.eqb_spec b 2) as [->|Hp2]].
  - destruct l as [|A c cb B]; [cbn in *; lia|]. apply wp_bind, wp_ret. destruct Hl as (Hc & HA & HB). apply wp_bind, (wp_node _ _ _ _ _ Hc).
    cbn [a_bal]. destruct (Z.leb_spec cb 0) as [Hcb|Hcb].
    + eapply wp_singleright; [done..|]. intros s' Hn. eapply HQ; [|exact Hn]. by apply settled_right.
    + destruct H3 as (E1 & E2 & E3 & E4). assert (cb = 1) as -> by lia. cbn [Z.eqb Pos.eqb].
      destruct B as [|B d db B']; [pose proof (height_nonneg A); cbn in *; lia|].
      eapply wp_doubleleftright; [done..|]. intros s' Hn. eapply HQ; [|exact Hn]. by apply settled_leftright.
  - destruct r as [|B c cb C]; [cbn in *; lia|]. apply wp_bind, wp_ret. destruct Hrr as (Hc & HB & HC). apply wp_bind, (wp_node _ _ _ _ _ Hc).
    cbn [a_bal]. destruct (Z.leb_spec 0 cb) as [Hcb|Hcb].
    + eapply wp_singleleft; [done..|]. intros s' Hn. eapply HQ; [|exact Hn]. by apply settled_left.
    + destruct H4 as (E1 & E2 & E3 & E4). assert (cb = -1) as -> by lia. cbn [Z.eqb Pos.eqb].
      destruct B as [|B d db B']; [pose proof (height_nonneg C); cbn in *; lia|].
      eapply wp_doublerightleft; [done..|]. intros s' Hn. eapply HQ; [|exact Hn]. by apply settled_rightleft.
  - apply wp_ret. eapply (HQ s (T l a b r)); [apply settled_same; [done|cbn; lia]|by apply now_same].
Qed.

(** ** The way back up: the balance of a node and [balance] *)

Lemma rep_root_upd h p l a b r f : a ∉ inorder l -> a ∉ inorder r ->
  rep h p (T l a b r) -> rep (alter f a h) (Some a) l /\ rep (alter f a h) (Some a) r.
Proof.
  intros Hl Hr (Ha & HL & HR). split; (eapply rep_eq; [done|]); intros x Hx; apply lookup_alter_ne; intros <-; done.
Qed.
Lemma agree_upd a f s : agree [a] s (set_heap (alter f a (heap s)) s).
Proof. split; [done|]. split; [done|]. split; [some; done|]. intros x Hx. apply lookup_alter_ne. set_solver. Qed.

Lemma wp_settle {X} (K : Z -> X) tp p u (Q : X -> Avltree -> Prop) R s :
  tilted u -> rep (heap s) p u -> NoDup (inorder u) -> ptr_at tp s (root_of u) -> outside tp (inorder u) ->
  (forall s' t', settled u t' -> now (inorder u) tp p t' s s' -> Q (K (bal_of t')) s') ->
  wp (balance tp p;; b ← (ld tp ≫= deref) ≫= node; mret (K (a_bal b))) Q R s.
Proof.
  intros Hu Hr Hnd Hp Ho HQ. apply wp_bind, (wp_balance tp p u); [done..|]. intros s2 t' Hset Hn.
  assert (ptr_at tp s2 (root_of t')) as Hp2 by (eapply now_ptr; [by eapply ptr_exists|exact Ho|exact Hn]).
  destruct t' as [|l' a' b' r'] eqn:Et; [by destruct Hset as (_ & _ & S3 & _)|]. cbn [root_of] in Hp2.
  apply wp_bind, wp_bind, (wp_ld_deref _ a'); [done|]. pose proof Hn as [(Ha' & _) _].
  apply (wp_node _ _ _ _ _ Ha'), wp_ret. by apply (HQ s2 (T l' a' b' r')).
Qed.

Lemma wp_rebalance {X} (K : Z -> X) f delta tp p l a b r (Q : X -> Avltree -> Prop) R s :
  (forall n, f n = set_bal (a_bal n + delta) n) ->
  let t := T l a b r in let u := T l a (b + delta) r in
  rep (heap s) p t -> tilted u -> NoDup (inorder t) -> ptr_at tp s (Some a) -> outside tp (inorder t) ->
  (forall s' t', settled u t' -> now (inorder t) tp p t' s s' -> Q (K (bal_of t')) s') ->
  wp (upd a f;; balance tp p;; b ← (ld tp ≫= deref) ≫= node; mret (K (a_bal b))) Q R s.
Proof.
  intros Hf t u Hr Hu Hnd Hp Ho HQ. pose proof Hr as (Ha & Hl & Hrr). pose proof Hnd as Hnd'. cbn [inorder t] in Hnd'.
  apply NoDup_app in Hnd' as (Nl & dl & [na Nr]%NoDup_cons). assert (a ∉ inorder l) as nl by (intros Hx; by apply (dl a Hx); left).
  apply wp_bind, wp_upd; [done|]. set (s1 := set_heap _ s).
  assert (rep (heap s1) p u) as Hr1.
  { split; [|by apply rep_root_upd with (p := p) (b := b)]. cbn. rewrite lookup_alter_eq, Ha. cbn. by rewrite Hf. }
  assert (agree (inorder t) s s1) as Hag by (eapply agree_mono; [|apply agree_upd]; unfold t; cbn; set_solver).
  assert (ptr_at tp s1 (Some a)) as Hp1 by (eapply agree_ptr; done).
  apply (wp_settle K tp p u); [done..|]. intros s2 t' Hset Hn. apply HQ; [done|]. by eapply now_after.
Qed.

(** ** The order *)

(** What the library asks of the comparison a client gives it. *)
Class CmpLaws (cmp : nat -> nat -> Z) : Prop := {
  cmp_flip a b : Z.sgn (cmp a b) = - Z.sgn (cmp b a);
  cmp_trans a b c : cmp a b <= 0 -> cmp b c <= 0 -> cmp a c <= 0 }.

Lemma canoncmp_sgn x : canoncmp x = Z.sgn x.
Proof. unfold canoncmp. destruct (Z.ltb_spec x 0); [by rewrite Z.sgn_neg|]. destruct (Z.ltb_spec 0 x); [by rewrite Z.sgn_pos|]. by replace x with 0 by lia. Qed.

Section order.
Context (cmp : nat -> nat -> Z) {laws : CmpLaws cmp}.

Definition below (a b : nat) : Prop := cmp a b < 0.
Definition sorted : list nat -> Prop := StronglySorted below.

Lemma flip_neg a b : cmp a b < 0 <-> 0 < cmp b a.
Proof using laws. pose proof (cmp_flip a b). lia. Qed.
Lemma flip_zero a b : cmp a b = 0 <-> cmp b a = 0.
Proof using laws. pose proof (cmp_flip a b). lia. Qed.
Lemma below_le_trans a b c : cmp a b < 0 -> cmp b c <= 0 -> cmp a c < 0.
Proof using laws.
  intros H1 H2. assert (cmp a c <= 0) by (apply (cmp_trans a b c); lia). destruct (decide (cmp a c = 0)) as [E|]; [|lia].
  apply flip_zero in E. assert (cmp b a <= 0) by (apply (cmp_trans b c a); lia). apply flip_neg in H1. lia.
Qed.
Lemma le_below_trans a b c : cmp a b <= 0 -> cmp b c < 0 -> cmp a c < 0.
Proof using laws.
  intros H1 H2. assert (cmp a c <= 0) by (apply (cmp_trans a b c); lia). destruct (decide (cmp a c = 0)) as [E|]; [|lia].
  apply flip_zero in E. assert (cmp c b <= 0) by (apply (cmp_trans c a b); lia). apply flip_neg in H2. lia.
Qed.

(** Sets of nodes as sorted lists: insertion (a node that compares equal is
    replaced), the node that compares equal to a key, deletion of it. *)
Fixpoint ins_list (r : nat) (l : list nat) : list nat :=
  match l with
  | [] => [r]
  | a :: l => if cmp r a <? 0 then r :: a :: l else if cmp r a =? 0 then r :: l else a :: ins_list r l
  end.
Definition the_equal (r : nat) (l : list nat) : option nat := find (fun a => cmp r a =? 0) l.
Fixpoint del_list (r : nat) (l : list nat) : list nat :=
  match l with
  | [] => []
  | a :: l => if cmp r a =? 0 then l else a :: del_list r l
  end.

Lemma sorted_app l a r : sorted (l ++ a :: r) <->
  sorted l /\ sorted r /\ (forall x, x ∈ l -> below x a) /\ (forall x, x ∈ r -> below a x) /\ forall x y, x ∈ l -> y ∈ r -> below x y.
Proof using.
  clear laws. unfold sorted. rewrite StronglySorted_app, StronglySorted_cons, Forall_forall. set_solver.
Qed.
Lemma sorted_nodup l : sorted l -> NoDup l.
Proof using laws.
  induction 1 as [|a l H IH Ha]; constructor; [|done]. intros Hin. rewrite Forall_forall in Ha. specialize (Ha a Hin).
  unfold below in Ha. pose proof (flip_neg a a). lia.
Qed.

(** The three ways a key can lie with respect to the root of a sorted tree. *)
Lemma none_equal r l : (forall x, x ∈ l -> cmp r x <> 0) -> the_equal r l = None /\ del_list r l = l.
Proof using.
  induction l as [|x l IH]; intros H; [done|]. unfold the_equal in *. cbn. rewrite (proj2 (Z.eqb_neq _ _)) by (apply H; by left).
  destruct IH as [-> ->]; [intros y Hy; apply H; by right|]. done.
Qed.
Lemma left_key r l a l' : sorted (l ++ a :: l') -> cmp r a < 0 ->
  ins_list r (l ++ a :: l') = ins_list r l ++ a :: l' /\
  the_equal r (l ++ a :: l') = the_equal r l /\ del_list r (l ++ a :: l') = del_list r l ++ a :: l'.
Proof using laws.
  intros Hs Hr. apply sorted_app in Hs as (_ & _ & _ & Hal & _).
  assert (forall x, x ∈ a :: l' -> cmp r x <> 0) as Hn.
  { intros x [->|Hx]%elem_of_cons; [lia|]. pose proof (below_le_trans r a x Hr (Z.lt_le_incl _ _ (Hal x Hx))). lia. }
  destruct (none_equal r _ Hn) as [E1 E2]. induction l as [|x l (IH1 & IH2 & IH3)].
  - cbn [app ins_list]. rewrite (proj2 (Z.ltb_lt _ _)) by done. by rewrite E2.
  - cbn [app ins_list the_equal del_list find] in *. unfold the_equal in *. rewrite IH1, IH2, IH3. by repeat case_match.
Qed.
Lemma right_key r l a l' : sorted (l ++ a :: l') -> 0 < cmp r a ->
  ins_list r (l ++ a :: l') = l ++ a :: ins_list r l' /\
  the_equal r (l ++ a :: l') = the_equal r l' /\ del_list r (l ++ a :: l') = l ++ a :: del_list r l'.
Proof using laws.
  intros Hs Hr. apply sorted_app in Hs as (_ & _ & Hla & _ & _).
  assert (forall x, x ∈ l -> 0 < cmp r x) as Hn.
  { intros x Hx. apply flip_neg. apply flip_neg in Hr. eapply below_le_trans; [by apply Hla|lia]. }
  induction l as [|x l IH].
  - unfold the_equal. cbn. rewrite (proj2 (Z.ltb_ge _ _)), (proj2 (Z.eqb_neq _ _)) by lia. done.
  - pose proof (Hn x (list_elem_of_here _ _)). unfold the_equal in *. cbn. rewrite (proj2 (Z.ltb_ge _ _)), (proj2 (Z.eqb_neq _ _)) by lia.
    destruct IH as (-> & -> & ->); [intros y Hy; apply Hla; by right|intros y Hy; apply Hn; by right|]. done.
Qed.
Lemma equal_key r l a l' : sorted (l ++ a :: l') -> cmp r a = 0 ->
  ins_list r (l ++ a :: l') = l ++ r :: l' /\ the_equal r (l ++ a :: l') = Some a /\ del_list r (l ++ a :: l') = l ++ l'.
Proof using laws.
  intros Hs Hr. apply sorted_app in Hs as (_ & _ & Hla & _ & _).
  assert (forall x, x ∈ l -> 0 < cmp r x) as Hn.
  { intros x Hx. apply flip_neg. eapply below_le_trans; [by apply Hla|]. apply flip_zero in Hr. lia. }
  induction l as [|x l IH].
  - unfold the_equal. cbn. rewrite Hr. done.
  - pose proof (Hn x (list_elem_of_here _ _)). unfold the_equal in *. cbn. rewrite (proj2 (Z.ltb_ge _ _)), (proj2 (Z.eqb_neq _ _)) by lia.
    destruct IH as (-> & -> & ->); [intros y Hy; apply Hla; by right|intros y Hy; apply Hn; by right|]. done.
Qed.
Lemma elem_ins r l x : x ∈ ins_list r l -> x = r \/ x ∈ l.
Proof using. clear laws. induction l as [|a l IH]; cbn; [set_solver|]. repeat case_match; set_solver. Qed.
Lemma elem_del r l x : x ∈ del_list r l -> x ∈ l.
Proof using. clear laws. induction l as [|a l IH]; cbn; [set_solver|]. repeat case_match; set_solver. Qed.
Lemma sorted_ins r l : sorted l -> sorted (ins_list r l).
Proof using laws.
  induction 1 as [|a l Hs IH Ha]; cbn; [repeat constructor|]. unfold sorted in *. rewrite Forall_forall in Ha.
  assert (StronglySorted below (a :: l)) as Hal by (constructor; [done|by rewrite Forall_forall]).
  destruct (Z.ltb_spec (cmp r a) 0) as [Hr|Hr]; [|destruct (Z.eqb_spec (cmp r a) 0) as [E|E]].
  - constructor; [done|]. rewrite Forall_forall. intros x [->|Hx]%elem_of_cons; [done|]. eapply below_le_trans; [done|].
    specialize (Ha x Hx). unfold below in Ha. lia.
  - constructor; [done|]. rewrite Forall_forall. intros x Hx. eapply le_below_trans; [|by apply Ha]. lia.
  - constructor; [done|]. rewrite Forall_forall. intros x [->|Hx]%elem_ins; [|by apply Ha]. apply flip_neg. lia.
Qed.
Lemma sorted_del r l : sorted l -> sorted (del_list r l).
Proof using.
  clear laws. induction 1 as [|a l Hs IH Ha]; cbn; [constructor|]. destruct (cmp r a =? 0); [done|]. constructor; [done|].
  rewrite Forall_forall in *. intros x Hx%elem_del. by apply Ha.
Qed.
End order.
