(* ===== verification/AvlOps.v ===== *)
(** * AVL trees: insertion and deletion *)
From S2P Require Import Prelude CMonad Avl AvlHeap AvlThms.
From stdpp Require Import gmap.
Local Open Scope Z_scope.

(** ** Steps in the heap *)

(** Up from a changed child: [extra] are the nodes that came from outside. *)
Lemma wp_up {X} (K : Z -> X) f delta (i : bool) extra tp p l a b rr sub' (Q : X -> Avltree -> Prop) R s s1 :
  (forall n, f n = set_bal (a_bal n + delta) n) ->
  let t := T l a b rr in let u := with_child i l a (b + delta) rr sub' in
  rep (heap s) p t -> NoDup (inorder t) -> ptr_at tp s (Some a) -> outside tp (extra ++ inorder t) ->
  (forall x, x ∈ extra -> x ∉ inorder t) -> now (extra ++ inorder (if i then rr else l)) (LChild a i) (Some a) sub' s s1 ->
  (forall x, x ∈ inorder sub' -> x ∈ extra ++ inorder (if i then rr else l)) -> NoDup (inorder u) -> tilted u ->
  (forall s' t', settled u t' -> now (extra ++ inorder t) tp p t' s s' -> Q (K (bal_of t')) s') ->
  wp (upd a f;; balance tp p;; b ← (ld tp ≫= deref) ≫= node; mret (K (a_bal b))) Q R s1.
Proof.
  intros Hf t u Hrep Hnd Hp Ho Hex Hn Hsub Hndu Hu HQ. unfold t in *. cbn [inorder] in *.
  apply NoDup_app in Hnd as (Nl & dl & [na Nr]%NoDup_cons). assert (a ∉ inorder l) as nl by (intros Hx; by apply (dl a Hx); left).
  apply (now_child i _ p l a b rr) in Hn; [|done|destruct i; set_solver|destruct i; intros x Hx; (split; [by intros ->|set_solver])].
  destruct Hn as [Hr1 Ha1]. assert (forall x, x ∈ inorder u -> x ∈ extra ++ inorder l ++ a :: inorder rr) as Hin.
  { intros x Hx. unfold u in Hx. destruct i; cbn [with_child inorder] in Hx; set_solver. }
  assert (agree (extra ++ inorder l ++ a :: inorder rr) s s1) as Hag by (eapply agree_mono; [|exact Ha1]; destruct i; set_solver).
  assert (ptr_at tp s1 (Some a)) as Hp1 by (eapply agree_ptr; [exact Ha1| |exact Hp]; intros x Hx; specialize (Ho x Hx); destruct i; set_solver).
  assert (outside tp (inorder u)) as Hou by (intros x Hx Hx'; by apply (Ho x Hx), Hin).
  unfold u in *. destruct i; cbn [with_child] in *; (eapply wp_rebalance; [exact Hf|exact Hr1|exact Hu|exact Hndu|exact Hp1|exact Hou|]);
    intros s2 t' Hset Hn2; (eapply HQ; [exact Hset|]); (eapply now_after; [exact Hag|]); (eapply now_mono; [|exact Hn2]); exact Hin.
Qed.

(** A node that takes the place of another, with its contents. *)
Lemma wp_replace {X} (v : X) r tp p l a b rr (Q : X -> Avltree -> Prop) R s :
  rep (heap s) p (T l a b rr) -> NoDup (inorder (T l a b rr)) -> r ∉ inorder (T l a b rr) -> is_Some (heap s !! r) ->
  ptr_at tp s (Some a) -> outside tp (r :: inorder (T l a b rr)) ->
  (forall s', now (r :: inorder (T l a b rr)) tp p (T l r b rr) s s' -> Q v s') ->
  wp (st tp (Some r);; nt ← node a; upd r (fun _ => nt);; link (a_n0 nt) (Some r);; link (a_n1 nt) (Some r);; mret v) Q R s.
Proof.
  intros (Ha & Hl & Hrr) Hnd Hr [y Hy] Hp Ho HQ. cbn [inorder] in *.
  apply NoDup_app in Hnd as (Nl & dl & [na Nr]%NoDup_cons). assert (r ∉ inorder l /\ r ∉ inorder rr) as [rl rr'] by set_solver.
  assert (forall x, x ∈ r :: inorder l ++ a :: inorder rr -> owner tp <> Some x) as Ho' by (intros x Hx E; by apply (Ho x E)).
  assert (forall x, root_of l = Some x -> is_Some (heap s !! x)) as Rl by (intros x Hx%root_in; exact (rep_some _ _ _ _ Hl Hx)).
  assert (forall x, root_of rr = Some x -> is_Some (heap s !! x)) as Rr by (intros x Hx%root_in; exact (rep_some _ _ _ _ Hrr Hx)).
  assert (owner tp <> Some a /\ owner tp <> Some r) as [Oa Or] by (split; apply Ho'; set_solver).
  apply wp_bind, wp_st; [by eapply ptr_exists|]. apply wp_bind, (wp_node _ (mkAvl p (root_of l) (root_of rr) b)); [by same_node|].
  apply wp_bind, wp_upd; [by some|]. apply wp_bind, wp_link; [some; by apply Rl|]. apply wp_bind, wp_link; [some; by apply Rr|].
  apply wp_ret, HQ. cbn [a_n0 a_n1].
  assert (root_of l <> Some r) by (intros E%root_in; done). assert (root_of rr <> Some r) by (intros E%root_in; done).
  split; [split; [|split]|split; [done|split; [done|split; [some; done|]]]].
  - same_node. by rewrite Hy.
  - apply (rep_eq (linkh (root_of l) (Some r) (heap s))); [by eapply rep_link|]. intros x Hx.
    assert (owner tp <> Some x) by (apply Ho'; set_solver). assert (root_of rr <> Some x) by (intros E%root_in; set_solver).
    assert (x <> r) by (by intros ->). same_node.
  - apply (rep_eq (linkh (root_of rr) (Some r) (heap s))); [by eapply rep_link|]. intros x Hx.
    assert (owner tp <> Some x) by (apply Ho'; set_solver). assert (root_of l <> Some x) by (intros E%root_in; set_solver).
    assert (x <> r) by (by intros ->). same_node.
  - intros x Hx. assert (x <> r) by set_solver. assert (root_of l <> Some x) by (intros E%root_in; set_solver).
    assert (root_of rr <> Some x) by (intros E%root_in; set_solver). same_node.
Qed.

Section ops.
Context (cmp : nat -> nat -> Z) {laws : CmpLaws cmp}.

(** ** Insertion *)

(** [t'] is [t] with [r] inserted, [d] higher; a tree that has grown leans, so
    that a rotation makes up for it. *)
Definition inserted (r : nat) (t t' : tree) (d : Z) : Prop :=
  inorder t' = ins_list cmp r (inorder t) /\ avl t' /\ height t' = height t + d /\ (d = 0 \/ d = 1 /\ (bal_of t' <> 0 \/ t = E)).
Definition grew (ob b : Z) : Z := if (ob =? 0) && negb (b =? 0) then 1 else 0.

Lemma inserted_left r l l' d a b rr t' : sorted cmp (inorder (T l a b rr)) -> cmp r a < 0 -> avl (T l a b rr) ->
  inserted r l l' d -> settled (T l' a (b + -1 * d) rr) t' -> inserted r (T l a b rr) t' (grew b (bal_of t')).
Proof using laws.
  intros Hs Hr (A1 & A2 & A3 & A4) (I1 & I2 & I3 & I4) (S1 & S2 & S3 & S4 & S5).
  split; [rewrite S1; cbn [inorder]; rewrite I1; symmetry; by apply left_key|]. split; [done|].
  pose proof (height_nonneg l). pose proof (height_nonneg rr). cbn [bal_of heavy] in S4, S5. unfold grew.
  destruct (decide (b + -1 * d = -2)) as [E|E].
  - assert (b = -1 /\ d = 1) as [-> ->] by lia. destruct S5 as [S5 S6]; [lia|]. change (0 <? -1 + -1 * 1) with false in S6.
    assert (bal_of t' = 0) as S7 by (destruct I4 as [|[_ [I4| ->]]]; [lia|by apply S6|heights]). rewrite S7 in *. cbn in S5 |- *. lia.
  - rewrite S4 by lia. cbn [bal_of height]. destruct (Z.eqb_spec b 0), (Z.eqb_spec (b + -1 * d) 0); cbn [andb negb]; lia.
Qed.
Lemma inserted_right r rr r' d a b l t' : sorted cmp (inorder (T l a b rr)) -> 0 < cmp r a -> avl (T l a b rr) ->
  inserted r rr r' d -> settled (T l a (b + 1 * d) r') t' -> inserted r (T l a b rr) t' (grew b (bal_of t')).
Proof using laws.
  intros Hs Hr (A1 & A2 & A3 & A4) (I1 & I2 & I3 & I4) (S1 & S2 & S3 & S4 & S5).
  split; [rewrite S1; cbn [inorder]; rewrite I1; symmetry; by apply right_key|]. split; [done|].
  pose proof (height_nonneg l). pose proof (height_nonneg rr). cbn [bal_of heavy] in S4, S5. unfold grew.
  destruct (decide (b + 1 * d = 2)) as [E|E].
  - assert (b = 1 /\ d = 1) as [-> ->] by lia. destruct S5 as [S5 S6]; [lia|]. change (0 <? 1 + 1 * 1) with true in S6.
    assert (bal_of t' = 0) as S7 by (destruct I4 as [|[_ [I4| ->]]]; [lia|by apply S6|heights]). rewrite S7 in *. cbn in S5 |- *. lia.
  - rewrite S4 by lia. cbn [bal_of height]. destruct (Z.eqb_spec b 0), (Z.eqb_spec (b + 1 * d) 0); cbn [andb negb]; lia.
Qed.

Lemma inserted_new r : inserted r E (T E r 0 E) 1.
Proof using. split; [done|]. split; [avls|]. split; [done|]. right. split; [done|by right]. Qed.
Lemma inserted_same r l a b rr : sorted cmp (inorder (T l a b rr)) -> cmp r a = 0 -> avl (T l a b rr) ->
  inserted r (T l a b rr) (T l r b rr) 0.
Proof using laws.
  intros Hs Hr Ha. split; [symmetry; by apply equal_key|]. split; [done|]. split; [cbn; lia|]. by left.
Qed.
Lemma inserted_nodup r t t' d : sorted cmp (inorder t) -> inserted r t t' d -> sorted cmp (inorder t').
Proof using laws. intros Hs (-> & _). by apply sorted_ins. Qed.
Lemma inserted_in r t t' d x : inserted r t t' d -> x ∈ inorder t' -> x = r \/ x ∈ inorder t.
Proof using. intros (-> & _). apply elem_ins. Qed.

Definition or_else (o : option nat) (x : option nat) : option nat := match o with Some a => Some a | None => x end.

Lemma wp__insertavl r t : forall n tp p rfree (Q : Z * option nat -> Avltree -> Prop) R s,
  (length (inorder t) < n)%nat -> avl t -> sorted cmp (inorder t) -> r ∉ inorder t -> is_Some (heap s !! r) ->
  rep (heap s) p t -> ptr_at tp s (root_of t) -> outside tp (r :: inorder t) ->
  (forall s' t' d, inserted r t t' d -> now (r :: inorder t) tp p t' s s' -> Q (d, or_else (the_equal cmp r (inorder t)) rfree) s') ->
  wp (_insertavl cmp n tp p r rfree) Q R s.
Proof using laws.
  induction t as [|l IHl a b rr IHr]; intros n tp p rfree Q R s Hn Ht Hs Hr Hsr Hrep Hp Ho HQ; (destruct n as [|n]; [lia|]); cbn [_insertavl].
  - apply wp_bind, (wp_ld _ None); [done|]. apply wp_bind, wp_upd; [done|].
    apply wp_bind, wp_st; [destruct tp; [done|]; cbn; some; exact (ptr_exists _ _ _ Hp)|].
    apply wp_ret. apply (HQ _ (T E r 0 E)); [apply inserted_new|].
    assert (owner tp <> Some r) by (intros E; apply (Ho r E); by left). split; [split; [|done]|split; [done|split; [done|split; [some; done|]]]].
    + same_node. by destruct Hsr as [x ->].
    + intros x Hx. assert (x <> r) by set_solver. same_node.
  - pose proof Ht as (A1 & A2 & A3 & A4). pose proof Hrep as (Ha & Hl & Hrr). pose proof (sorted_nodup _ _ Hs) as Hnd. cbn [inorder] in *.
    rewrite length_app in Hn. cbn [length] in Hn. pose proof Hs as Hs'. apply sorted_app in Hs' as (Sl & Sr & _).
    assert (a ∉ inorder l /\ a ∉ inorder rr) as [nl nr] by (apply NoDup_app in Hnd as (_ & dl & [na _]%NoDup_cons); set_solver).
    assert (r <> a /\ r ∉ inorder l /\ r ∉ inorder rr) as (ra & rl & rr') by set_solver.
    apply wp_bind, (wp_ld _ (Some a)); [done|]. apply wp_bind, (wp_node _ _ _ _ _ Ha). cbv zeta. cbn [a_bal].
    rewrite canoncmp_sgn. destruct (Z.lt_trichotomy (cmp r a) 0) as [Hc|[Hc|Hc]].
    + rewrite Z.sgn_neg by done. cbn [Z.eqb negb Z.ltb Z.compare]. destruct (left_key cmp r _ _ _ Hs Hc) as (K1 & K2 & _). rewrite K2 in HQ.
      apply wp_bind. eapply (IHl n (LChild a false) (Some a)); [lia|done|done|done|done|done|by eexists|intros x [= <-]; set_solver|].
      intros s1 l' d Hi Hn1. pose proof Hi as (I1 & I2 & I3 & I4).
      apply (wp_up (fun b' => (grew b b', or_else (the_equal cmp r (inorder l)) rfree)) _ (-1 * d) false [r] tp p l a b rr l' _ _ s s1);
        try done; [set_solver|intros x Hx; by destruct (inserted_in _ _ _ _ _ Hi Hx); set_solver| | |].
      * cbn [with_child inorder]. rewrite I1, <- K1. by eapply sorted_nodup, sorted_ins.
      * split; [lia|]. split; [lia|done].
      * intros s2 t' Hset Hn2. eapply HQ; [by eapply inserted_left|exact Hn2].
    + rewrite Hc. cbn [Z.sgn Z.eqb negb]. destruct (equal_key cmp r _ _ _ Hs Hc) as (_ & K2 & _). rewrite K2 in HQ.
      eapply wp_replace; [done..|]. intros s' Hn'. apply (HQ _ (T l r b rr) 0); [by apply inserted_same|exact Hn'].
    + rewrite Z.sgn_pos by done. cbn [Z.eqb negb Z.ltb Z.compare]. destruct (right_key cmp r _ _ _ Hs Hc) as (K1 & K2 & _). rewrite K2 in HQ.
      apply wp_bind. eapply (IHr n (LChild a true) (Some a)); [lia|done|done|done|done|done|by eexists|intros x [= <-]; set_solver|].
      intros s1 r' d Hi Hn1. pose proof Hi as (I1 & I2 & I3 & I4).
      apply (wp_up (fun b' => (grew b b', or_else (the_equal cmp r (inorder rr)) rfree)) _ (1 * d) true [r] tp p l a b rr r' _ _ s s1);
        try done; [set_solver|intros x Hx; by destruct (inserted_in _ _ _ _ _ Hi Hx); set_solver| | |].
      * cbn [with_child inorder]. rewrite I1, <- K1. by eapply sorted_nodup, sorted_ins.
      * split; [lia|]. split; [lia|done].
      * intros s2 t' Hset Hn2. eapply HQ; [by eapply inserted_right|exact Hn2].
Qed.

End ops.

(** ** Deletion *)

Definition removed (t t' : tree) (d : Z) : Prop := avl t' /\ height t' = height t + d /\ (d = 0 \/ d = -1).
Definition shrank (ob b : Z) : Z := if negb (ob =? 0) && (b =? 0) then -1 else 0.

Lemma removed_left l l' d delta a a' b rr t' : avl (T l a b rr) -> removed l l' d -> delta = - d ->
  settled (T l' a' (b + delta) rr) t' -> removed (T l a b rr) t' (shrank b (bal_of t')).
Proof.
  intros (A1 & A2 & A3 & A4) (I1 & I2 & I3) -> (S1 & S2 & S3 & S4 & S5). split; [done|].
  cbn [bal_of heavy] in S4, S5. unfold shrank. pose proof (height_nonneg rr). destruct (decide (b + - d = 2)) as [E|E].
  - destruct S5 as [S5 _]; [lia|]. assert (b = 1 /\ d = -1) as [-> ->] by lia. cbn [negb Z.eqb andb]. destruct (bal_of t' =? 0); heights.
  - rewrite S4 by lia. cbn [bal_of height]. destruct (Z.eqb_spec b 0), (Z.eqb_spec (b + - d) 0); cbn [andb negb]; lia.
Qed.
Lemma removed_right rr r' d delta a a' b l t' : avl (T l a b rr) -> removed rr r' d -> delta = d ->
  settled (T l a' (b + delta) r') t' -> removed (T l a b rr) t' (shrank b (bal_of t')).
Proof.
  intros (A1 & A2 & A3 & A4) (I1 & I2 & I3) -> (S1 & S2 & S3 & S4 & S5). split; [done|].
  cbn [bal_of heavy] in S4, S5. unfold shrank. pose proof (height_nonneg l). destruct (decide (b + d = -2)) as [E|E].
  - destruct S5 as [S5 _]; [lia|]. assert (b = -1 /\ d = -1) as [-> ->] by lia. cbn [negb Z.eqb andb]. destruct (bal_of t' =? 0); heights.
  - rewrite S4 by lia. cbn [bal_of height]. destruct (Z.eqb_spec b 0), (Z.eqb_spec (b + d) 0); cbn [andb negb]; lia.
Qed.
Lemma tilted_left l l' d delta a b rr : avl (T l a b rr) -> removed l l' d -> delta = - d -> tilted (T l' a (b + delta) rr).
Proof. intros (A1 & A2 & A3 & A4) (I1 & I2 & I3) ->. split; [lia|]. split; [lia|done]. Qed.
Lemma tilted_right rr r' d delta a a' b l : avl (T l a b rr) -> removed rr r' d -> delta = d -> tilted (T l a' (b + delta) r').
Proof. intros (A1 & A2 & A3 & A4) (I1 & I2 & I3) ->. split; [lia|]. split; [lia|done]. Qed.

(** A node with one child or none goes: the child takes its place. *)
Lemma wp_splice {X} (v : X) tp p l a b rr c (Q : X -> Avltree -> Prop) R s :
  rep (heap s) p (T l a b rr) -> NoDup (inorder (T l a b rr)) -> ptr_at tp s (Some a) -> outside tp (inorder (T l a b rr)) ->
  c = l \/ c = rr ->
  (forall s', now (inorder (T l a b rr)) tp p c s s' -> Q v s') -> wp (st tp (root_of c);; link (root_of c) p;; mret v) Q R s.
Proof.
  intros (Ha & Hl & Hrr) Hnd Hp Ho Hc HQ. cbn [inorder] in *. apply NoDup_app in Hnd as (Nl & dl & [na Nr]%NoDup_cons).
  assert (NoDup (inorder c) /\ rep (heap s) (Some a) c /\ forall x, x ∈ inorder c -> x ∈ inorder l ++ a :: inorder rr) as (Nc & Hrc & Hin).
  { destruct Hc as [-> | ->]; (split; [done|split; [done|set_solver]]). }
  apply wp_bind, wp_st; [by eapply ptr_exists|]. apply wp_bind, wp_link; [some; intros; eapply rep_some; [exact Hrc|by apply root_in]|].
  apply wp_ret, HQ. split.
  - apply (rep_eq (linkh (root_of c) p (heap s))); [by eapply rep_link|]. intros x Hx.
    assert (owner tp <> Some x) by (intros E; by apply (Ho x E), Hin). same_node.
  - split; [done|]. split; [done|]. split; [some; done|]. intros x Hx. assert (root_of c <> Some x) by (intros E%root_in; by apply Hx, Hin).
    same_node.
Qed.

Lemma wp_successor t : forall n tp p (Q : Z * nat -> Avltree -> Prop) R s,
  (length (inorder t) < n)%nat -> t <> E -> avl t -> NoDup (inorder t) -> rep (heap s) p t -> ptr_at tp s (root_of t) -> outside tp (inorder t) ->
  (forall s' t' d r, inorder t = r :: inorder t' -> removed t t' d -> now (inorder t) tp p t' s s' -> Q (d, r) s') ->
  wp (successor n tp p) Q R s.
Proof.
  induction t as [|l IHl a b rr _]; intros n tp p Q R s Hn Hne Ht Hnd Hrep Hp Ho HQ; [done|]. destruct n as [|n]; [lia|]. cbn [successor].
  pose proof Ht as (A1 & A2 & A3 & A4). pose proof Hrep as (Ha & Hl & Hrr). pose proof Hnd as Hnd'. cbn [inorder] in *.
  rewrite length_app in Hn. cbn [length] in Hn.
  apply NoDup_app in Hnd' as (Nl & dl & [na Nr]%NoDup_cons). assert (a ∉ inorder l) as nl by (intros Hx; by apply (dl a Hx); left).
  apply wp_bind, (wp_ld_deref _ a); [done|]. apply wp_bind, (wp_node _ _ _ _ _ Ha). cbn [a_n0 a_n1 a_bal]. cbv zeta.
  destruct l as [|ll la lb lr] eqn:El; cbn [root_of].
  - apply (wp_splice (-1, a) tp p E a b rr rr); [done..|by right|]. intros s' Hn'. apply (HQ s' rr (-1)); [done| |exact Hn'].
    split; [done|]. pose proof (height_nonneg rr). cbn in *. lia.
  - assert (l <> E) as Hne' by congruence. rewrite <- El in *. clear El ll la lb lr.
    apply wp_bind. eapply (IHl n (LChild a false) (Some a)); [lia|done|done|done|done|by eexists|intros x [= <-]; done|].
    intros s1 l' d r Hi Hrm Hn1.
    apply (wp_up (fun b' => (shrank b b', r)) _ (- d) false [] tp p l a b rr l' _ _ s s1); try done.
    + by intros x Hx%elem_of_nil.
    + intros x Hx. change ([] ++ inorder l) with (inorder l). rewrite Hi. apply elem_of_cons. by right.
    + cbn [with_child inorder]. rewrite Hi in Hnd. by apply NoDup_cons in Hnd as [_ ?].
    + by eapply tilted_left.
    + intros s2 t' Hset Hn2. apply (HQ s2 t'); [|by eapply removed_left|exact Hn2].
      destruct Hset as (-> & _). cbn [inorder]. by rewrite Hi.
Qed.

Lemma put_put tp x y s : put tp x (put tp y s) = put tp x s.
Proof.
  destruct tp as [|a i]; [done|]. unfold put. cbn. f_equal. apply map_eq. intros j. rewrite !lookup_alter_if.
  destruct (decide (a = j)) as [->|]; [|done]. destruct (heap s !! j); [|done]. cbn. by destruct i.
Qed.
Lemma now_swap D tp x p t s s1 s2 : agree D (put tp x s) s1 -> now D tp p t s1 s2 -> now D tp p t s s2.
Proof.
  intros Ha [Hr Ha2]. split; [done|]. eapply agree_trans; [|exact Ha2]. eapply agree_put in Ha. by rewrite put_put in Ha.
Qed.

(** The successor takes the place of the node deleted: the statements after
    [successor] in [_deleteavl]. *)
Lemma wp_succeed {X} (K : Z -> X) tp p l a b rr rr' r d (Q : X -> Avltree -> Prop) R s s1 :
  let t := T l a b rr in let u := T l r (b + d) rr' in
  rep (heap s) p t -> NoDup (inorder t) -> ptr_at tp s (Some a) -> outside tp (inorder t) -> tilted u ->
  inorder rr = r :: inorder rr' -> now (inorder rr) (LChild a true) (Some a) rr' s s1 ->
  (forall s' t', settled u t' -> now (inorder t) tp p t' s s' -> Q (K (bal_of t')) s') ->
  wp (upd a (fun nt => set_bal (a_bal nt + d) nt);;
      or ← node a;
      upd r (set_bal (a_bal or));;
      upd r (set_n false (a_n0 or));;
      upd r (set_n true (a_n1 or));;
      st tp (Some r);;
      upd r (set_p p);;
      link (a_n0 or) (Some r);;
      link (a_n1 or) (Some r);;
      balance tp p;;
      b ← (ld tp ≫= deref) ≫= node;
      mret (K (a_bal b))) Q R s1.
Proof.
  intros t u Hrep Hnd Hp Ho Hu Hi Hn HQ. unfold t, u in *. cbn [inorder] in *.
  apply NoDup_app in Hnd as (Nl & dl & [na Nr]%NoDup_cons). assert (a ∉ inorder l) as nl by (intros Hx; by apply (dl a Hx); left).
  apply (now_child true _ p l a b rr) in Hn; [|done|done|intros x Hx; split; [by intros ->|set_solver]].
  destruct Hn as [(Ha & Hl & Hrr) Hag]. cbn [with_child] in *.
  assert (agree (inorder l ++ a :: inorder rr) s s1) as Hag' by (eapply agree_mono; [|exact Hag]; set_solver).
  assert (ptr_at tp s1 (Some a)) as Hp1 by (eapply agree_ptr; done).
  assert (is_Some (heap s1 !! r)) as Sr by (destruct Hag as (_ & _ & Hs & _); apply Hs; eapply rep_some; [exact Hrep|]; cbn; rewrite Hi, elem_of_app, !elem_of_cons; tauto).
  assert (forall x, x ∈ inorder l ++ a :: inorder rr -> owner tp <> Some x) as Ho' by (intros x Hx E; by apply (Ho x E)).
  assert (forall x, root_of l = Some x -> is_Some (heap s1 !! x)) as Rl by (intros x Hx%root_in; exact (rep_some _ _ _ _ Hl Hx)).
  assert (forall x, root_of rr' = Some x -> is_Some (heap s1 !! x)) as Rr by (intros x Hx%root_in; exact (rep_some _ _ _ _ Hrr Hx)).
  assert (r ∈ inorder rr /\ r ∉ inorder rr' /\ NoDup (inorder rr') /\ a <> r) as (Rin & Rnot & Nrr' & Hne).
  { rewrite Hi in Nr, na |- *. apply NoDup_cons in Nr as [? ?]. rewrite elem_of_cons in na |- *. naive_solver. }
  assert (r ∉ inorder l) as rl by (intros E; apply (dl r E), elem_of_cons; by right).
  assert (a ∉ inorder rr') as na' by (intros E; apply na; rewrite Hi; by right).
  assert (owner tp <> Some a /\ owner tp <> Some r) as [Oa Or] by (split; apply Ho'; rewrite elem_of_app, elem_of_cons; tauto).
  assert (root_of l <> Some r /\ root_of l <> Some a) as [Lr La] by (split; intros E%root_in; done).
  assert (root_of rr' <> Some r /\ root_of rr' <> Some a) as [Qr Qa] by (split; intros E%root_in; done).
  apply wp_bind, wp_upd; [done|]. apply wp_bind, (wp_node _ (mkAvl p (root_of l) (root_of rr') (b + d))); [same_node; by rewrite Ha|].
  cbn [a_n0 a_n1 a_bal].
  apply wp_bind, wp_upd; [by some|]. apply wp_bind, wp_upd; [by some|]. apply wp_bind, wp_upd; [by some|].
  apply wp_bind, wp_st; [destruct tp; [done|]; cbn; some; exact (ptr_exists _ _ _ Hp1)|].
  apply wp_bind, wp_upd; [by some|]. apply wp_bind, wp_link; [some; by apply Rl|]. apply wp_bind, wp_link; [some; by apply Rr|].
  match goal with |- wp _ _ _ ?s => set (s2 := s) end.
  assert (rep (heap s2) p (T l r (b + d) rr')) as Hr2.
  { destruct Sr as [nr Hnr]. split; [unfold s2; same_node; by rewrite Hnr|]. split.
    - apply (rep_eq (linkh (root_of l) (Some r) (heap s1))); [by eapply rep_link|]. intros x Hx.
      assert (x <> a /\ x <> r) as [? ?] by (split; intros ->; done). assert (root_of rr' <> Some x) by (intros E%root_in; apply (dl x Hx); rewrite Hi, !elem_of_cons; tauto).
      assert (owner tp <> Some x) by (apply Ho'; rewrite elem_of_app; tauto). unfold s2. same_node.
    - apply (rep_eq (linkh (root_of rr') (Some r) (heap s1))); [by eapply rep_link|]. intros x Hx.
      assert (x <> a /\ x <> r) as [? ?] by (split; intros ->; done). assert (root_of l <> Some x) by (intros E%root_in; apply (dl x E); rewrite Hi, !elem_of_cons; tauto).
      assert (owner tp <> Some x) by (apply Ho'; rewrite Hi, elem_of_app, !elem_of_cons; tauto). unfold s2. same_node. }
  assert (agree (inorder l ++ a :: inorder rr) (put tp (Some r) s1) s2) as Ha2.
  { split; [done|]. split; [done|]. split; [unfold s2; some; done|]. intros x Hx. rewrite elem_of_app, Hi, !elem_of_cons in Hx.
    assert (x <> a /\ x <> r) as [? ?] by tauto. assert (root_of l <> Some x) by (intros E%root_in; tauto).
    assert (root_of rr' <> Some x) by (intros E%root_in; tauto). unfold s2. same_node. }
  assert (forall x, x ∈ inorder l ++ r :: inorder rr' -> x ∈ inorder l ++ a :: inorder rr) as Hin by (intros x; rewrite Hi, !elem_of_app, !elem_of_cons; tauto).
  eapply (wp_settle K tp p (T l r (b + d) rr')); [done|done| | | |].
  - cbn [inorder]. apply NoDup_app. split; [done|]. rewrite <- Hi. split; [|done]. intros x Hx Hx'. apply (dl x Hx), elem_of_cons. by right.
  - eapply agree_ptr; [exact Ha2|done|]. destruct tp as [|o i]; [done|]. destruct Hp1 as (n & Hn & _). exists (set_n i (Some r) n). cbn.
    rewrite lookup_alter_eq, Hn. by destruct i.
  - intros x Hx Hx'. by apply (Ho x Hx), Hin.
  - intros s3 t' Hset Hn3. apply HQ; [done|]. eapply now_after; [exact Hag'|]. eapply now_swap; [exact Ha2|]. eapply now_mono; [|exact Hn3]. exact Hin.
Qed.

(** What [walkdel] does, given the node and its predecessor. *)
Definition move (a : nat) (pre : option nat) (w : Avlwalk) : Avlwalk :=
  if bool_decide (w_node w = Some a) then mkWalk (w_id w) (match pre with None => false | Some _ => w_started w end) true pre else w.
Definition moved (o pre : option nat) (s : Avltree) : Avltree :=
  match o with Some a => set_walks (move a pre <$> walks s) s | None => s end.

Lemma heap_moved o pre s : heap (moved o pre s) = heap s.
Proof. by destruct o. Qed.
Lemma ptr_moved tp o pre s x : ptr_at tp (moved o pre s) x <-> ptr_at tp s x.
Proof. by destruct o. Qed.

Lemma wp_walkdel a pre (Q : () -> Avltree -> Prop) R s :
  findpredecessor (Some a) s = (Ok pre, s) -> Q tt (moved (Some a) pre s) -> wp (walkdel a) Q R s.
Proof. intros E HQ. apply wp_bind. unfold wp. by rewrite E. Qed.

Section delete.
Context (cmp : nat -> nat -> Z) {laws : CmpLaws cmp}.

Lemma wp__deleteavl rx pre t : forall n tp p del (Q : Z * option nat -> Avltree -> Prop) R s,
  (length (inorder t) < n)%nat -> avl t -> sorted cmp (inorder t) ->
  rep (heap s) p t -> ptr_at tp s (root_of t) -> outside tp (inorder t) ->
  (forall a, the_equal cmp rx (inorder t) = Some a -> findpredecessor (Some a) s = (Ok pre, s)) ->
  (forall s' t' d, inorder t' = del_list cmp rx (inorder t) -> removed t t' d ->
     now (inorder t) tp p t' (moved (the_equal cmp rx (inorder t)) pre s) s' -> Q (d, or_else (the_equal cmp rx (inorder t)) del) s') ->
  wp (_deleteavl cmp n tp p rx del) Q R s.
Proof using laws.
  induction t as [|l IHl a b rr IHr]; intros n tp p del Q R s Hn Ht Hs Hrep Hp Ho Hpre HQ; (destruct n as [|n]; [lia|]); cbn [_deleteavl].
  - apply wp_bind, (wp_ld _ None); [done|]. apply wp_ret. apply (HQ s E 0); [done|split; [done|split; [done|by left]]|by apply now_same].
  - pose proof Ht as (A1 & A2 & A3 & A4). pose proof Hrep as (Ha & Hl & Hrr). pose proof (sorted_nodup _ _ Hs) as Hnd. cbn [inorder] in *.
    pose proof (height_nonneg l). pose proof (height_nonneg rr).
    rewrite length_app in Hn. cbn [length] in Hn. pose proof Hs as Hs'. apply sorted_app in Hs' as (Sl & Sr & _).
    pose proof Hnd as Hnd'. apply NoDup_app in Hnd' as (Nl & dl & [nr Nr]%NoDup_cons). assert (a ∉ inorder l) as nl by (intros Hx; by apply (dl a Hx); left).
    apply wp_bind, (wp_ld _ (Some a)); [done|]. apply wp_bind, (wp_node _ _ _ _ _ Ha). cbv zeta. cbn [a_bal].
    rewrite canoncmp_sgn. destruct (Z.lt_trichotomy (cmp rx a) 0) as [Hc|[Hc|Hc]].
    + rewrite Z.sgn_neg by done. cbn [Z.eqb negb Z.ltb Z.compare]. destruct (left_key cmp rx _ _ _ Hs Hc) as (_ & K2 & K3). rewrite K2, K3 in HQ. rewrite K2 in Hpre.
      apply wp_bind. eapply (IHl n (LChild a false) (Some a)); [lia|done|done|done|by eexists|intros x [= <-]; done|done|].
      intros s1 l' d Hi Hrm Hn1.
      apply (wp_up (fun b' => (shrank b b', or_else (the_equal cmp rx (inorder l)) del)) _ (-1 * d) false [] tp p l a b rr l' _ _ (moved (the_equal cmp rx (inorder l)) pre s) s1);
        rewrite ?heap_moved, ?ptr_moved; try done; [by intros x Hx%elem_of_nil|by intros x; rewrite Hi; intros ?%elem_del| | |].
      * cbn [with_child inorder]. rewrite Hi, <- K3. by eapply sorted_nodup, sorted_del.
      * eapply tilted_left; [done|done|lia].
      * intros s2 t' Hset Hn2. apply (HQ s2 t'); [|eapply removed_left; [done|done| |exact Hset]; lia|exact Hn2].
        destruct Hset as (-> & _). cbn [with_child inorder]. by rewrite Hi.
    + rewrite Hc. cbn [Z.sgn Z.eqb negb]. destruct (equal_key cmp rx _ _ _ Hs Hc) as (_ & K2 & K3). rewrite K2, K3 in HQ. rewrite K2 in Hpre.
      set (s1 := moved (Some a) pre s) in *. apply wp_bind, (wp_walkdel a pre); [by apply Hpre|]. fold s1.
      assert (rep (heap s1) p (T l a b rr)) as Hrep1 by (by unfold s1; rewrite heap_moved). assert (ptr_at tp s1 (Some a)) as Hp1 by (by apply ptr_moved).
      apply wp_bind, (wp_node _ (mkAvl p (root_of l) (root_of rr) b)); [by apply Hrep1|]. cbn [a_n0 a_n1].
      destruct (root_of l) as [lx|] eqn:El; [destruct (root_of rr) as [ry|] eqn:Er|].
      * rewrite <- ?El, <- ?Er. assert (rr <> E) as Hne by (by intros ->).
        apply wp_bind. eapply (wp_successor rr n (LChild a true) (Some a)); [lia|done|done|done|apply Hrep1| |intros x [= <-]; done|].
        { exists (mkAvl p (root_of l) (root_of rr) b). split; [apply Hrep1|done]. }
        intros s2 rr' d r Hi Hrm Hn2. apply (wp_succeed (fun b' => (shrank b b', Some a)) tp p l a b rr rr' r d _ _ s1 s2); [done..| |done|done|].
        -- by eapply tilted_right.
        -- intros s3 t' Hset Hn3. apply (HQ s3 t'); [|by eapply removed_right|exact Hn3]. destruct Hset as (-> & _). cbn [inorder]. by rewrite Hi.
      * assert (rr = E) as -> by (by destruct rr). rewrite <- El.
        apply (wp_splice (-1, Some a) tp p l a b E l); [done..|by left|]. intros s2 Hn2.
        apply (HQ s2 l (-1)); [by rewrite app_nil_r| |exact Hn2]. split; [done|]. cbn in *. lia.
      * assert (l = E) as -> by (by destruct l). apply (wp_splice (-1, Some a) tp p E a b rr rr); [done..|by right|]. intros s2 Hn2.
        apply (HQ s2 rr (-1)); [done| |exact Hn2]. split; [done|]. cbn in *. lia.
    + rewrite Z.sgn_pos by done. cbn [Z.eqb negb Z.ltb Z.compare]. destruct (right_key cmp rx _ _ _ Hs Hc) as (_ & K2 & K3). rewrite K2, K3 in HQ. rewrite K2 in Hpre.
      apply wp_bind. eapply (IHr n (LChild a true) (Some a)); [lia|done|done|done|by eexists|intros x [= <-]; done|done|].
      intros s1 r' d Hi Hrm Hn1.
      apply (wp_up (fun b' => (shrank b b', or_else (the_equal cmp rx (inorder rr)) del)) _ (1 * d) true [] tp p l a b rr r' _ _ (moved (the_equal cmp rx (inorder rr)) pre s) s1);
        rewrite ?heap_moved, ?ptr_moved; try done; [by intros x Hx%elem_of_nil|by intros x; rewrite Hi; intros ?%elem_del| | |].
      * cbn [with_child inorder]. rewrite Hi, <- K3. by eapply sorted_nodup, sorted_del.
      * eapply tilted_right; [done|done|lia].
      * intros s2 t' Hset Hn2. apply (HQ s2 t'); [|eapply removed_right; [done|done| |exact Hset]; lia|exact Hn2].
        destruct Hset as (-> & _). cbn [with_child inorder]. by rewrite Hi.
Qed.
End delete.
