(* ===== verification/AvlNav.v ===== *)
(** * AVL trees: neighbours and search *)
From S2P Require Import Prelude CMonad Avl AvlHeap AvlThms.
From stdpp Require Import gmap sorting.
Local Open Scope Z_scope.

(** Every node of the tree is in the heap, so the fuel is enough. *)
Lemma rep_size h p t : rep h p t -> NoDup (inorder t) -> (length (inorder t) <= size h)%nat.
Proof.
  intros Hr Hnd. rewrite <- (size_list_to_set (C := gset nat)) by done. rewrite <- size_dom. apply subseteq_size.
  intros a Ha%elem_of_list_to_set. apply elem_of_dom. by eapply rep_some.
Qed.
Lemma run_node a n s : heap s !! a = Some n -> node a s = (Ok n, s).
Proof. intros E. unfold node, gets, mbind, M_bind. cbn. by rewrite E. Qed.
Lemma run_fuel {A} (f : nat -> M Avltree A) s : (fuel ≫= f) s = f (S (size (heap s))) s.
Proof. done. Qed.

(** The end of a list on one side, and what comes after the first. *)
Definition edge (i : bool) (l : list nat) : option nat := if i then last l else head l.
Definition nbr (i : bool) (l1 l2 : list nat) (v : option nat) : option nat :=
  match edge (negb i) (if i then l2 else l1) with Some y => Some y | None => v end.

Lemma edge_tree (i : bool) l a b r :
  edge i (inorder (T l a b r)) = match edge i (inorder (if i then r else l)) with Some y => Some y | None => Some a end.
Proof. destruct i; cbn; [|by destruct (inorder l)]. rewrite last_app_cons, last_cons. by destruct (last (inorder r)). Qed.
Lemma edge_none i l : edge i l = None <-> l = [].
Proof. destruct i; cbn; [apply last_None|apply head_None]. Qed.
Lemma inorder_nil t : inorder t = [] <-> t = E.
Proof. split; [|by intros ->]. destruct t as [|l a b r]; [done|]. intros H. apply app_eq_nil in H as [_ H]. done. Qed.

Lemma a_n_mk i p x y b : a_n i (mkAvl p x y b) = if i then y else x.
Proof. by destruct i. Qed.

(** Down to the end of a tree. *)
Lemma run_descend i t : forall n p a s, rep (heap s) p t -> root_of t = Some a -> (length (inorder t) < n)%nat ->
  exists y, edge i (inorder t) = Some y /\ descend n i a s = (Ok y, s).
Proof.
  induction t as [|l IHl x b r IHr]; intros n p a s Hr Hroot Hn; [done|]. injection Hroot as ->. destruct n as [|n]; [lia|].
  destruct Hr as (Ha & Hl & Hrr). cbn [inorder] in Hn. rewrite length_app in Hn. cbn [length] in Hn.
  rewrite edge_tree. cbn [descend]. rewrite (bind_ok _ _ _ _ _ (run_node _ _ _ Ha)), a_n_mk. cbn [a_n0 a_n1].
  assert (forall t, (t = l \/ t = r) -> (if i then r else l) = t -> exists y,
    match edge i (inorder t) with Some y => Some y | None => Some a end = Some y /\
    match root_of t with Some c => descend n i c | None => mret a end s = (Ok y, s)) as H.
  { intros t Ht _. destruct (root_of t) as [c|] eqn:Ec.
    - assert (exists y, edge i (inorder t) = Some y /\ descend n i c s = (Ok y, s)) as (y & E1 & E2)
        by (destruct Ht as [-> | ->]; [eapply IHl|eapply IHr]; (done || lia)).
      exists y. by rewrite E1.
    - exists a. by destruct t, i. }
  destruct i; (eapply H; [|done]); auto.
Qed.

(** Up from the end of a subtree to its root, and on from there. *)
Lemma run_ascend i v t : forall m p a s, rep (heap s) p t -> edge i (inorder t) = Some a ->
  (forall r n, root_of t = Some r -> (m <= n)%nat -> ascend n i r s = (Ok v, s)) ->
  forall n, (m + length (inorder t) <= n)%nat -> ascend n i a s = (Ok v, s).
Proof.
  induction t as [|l IHl x b r IHr]; intros m p a s Hr He Hroot n Hn; [by destruct i|].
  rewrite edge_tree in He. pose proof Hr as (Hx & Hl & Hrr). cbn [inorder] in Hn. rewrite length_app in Hn. cbn [length] in Hn.
  assert (forall t, (t = l \/ t = r) -> (if i then r else l) = t -> match edge i (inorder t) with Some y => Some y | None => Some x end = Some a ->
    ascend n i a s = (Ok v, s)) as H; [|destruct i; (eapply H; [|done|exact He]); auto].
  intros t Ht Hi Ha. destruct (edge i (inorder t)) as [y|] eqn:Ey; [|injection Ha as <-; apply Hroot; [done|lia]]. injection Ha as ->.
  assert (forall c k, root_of t = Some c -> (S m <= k)%nat -> ascend k i c s = (Ok v, s)) as Hup.
  { intros c k Hc Hk. destruct k as [|k]; [lia|]. cbn [ascend].
    assert (exists nc, heap s !! c = Some nc /\ a_p nc = Some x) as (nc & Enc & Ep).
    { destruct t as [|tl tx tb tr]; [done|]. injection Hc as ->. destruct Ht as [<- | <-]; [destruct Hl as [Hc _]|destruct Hrr as [Hc _]]; by eexists. }
    rewrite (bind_ok _ _ _ _ _ (run_node _ _ _ Enc)), Ep, (bind_ok _ _ _ _ _ (run_node _ _ _ Hx)), a_n_mk.
    rewrite bool_decide_eq_true_2 by (rewrite <- Hc, <- Hi; by destruct i). apply Hroot; [done|lia]. }
  destruct Ht as [-> | ->]; [eapply (IHl (S m))|eapply (IHr (S m))]; try done; lia.
Qed.

Lemma where_is (l r : list nat) x l1 a l2 : l ++ x :: r = l1 ++ a :: l2 ->
  (a = x /\ l1 = l /\ l2 = r) \/ (exists k, l = l1 ++ a :: k /\ l2 = k ++ x :: r) \/ (exists k, r = k ++ a :: l2 /\ l1 = l ++ x :: k).
Proof.
  intros [(k & E1 & E2)|(k & E1 & E2)]%app_eq_inv; destruct k as [|y k]; cbn in E2.
  - rewrite app_nil_r in E1. injection E2 as -> ->. by left.
  - injection E2 as -> ->. right. left. by exists k.
  - rewrite app_nil_r in E1. injection E2 as -> ->. by left.
  - injection E2 as -> ->. right. right. by exists k.
Qed.

(** The first climb from a node that is not the [i] child of its parent. *)
Lemma ascend_other i c q nc nq n s : heap s !! c = Some nc -> a_p nc = Some q -> heap s !! q = Some nq -> a_n i nq <> Some c ->
  (1 <= n)%nat -> ascend n i c s = (Ok (Some q), s).
Proof.
  intros Hc Hp Hq Hne Hn. destruct n as [|n]; [lia|]. cbn [ascend].
  rewrite (bind_ok _ _ _ _ _ (run_node _ _ _ Hc)), Hp, (bind_ok _ _ _ _ _ (run_node _ _ _ Hq)). by rewrite bool_decide_eq_false_2.
Qed.
Lemma ascend_same i c q nc nq n s v : heap s !! c = Some nc -> a_p nc = Some q -> heap s !! q = Some nq -> a_n i nq = Some c ->
  ascend n i q s = (Ok v, s) -> ascend (S n) i c s = (Ok v, s).
Proof.
  intros Hc Hp Hq He Hv. cbn [ascend].
  rewrite (bind_ok _ _ _ _ _ (run_node _ _ _ Hc)), Hp, (bind_ok _ _ _ _ _ (run_node _ _ _ Hq)). by rewrite bool_decide_eq_true_2.
Qed.
Lemma rep_root h p t c : rep h p t -> root_of t = Some c -> exists n, h !! c = Some n /\ a_p n = p.
Proof. destruct t as [|l a b r]; [done|]. intros (H & _) [= ->]. by eexists. Qed.

Lemma run_neighbour i t : forall m v p a l1 l2 s, rep (heap s) p t -> NoDup (inorder t) -> inorder t = l1 ++ a :: l2 ->
  (forall r n, root_of t = Some r -> (m <= n)%nat -> ascend n i r s = (Ok v, s)) -> (m + length (inorder t) <= S (size (heap s)))%nat ->
  neighbour i (Some a) s = (Ok (nbr i l1 l2 v), s).
Proof.
  induction t as [|l IHl x b r IHr]; intros m v p a l1 l2 s Hr Hnd Hin Hroot Hm; [by destruct l1|].
  pose proof Hr as (Hx & Hl & Hrr). cbn [inorder] in *. rewrite length_app in Hm. cbn [length] in Hm.
  apply NoDup_app in Hnd as (Nl & dl & [nr Nr]%NoDup_cons).
  assert (root_of l <> None -> root_of l <> root_of r) as Hlr.
  { destruct (root_of l) as [y|] eqn:E; [|done]. intros _ E'. symmetry in E'. apply root_in in E, E'. apply (dl y E), elem_of_cons. by right. }
  assert (forall c n, root_of (if i then r else l) = Some c -> (S m <= n)%nat -> ascend n i c s = (Ok v, s)) as Hup.
  { intros c n Hc Hn. destruct n as [|n]; [lia|]. destruct (rep_root (heap s) (Some x) (if i then r else l) c) as (nc & E1 & E2); [by destruct i|done|].
    eapply ascend_same; [exact E1|exact E2|exact Hx| |apply Hroot; [done|lia]]. by rewrite a_n_mk; destruct i. }
  assert (forall c n, root_of (if i then l else r) = Some c -> (1 <= n)%nat -> ascend n i c s = (Ok (Some x), s)) as Hover.
  { intros c n Hc Hn. destruct (rep_root (heap s) (Some x) (if i then l else r) c) as (nc & E1 & E2); [by destruct i|done|].
    eapply ascend_other; [exact E1|exact E2|exact Hx| |done]. rewrite a_n_mk. intros E. destruct i; apply Hlr; congruence. }
  destruct (where_is _ _ _ _ _ _ Hin) as [(-> & -> & ->)|[(k & E & ->)|(k & E & ->)]].
  - unfold neighbour. rewrite run_fuel. rewrite (bind_ok _ _ _ _ _ (run_node _ _ _ Hx)), a_n_mk. unfold nbr.
    destruct (if i then root_of r else root_of l) as [c|] eqn:Ec.
    + destruct (run_descend (negb i) (if i then r else l) (S (size (heap s))) (Some x) c s) as (y & E1 & E2); [by destruct i|by destruct i|destruct i; lia|].
      rewrite (bind_ok _ _ _ _ _ E2). destruct i; cbn in E1 |- *; by rewrite E1.
    + rewrite (Hroot x (S (size (heap s)))) by (done || lia). destruct i; [destruct r|destruct l]; done.
  - destruct i.
    + rewrite (IHl 1%nat (Some x) (Some x) a l1 k s); [| |done|done|intros c n Hc Hn; by apply Hover|lia]; [|done]. unfold nbr. cbn. by destruct k.
    + rewrite (IHl (S m) v (Some x) a l1 k s); [done|done|done|done|exact Hup|lia].
  - destruct i.
    + rewrite (IHr (S m) v (Some x) a k l2 s); [done|done|done|done|exact Hup|lia].
    + rewrite (IHr 1%nat (Some x) (Some x) a k l2 s); [|done|done|done|intros c n Hc Hn; by apply Hover|lia]. unfold nbr. cbn.
      rewrite last_app_cons, last_cons. by destruct (last k).
Qed.

(** ** The whole tree *)

Definition tree_ok (cmp : nat -> nat -> Z) (t : tree) (s : Avltree) : Prop :=
  rep (heap s) None t /\ root s = root_of t /\ avl t /\ sorted cmp (inorder t).

Section search.
Context (cmp : nat -> nat -> Z) {laws : CmpLaws cmp}.

Lemma neighbour_ok i t a l1 l2 s : tree_ok cmp t s -> inorder t = l1 ++ a :: l2 -> neighbour i (Some a) s = (Ok (nbr i l1 l2 None), s).
Proof using laws.
  intros (Hr & Hroot & _ & Hs) Hin. pose proof (sorted_nodup cmp _ Hs) as Hnd.
  eapply (run_neighbour i t 1%nat); [exact Hr|done|exact Hin| |pose proof (rep_size _ _ _ Hr Hnd); lia].
  intros r n Hroot' Hn. destruct n as [|n]; [lia|]. cbn [ascend]. destruct (rep_root _ _ _ _ Hr Hroot') as (nr & E1 & E2).
  by rewrite (bind_ok _ _ _ _ _ (run_node _ _ _ E1)), E2.
Qed.
Lemma pred_ok t a l1 l2 s : tree_ok cmp t s -> inorder t = l1 ++ a :: l2 -> findpredecessor (Some a) s = (Ok (last l1), s).
Proof using laws. intros Ht Hin. unfold findpredecessor. rewrite (neighbour_ok _ _ _ _ _ _ Ht Hin). unfold nbr. cbn. by destruct (last l1). Qed.
Lemma succ_ok t a l1 l2 s : tree_ok cmp t s -> inorder t = l1 ++ a :: l2 -> findsuccessor (Some a) s = (Ok (head l2), s).
Proof using laws. intros Ht Hin. unfold findsuccessor. rewrite (neighbour_ok _ _ _ _ _ _ Ht Hin). unfold nbr. cbn. by destruct l2. Qed.

(** ** Search *)

(** What a search of a sorted list is to find. *)
Definition floor (r : nat) (l : list nat) : option nat := last (filter (fun a => 0 < cmp r a) l).
Definition ceiling (r : nat) (l : list nat) : option nat := head (filter (fun a => cmp r a < 0) l).
Definition answer (r : nat) (neighbor : Z) (l : list nat) : option nat :=
  match the_equal cmp r l with
  | Some a => Some a
  | None => if neighbor =? 0 then None else if neighbor <? 0 then floor r l else ceiling r l
  end.

Lemma answer_at r nb l1 l2 : (forall x, x ∈ l1 -> 0 < cmp r x) -> (forall x, x ∈ l2 -> cmp r x < 0) ->
  answer r nb (l1 ++ l2) = if nb =? 0 then None else if nb <? 0 then last l1 else head l2.
Proof using.
  clear laws. intros H1 H2. unfold answer. destruct (none_equal cmp r (l1 ++ l2)) as [-> _].
  { intros x [Hx|Hx]%elem_of_app; [specialize (H1 x Hx)|specialize (H2 x Hx)]; lia. }
  assert (filter (fun a => 0 < cmp r a) l1 = l1 /\ filter (fun a => cmp r a < 0) l1 = []) as [F1 F2].
  { clear H2. induction l1 as [|x l1 IH]; [done|]. destruct IH as [I1 I2]; [intros y Hy; apply H1; by right|].
    pose proof (H1 x (list_elem_of_here _ _)). rewrite !filter_cons, decide_True, decide_False, I1, I2 by lia. done. }
  assert (filter (fun a => 0 < cmp r a) l2 = [] /\ filter (fun a => cmp r a < 0) l2 = l2) as [F3 F4].
  { clear H1 F1 F2. induction l2 as [|x l2 IH]; [done|]. destruct IH as [I1 I2]; [intros y Hy; apply H2; by right|].
    pose proof (H2 x (list_elem_of_here _ _)). rewrite !filter_cons, decide_False, decide_True, I1, I2 by lia. done. }
  unfold floor, ceiling. rewrite !filter_app, F1, F2, F3, F4, app_nil_r. done.
Qed.
Lemma answer_equal r nb l1 a l2 : sorted cmp (l1 ++ a :: l2) -> cmp r a = 0 -> answer r nb (l1 ++ a :: l2) = Some a.
Proof using laws. intros Hs Hr. unfold answer. by destruct (equal_key cmp r l1 a l2 Hs Hr) as (_ & -> & _). Qed.

Lemma run_lookup_loop r nb w t : forall n p a l1 l2 s, tree_ok cmp w s -> inorder w = l1 ++ inorder t ++ l2 ->
  rep (heap s) p t -> root_of t = Some a -> (length (inorder t) < n)%nat ->
  (forall x, x ∈ l1 -> 0 < cmp r x) -> (forall x, x ∈ l2 -> cmp r x < 0) ->
  lookup_loop cmp n a p r nb s = (Ok (answer r nb (inorder w)), s).
Proof using laws.
  induction t as [|l IHl x b rr IHr]; intros n p a l1 l2 s Hw Hin Hr Hroot Hn H1 H2; [done|]. injection Hroot as ->. destruct n as [|n]; [lia|].
  destruct Hr as (Ha & Hl & Hrr). cbn [inorder lookup_loop] in *. rewrite length_app in Hn. cbn [length] in Hn.
  pose proof (proj2 (proj2 (proj2 Hw))) as Hs. pose proof Hs as Hs'. rewrite Hin in Hs'. rewrite <- app_assoc in Hs', Hin. cbn [app] in Hs', Hin.
  rewrite app_assoc in Hs'. pose proof Hs' as Hs''. apply sorted_app in Hs'' as (_ & _ & Hlow & Hhigh & _).
  rewrite (bind_ok _ _ _ _ _ (run_node _ _ _ Ha)). cbn [a_p]. rewrite bool_decide_eq_true_2 by done. cbn [negb]. rewrite canoncmp_sgn. cbv zeta.
  rewrite a_n_mk. destruct (Z.lt_trichotomy (cmp r a) 0) as [Hc|[Hc|Hc]].
  - rewrite Z.sgn_neg by done. cbn [Z.eqb Z.ltb Z.compare]. assert (forall y, y ∈ a :: inorder rr ++ l2 -> cmp r y < 0) as H2'.
    { intros y [->|Hy]%elem_of_cons; [done|]. eapply (below_le_trans cmp); [exact Hc|]. specialize (Hhigh y Hy). unfold below in Hhigh. lia. }
    destruct (root_of l) as [c|] eqn:Ec; [apply (IHl n (Some a) c l1 (a :: inorder rr ++ l2)); (done || lia)|]. assert (l = E) as -> by (by destruct l).
    cbn [inorder app] in Hin. rewrite Hin, answer_at by done. destruct (Z.eqb_spec nb 0); [done|]. destruct (nb <? 0); [|done].
    by rewrite (pred_ok w a l1 (inorder rr ++ l2) s).
  - rewrite Hc. cbn [Z.sgn Z.eqb]. rewrite Hin, app_assoc, answer_equal by done. done.
  - rewrite Z.sgn_pos by done. cbn [Z.eqb Z.ltb Z.compare]. assert (forall y, y ∈ (l1 ++ inorder l) ++ [a] -> 0 < cmp r y) as H1'.
    { intros y [Hy|Hy]%elem_of_app; [|apply list_elem_of_singleton in Hy; by subst]. apply (flip_neg cmp). apply (flip_neg cmp) in Hc.
      eapply (below_le_trans cmp); [apply Hlow, Hy|lia]. }
    assert (inorder w = ((l1 ++ inorder l) ++ [a]) ++ inorder rr ++ l2) as Hin' by (rewrite Hin, <- !app_assoc; done).
    destruct (root_of rr) as [c|] eqn:Ec; [apply (IHr n (Some a) c ((l1 ++ inorder l) ++ [a]) l2); (done || lia)|]. assert (rr = E) as -> by (by destruct rr).
    cbn [inorder app] in Hin'. rewrite Hin', answer_at by done. rewrite last_snoc. destruct (Z.eqb_spec nb 0); [done|]. destruct (nb <? 0); [done|].
    rewrite (succ_ok w a (l1 ++ inorder l) l2 s); [done|done|]. by rewrite Hin', <- app_assoc.
Qed.

Lemma searchavl_ok r nb t s : tree_ok cmp t s -> searchavl cmp r nb s = (Ok (answer r nb (inorder t)), s).
Proof using laws.
  intros Ht. pose proof Ht as (Hr & Hroot & _ & Hs). unfold searchavl. rewrite bind_gets, Hroot. unfold _lookupavl.
  destruct (root_of t) as [a|] eqn:Ea.
  - rewrite run_fuel. pose proof (rep_size _ _ _ Hr (sorted_nodup cmp _ Hs)).
    eapply (run_lookup_loop r nb t t _ None a [] []); [done|by rewrite app_nil_r|done|done|lia|by intros x Hx%elem_of_nil..].
  - assert (t = E) as -> by (by destruct t). cbn. unfold answer. cbn. by repeat case_match.
Qed.
End search.
