(* ===== verification/AvlProps.v ===== *)
(** * AVL trees: properties *)
From S2P Require Import Prelude CMonad Avl AvlHeap AvlThms AvlOps AvlNav.
From stdpp Require Import gmap sorting.
Local Open Scope Z_scope.

(** A balanced tree is shallow. *)
Lemma avl_size t : avl t -> 2 ^ height t <= (zlen (inorder t) + 1) * (zlen (inorder t) + 1).
Proof.
  induction t as [|l IHl a b r IHr]; [done|]. intros (H1 & H2 & Hl & Hr). specialize (IHl Hl). specialize (IHr Hr).
  cbn [inorder height]. rewrite zlen_app, zlen_cons. pose proof (height_nonneg l). pose proof (height_nonneg r).
  pose proof (zlen_nonneg (inorder l)). pose proof (zlen_nonneg (inorder r)). set (x := zlen (inorder l)) in *. set (y := zlen (inorder r)) in *.
  assert (forall p q h : Z, 0 <= h -> 1 <= p -> 1 <= q -> 2 ^ h <= p * p -> 2 ^ (Z.max 0 (h - 1)) <= q * q -> 2 ^ (1 + h) <= (p + q) * (p + q)) as Hk.
  { intros p q h Hh Hp Hq Hpp Hqq. rewrite Z.pow_add_r by lia. change (2 ^ 1) with 2. destruct (decide (h = 0)) as [->|]; [change (2 ^ 0) with 1; nia|].
    replace h with (1 + (h - 1)) in * by lia. replace (Z.max 0 (1 + (h - 1) - 1)) with (h - 1) in Hqq by lia. rewrite Z.pow_add_r in Hpp |- * by lia.
    change (2 ^ 1) with 2 in *. set (k := 2 ^ (h - 1)) in *. destruct (Z.le_gt_cases q p); nia. }
  assert (forall h h', 0 <= h -> h <= h' -> 2 ^ h <= 2 ^ h') as Hmono by (intros; apply Z.pow_le_mono_r; lia).
  destruct (Z.le_gt_cases (height r) (height l)).
  - replace (1 + Z.max (height l) (height r)) with (1 + height l) by lia. replace (x + (y + 1) + 1) with ((x + 1) + (y + 1)) by lia.
    apply (Hk (x + 1) (y + 1)); [lia|lia|lia|exact IHl|]. etransitivity; [|exact IHr]. apply Hmono; lia.
  - replace (1 + Z.max (height l) (height r)) with (1 + height r) by lia. replace (x + (y + 1) + 1) with ((y + 1) + (x + 1)) by lia.
    apply (Hk (y + 1) (x + 1)); [lia|lia|lia|exact IHr|]. etransitivity; [|exact IHl]. apply Hmono; lia.
Qed.

Lemma nodup_split (l l1 l2 k1 k2 : list nat) a : NoDup l -> l = l1 ++ a :: l2 -> l = k1 ++ a :: k2 -> l1 = k1.
Proof.
  intros Hnd -> E. apply NoDup_app in Hnd as (_ & Hd & [Hn _]%NoDup_cons).
  destruct (where_is _ _ _ _ _ _ E) as [(_ & -> & _)|[(k & -> & _)|(k & -> & _)]]; [done| |].
  - exfalso. apply (Hd a); [|by left]. apply elem_of_app. right. by left.
  - exfalso. apply Hn. apply elem_of_app. right. by left.
Qed.

Section props.
Context (cmp : nat -> nat -> Z) {laws : CmpLaws cmp}.

Lemma equal_in r l a : the_equal cmp r l = Some a -> exists l1 l2, l = l1 ++ a :: l2.
Proof using. clear laws. intros H. apply find_some in H as [H _]. apply list_elem_of_In in H. by apply list_elem_of_split in H. Qed.

(** The nodes that are not of the tree, before and after. *)
Definition others_kept (s s' : Avltree) (l : list nat) : Prop :=
  (forall a, is_Some (heap s' !! a) <-> is_Some (heap s !! a)) /\ forall a, a ∉ l -> heap s' !! a = heap s !! a.

Lemma below_filter l1 a l2 : sorted cmp (l1 ++ a :: l2) -> filter (fun b => cmp b a < 0) (l1 ++ a :: l2) = l1.
Proof using laws.
  intros (_ & _ & Hl & Hr & _)%sorted_app. rewrite filter_app, filter_cons.
  rewrite decide_False by (unfold below; pose proof (flip_neg cmp a a); lia).
  assert (filter (fun b => cmp b a < 0) l2 = []) as ->.
  { induction l2 as [|b l2 IH]; [done|]. rewrite filter_cons, decide_False; [apply IH; intros y Hy; apply Hr; by right|].
    specialize (Hr b (list_elem_of_here _ _)). unfold below in *. apply (flip_neg cmp) in Hr. lia. }
  rewrite app_nil_r. clear Hr. induction l1 as [|b l1 IH]; [done|]. rewrite filter_cons, decide_True by (apply Hl; by left).
  f_equal. apply IH. intros y Hy. apply Hl. by right.
Qed.

Lemma insertavl_wp new t s (Q : option nat -> Avltree -> Prop) : tree_ok cmp t s -> new ∉ inorder t -> is_Some (heap s !! new) ->
  (forall s' t' d, inserted cmp new t t' d -> tree_ok cmp t' s' -> walks s' = walks s -> others_kept s s' (new :: inorder t) ->
     Q (the_equal cmp new (inorder t)) s') -> wp (insertavl cmp new) Q (fun _ _ => False) s.
Proof using laws.
  intros (Hr & Hroot & Ha & Hs) Hn Hnew HQ. unfold insertavl. apply wp_bind. unfold fuel. apply wp_bind, wp_gets, wp_ret, wp_bind.
  pose proof (rep_size _ _ _ Hr (sorted_nodup cmp _ Hs)).
  eapply (wp__insertavl cmp new t _ LRoot None None); [lia|done|done|done|done|done|done|done|].
  intros s' t' d Hi (Hr' & H1 & H2 & H3 & H4). apply wp_ret. replace (or_else _ None) with (the_equal cmp new (inorder t)) by (by destruct (the_equal _ _ _)).
  eapply HQ; [exact Hi| |exact H2|by split]. split; [done|]. split; [exact H1|]. split; [apply Hi|by eapply inserted_nodup].
Qed.

Lemma deleteavl_wp key t s (Q : option nat -> Avltree -> Prop) : tree_ok cmp t s ->
  (forall s' t' d pre, (forall a l1 l2, the_equal cmp key (inorder t) = Some a -> inorder t = l1 ++ a :: l2 -> pre = last l1) ->
     removed t t' d -> inorder t' = del_list cmp key (inorder t) -> tree_ok cmp t' s' ->
     walks s' = walks (moved (the_equal cmp key (inorder t)) pre s) -> others_kept s s' (inorder t) ->
     Q (the_equal cmp key (inorder t)) s') -> wp (deleteavl cmp key) Q (fun _ _ => False) s.
Proof using laws.
  intros Ht HQ. pose proof Ht as (Hr & Hroot & Ha & Hs). unfold deleteavl. apply wp_bind. unfold fuel. apply wp_bind, wp_gets, wp_ret, wp_bind.
  pose proof (rep_size _ _ _ Hr (sorted_nodup cmp _ Hs)).
  assert (exists pre, (forall a l1 l2, the_equal cmp key (inorder t) = Some a -> inorder t = l1 ++ a :: l2 -> pre = last l1) /\
    forall a, the_equal cmp key (inorder t) = Some a -> findpredecessor (Some a) s = (Ok pre, s)) as (pre & Hpre & Hfind).
  { destruct (the_equal cmp key (inorder t)) as [a|] eqn:Ea; [|by exists None]. destruct (equal_in _ _ _ Ea) as (l1 & l2 & Hin).
    exists (last l1). split; [|intros a' [= <-]; by apply (pred_ok cmp t a l1 l2)]. intros a' k1 k2 [= <-] Hin'.
    f_equal. eapply nodup_split; [by apply (sorted_nodup cmp)|exact Hin|exact Hin']. }
  eapply (wp__deleteavl cmp key pre t _ LRoot None None); [lia|done|done|done|done|done|exact Hfind|].
  intros s' t' d Hi Hrm (Hr' & H1 & H2 & H3 & H4). apply wp_ret. replace (or_else _ None) with (the_equal cmp key (inorder t)) by (by destruct (the_equal _ _ _)).
  cbn in H3, H4. rewrite heap_moved in H4. assert (forall a, is_Some (heap s' !! a) <-> is_Some (heap s !! a)) as H3' by (intros a; by rewrite H3, heap_moved).
  eapply HQ; [exact Hpre|exact Hrm|exact Hi| |exact H2|by split]. split; [done|]. split; [by destruct (the_equal _ _ _)|].
  split; [apply Hrm|]. rewrite Hi. by apply sorted_del.
Qed.

(** ** Walks *)

Definition on_walk (s : Avltree) (w : nat) (x : Avlwalk) : Prop := the_walk w (walks s) = Some x.
(** The store with the walk [w] at [o]; [x] is the walk before. *)
Definition at_node (x : Avlwalk) (o : option nat) : Avlwalk := mkWalk (w_id x) true (w_moved x) o.
Definition set_walk_st (y : Avlwalk) (s : Avltree) : Avltree :=
  set_walks ((fun z => if (w_id z =? w_id y)%nat then y else z) <$> walks s) s.

Lemma the_walk_id w l x : the_walk w l = Some x -> w_id x = w.
Proof using. clear laws. intros H. apply find_some in H as [_ H]. by apply Nat.eqb_eq. Qed.
Lemma on_walk_set s w x y : on_walk s w x -> w_id y = w -> on_walk (set_walk_st y s) w y.
Proof using.
  clear laws. unfold on_walk. cbn. intros H <-. induction (walks s) as [|z l IH]; [done|]. cbn in *. destruct (w_id z =? w_id y)%nat eqn:E; cbn.
  - by rewrite Nat.eqb_refl.
  - rewrite E. by apply IH.
Qed.
Lemma tree_ok_walk t y s : tree_ok cmp t (set_walk_st y s) <-> tree_ok cmp t s.
Proof using. done. Qed.
Lemma run_walk s w x : on_walk s w x -> walk w s = (Ok x, s).
Proof using. clear laws. intros H. unfold walk, gets, mbind, M_bind. cbn. by rewrite H. Qed.

Lemma run_first i t s : tree_ok cmp t s -> first_node i s = (Ok (edge i (inorder t)), s).
Proof using laws.
  intros (Hr & Hroot & _ & Hs). unfold first_node. rewrite bind_gets, Hroot. destruct (root_of t) as [r|] eqn:E.
  - rewrite run_fuel. pose proof (rep_size _ _ _ Hr (sorted_nodup cmp _ Hs)).
    destruct (run_descend i t (S (size (heap s))) None r s Hr E) as (y & -> & E2); [lia|]. by rewrite (bind_ok _ _ _ _ _ E2).
  - destruct t; [by destruct i|done].
Qed.

(** One step of a walk, in every case. *)
Lemma avlnext_first t w x s : tree_ok cmp t s -> on_walk s w x -> w_started x = false ->
  avlnext w s = (Ok (head (inorder t)), set_walk_st (at_node x (head (inorder t))) s).
Proof using laws.
  intros Ht Hw Hst. unfold avlnext. rewrite (bind_ok _ _ _ _ _ (run_walk _ _ _ Hw)), Hst. cbn [negb].
  rewrite (bind_ok _ _ _ _ _ (run_first false _ _ Ht)). unfold at_node. by rewrite (the_walk_id _ _ _ Hw).
Qed.
Lemma avlnext_next t w x a l1 l2 s : tree_ok cmp t s -> on_walk s w x -> w_started x = true -> w_node x = Some a -> inorder t = l1 ++ a :: l2 ->
  avlnext w s = (Ok (head l2), set_walk_st (at_node x (head l2)) s).
Proof using laws.
  intros Ht Hw Hst Hn Hin. unfold avlnext. rewrite (bind_ok _ _ _ _ _ (run_walk _ _ _ Hw)), Hst, Hn. cbn [negb].
  rewrite (bind_ok _ _ _ _ _ (succ_ok cmp _ _ _ _ _ Ht Hin)). rewrite bool_decide_eq_false_2.
  - unfold at_node. by rewrite (the_walk_id _ _ _ Hw).
  - destruct Ht as (_ & _ & _ & Hs). apply (sorted_nodup cmp) in Hs. rewrite Hin in Hs. apply NoDup_app in Hs as (_ & _ & [Hs _]%NoDup_cons).
    intros E. apply Hs. destruct l2; [done|]. injection E as ->. by left.
Qed.
Lemma avlnext_end w x s : on_walk s w x -> w_started x = true -> w_node x = None -> avlnext w s = (Ret AbortCalled, s).
Proof using. clear laws. intros Hw Hst Hn. unfold avlnext. by rewrite (bind_ok _ _ _ _ _ (run_walk _ _ _ Hw)), Hst, Hn. Qed.

Lemma avlprev_first t w x s : tree_ok cmp t s -> on_walk s w x -> w_started x = false ->
  avlprev w s = (Ok (last (inorder t)), set_walk_st (at_node x (last (inorder t))) s).
Proof using laws.
  intros Ht Hw Hst. unfold avlprev. rewrite (bind_ok _ _ _ _ _ (run_walk _ _ _ Hw)), Hst. cbn [negb].
  rewrite (bind_ok _ _ _ _ _ (run_first true _ _ Ht)). unfold at_node. by rewrite (the_walk_id _ _ _ Hw).
Qed.
Lemma avlprev_moved w x s : on_walk s w x -> w_started x = true -> w_moved x = true ->
  avlprev w s = (Ok (w_node x), set_walk_st (mkWalk w true false (w_node x)) s).
Proof using. clear laws. intros Hw Hst Hm. unfold avlprev. by rewrite (bind_ok _ _ _ _ _ (run_walk _ _ _ Hw)), Hst, Hm. Qed.
Lemma avlprev_prev t w x a l1 l2 s : tree_ok cmp t s -> on_walk s w x -> w_started x = true -> w_moved x = false -> w_node x = Some a ->
  inorder t = l1 ++ a :: l2 -> avlprev w s = (Ok (last l1), set_walk_st (at_node x (last l1)) s).
Proof using laws.
  intros Ht Hw Hst Hm Hn Hin. unfold avlprev. rewrite (bind_ok _ _ _ _ _ (run_walk _ _ _ Hw)), Hst, Hm, Hn. cbn [negb].
  rewrite (bind_ok _ _ _ _ _ (pred_ok cmp _ _ _ _ _ Ht Hin)). rewrite bool_decide_eq_false_2.
  - unfold at_node. by rewrite Hm, (the_walk_id _ _ _ Hw).
  - destruct Ht as (_ & _ & _ & Hs). apply (sorted_nodup cmp) in Hs. rewrite Hin in Hs. apply NoDup_app in Hs as (_ & Hs & _).
    intros E. apply (Hs a); [|by left]. apply last_Some in E as [k ->]. apply elem_of_app. right. by left.
Qed.
Lemma avlprev_end w x s : on_walk s w x -> w_started x = true -> w_moved x = false -> w_node x = None -> avlprev w s = (Ret AbortCalled, s).
Proof using. clear laws. intros Hw Hst Hm Hn. unfold avlprev. by rewrite (bind_ok _ _ _ _ _ (run_walk _ _ _ Hw)), Hst, Hm, Hn. Qed.

(** [n] steps. *)
Fixpoint steps (step : M Avltree (option nat)) (n : nat) : M Avltree (list (option nat)) :=
  match n with O => mret [] | S n => a ← step; r ← steps step n; mret (a :: r) end.
Definition unchanged (s s' : Avltree) : Prop := heap s' = heap s /\ root s' = root s.

Lemma nexts_from t w l2 : forall x a l1 s, tree_ok cmp t s -> on_walk s w x -> w_started x = true -> w_node x = Some a -> inorder t = l1 ++ a :: l2 ->
  exists s' x', steps (avlnext w) (S (length l2)) s = (Ok ((Some <$> l2) ++ [None]), s') /\ unchanged s s' /\ on_walk s' w x' /\ w_started x' = true /\ w_node x' = None.
Proof using laws.
  induction l2 as [|b l2 IH]; intros x a l1 s Ht Hw Hst Hn Hin; cbn [steps length fmap list_fmap app];
    rewrite (bind_ok _ _ _ _ _ (avlnext_next _ _ _ _ _ _ _ Ht Hw Hst Hn Hin)); cbn [head].
  - eexists _, (at_node x None). split; [done|]. split; [done|]. split; [|done]. eapply on_walk_set; [exact Hw|]. cbn. by eapply the_walk_id.
  - destruct (IH (at_node x (Some b)) b (l1 ++ [a]) (set_walk_st (at_node x (Some b)) s)) as (s' & x' & E & H); [done| |done|done|by rewrite <- app_assoc|].
    { eapply on_walk_set; [exact Hw|]. cbn. by eapply the_walk_id. }
    exists s', x'. split; [|exact H]. cbn [steps length] in E. by rewrite (bind_ok _ _ _ _ _ E).
Qed.
Lemma prevs_from t w l1 : forall x a l2 s, tree_ok cmp t s -> on_walk s w x -> w_started x = true -> w_moved x = false -> w_node x = Some a ->
  inorder t = reverse l1 ++ a :: l2 ->
  exists s' x', steps (avlprev w) (S (length l1)) s = (Ok ((Some <$> l1) ++ [None]), s') /\ unchanged s s' /\ on_walk s' w x' /\
    w_started x' = true /\ w_moved x' = false /\ w_node x' = None.
Proof using laws.
  induction l1 as [|b l1 IH]; intros x a l2 s Ht Hw Hst Hm Hn Hin; cbn [steps length fmap list_fmap app];
    rewrite (bind_ok _ _ _ _ _ (avlprev_prev _ _ _ _ _ _ _ Ht Hw Hst Hm Hn Hin)).
  - cbn [reverse rev_append last]. eexists _, (at_node x None). split; [done|]. split; [done|]. split; [|done]. eapply on_walk_set; [exact Hw|]. cbn. by eapply the_walk_id.
  - rewrite reverse_cons, last_snoc. rewrite reverse_cons, <- app_assoc in Hin. cbn [app] in Hin.
    destruct (IH (at_node x (Some b)) b (a :: l2) (set_walk_st (at_node x (Some b)) s)) as (s' & x' & E & H); [done| |done|done|done|done|].
    { eapply on_walk_set; [exact Hw|]. cbn. by eapply the_walk_id. }
    exists s', x'. split; [|exact H]. cbn [steps length] in E. by rewrite (bind_ok _ _ _ _ _ E).
Qed.

(** ** Sequences of operations *)

Inductive AvlOp : Type :=
| OInsert (new : nat)
| ODelete (key : nat)
| OSearch (key : nat) (neighbor : Z)
| OWalk (w : nat)
| ONext (w : nat)
| OPrev (w : nat)
| OEnd (w : nat).

Definition arun (op : AvlOp) : M Avltree (option nat) :=
  match op with
  | OInsert new => insertavl cmp new
  | ODelete key => deleteavl cmp key
  | OSearch key neighbor => searchavl cmp key neighbor
  | OWalk w => avlwalk (Some w)
  | ONext w => avlnext w
  | OPrev w => avlprev w
  | OEnd w => endwalk w;; mret None
  end.

(** What the operations ask of their callers when the tree holds the nodes [l]:
    a node to insert is not of the tree already, and no walk is at the node it
    would replace; a walk is not taken past its end. *)
Definition allowed (s : Avltree) (l : list nat) (op : AvlOp) : Prop :=
  match op with
  | OInsert new => (new ∉ l) /\ is_Some (heap s !! new) /\ forall a x, the_equal cmp new l = Some a -> x ∈ walks s -> w_node x <> Some a
  | ODelete _ | OSearch _ _ => True
  | OWalk w => forall x, x ∈ walks s -> w_id x <> w
  | ONext w => exists x, on_walk s w x /\ (w_started x = true -> w_node x <> None)
  | OPrev w => exists x, on_walk s w x /\ (w_started x = true -> w_moved x = false -> w_node x <> None)
  | OEnd w => exists x, on_walk s w x
  end.
Definition effect (op : AvlOp) (l : list nat) : list nat :=
  match op with OInsert new => ins_list cmp new l | ODelete key => del_list cmp key l | _ => l end.

Inductive areach : Avltree -> list nat -> Prop :=
| areach_init h s : mkavltree true h = Some s -> areach s []
| areach_step s l op r s' : areach s l -> allowed s l op -> arun op s = (Ok r, s') -> areach s' (effect op l).

Definition walks_in (s : Avltree) (l : list nat) : Prop := forall x a, x ∈ walks s -> w_node x = Some a -> a ∈ l.

Lemma ins_keeps r l a : a ∈ l -> the_equal cmp r l <> Some a -> a ∈ ins_list cmp r l.
Proof using.
  clear laws. unfold the_equal. induction l as [|b l IH]; cbn; [by intros ?%elem_of_nil|]. intros Ha Hne. apply elem_of_cons in Ha.
  destruct (cmp r b <? 0) eqn:E1; [apply elem_of_cons; right; by apply elem_of_cons|]. destruct (cmp r b =? 0) eqn:E2.
  - destruct Ha as [->|Ha]; [done|]. apply elem_of_cons. by right.
  - apply elem_of_cons. destruct Ha as [->|Ha]; [by left|]. right. by apply IH.
Qed.
Lemma walks_in_set s w x y l : walks_in s l -> on_walk s w x -> (forall a, w_node y = Some a -> a ∈ l) -> walks_in (set_walk_st y s) l.
Proof using.
  clear laws. intros Hw _ Hy z a Hz Ha. cbn in Hz. apply list_elem_of_fmap in Hz as (z' & -> & Hz'). destruct (w_id z' =? w_id y)%nat; [by apply Hy|by eapply Hw].
Qed.
Lemma moved_in key t s pre : tree_ok cmp t s -> walks_in s (inorder t) ->
  (forall a l1 l2, the_equal cmp key (inorder t) = Some a -> inorder t = l1 ++ a :: l2 -> pre = last l1) ->
  walks_in (moved (the_equal cmp key (inorder t)) pre s) (del_list cmp key (inorder t)).
Proof using laws.
  intros (_ & _ & _ & Hs) Hw Hpre. destruct (the_equal cmp key (inorder t)) as [a|] eqn:Ea.
  - destruct (equal_in _ _ _ Ea) as (l1 & l2 & Hin). specialize (Hpre a l1 l2 eq_refl Hin). rewrite Hin in Hs, Hw |- *.
    assert (cmp key a = 0) as Hc by (apply find_some in Ea as [_ Ea]; lia). destruct (equal_key cmp key _ _ _ Hs Hc) as (_ & _ & ->).
    intros x b Hx Hb. cbn in Hx. apply list_elem_of_fmap in Hx as (y & -> & Hy). unfold move in Hb. case_bool_decide as Hya.
    + cbn in Hb. subst pre. apply last_Some in Hb as [k ->]. rewrite !elem_of_app. left. right. by left.
    + specialize (Hw y b Hy Hb). rewrite !elem_of_app, elem_of_cons in *. destruct Hw as [|[->|]]; [by left|by rewrite Hb in Hya|by right].
  - intros x b Hx Hb. specialize (Hw x b Hx Hb). destruct (none_equal cmp key (inorder t)) as [_ ->]; [|done].
    intros y Hy. unfold the_equal in Ea. apply list_elem_of_In in Hy. pose proof (find_none _ _ Ea y Hy). cbn in *. lia.
Qed.

Lemma head_in (l : list nat) a : head l = Some a -> a ∈ l.
Proof using. clear laws cmp. destruct l; [done|]. intros [= ->]. by left. Qed.
Lemma last_in (l : list nat) a : last l = Some a -> a ∈ l.
Proof using. clear laws cmp. intros [k ->]%last_Some. apply elem_of_app. right. by left. Qed.

Lemma arun_ok op t s : tree_ok cmp t s -> walks_in s (inorder t) -> allowed s (inorder t) op ->
  exists r s' t', arun op s = (Ok r, s') /\ tree_ok cmp t' s' /\ inorder t' = effect op (inorder t) /\ walks_in s' (inorder t').
Proof using laws.
  intros Ht Hw Ha. destruct op as [new|key|key nb|w|w|w|w]; cbn [arun effect allowed] in *.
  - destruct Ha as (H1 & H2 & H3).
    destruct (wp_run_ok _ _ _ (insertavl_wp new t s (fun r s' => exists t' d, inserted cmp new t t' d /\ tree_ok cmp t' s' /\ walks s' = walks s) Ht H1 H2
      ltac:(intros s1 t1 d1 Hi1 Hok1 Hws1 _; exists t1, d1; done))) as (r & s' & E & t' & d & Hi & Ht' & Hws). pose proof Hi as (Hi' & _).
    exists r, s', t'. split; [exact E|]. split; [done|]. split; [done|]. intros x a Hx Hxa. rewrite Hws in Hx. rewrite Hi'.
    apply ins_keeps; [by eapply Hw|]. intros E'. by apply (H3 a x).
  - destruct (wp_run_ok _ _ _ (deleteavl_wp key t s (fun r s' => exists t', inorder t' = del_list cmp key (inorder t) /\ tree_ok cmp t' s' /\ walks_in s' (del_list cmp key (inorder t))) Ht
      ltac:(intros s' t' d pre Hp Hrm Hi Hok Hws _; exists t'; split; [done|]; split; [done|]; intros x a Hx; rewrite Hws in Hx; by apply (moved_in key t s pre))))
      as (r & s' & E & t' & Hi & Ht' & Hws). exists r, s', t'. rewrite Hi. done.
  - rewrite (searchavl_ok cmp _ _ _ _ Ht). by eexists _, s, t.
  - eexists _, _, t. split; [done|]. split; [done|]. split; [done|]. intros x a Hx Hxa. cbn in Hx. apply elem_of_cons in Hx as [->|Hx]; [done|by eapply Hw].
  - destruct Ha as (x & Hx & Hn). destruct (w_started x) eqn:Hst.
    + destruct (w_node x) as [a|] eqn:Ea; [|by destruct Hn]. assert (a ∈ inorder t) as Hin.
      { eapply Hw; [|exact Ea]. apply find_some in Hx as [Hx _]. by apply list_elem_of_In. }
      apply list_elem_of_split in Hin as (l1 & l2 & Hin). rewrite (avlnext_next _ _ _ _ _ _ _ Ht Hx Hst Ea Hin). eexists _, _, t. split; [done|]. split; [done|]. split; [done|].
      eapply walks_in_set; [done|exact Hx|]. cbn. intros b Hb%head_in. rewrite Hin, elem_of_app, elem_of_cons. auto.
    + rewrite (avlnext_first _ _ _ _ Ht Hx Hst). eexists _, _, t. split; [done|]. split; [done|]. split; [done|].
      eapply walks_in_set; [done|exact Hx|]. cbn. apply head_in.
  - destruct Ha as (x & Hx & Hn). assert (forall a, w_node x = Some a -> a ∈ inorder t) as Hxin.
    { intros a Ea. eapply Hw; [|exact Ea]. apply find_some in Hx as [Hx _]. by apply list_elem_of_In. }
    destruct (w_started x) eqn:Hst; [destruct (w_moved x) eqn:Hm|].
    + rewrite (avlprev_moved _ _ _ Hx Hst Hm). eexists _, _, t. split; [done|]. split; [done|]. split; [done|]. by eapply walks_in_set.
    + destruct (w_node x) as [a|] eqn:Ea; [|by destruct Hn]. destruct (list_elem_of_split _ _ (Hxin a eq_refl)) as (l1 & l2 & Hin).
      rewrite (avlprev_prev _ _ _ _ _ _ _ Ht Hx Hst Hm Ea Hin). eexists _, _, t. split; [done|]. split; [done|]. split; [done|].
      eapply walks_in_set; [done|exact Hx|]. cbn. intros b Hb%last_in. rewrite Hin, elem_of_app. auto.
    + rewrite (avlprev_first _ _ _ _ Ht Hx Hst). eexists _, _, t. split; [done|]. split; [done|]. split; [done|].
      eapply walks_in_set; [done|exact Hx|]. cbn. apply last_in.
  - destruct Ha as (x & Hx). unfold endwalk. rewrite (bind_ok _ _ _ _ _ (bind_ok _ _ _ _ _ (run_walk _ _ _ Hx))). cbn.
    eexists _, _, t. split; [done|]. split; [done|]. split; [done|]. intros y a Hy Hya. cbn in Hy. apply (Hw y a); [|done].
    clear -Hy. induction (walks s) as [|z l IH]; [done|]. cbn in Hy. destruct (w_id z =? w)%nat; [by right|].
    apply elem_of_cons in Hy as [->|Hy]; [by left|right; by apply IH].
Qed.
Lemma areach_ok s l : areach s l -> exists t, tree_ok cmp t s /\ inorder t = l /\ walks_in s l.
Proof using laws.
  induction 1 as [h s E|s l op r s' _ (t & Ht & <- & Hw) Ha E].
  - injection E as <-. exists AvlHeap.E. split; [by repeat constructor|]. split; [done|]. intros x a Hx. by apply elem_of_nil in Hx.
  - destruct (arun_ok op t s Ht Hw Ha) as (r' & s1 & t' & E' & Ht' & Hi & Hw'). rewrite E in E'. injection E' as -> ->. exists t'. rewrite <- Hi. done.
Qed.

(** ** Properties *)

(** C25. [insertavl] of a node that is not of the tree makes the tree of the
    sorted list with the node inserted, still balanced and at most one higher;
    it gives back the node it replaced, if one compared equal, and leaves walks
    and other nodes alone. *)
Theorem insertavl_inserts new t s :
  tree_ok cmp t s -> new ∉ inorder t -> is_Some (heap s !! new) ->
  exists t' s', insertavl cmp new s = (Ok (the_equal cmp new (inorder t)), s') /\ tree_ok cmp t' s' /\
    inorder t' = ins_list cmp new (inorder t) /\ height t <= height t' <= height t + 1 /\
    walks s' = walks s /\ others_kept s s' (new :: inorder t).
Proof using laws.
  intros Ht Hn Hnew.
  assert (wp (insertavl cmp new) (fun r s' => r = the_equal cmp new (inorder t) /\ exists t', tree_ok cmp t' s' /\ inorder t' = ins_list cmp new (inorder t) /\
    height t <= height t' <= height t + 1 /\ walks s' = walks s /\ others_kept s s' (new :: inorder t)) (fun _ _ => False) s) as W.
  { apply (insertavl_wp new t); [done..|]. intros s' t' d (I1 & I2 & I3 & I4) Hok Hw Ho. split; [done|]. exists t'.
    split; [done|]. split; [done|]. split; [lia|]. by split. }
  destruct (wp_run_ok _ _ _ W) as (r & s' & E & -> & t' & H). by exists t', s'.
Qed.

(** C26. [deleteavl] makes the tree of the sorted list without the node that
    compares equal to the key, still balanced and at most one lower, gives that
    node back, and moves the walks that were at it to the node before it, to
    their start if there is none. *)
Theorem deleteavl_deletes key t s :
  tree_ok cmp t s ->
  exists t' s', deleteavl cmp key s = (Ok (the_equal cmp key (inorder t)), s') /\ tree_ok cmp t' s' /\
    inorder t' = del_list cmp key (inorder t) /\ height t - 1 <= height t' <= height t /\ others_kept s s' (inorder t) /\
    walks s' = match the_equal cmp key (inorder t) with
               | Some a => move a (last (filter (fun b => cmp b a < 0) (inorder t))) <$> walks s
               | None => walks s
               end.
Proof using laws.
  intros Ht. assert (wp (deleteavl cmp key) (fun r s' => r = the_equal cmp key (inorder t) /\ exists t', tree_ok cmp t' s' /\
    inorder t' = del_list cmp key (inorder t) /\ height t - 1 <= height t' <= height t /\ others_kept s s' (inorder t) /\
    walks s' = match the_equal cmp key (inorder t) with
               | Some a => move a (last (filter (fun b => cmp b a < 0) (inorder t))) <$> walks s
               | None => walks s
               end) (fun _ _ => False) s) as W.
  { apply (deleteavl_wp key t); [done|]. intros s' t' d pre Hpre (R1 & R2 & R3) Hi Hok Hw Ho. split; [done|]. exists t'.
    split; [done|]. split; [done|]. split; [lia|]. split; [done|]. rewrite Hw. destruct (the_equal cmp key (inorder t)) as [a|] eqn:Ea; [|done].
    cbn. destruct (equal_in _ _ _ Ea) as (l1 & l2 & Hin). rewrite (Hpre a l1 l2 eq_refl Hin), Hin, (below_filter l1 a l2); [done|].
    rewrite <- Hin. apply Ht. }
  destruct (wp_run_ok _ _ _ W) as (r & s' & E & -> & t' & H). by exists t', s'.
Qed.

(** C27. [searchavl] gives what a scan of the sorted list finds: the node that
    compares equal to the key, and if there is none the greatest below it or
    the least above it, as [neighbor] asks; the store is as it was. *)
Theorem searchavl_equals_scan key neighbor t s :
  tree_ok cmp t s ->
  searchavl cmp key neighbor s = (Ok (answer cmp key neighbor (inorder t)), s) /\
  lookupavl cmp key s = (Ok (the_equal cmp key (inorder t)), s).
Proof using laws.
  intros Ht. split; [by apply searchavl_ok|]. change (lookupavl cmp key s) with (searchavl cmp key 0 s).
  rewrite (searchavl_ok cmp _ _ _ _ Ht). unfold answer. by destruct (the_equal cmp key (inorder t)).
Qed.


(** C24. Whatever the operations and walks, within what they ask of callers: the
    heap holds a balanced search tree with right parent pointers over exactly
    the nodes inserted and not deleted or replaced, its height at most twice the
    logarithm of their number; walks are at nodes of the tree; and the next
    operation allowed neither aborts nor follows a bad pointer. *)
Theorem avl_wellformed s l :
  areach s l ->
  (exists t, tree_ok cmp t s /\ inorder t = l /\ 2 ^ height t <= (zlen l + 1) * (zlen l + 1) /\ walks_in s l) /\
  forall op, allowed s l op -> exists r s', arun op s = (Ok r, s') /\ areach s' (effect op l).
Proof using laws.
  intros Hr. destruct (areach_ok s l Hr) as (t & Ht & Hi & Hw). split.
  - exists t. split; [done|]. split; [done|]. split; [|done]. rewrite <- Hi. apply avl_size, Ht.
  - intros op Ha. subst l. destruct (arun_ok op t s Ht Hw Ha) as (r & s' & t' & E & _). exists r, s'. split; [exact E|]. by eapply areach_step.
Qed.
End props.

(** ** Witnesses: nodes ordered by their addresses, but for the units digit *)

Definition cmp_ex (a b : nat) : Z := Z.of_nat (a / 10) - Z.of_nat (b / 10).
#[export] Instance cmp_ex_laws : CmpLaws cmp_ex.
Proof. split; intros; unfold cmp_ex in *; [rewrite <- Z.sgn_opp; f_equal|]; lia. Qed.

Definition heap_ex : gmap nat Avl := list_to_map ((fun a => (a, mkAvl None None None 0)) <$> [10; 20; 30; 40; 50; 60; 41]%nat).
Definition tree_ex : Avltree :=
  snd ((avlwalk (Some 7%nat);; insertavl cmp_ex 30;; insertavl cmp_ex 20;; insertavl cmp_ex 10;; insertavl cmp_ex 50;; insertavl cmp_ex 40)%nat (mkTree heap_ex None [])).
Definition shape_ex : tree := T (T E 10 0 E) 20 1 (T (T E 30 0 E) 40 0 (T E 50 0 E)).

Lemma tree_ex_ok : tree_ok cmp_ex shape_ex tree_ex.
Proof.
  split; [|split; [vm_compute; reflexivity|split]].
  - repeat (split; [vm_compute; reflexivity|]). done.
  - cbn. lia.
  - repeat (constructor; [|repeat (constructor; [vm_compute; reflexivity|]); constructor]). constructor.
Qed.

Lemma insertavl_inserts_witness :
  exists s', insertavl cmp_ex 41 tree_ex = (Ok (Some 40%nat), s') /\ exists t', tree_ok cmp_ex t' s' /\ inorder t' = [10; 20; 30; 41; 50]%nat.
Proof.
  assert (41%nat ∉ inorder shape_ex) as H1 by (apply (bool_decide_unpack _); vm_compute; exact I).
  assert (is_Some (heap tree_ex !! 41%nat)) as H2 by (eexists; vm_compute; reflexivity).
  destruct (insertavl_inserts cmp_ex 41 shape_ex tree_ex tree_ex_ok H1 H2) as (t' & s' & E & Ht & Hi & _).
  exists s'. split; [exact E|]. exists t'. split; [exact Ht|exact Hi].
Defined.

Lemma deleteavl_deletes_witness :
  exists s', deleteavl cmp_ex 20 tree_ex = (Ok (Some 20%nat), s') /\ exists t', tree_ok cmp_ex t' s' /\ inorder t' = [10; 30; 40; 50]%nat.
Proof.
  destruct (deleteavl_deletes cmp_ex 20 shape_ex tree_ex tree_ex_ok) as (t' & s' & E & Ht & Hi & _).
  exists s'. split; [exact E|]. exists t'. split; [exact Ht|exact Hi].
Defined.

Lemma searchavl_equals_scan_witness :
  searchavl cmp_ex 65 (-1) tree_ex = (Ok (Some 50%nat), tree_ex) /\ lookupavl cmp_ex 65 tree_ex = (Ok None, tree_ex).
Proof. exact (searchavl_equals_scan cmp_ex 65 (-1) shape_ex tree_ex tree_ex_ok). Defined.


Lemma avl_wellformed_witness :
  exists s r s', areach cmp_ex s [10; 20]%nat /\ arun cmp_ex (ODelete 20) s = (Ok r, s') /\ areach cmp_ex s' [10]%nat.
Proof.
  assert (areach cmp_ex (mkTree heap_ex None []) []) as H0 by (by eapply areach_init).
  assert (forall a, is_Some (heap_ex !! a) -> allowed cmp_ex (mkTree heap_ex None []) [] (OInsert a)) as Hal.
  { intros a Ha. split; [apply not_elem_of_nil|]. split; [exact Ha|]. intros b x Hb. discriminate. }
  destruct (insertavl cmp_ex 20 (mkTree heap_ex None [])) as [r1 s1] eqn:E1.
  assert (r1 = Ok None) as -> by (apply (f_equal fst) in E1; vm_compute in E1; exact (eq_sym E1)).
  pose proof (areach_step cmp_ex _ _ (OInsert 20) _ _ H0 (Hal 20%nat ltac:(eexists; vm_compute; reflexivity)) E1) as H1.
  assert (is_Some (heap s1 !! 10%nat)) as Hs by (apply (f_equal snd) in E1; cbn [snd] in E1; rewrite <- E1; eexists; vm_compute; reflexivity).
  assert (walks s1 = []) as Hw by (apply (f_equal snd) in E1; cbn [snd] in E1; rewrite <- E1; vm_compute; reflexivity). clear E1 Hal H0.
  destruct (avl_wellformed cmp_ex s1 _ H1) as [_ Hstep]. destruct (Hstep (OInsert 10)) as (r2 & s2 & _ & H2).
  { split; [cbn; intros H; apply elem_of_cons in H as [H|H]; [discriminate|by apply elem_of_nil in H]|]. split; [exact Hs|].
    intros a x _ Hx. rewrite Hw in Hx. by apply elem_of_nil in Hx. }
  destruct (avl_wellformed cmp_ex s2 _ H2) as [_ Hstep2]. destruct (Hstep2 (ODelete 20) I) as (r3 & s3 & E3 & H3).
  exists s2, r3, s3. split; [exact H2|]. split; [exact E3|exact H3].
Defined.

(** A walk that a deletion moved and [avlnext] took on gives the same node again
    when it is taken back: [avlnext] does not clear [moved]. *)
Lemma avlprev_repeats :
  fst ((avlnext 7;; avlnext 7;; deleteavl cmp_ex 20;; avlnext 7 ≫= fun a => avlprev 7 ≫= fun b => mret (a, b)) tree_ex) = Ok (Some 30%nat, Some 30%nat).
Proof. vm_compute. reflexivity. Qed.
