(* ===== verification/Utf.v ===== *)
(** * UTF-8 in the C library: the code

    [lib/c/port/rune.c], [utflen.c], [utfnlen.c], [utfrune.c], [utfrrune.c],
    [utfutf.c], [utfecpy.c] and the byte-string functions they call
    ([strchr.c], [strrchr.c], [strstr.c], [strncmp.c], [strlen.c],
    [memccpy.c]).  A pointer into a string that is only read is the list of
    the bytes from it to the end of its object, so [s++] is the tail; [None] is
    a read or a write outside the object, and [Some None] the nil pointer. *)
From S2P Require Import Prelude.

Definition UTFmax : Z := 4.
Definition Runesync : Z := 0x80.
Definition Runeself : Z := 0x80.
Definition Runeerror : Z := 0xFFFD.
Definition Runemax : Z := 0x10FFFF.

(** ** rune.c *)

Definition Bit (i : Z) : Z := 7 - i.
(** N 0's preceded by i 1's, [T 2] is 1100 0000 *)
Definition T (i : Z) : Z := Z.lxor (Z.shiftl 1 (Bit i + 1) - 1) 0xFF.
Definition Bitx : Z := Bit 1.
(** 0000 0000 0000 0111 1111 1111 *)
Definition RuneX (i : Z) : Z := Z.shiftl 1 (Bit i + (i - 1) * Bitx) - 1.
Definition Tx : Z := T 1.
Definition Rune1 : Z := Z.shiftl 1 (Bit 0 + 0 * Bitx) - 1.
Definition Maskx : Z := Z.shiftl 1 Bitx - 1.
Definition Testx : Z := Z.lxor Maskx 0xFF.
Definition SurrogateMin : Z := 0xD800.
Definition SurrogateMax : Z := 0xDFFF.
Definition Bad : Z := Runeerror.

(** The iterations [i], [i+1], ... of the loop of [chartorune]; [fuel] is
    [UTFmax - i].  The result is the rune stored through the pointer and the
    value returned. *)
Fixpoint chartorune_loop (fuel : nat) (i c0 l : Z) (str : list Z) : option (Z * Z) :=
  match fuel with
  | O => Some (Bad, 1)
  | S fuel =>
    ci ← zget str i;
    let ci := Z.lxor ci Tx in
    if negb (Z.land ci Testx =? 0) then Some (Bad, 1) else
    let l := Z.lor (u32 (Z.shiftl l Bitx)) ci in
    if c0 <? T (i + 2) then
      let l := Z.land l (RuneX (i + 1)) in
      if (if i =? 1 then (c0 <? T 2) || (l <=? Rune1)
          else (l <=? RuneX i) || (Runemax <? l)) then Some (Bad, 1)
      else if (i =? 2) && ((SurrogateMin <=? l) && (l <=? SurrogateMax)) then Some (Bad, 1)
      else Some (l, i + 1)
    else chartorune_loop fuel (i + 1) c0 l str
  end.

Definition chartorune (str : list Z) : option (Z * Z) :=
  c0 ← zget str 0;
  if c0 <? Tx then Some (c0, 1)
  else chartorune_loop (Z.to_nat (UTFmax - 1)) 1 c0 c0 str.

(** [str[j] = v], a [char]. *)
Definition strput (str : list Z) (j v : Z) : option (list Z) :=
  if (0 <=? j) && (j <? zlen str) then Some (<[Z.to_nat j := u8 v]> str) else None.

(** [for(; j < i; j++) str[j] = Tx | ...]; [fuel] is [i - j]. *)
Fixpoint runetochar_tail (fuel : nat) (j i c : Z) (str : list Z) : option (list Z) :=
  match fuel with
  | O => Some str
  | S fuel =>
    str ← strput str j (Z.lor Tx (Z.land (Z.shiftr c ((i - j - 1) * Bitx)) Maskx));
    runetochar_tail fuel (j + 1) i c str
  end.

(** The iterations [i], [i+1], ... of the loop of [runetochar]. *)
Fixpoint runetochar_loop (fuel : nat) (i c : Z) (str : list Z) : option (Z * list Z) :=
  match fuel with
  | O => Some (UTFmax, str)
  | S fuel =>
    let c := if i =? 3 then
               let c := if Runemax <? c then Runeerror else c in
               if (SurrogateMin <=? c) && (c <=? SurrogateMax) then Runeerror else c
             else c in
    if (c <=? RuneX i) || (i =? UTFmax) then
      str ← strput str 0 (Z.lor (T i) (Z.shiftr c ((i - 1) * Bitx)));
      str ← runetochar_tail (Z.to_nat (i - 1)) 1 i c str;
      Some (i, str)
    else runetochar_loop fuel (i + 1) c str
  end.

Definition runetochar (str : list Z) (rune : Z) : option (Z * list Z) :=
  let c := rune in
  if c <=? Rune1 then str ← strput str 0 c; Some (1, str)
  else runetochar_loop (Z.to_nat (UTFmax - 1)) 2 c str.

(** [char str[10]], whose contents do not matter. *)
Definition runelen (c : Z) : option Z := fst <$> runetochar (replicate 10 0) c.

(** The inner loop of [runenlen]: what one rune adds to [nb]. *)
Fixpoint runenlen_add (fuel : nat) (i c : Z) : Z :=
  match fuel with
  | O => 0
  | S fuel => if (c <=? RuneX i) || (i =? UTFmax) then i else runenlen_add fuel (i + 1) c
  end.

Fixpoint runenlen_loop (nrune : nat) (nb : Z) (r : list Z) : option Z :=
  match nrune with
  | O => Some nb
  | S nrune =>
    c ← head r;
    runenlen_loop nrune
      (i32 (nb + if c <=? Rune1 then 1 else runenlen_add (Z.to_nat (UTFmax - 1)) 2 c)) (tail r)
  end.

(** A negative count does not end the loop of [runenlen]: [nrune] is at least 0. *)
Definition runenlen (r : list Z) (nrune : Z) : option Z :=
  if nrune <? 0 then None else runenlen_loop (Z.to_nat nrune) 0 r.

(** The loop of [fullrune], from [i]. *)
Fixpoint fullrune_loop (fuel : nat) (i c n : Z) : Z :=
  match fuel with
  | O => Z.b2z (UTFmax <=? n)
  | S fuel => if c <? T i then Z.b2z (i - 1 <=? n) else fullrune_loop fuel (i + 1) c n
  end.

Definition fullrune (str : list Z) (n : Z) : option Z :=
  if n <=? 0 then Some 0 else
  c ← zget str 0;
  Some (if c <? Tx then 1 else fullrune_loop (Z.to_nat (UTFmax - 2)) 3 c n).

(** ** Byte strings

    Loops consume the string they read; the fuel of the other loops is one more
    than the length of the string, which every iteration shortens. *)

(** [while ( *s++ ;)] then [s - 1]. *)
Fixpoint strchr_end (s : list Z) : option (list Z) :=
  match s with
  | [] => None
  | b :: s' => if b =? 0 then Some s else strchr_end s'
  end.
(** [while(c1 = *s++) if(c1 == c0) return s-1;] *)
Fixpoint strchr_loop (s : list Z) (c0 : Z) : option (option (list Z)) :=
  match s with
  | [] => None
  | c1 :: s' => if c1 =? 0 then Some None else if c1 =? c0 then Some (Some s) else strchr_loop s' c0
  end.
(** Signed [char]s are equal when the bytes are: [char c0 = c] is [u8]. *)
Definition strchr (s : list Z) (c : Z) : option (option (list Z)) :=
  if c =? 0 then p ← strchr_end s; Some (Some p) else strchr_loop s (u8 c).

(** [while(s = strchr(s, c)) r = s++;] *)
Fixpoint strrchr_loop (fuel : nat) (s : list Z) (c : Z) (r : option (list Z)) : option (option (list Z)) :=
  match fuel with
  | O => None
  | S fuel =>
    p ← strchr s c;
    match p with
    | None => Some r
    | Some p => strrchr_loop fuel (tail p) c (Some p)
    end
  end.
Definition strrchr (s : list Z) (c : Z) : option (option (list Z)) :=
  if c =? 0 then strchr s 0 else strrchr_loop (S (length s)) s c None.

Definition strlen (s : list Z) : option Z :=
  p ← strchr s 0;
  match p with Some p => Some (i32 (zlen s - zlen p)) | None => None end.

(** The inner loop of [strstr]: [pb] against the bytes after [pa]; whether the
    end of the pattern is reached. *)
Fixpoint strstr_match (pb pa : list Z) : option bool :=
  match pb with
  | [] => None
  | c :: pb =>
    if c =? 0 then Some true else
    a ← head (tail pa);
    if c =? a then strstr_match pb (tail pa) else Some false
  end.
Fixpoint strstr_loop (fuel : nat) (p : option (list Z)) (c0 : Z) (s2 : list Z) : option (option (list Z)) :=
  match fuel with
  | O => None
  | S fuel =>
    match p with
    | None => Some None
    | Some p =>
      b ← strstr_match s2 p;
      if b : bool then Some (Some p) else
      q ← strchr (tail p) c0; strstr_loop fuel q c0 s2
    end
  end.
Definition strstr (s1 s2 : list Z) : option (option (list Z)) :=
  c0 ← head s2;
  if c0 =? 0 then Some (Some s1) else
  p ← strchr s1 c0; strstr_loop (S (length s1)) p c0 (tail s2).

(** The loop of [strncmp]; [n] is what remains to compare. *)
Fixpoint strncmp_loop (n : nat) (s1 s2 : list Z) : option Z :=
  match n with
  | O => Some 0
  | S n =>
    c1 ← head s1; c2 ← head s2;
    if negb (c1 =? c2) then Some (if c2 <? c1 then 1 else -1)
    else if c1 =? 0 then Some 0
    else strncmp_loop n (tail s1) (tail s2)
  end.
Definition strncmp (s1 s2 : list Z) (n : Z) : option Z := strncmp_loop (Z.to_nat n) s1 s2.

(** [memccpy(a1, a2, c, n)]: [a1] is the object the copy goes to, from the
    pointer; the result is that object and the offset of the pointer returned. *)
Fixpoint memccpy_loop (n : nat) (i : Z) (a1 s2 : list Z) (c : Z) : option (option Z * list Z) :=
  match n with
  | O => Some (None, a1)
  | S n =>
    b ← head s2;
    a1 ← strput a1 i b;
    if b =? c then Some (Some (i + 1), a1) else memccpy_loop n (i + 1) a1 (tail s2) c
  end.
Definition memccpy (a1 a2 : list Z) (c n : Z) : option (option Z * list Z) :=
  memccpy_loop (Z.to_nat (u32 n)) 0 a1 a2 (Z.land c 0xFF).

(** ** utf*.c *)

Fixpoint utflen_loop (fuel : nat) (s : list Z) (n : Z) : option Z :=
  match fuel with
  | O => None
  | S fuel =>
    c ← head s;
    if c <? Runeself then
      if c =? 0 then Some n else utflen_loop fuel (tail s) (i32 (n + 1))
    else
      '(_, w) ← chartorune s;
      utflen_loop fuel (drop (Z.to_nat w) s) (i32 (n + 1))
  end.
Definition utflen (s : list Z) : option Z := utflen_loop (S (length s)) s 0.

(** [left] is [es - s]. *)
Fixpoint utfnlen_loop (fuel : nat) (s : list Z) (left n : Z) : option Z :=
  match fuel with
  | O => None
  | S fuel =>
    if negb (0 <? left) then Some n else
    c ← head s;
    if c <? Runeself then
      if c =? 0 then Some n else utfnlen_loop fuel (tail s) (left - 1) (i32 (n + 1))
    else
      f ← fullrune s (i32 left);
      if f =? 0 then Some n else
      '(_, w) ← chartorune s;
      utfnlen_loop fuel (drop (Z.to_nat w) s) (left - w) (i32 (n + 1))
  end.
Definition utfnlen (s : list Z) (m : Z) : option Z := utfnlen_loop (S (length s)) s m 0.

Fixpoint utfrune_loop (fuel : nat) (s : list Z) (c : Z) : option (option (list Z)) :=
  match fuel with
  | O => None
  | S fuel =>
    c1 ← head s;
    if c1 <? Runeself then
      if c1 =? 0 then Some None
      else if c1 =? c then Some (Some s)
      else utfrune_loop fuel (tail s) c
    else
      '(r, n) ← chartorune s;
      if r =? c then Some (Some s) else utfrune_loop fuel (drop (Z.to_nat n) s) c
  end.
Definition utfrune (s : list Z) (c : Z) : option (option (list Z)) :=
  if c <? Runesync then strchr s c else utfrune_loop (S (length s)) s c.

Fixpoint utfrrune_loop (fuel : nat) (s : list Z) (c : Z) (s1 : option (list Z)) : option (option (list Z)) :=
  match fuel with
  | O => None
  | S fuel =>
    c1 ← head s;
    if c1 <? Runeself then
      if c1 =? 0 then Some s1
      else utfrrune_loop fuel (tail s) c (if c1 =? c then Some s else s1)
    else
      '(r, c1) ← chartorune s;
      utfrrune_loop fuel (drop (Z.to_nat c1) s) c (if r =? c then Some s else s1)
  end.
Definition utfrrune (s : list Z) (c : Z) : option (option (list Z)) :=
  if c <? Runesync then strrchr s c else utfrrune_loop (S (length s)) s c None.

(** [for(p = s1; p = utfrune(p, f); p += n1) ...] *)
Fixpoint utfutf_loop (fuel : nat) (p s2 : list Z) (f n1 n2 : Z) : option (option (list Z)) :=
  match fuel with
  | O => None
  | S fuel =>
    q ← utfrune p f;
    match q with
    | None => Some None
    | Some p =>
      d ← strncmp p s2 n2;
      if d =? 0 then Some (Some p) else utfutf_loop fuel (drop (Z.to_nat n1) p) s2 f n1 n2
    end
  end.
Definition utfutf (s1 s2 : list Z) : option (option (list Z)) :=
  '(r, n1) ← chartorune s2;
  let f := i32 r in
  if f <=? Runesync then strstr s1 s2 else
  n2 ← strlen s2;
  utfutf_loop (S (length s1)) s1 s2 f n1 n2.

(** [while(end>to && ( *--end & 0xC0)==0x80);]: [n] is [end - to]. *)
Fixpoint utfecpy_back (n : nat) (to : list Z) : option Z :=
  match n with
  | O => Some 0
  | S n => b ← to !! n; if Z.land b 0xC0 =? 0x80 then utfecpy_back n to else Some (Z.of_nat n)
  end.

(** [to] is the object from the pointer [to], [e] the offset [e - to]; the
    result is the offset of the pointer returned and the object. *)
Definition utfecpy (to : list Z) (e : Z) (from : list Z) : option (Z * list Z) :=
  if e <=? 0 then Some (0, to) else
  '(end_, to) ← memccpy to from 0 e;
  match end_ with
  | None => end_ ← utfecpy_back (Z.to_nat e) to; to ← strput to end_ 0; Some (end_, to)
  | Some end_ => Some (end_ - 1, to)
  end.
