(* ===== verification/UtfThms.v ===== *)
(** * UTF-8 in the C library: runes

    The reference encoding of a code point ([utf8], quotients and remainders)
    and the reference decoder ([decode1], the table of well-formed byte
    sequences of the Unicode standard), and what [chartorune], [runetochar],
    [fullrune], [runelen] and [runenlen] have to do with them. *)
From S2P Require Import Prelude Utf.

Definition byte (b : Z) : Prop := 0 <= b < 256.
Definition bytes (t : list Z) : Prop := Forall byte t.

(** ** The reference *)

(** A code point that is not half of a surrogate pair. *)
Definition scalar (c : Z) : Prop := 0 <= c <= 0x10FFFF /\ ~ (0xD800 <= c <= 0xDFFF).
#[export] Instance scalar_dec c : Decision (scalar c) := _.

Definition utf8 (c : Z) : list Z :=
  if c <? 0x80 then [c]
  else if c <? 0x800 then [0xC0 + c / 64; 0x80 + c mod 64]
  else if c <? 0x10000 then [0xE0 + c / 4096; 0x80 + c / 64 mod 64; 0x80 + c mod 64]
  else [0xF0 + c / 262144; 0x80 + c / 4096 mod 64; 0x80 + c / 64 mod 64; 0x80 + c mod 64].

Definition within (lo b hi : Z) : bool := (lo <=? b) && (b <=? hi).
(** A byte that continues a sequence. *)
Definition cont (b : Z) : bool := within 0x80 b 0xBF.

(** The table of well-formed sequences: what may follow the first byte. *)
Definition decode1 (t : list Z) : Z * Z :=
  let bad := (0xFFFD, 1) in
  match t with
  | [] => bad
  | b0 :: t =>
    if b0 <? 0x80 then (b0, 1)
    else if within 0xC2 b0 0xDF then
      match t with
      | b1 :: _ => if cont b1 then ((b0 - 0xC0) * 64 + (b1 - 0x80), 2) else bad
      | _ => bad
      end
    else if within 0xE0 b0 0xEF then
      match t with
      | b1 :: b2 :: _ =>
        if within (if b0 =? 0xE0 then 0xA0 else 0x80) b1 (if b0 =? 0xED then 0x9F else 0xBF) && cont b2
        then ((b0 - 0xE0) * 4096 + (b1 - 0x80) * 64 + (b2 - 0x80), 3) else bad
      | _ => bad
      end
    else if within 0xF0 b0 0xF4 then
      match t with
      | b1 :: b2 :: b3 :: _ =>
        if within (if b0 =? 0xF0 then 0x90 else 0x80) b1 (if b0 =? 0xF4 then 0x8F else 0xBF)
           && cont b2 && cont b3
        then ((b0 - 0xF0) * 262144 + (b1 - 0x80) * 4096 + (b2 - 0x80) * 64 + (b3 - 0x80), 4) else bad
      | _ => bad
      end
    else bad
  end.

(** ** Bytes *)

Lemma byte_check (P : Z -> bool) b :
  forallb P (seqZ 0 256) = true -> byte b -> P b = true.
Proof.
  intros H Hb. rewrite forallb_forall in H. apply H, list_elem_of_In, elem_of_seqZ.
  unfold byte in Hb. lia.
Qed.

Lemma cont_test b : byte b -> negb (Z.land (Z.lxor b Tx) Testx =? 0) = negb (cont b).
Proof.
  intros Hb. apply (byte_check (fun b => eqb (negb (Z.land (Z.lxor b Tx) Testx =? 0)) (negb (cont b)))) in Hb;
    [|vm_compute; reflexivity]. by apply eqb_prop.
Qed.
Lemma cont_xor b : byte b -> cont b = true -> Z.lxor b Tx = b - 0x80.
Proof.
  intros Hb Hc.
  apply (byte_check (fun b => if cont b then Z.lxor b Tx =? b - 0x80 else true)) in Hb;
    [|vm_compute; reflexivity]. rewrite Hc in Hb. by apply Z.eqb_eq.
Qed.

Lemma land_RuneX l k n : RuneX k = 2 ^ n - 1 -> 0 <= n -> Z.land l (RuneX k) = l mod 2 ^ n.
Proof. intros -> Hn. rewrite Z.sub_1_r, <- Z.ones_equiv. by apply Z.land_ones. Qed.

Ltac zbool :=
  repeat (match goal with
    | |- context [?a =? ?b] => destruct (Z.eqb_spec a b)
    | |- context [?a <? ?b] => destruct (Z.ltb_spec a b)
    | |- context [?a <=? ?b] => destruct (Z.leb_spec a b)
    end; try lia; cbv iota; try lia); cbn [andb orb negb].

(** One iteration of the loop of [chartorune] in arithmetic. *)
Lemma chartorune_step fuel i c0 l str b :
  zget str i = Some b -> byte b -> 0 <= l < 2 ^ 26 ->
  chartorune_loop (S fuel) i c0 l str =
    if negb (cont b) then Some (Bad, 1) else
    let l := l * 64 + (b - 0x80) in
    if c0 <? T (i + 2) then
      let l := Z.land l (RuneX (i + 1)) in
      if (if i =? 1 then (c0 <? T 2) || (l <=? Rune1)
          else (l <=? RuneX i) || (Runemax <? l)) then Some (Bad, 1)
      else if (i =? 2) && ((SurrogateMin <=? l) && (l <=? SurrogateMax)) then Some (Bad, 1)
      else Some (l, i + 1)
    else chartorune_loop fuel (i + 1) c0 l str.
Proof.
  intros Hb Hbyte Hl. cbn [chartorune_loop]. rewrite Hb. cbn [mbind option_bind].
  rewrite (cont_test b Hbyte). destruct (cont b) eqn:Hc; [|done]. cbn [negb].
  rewrite (cont_xor b Hbyte Hc).
  assert (E : Z.lor (u32 (Z.shiftl l Bitx)) (b - 128) = l * 64 + (b - 128)); [|by rewrite E].
  unfold cont, within in Hc. change Bitx with 6. rewrite Z.shiftl_mul_pow2 by lia.
  rewrite u32_id by (change (2 ^ 6) with 64; lia).
  rewrite <- Z.shiftl_mul_pow2 by lia. rewrite Z.lor_comm, lor_shiftl_add by lia. lia.
Qed.

Lemma T3 : T 3 = 0xE0. Proof. done. Qed.
Lemma T4 : T 4 = 0xF0. Proof. done. Qed.
Lemma T5 : T 5 = 0xF8. Proof. done. Qed.
Lemma RuneX2 l : Z.land l (RuneX 2) = l mod 0x800.
Proof. by rewrite (land_RuneX l 2 11). Qed.
Lemma RuneX3 l : Z.land l (RuneX 3) = l mod 0x10000.
Proof. by rewrite (land_RuneX l 3 16). Qed.
Lemma RuneX4 l : Z.land l (RuneX 4) = l mod 0x200000.
Proof. by rewrite (land_RuneX l 4 21). Qed.

(** The result by the number of bytes it looks at. *)
Definition step4 (b0 b1 b2 b3 : Z) : Z * Z :=
  if negb (cont b3) || (0xF8 <=? b0) then (Bad, 1) else
  let l := (b0 * 262144 + (b1 - 0x80) * 4096 + (b2 - 0x80) * 64 + (b3 - 0x80)) mod 0x200000 in
  if (l <=? 0xFFFF) || (Runemax <? l) then (Bad, 1) else (l, 4).
Definition step3 (b0 b1 b2 : Z) : Z * Z :=
  let l := (b0 * 4096 + (b1 - 0x80) * 64 + (b2 - 0x80)) mod 0x10000 in
  if ((l <=? 0x7FF) || (Runemax <? l)) || ((SurrogateMin <=? l) && (l <=? SurrogateMax)) then (Bad, 1) else (l, 3).
Definition step2 (b0 b1 : Z) : Z * Z :=
  let l := (b0 * 64 + (b1 - 0x80)) mod 0x800 in
  if (b0 <? 0xC0) || (l <=? 0x7F) then (Bad, 1) else (l, 2).

Lemma chartorune_4 b0 s :
  byte b0 -> bytes s -> 0x80 <= b0 ->
  chartorune (b0 :: s) =
    b1 ← zget s 0;
    if negb (cont b1) then Some (Bad, 1) else
    if b0 <? 0xE0 then Some (step2 b0 b1) else
    b2 ← zget s 1;
    if negb (cont b2) then Some (Bad, 1) else
    if b0 <? 0xF0 then Some (step3 b0 b1 b2) else
    b3 ← zget s 2; Some (step4 b0 b1 b2 b3).
Proof.
  intros H0 Hs H8. unfold byte in H0.
  assert (Hz : forall i b, zget s i = Some b -> byte b).
  { intros i b Hi. unfold zget in Hi. case_match; [done|]. exact (Forall_lookup_1 _ _ _ _ Hs Hi). }
  assert (Hc : forall b, cont b = true -> 0x80 <= b <= 0xBF).
  { intros b Hb. unfold cont, within in Hb. lia. }
  unfold chartorune. change (zget (b0 :: s) 0) with (Some b0). cbn [mbind option_bind].
  change (b0 <? Tx) with (b0 <? 128). destruct (Z.ltb_spec b0 128); [lia|].
  change (Z.to_nat (UTFmax - 1)) with 3%nat.
  destruct (zget s 0) as [b1|] eqn:E1; cbn [mbind option_bind].
  2:{ cbn [chartorune_loop]. change (zget (b0 :: s) 1) with (zget s 0). by rewrite E1. }
  rewrite (chartorune_step _ _ _ _ _ b1) by (first [exact E1 | by eapply Hz | unfold byte in *; lia]).
  destruct (cont b1) eqn:C1; [|done]. pose proof (Hc _ C1). cbn [negb]. cbv zeta.
  change (1 + 2) with 3. rewrite T3. change (1 =? 1) with true. change (1 + 1) with 2. cbv iota.
  destruct (Z.ltb_spec b0 0xE0).
  { rewrite RuneX2. change (T 2) with 0xC0. change Rune1 with 0x7F. unfold step2. cbv zeta.
    by destruct (_ || _). }
  destruct (zget s 1) as [b2|] eqn:E2; cbn [mbind option_bind].
  2:{ cbn [chartorune_loop]. change (zget (b0 :: s) 2) with (zget s 1). by rewrite E2. }
  rewrite (chartorune_step _ _ _ _ _ b2) by (first [exact E2 | by eapply Hz | unfold byte in *; lia]).
  destruct (cont b2) eqn:C2; [|done]. pose proof (Hc _ C2). cbn [negb]. cbv zeta.
  change (2 + 2) with 4. rewrite T4. change (2 =? 1) with false. change (2 =? 2) with true. change (2 + 1) with 3. cbv iota.
  destruct (Z.ltb_spec b0 0xF0).
  { rewrite RuneX3. change (RuneX 2) with 0x7FF. unfold step3. cbv zeta.
    replace ((b0 * 64 + (b1 - 128)) * 64 + (b2 - 128)) with (b0 * 4096 + (b1 - 128) * 64 + (b2 - 128)) by lia.
    destruct (_ || _); [done|]. cbn [orb]. by destruct (_ && _). }
  destruct (zget s 2) as [b3|] eqn:E3; cbn [mbind option_bind].
  2:{ cbn [chartorune_loop]. change (zget (b0 :: s) 3) with (zget s 2). by rewrite E3. }
  rewrite (chartorune_step _ _ _ _ _ b3) by (first [exact E3 | by eapply Hz | unfold byte in *; lia]). unfold step4.
  destruct (cont b3) eqn:C3; [|done]. pose proof (Hc _ C3). cbn [negb orb]. cbv zeta.
  change (3 + 2) with 5. rewrite T5. change (3 =? 1) with false. change (3 =? 2) with false. change (3 + 1) with 4. cbv iota.
  destruct (Z.leb_spec 0xF8 b0); destruct (Z.ltb_spec b0 0xF8); try lia; [done|].
  rewrite RuneX4. change (RuneX 3) with 0xFFFF. 
  replace (((b0 * 64 + (b1 - 128)) * 64 + (b2 - 128)) * 64 + (b3 - 128))
    with (b0 * 262144 + (b1 - 128) * 4096 + (b2 - 128) * 64 + (b3 - 128)) by lia.
  cbn [andb]. by destruct (_ || _).
Qed.

Lemma within_true lo b hi : lo <= b <= hi -> within lo b hi = true.
Proof. unfold within. lia. Qed.
Lemma within_false lo b hi : b < lo \/ hi < b -> within lo b hi = false.
Proof. unfold within. lia. Qed.
Lemma cont_inv b : cont b = true -> 0x80 <= b <= 0xBF.
Proof. unfold cont, within. lia. Qed.
Lemma cont_inv_false b : cont b = false -> b < 0x80 \/ 0xBF < b.
Proof. unfold cont, within. lia. Qed.
Lemma cont_true b : 0x80 <= b <= 0xBF -> cont b = true.
Proof. unfold cont, within. lia. Qed.

Lemma step2_table b0 b1 :
  0x80 <= b0 < 0xE0 -> cont b1 = true ->
  step2 b0 b1 = if within 0xC2 b0 0xDF then ((b0 - 0xC0) * 64 + (b1 - 0x80), 2) else (Bad, 1).
Proof.
  intros H0 H1%cont_inv. unfold step2, within. cbv zeta.
  destruct (Z.ltb_spec b0 0xC0); [by zbool|].
  replace ((b0 * 64 + (b1 - 0x80)) mod 0x800) with ((b0 - 0xC0) * 64 + (b1 - 0x80)) by dlia.
  by zbool.
Qed.

Lemma step3_table b0 b1 b2 :
  0xE0 <= b0 < 0xF0 -> cont b1 = true -> cont b2 = true ->
  step3 b0 b1 b2 =
    if within (if b0 =? 0xE0 then 0xA0 else 0x80) b1 (if b0 =? 0xED then 0x9F else 0xBF)
    then ((b0 - 0xE0) * 4096 + (b1 - 0x80) * 64 + (b2 - 0x80), 3) else (Bad, 1).
Proof.
  intros H0 H1%cont_inv H2%cont_inv. unfold step3, within, SurrogateMin, SurrogateMax, Runemax. cbv zeta.
  replace ((b0 * 4096 + (b1 - 128) * 64 + (b2 - 128)) mod 0x10000)
    with ((b0 - 0xE0) * 4096 + (b1 - 0x80) * 64 + (b2 - 0x80)) by dlia.
  by zbool.
Qed.

Lemma step4_table b0 b1 b2 b3 :
  0xF0 <= b0 < 256 -> cont b1 = true -> cont b2 = true ->
  step4 b0 b1 b2 b3 =
    if within 0xF0 b0 0xF4 then
      if within (if b0 =? 0xF0 then 0x90 else 0x80) b1 (if b0 =? 0xF4 then 0x8F else 0xBF) && cont b3
      then ((b0 - 0xF0) * 262144 + (b1 - 0x80) * 4096 + (b2 - 0x80) * 64 + (b3 - 0x80), 4) else (Bad, 1)
    else (Bad, 1).
Proof.
  intros H0 H1%cont_inv H2%cont_inv. unfold step4, Runemax.
  destruct (cont b3) eqn:H3; cbn [negb orb andb]; [|rewrite andb_false_r; by destruct (within _ _ _)].
  apply cont_inv in H3. rewrite andb_true_r. unfold within. cbv zeta.
  destruct (Z.leb_spec 0xF8 b0); [by zbool|].
  replace ((b0 * 262144 + (b1 - 128) * 4096 + (b2 - 128) * 64 + (b3 - 128)) mod 0x200000)
    with ((b0 - 0xF0) * 262144 + (b1 - 0x80) * 4096 + (b2 - 0x80) * 64 + (b3 - 0x80)) by dlia.
  by zbool.
Qed.

(** What the first byte asks to be read at most. *)
Definition wants (b0 : Z) : Z :=
  if b0 <? 0x80 then 1 else if b0 <? 0xE0 then 2 else if b0 <? 0xF0 then 3 else 4.

Lemma decode1_bad1 b0 s b1 : zget s 0 = Some b1 -> 0x80 <= b0 -> cont b1 = false -> decode1 (b0 :: s) = (Bad, 1).
Proof.
  destruct s as [|x [|b2 [|b3 s]]]; intros E H0 H1; [done|injection E as ->..];
    pose proof (cont_inv_false _ H1); cbn [decode1]; rewrite ?H1;
    unfold cont, within in *; by zbool.
Qed.
Lemma decode1_bad2 b0 s b1 b2 :
  zget s 0 = Some b1 -> zget s 1 = Some b2 -> 0xE0 <= b0 -> cont b2 = false -> decode1 (b0 :: s) = (Bad, 1).
Proof.
  destruct s as [|x [|y [|b3 s]]]; intros E E2 H0 H1; [done|done|injection E as ->; injection E2 as ->..];
    pose proof (cont_inv_false _ H1); cbn [decode1]; rewrite ?H1, ?andb_false_r; cbn [andb];
    unfold within in *; by zbool.
Qed.

(** A sequence long enough for its first byte is decoded by the table. *)
Lemma chartorune_long b0 s :
  bytes (b0 :: s) -> wants b0 <= zlen (b0 :: s) -> chartorune (b0 :: s) = Some (decode1 (b0 :: s)).
Proof.
  intros Hb Hw. apply Forall_cons_1 in Hb as [H0 Hs]. unfold wants in Hw. unfold byte in H0.
  destruct (Z.ltb_spec b0 0x80).
  { unfold chartorune. change (zget (b0 :: s) 0) with (Some b0). cbn [mbind option_bind decode1].
    change (b0 <? Tx) with (b0 <? 128). by destruct (Z.ltb_spec b0 128); [|lia]. }
  rewrite chartorune_4 by (done || lia). rewrite zlen_cons in Hw.
  assert (Hwant : forall i, 0 <= i < zlen s -> exists b, zget s i = Some b).
  { intros i Hi. exact (zget_Some i s Hi). }
  destruct (Hwant 0) as [b1 E1]; [revert Hw; zbool; lia|]. rewrite E1. cbn [mbind option_bind].
  destruct (cont b1) eqn:C1; cbn [negb]; [|by rewrite (decode1_bad1 _ _ b1)].
  destruct (Z.ltb_spec b0 0xE0).
  { rewrite step2_table by (done || lia). destruct s as [|x s]; [done|]. injection E1 as ->.
    cbn [decode1]. rewrite C1. unfold within. by zbool. }
  destruct (Hwant 1) as [b2 E2]; [revert Hw; zbool; lia|]. rewrite E2. cbn [mbind option_bind].
  destruct (cont b2) eqn:C2; cbn [negb]; [|by rewrite (decode1_bad2 _ _ b1 b2)].
  destruct (Z.ltb_spec b0 0xF0).
  { rewrite step3_table by (done || lia). destruct s as [|x [|y s]]; [done|done|].
    injection E1 as ->. injection E2 as ->.
    cbn [decode1]. rewrite C2, !andb_true_r.
    destruct (Z.ltb_spec b0 128); [lia|].
    by rewrite (within_false 0xC2 b0 0xDF), (within_true 0xE0 b0 0xEF) by lia. }
  destruct (Hwant 2) as [b3 E3]; [revert Hw; zbool; lia|]. rewrite E3. cbn [mbind option_bind].
  rewrite step4_table by (done || lia). destruct s as [|x [|y [|z s]]]; [done|done|done|].
  injection E1 as ->. injection E2 as ->. injection E3 as ->.
  cbn [decode1]. rewrite C2, !andb_true_r.
  destruct (Z.ltb_spec b0 128); [lia|].
  by rewrite (within_false 0xC2 b0 0xDF), (within_false 0xE0 b0 0xEF) by lia.
Qed.

(** The decoder never looks past a NUL: what follows a string does not matter,
    and neither does the NUL itself. *)
Lemma byte_seq_app t rest : bytes (t ++ rest) <-> bytes t /\ bytes rest.
Proof. apply Forall_app. Qed.

Lemma cont_0 : cont 0 = false. Proof. done. Qed.

Lemma chartorune_short b0 s :
  bytes (b0 :: s) -> 0x80 <= b0 -> 0 ∈ s -> zlen (b0 :: s) < wants b0 ->
  chartorune (b0 :: s) = Some (Bad, 1).
Proof.
  intros Hb H8 Hin Hw. apply Forall_cons_1 in Hb as [H0 Hs].
  rewrite chartorune_4 by done. unfold wants in Hw. unfold byte in H0.
  destruct s as [|b1 s]; [by apply not_elem_of_nil in Hin|].
  change (zget (b1 :: s) 0) with (Some b1). cbn [mbind option_bind].
  destruct (cont b1) eqn:C1; cbn [negb]; [|done].
  rewrite !zlen_cons in Hw. pose proof (zlen_nonneg s).
  destruct (Z.ltb_spec b0 0xE0); [revert Hw; zbool|].
  apply elem_of_cons in Hin as [<-|Hin]; [done|].
  destruct s as [|b2 s]; [by apply not_elem_of_nil in Hin|].
  change (zget (b1 :: b2 :: s) 1) with (Some b2). cbn [mbind option_bind].
  destruct (cont b2) eqn:C2; cbn [negb]; [|done].
  rewrite !zlen_cons in Hw. pose proof (zlen_nonneg s).
  destruct (Z.ltb_spec b0 0xF0); [revert Hw; zbool|].
  apply elem_of_cons in Hin as [<-|Hin]; [done|].
  destruct s as [|b3 s]; [by apply not_elem_of_nil in Hin|].
  rewrite !zlen_cons in Hw. pose proof (zlen_nonneg s). revert Hw; zbool.
Qed.

(** The table on a string is the table on its bytes up to the NUL. *)
Lemma decode1_nul t rest : t <> [] -> decode1 (t ++ 0 :: rest) = decode1 t.
Proof.
  intros Ht. destruct t as [|b0 t]; [done|].
  cbn [app decode1]. destruct (b0 <? 128); [done|].
  destruct t as [|b1 t]; cbn [app].
  { rewrite cont_0. destruct (within 0xC2 b0 0xDF); [done|].
    destruct rest as [|? [|? ?]]; rewrite ?(within_false _ 0) by zbool; cbn [andb];
      by repeat destruct (within _ b0 _). }
  destruct (within 0xC2 b0 0xDF); [done|].
  destruct t as [|b2 t]; cbn [app].
  { rewrite cont_0, andb_false_r. destruct (within 0xE0 b0 0xEF); [done|].
    destruct rest; rewrite ?cont_0, ?andb_false_r; by destruct (within 0xF0 b0 0xF4). }
  destruct (within 0xE0 b0 0xEF); [done|].
  destruct t as [|b3 t]; cbn [app]; [|done].
  by rewrite cont_0, andb_false_r.
Qed.

Lemma decode1_short b0 t :
  0x80 <= b0 -> zlen (b0 :: t) < wants b0 -> decode1 (b0 :: t) = (Bad, 1).
Proof.
  intros H0. unfold wants.
  destruct t as [|b1 [|b2 [|b3 t]]]; rewrite ?zlen_cons, ?zlen_nil; cbn [decode1]; unfold within;
    try pose proof (zlen_nonneg t); zbool; done.
Qed.

Lemma chartorune_string t rest :
  bytes t -> bytes rest -> t <> [] -> chartorune (t ++ 0 :: rest) = Some (decode1 t).
Proof.
  intros Ht Hrest Hne. rewrite <- (decode1_nul t rest) by done.
  destruct t as [|b0 t]; [done|]. cbn [app].
  assert (Hb : bytes (b0 :: t ++ 0 :: rest)).
  { apply (Forall_app_2 byte (b0 :: t) (0 :: rest)); [done|]. by apply Forall_cons_2. }
  destruct (Z.le_gt_cases (wants b0) (zlen (b0 :: t ++ 0 :: rest))) as [H|H].
  { by apply chartorune_long. }
  assert (0x80 <= b0).
  { unfold wants in H. rewrite zlen_cons in H. pose proof (zlen_nonneg (t ++ 0 :: rest)).
    destruct (Z.ltb_spec b0 0x80); lia. }
  rewrite decode1_short by done. apply chartorune_short; [done..| |done].
  apply elem_of_app. right. apply elem_of_cons. by left.
Qed.
Lemma chartorune_nul rest : chartorune (0 :: rest) = Some (0, 1).
Proof. done. Qed.

(** ** The table and the encoding *)

Lemma zlen_utf8 c : zlen (utf8 c) = if c <? 0x80 then 1 else if c <? 0x800 then 2 else if c <? 0x10000 then 3 else 4.
Proof. unfold utf8. by zbool. Qed.
Lemma utf8_length c : 1 <= zlen (utf8 c) <= 4.
Proof. rewrite zlen_utf8. zbool. Qed.

Lemma utf8_bytes c : scalar c -> bytes (utf8 c).
Proof.
  intros [Hc _]. unfold utf8.
  destruct (Z.ltb_spec c 0x80); [|destruct (Z.ltb_spec c 0x800); [|destruct (Z.ltb_spec c 0x10000)]];
    repeat apply Forall_cons_2; try apply Forall_nil_2; unfold byte; dlia.
Qed.

(** The bytes of an encoding after the first continue it, and the first does not. *)
Lemma utf8_shape c : scalar c -> exists b u, utf8 c = b :: u /\ cont b = false /\ Forall (fun b => cont b = true) u.
Proof.
  intros [Hc _]. unfold utf8.
  destruct (Z.ltb_spec c 0x80); [|destruct (Z.ltb_spec c 0x800); [|destruct (Z.ltb_spec c 0x10000)]];
    (eexists _, _; split; [reflexivity|split]);
    try (repeat apply Forall_cons_2; try apply Forall_nil_2; apply cont_true; dlia);
    apply within_false; dlia.
Qed.

Lemma decode1_utf8 c u : scalar c -> decode1 (utf8 c ++ u) = (c, zlen (utf8 c)).
Proof.
  intros [Hc Hs]. rewrite zlen_utf8. unfold utf8.
  destruct (Z.ltb_spec c 0x80); cbn [app decode1]; [by zbool|].
  destruct (Z.ltb_spec c 0x800); cbn [app decode1].
  { destruct (Z.ltb_spec (0xC0 + c / 64) 0x80); [dlia|].
    rewrite within_true by dlia. rewrite cont_true by dlia. f_equal. dlia. }
  destruct (Z.ltb_spec c 0x10000); cbn [app decode1].
  { destruct (Z.ltb_spec (0xE0 + c / 4096) 0x80); [dlia|].
    rewrite (within_false 0xC2) by dlia. rewrite (within_true 0xE0) by dlia.
    rewrite cont_true by dlia. rewrite within_true; [cbn [andb]; f_equal; dlia|].
    destruct (Z.eqb_spec (0xE0 + c / 4096) 0xE0), (Z.eqb_spec (0xE0 + c / 4096) 0xED); dlia. }
  destruct (Z.ltb_spec (0xF0 + c / 262144) 0x80); [dlia|].
  rewrite (within_false 0xC2), (within_false 0xE0), (within_true 0xF0) by dlia.
  rewrite !cont_true by dlia. rewrite within_true; [cbn [andb]; f_equal; dlia|].
  destruct (Z.eqb_spec (0xF0 + c / 262144) 0xF0), (Z.eqb_spec (0xF0 + c / 262144) 0xF4); dlia.
Qed.

(** What a decoding of the front of [t] is: the code point whose encoding is
    there, or one replaced byte when there is none. *)
Definition decodes (t : list Z) (c n : Z) : Prop :=
  (scalar c /\ utf8 c `prefix_of` t /\ n = zlen (utf8 c)) \/
  ((forall d, scalar d -> ~ utf8 d `prefix_of` t) /\ c = Runeerror /\ n = 1).

Lemma decodes_at_most_one t c n c' n' : decodes t c n -> decodes t c' n' -> c = c' /\ n = n'.
Proof.
  intros [(Hs & [u ->] & ->)|(Hno & -> & ->)] [(Hs' & Hp' & ->)|(Hno' & -> & ->)].
  - destruct Hp' as [u' E]. pose proof (decode1_utf8 c u Hs) as H. rewrite E, decode1_utf8 in H by done.
    by injection H as <- _.
  - by destruct (Hno' c Hs); eexists.
  - by destruct (Hno c' Hs').
  - done.
Qed.

Lemma decode1_good t c n : decode1 t = (c, n) -> bytes t -> t <> [] -> n <> 1 \/ c < 0x80 ->
  scalar c /\ utf8 c `prefix_of` t /\ n = zlen (utf8 c).
Proof.
  intros E Hb Ht Hn.
  assert (G : scalar c /\ exists u, t = utf8 c ++ u); [|destruct G as [Hs [u ->]];
    rewrite decode1_utf8 in E by done; injection E as <-; split_and!; [done|by eexists|done]].
  destruct t as [|b0 t]; [done|]. apply Forall_cons_1 in Hb as [H0 Hb]. unfold byte in H0.
  cbn [decode1] in E. destruct (Z.ltb_spec b0 0x80).
  { injection E as <- <-. split; [unfold scalar; lia|]. exists t. unfold utf8. by zbool. }
  destruct (within 0xC2 b0 0xDF) eqn:W2.
  { destruct t as [|b1 t]; [injection E as <- <-; lia|].
    destruct (cont b1) eqn:C1; [|injection E as <- <-; lia]. apply cont_inv in C1. unfold within in W2.
    injection E as <- <-. split; [unfold scalar; lia|]. exists t. unfold utf8. zbool.
    cbn [app]. repeat f_equal; dlia. }
  destruct (within 0xE0 b0 0xEF) eqn:W3.
  { destruct t as [|b1 [|b2 t]]; [injection E as <- <-; lia..|].
    destruct (within _ b1 _ && cont b2) eqn:C; [|injection E as <- <-; lia].
    apply andb_true_iff in C as [C1 C2%cont_inv]. unfold within in W3, C1.
    assert (0x80 <= b1 <= 0xBF /\ (b0 = 0xE0 -> 0xA0 <= b1) /\ (b0 = 0xED -> b1 <= 0x9F))
      by (destruct (Z.eqb_spec b0 0xE0), (Z.eqb_spec b0 0xED); lia).
    injection E as <- <-. split; [unfold scalar; lia|]. exists t. unfold utf8. zbool.
    cbn [app]. repeat f_equal; dlia. }
  destruct (within 0xF0 b0 0xF4) eqn:W4; [|injection E as <- <-; lia].
  destruct t as [|b1 [|b2 [|b3 t]]]; [injection E as <- <-; lia..|].
  destruct (_ && cont b3) eqn:C; [|injection E as <- <-; lia].
  apply andb_true_iff in C as [[C1 C2%cont_inv]%andb_true_iff C3%cont_inv]. unfold within in W4, C1.
  assert (0x80 <= b1 <= 0xBF /\ (b0 = 0xF0 -> 0x90 <= b1) /\ (b0 = 0xF4 -> b1 <= 0x8F))
    by (destruct (Z.eqb_spec b0 0xF0), (Z.eqb_spec b0 0xF4); lia).
  injection E as <- <-. split; [unfold scalar; lia|]. exists t. unfold utf8. zbool.
  cbn [app]. repeat f_equal; dlia.
Qed.

Lemma decode1_width t : snd (decode1 t) = 1 \/ snd (decode1 t) = 2 \/ snd (decode1 t) = 3 \/ snd (decode1 t) = 4.
Proof. unfold decode1. repeat case_match; auto. Qed.

(** A width of one with a code point that is not ASCII is the error rune. *)
Lemma decode1_one t c : decode1 t = (c, 1) -> bytes t -> 0x80 <= c -> c = Runeerror.
Proof.
  intros E Hb Hc. destruct t as [|b0 t]; [by injection E as <-|].
  unfold decode1 in E. repeat case_match; injection E; intros; subst; try done. lia.
Qed.

Lemma decode1_decodes t : bytes t -> t <> [] -> decodes t (fst (decode1 t)) (snd (decode1 t)).
Proof.
  intros Hb Ht. destruct (decode1 t) as [c n] eqn:E. cbn [fst snd].
  destruct (Z.eq_dec n 1) as [->|Hn]; [|left; by apply decode1_good; [..|left]].
  destruct (Z.lt_ge_cases c 0x80) as [Hc|Hc]; [left; by apply decode1_good; [..|right]|].
  assert (c = Runeerror) as -> by (by eapply decode1_one).
  right. split; [|done]. intros d Hd [u ->]. rewrite decode1_utf8 in E by done.
  injection E as -> En. revert En. rewrite zlen_utf8. by zbool.
Qed.

(** ** runetochar *)

Lemma strput_ok str j v : 0 <= j < zlen str -> strput str j v = Some (<[Z.to_nat j := u8 v]> str).
Proof. intros. unfold strput. by zbool. Qed.

Definition runerepl (c : Z) : Z := if decide (scalar c) then c else Runeerror.
Lemma runerepl_scalar c : scalar (runerepl c).
Proof. unfold runerepl. case_decide; [done|]. unfold scalar, Runeerror. lia. Qed.

Lemma cont_byte x : Z.lor Tx (Z.land x Maskx) = 0x80 + x mod 64.
Proof.
  change Maskx with (Z.ones 6). rewrite Z.land_ones by lia. change (2 ^ 6) with 64.
  rewrite Z.lor_comm. change Tx with (Z.shiftl 2 6). rewrite lor_shiftl_add; [lia|lia|]. change (2 ^ 6) with 64. dlia.
Qed.
Lemma lead_byte t k n x : t = Z.shiftl k n -> 0 <= n -> 0 <= x < 2 ^ n -> Z.lor t x = t + x.
Proof. intros -> Hn Hx. rewrite Z.lor_comm, lor_shiftl_add by done. rewrite Z.shiftl_mul_pow2 by done. lia. Qed.

Lemma runetochar_ascii str c :
  0 <= c < 0x80 -> 1 <= zlen str -> runetochar str c = Some (1, c :: drop 1 str).
Proof.
  intros Hc Hl. unfold runetochar. change Rune1 with 0x7F.
  destruct (Z.leb_spec c 0x7F); [|lia]. rewrite strput_ok by lia. cbn [mbind option_bind].
  rewrite u8_id by lia. destruct str; [rewrite zlen_nil in Hl; lia|]. done.
Qed.

Lemma insert0 (v x : Z) xs : <[0%nat := v]> (x :: xs) = v :: xs.
Proof. done. Qed.

(** The continuation bytes from the [j]th on are written in place. *)
Lemma runetochar_tail_eq fuel : forall j i c pre xs,
  0 <= c -> zlen pre = j -> j + Z.of_nat fuel = i -> (fuel <= length xs)%nat ->
  runetochar_tail fuel j i c (pre ++ xs) =
    Some (pre ++ ((fun m => 0x80 + c / 2 ^ ((i - m - 1) * 6) mod 64) <$> seqZ j (Z.of_nat fuel)) ++ drop fuel xs).
Proof.
  induction fuel as [|fuel IH]; intros j i c pre xs Hc Hj Hi Hl; [done|].
  destruct xs as [|x xs]; cbn [length] in Hl; [lia|].
  cbn [runetochar_tail]. rewrite strput_ok by (rewrite zlen_app, zlen_cons; pose proof (zlen_nonneg xs);
    pose proof (zlen_nonneg pre); lia). cbn [mbind option_bind].
  rewrite cont_byte. change Bitx with 6. rewrite Z.shiftr_div_pow2 by lia.
  rewrite insert_app_r_alt by (unfold zlen in Hj; lia).
  replace (Z.to_nat j - length pre)%nat with 0%nat by (unfold zlen in Hj; lia). rewrite insert0.
  rewrite u8_id by dlia. rewrite cons_middle, (app_assoc pre).
  rewrite (IH (j + 1) i c) by (rewrite ?zlen_app; change (zlen [_]) with 1; lia).
  f_equal. rewrite <- app_assoc. f_equal.
  rewrite (seqZ_cons j (Z.of_nat (S fuel))) by lia.
  replace (Z.succ j) with (j + 1) by lia. replace (Z.pred (Z.of_nat (S fuel))) with (Z.of_nat fuel) by lia.
  done.
Qed.

(** The bytes written once the length [i] is chosen. *)
Lemma runetochar_bytes i k c str :
  2 <= i <= 4 -> T i = Z.shiftl k (7 - i) -> 0 <= c < 2 ^ (7 - i) * 2 ^ ((i - 1) * 6) -> i <= zlen str ->
  (0 <= k * 2 ^ (7 - i) /\ k * 2 ^ (7 - i) + 2 ^ (7 - i) <= 256) ->
  (str ← strput str 0 (Z.lor (T i) (Z.shiftr c ((i - 1) * Bitx)));
   str ← runetochar_tail (Z.to_nat (i - 1)) 1 i c str; Some (i, str)) =
  Some (i, (k * 2 ^ (7 - i) + c / 2 ^ ((i - 1) * 6))
           :: ((fun m => 0x80 + c / 2 ^ ((i - m - 1) * 6) mod 64) <$> seqZ 1 (i - 1)) ++ drop (Z.to_nat i) str).
Proof.
  intros Hi HT Hc Hl Hk. destruct str as [|x str]; [rewrite zlen_nil in Hl; lia|]. rewrite zlen_cons in Hl.
  assert (0 <= c / 2 ^ ((i - 1) * 6) < 2 ^ (7 - i)).
  { split; [apply Z.div_pos; lia|]. apply Z.div_lt_upper_bound; lia. }
  rewrite strput_ok by (rewrite zlen_cons; lia). cbn [mbind option_bind]. change (Z.to_nat 0) with 0%nat. rewrite insert0.
  change Bitx with 6. rewrite Z.shiftr_div_pow2 by lia. rewrite (lead_byte (T i) k (7 - i)) by (done || lia).
  rewrite HT, Z.shiftl_mul_pow2, u8_id by lia.
  change (?a :: str) with ([a] ++ str). rewrite runetochar_tail_eq by (done || (unfold zlen in Hl; lia)).
  cbn [mbind option_bind]. rewrite Z2Nat.id by lia.
  replace (Z.to_nat i) with (S (Z.to_nat (i - 1))) by lia. done.
Qed.

Lemma runetochar_encodes str c :
  0 <= c < 2 ^ 32 -> zlen (utf8 (runerepl c)) <= zlen str ->
  runetochar str c = Some (zlen (utf8 (runerepl c)), utf8 (runerepl c) ++ drop (length (utf8 (runerepl c))) str).
Proof.
  intros Hc Hl.
  destruct (Z.lt_ge_cases c 0x80) as [H1|H1].
  { assert (runerepl c = c) as E by (unfold runerepl, scalar; case_decide; lia).
    rewrite E in *. replace (utf8 c) with [c] in * by (unfold utf8; by zbool).
    apply runetochar_ascii; [lia|exact Hl]. }
  unfold runetochar. change Rune1 with 0x7F. destruct (Z.leb_spec c 0x7F); [lia|].
  change (Z.to_nat (UTFmax - 1)) with 3%nat. cbn [runetochar_loop].
  change (2 =? 3) with false. change (2 + 1 =? 3) with true. change (2 + 1 + 1 =? 3) with false.
  change (RuneX 2) with 0x7FF. change (2 =? UTFmax) with false. rewrite orb_false_r. cbv iota zeta.
  destruct (Z.leb_spec c 0x7FF).
  { assert (runerepl c = c) as E by (unfold runerepl, scalar; case_decide; lia).
    rewrite E in *. rewrite zlen_utf8 in Hl. revert Hl. zbool. intros Hl.
    rewrite (runetochar_bytes 2 6) by (done || lia). rewrite zlen_utf8. unfold utf8. zbool.
    change (seqZ 1 (2 - 1)) with [1]. cbn [fmap list_fmap]. change (2 ^ ((2 - 1 - 1) * 6)) with 1. by rewrite Z.div_1_r. }
  assert (E : (let c0 := if Runemax <? c then Runeerror else c in
               if (SurrogateMin <=? c0) && (c0 <=? SurrogateMax) then Runeerror else c0) = runerepl c).
  { unfold runerepl, scalar, Runeerror, SurrogateMin, SurrogateMax, Runemax. cbv zeta.
    case_decide; zbool; done. }
  cbv zeta in E. rewrite E.
  assert (Hr : 0x800 <= runerepl c <= 0x10FFFF).
  { unfold runerepl, Runeerror. case_decide as D; [|lia]. unfold scalar in D. lia. }
  change (RuneX (2 + 1)) with 0xFFFF. change (2 + 1 =? UTFmax) with false. rewrite orb_false_r.
  change (RuneX (2 + 1 + 1)) with 0x1FFFFF. change (2 + 1 + 1 =? UTFmax) with true. rewrite orb_true_r.
  change (2 + 1 + 1) with 4. change (2 + 1) with 3.
  clear E. generalize dependent (runerepl c). intros r Hl Hr. rewrite zlen_utf8 in Hl. rewrite zlen_utf8.
  destruct (Z.leb_spec r 0xFFFF); revert Hl; zbool; intros Hl; try lia.
  - rewrite (runetochar_bytes 3 14) by (done || lia). unfold utf8. zbool.
    change (seqZ 1 (3 - 1)) with [1; 2]. cbn [fmap list_fmap]. change (2 ^ ((3 - 2 - 1) * 6)) with 1. by rewrite Z.div_1_r.
  - rewrite (runetochar_bytes 4 30) by (done || lia). unfold utf8. zbool.
    change (seqZ 1 (4 - 1)) with [1; 2; 3]. cbn [fmap list_fmap]. change (2 ^ ((4 - 3 - 1) * 6)) with 1. by rewrite Z.div_1_r.
Qed.

(** ** Lengths *)

Lemma runelen_eq c : 0 <= c < 2 ^ 32 -> runelen c = Some (zlen (utf8 (runerepl c))).
Proof.
  intros Hc. unfold runelen. rewrite runetochar_encodes; [done|done|].
  pose proof (utf8_length (runerepl c)). change (zlen (replicate 10 0)) with 10. lia.
Qed.

Lemma runenlen_add_eq c : 0x80 <= c ->
  runenlen_add (Z.to_nat (UTFmax - 1)) 2 c = if c <? 0x800 then 2 else if c <? 0x10000 then 3 else 4.
Proof.
  intros Hc. change (Z.to_nat (UTFmax - 1)) with 3%nat. cbn [runenlen_add].
  change (RuneX 2) with 0x7FF. change (RuneX (2 + 1)) with 0xFFFF.
  change (2 =? UTFmax) with false. change (2 + 1 =? UTFmax) with false.
  change (2 + 1 + 1 =? UTFmax) with true. rewrite orb_true_r, !orb_false_r. by zbool.
Qed.

(** What one rune adds is the length of its encoding, for a code point. *)
Lemma runenlen_add_scalar c : scalar c ->
  (if c <=? Rune1 then 1 else runenlen_add (Z.to_nat (UTFmax - 1)) 2 c) = zlen (utf8 c).
Proof.
  intros [Hc _]. change Rune1 with 0x7F. rewrite zlen_utf8.
  destruct (Z.leb_spec c 0x7F); [by zbool|]. rewrite runenlen_add_eq by lia. by zbool.
Qed.

Lemma runenlen_loop_eq rs : forall rest nb,
  Forall scalar rs -> 0 <= nb -> nb + zlen (concat (utf8 <$> rs)) < 2 ^ 31 ->
  runenlen_loop (length rs) nb (rs ++ rest) = Some (nb + zlen (concat (utf8 <$> rs))).
Proof.
  induction rs as [|c rs IH]; intros rest nb Hs Hn Hb; [by rewrite Z.add_0_r|].
  apply Forall_cons_1 in Hs as [Hc Hs]. cbn [length runenlen_loop app head mbind option_bind tail].
  rewrite runenlen_add_scalar by done.
  cbn [fmap list_fmap concat] in *. rewrite zlen_app in *. pose proof (utf8_length c).
  pose proof (zlen_nonneg (concat (utf8 <$> rs))). unfold fmap in *.
  rewrite i32_id by lia. rewrite IH by (done || lia). f_equal. lia.
Qed.

(** ** fullrune *)

Lemma fullrune_eq b0 s n : bytes (b0 :: s) -> 0 < n ->
  fullrune (b0 :: s) n = Some (Z.b2z (wants b0 <=? n)).
Proof.
  intros Hb Hn. apply Forall_cons_1 in Hb as [H0 _]. unfold byte in H0. unfold fullrune.
  destruct (Z.leb_spec n 0); [lia|]. change (zget (b0 :: s) 0) with (Some b0). cbn [mbind option_bind].
  f_equal. change (b0 <? Tx) with (b0 <? 128). unfold wants. change (Z.to_nat (UTFmax - 2)) with 2%nat.
  cbn [fullrune_loop]. change (T 3) with 0xE0. change (T (3 + 1)) with 0xF0. change UTFmax with 4.
  zbool; done.
Qed.

(** The front of a string decides what is read from it. *)
Lemma decode1_app b0 s u : wants b0 <= zlen (b0 :: s) -> decode1 (b0 :: s ++ u) = decode1 (b0 :: s).
Proof.
  unfold wants. cbn [decode1]. destruct (Z.ltb_spec b0 0x80); [done|].
  destruct s as [|b1 [|b2 [|b3 s]]]; rewrite ?zlen_cons, ?zlen_nil; cbn [app]; unfold within; intros Hw;
    revert Hw; zbool; done.
Qed.

Lemma decode1_wants b0 s : snd (decode1 (b0 :: s)) <= wants b0.
Proof.
  unfold wants. cbn [decode1]. unfold within.
  destruct s as [|b1 [|b2 [|b3 s]]]; zbool; repeat case_match; cbn [snd]; lia.
Qed.

Lemma utf8_wants c b u : scalar c -> utf8 c = b :: u -> wants b = zlen (utf8 c).
Proof.
  intros [Hc _] E. rewrite zlen_utf8. unfold utf8 in E. unfold wants.
  destruct (Z.ltb_spec c 0x80); [|destruct (Z.ltb_spec c 0x800); [|destruct (Z.ltb_spec c 0x10000)]];
    injection E as <- _; zbool; dlia.
Qed.
