(* ===== verification/UtfStr.v ===== *)
(** * UTF-8 in the C library: strings

    The runes of a byte string ([runes], by the reference decoder), the first
    suffix of a string with a property ([find_suffix]), and the string functions
    of [lib/c/port] as functions of these.  A C string is [t ++ 0 :: rest]: the
    bytes [t], the NUL, and what follows it in its object. *)
From S2P Require Import Prelude Utf UtfThms.

(** A C string's bytes: none is NUL. *)
Definition text (t : list Z) : Prop := Forall (fun b => 0 < b < 256) t.

Lemma text_bytes t : text t -> bytes t.
Proof. apply Forall_impl. unfold byte. lia. Qed.
Lemma text_cons b t : text (b :: t) -> 0 < b < 256 /\ text t.
Proof. intros H. by apply Forall_cons_1 in H. Qed.
Lemma text_app t u : text (t ++ u) <-> text t /\ text u.
Proof. apply Forall_app. Qed.
Lemma text_drop n t : text t -> text (drop n t).
Proof. apply Forall_drop. Qed.

(** ** The runes of a string, each with the suffix it starts *)

Fixpoint runes_fuel (fuel : nat) (t : list Z) : list (Z * list Z) :=
  match fuel with
  | O => []
  | S fuel =>
    if decide (t = []) then []
    else (fst (decode1 t), t) :: runes_fuel fuel (drop (Z.to_nat (snd (decode1 t))) t)
  end.
Definition runes (t : list Z) : list (Z * list Z) := runes_fuel (length t) t.

Lemma decode1_pos t : 1 <= snd (decode1 t) <= 4.
Proof. destruct (decode1_width t) as [?|[?|[?|?]]]; lia. Qed.

Lemma decode1_inside t : t <> [] -> snd (decode1 t) <= zlen t.
Proof.
  intros Ht. destruct t as [|b0 t]; [done|]. rewrite zlen_cons. pose proof (zlen_nonneg t).
  cbn [decode1]. repeat case_match; subst; cbn [snd]; rewrite ?zlen_cons in *;
    repeat match goal with |- context [zlen ?l] => pose proof (zlen_nonneg l); generalize dependent (zlen l); intros end; lia.
Qed.

Definition rest1 (t : list Z) : list Z := drop (Z.to_nat (snd (decode1 t))) t.

Lemma rest1_length t : t <> [] -> (length (rest1 t) < length t)%nat.
Proof.
  intros Ht. unfold rest1. rewrite length_drop. pose proof (decode1_pos t). pose proof (decode1_inside t Ht).
  unfold zlen in *. lia.
Qed.

Lemma runes_fuel_more n m t : (length t <= n)%nat -> (length t <= m)%nat -> runes_fuel n t = runes_fuel m t.
Proof.
  revert m t. induction n as [|n IH]; intros m t Hn Hm.
  { destruct t; [|cbn in Hn; lia]. by destruct m. }
  destruct m as [|m]; [destruct t; [done|cbn in Hm; lia]|].
  cbn [runes_fuel]. case_decide as Ht; [done|]. f_equal.
  pose proof (rest1_length t Ht). unfold rest1 in *. apply IH; lia.
Qed.

Lemma runes_nil : runes [] = [].
Proof. done. Qed.
Lemma runes_step t : t <> [] -> runes t = (fst (decode1 t), t) :: runes (rest1 t).
Proof.
  intros Ht. unfold runes. destruct t as [|b t]; [done|]. cbn [length runes_fuel].
  rewrite decide_False by done. f_equal. unfold rest1. apply runes_fuel_more; [|lia].
  pose proof (rest1_length (b :: t) Ht). unfold rest1 in *. cbn [length] in *. lia.
Qed.

(** Induction along the runes. *)
Lemma runes_ind (P : list Z -> Prop) :
  P [] -> (forall t, t <> [] -> P (rest1 t) -> P t) -> forall t, P t.
Proof.
  intros H0 HS t. remember (length t) as n eqn:E. revert t E.
  induction (lt_wf n) as [n _ IH]. intros t ->. destruct (decide (t = [])) as [->|Ht]; [done|].
  apply HS; [done|]. eapply IH; [|done]. by apply rest1_length.
Qed.

Lemma text_rest1 t : text t -> text (rest1 t).
Proof. apply text_drop. Qed.

Lemma drop_string t rest :
  t <> [] -> drop (Z.to_nat (snd (decode1 t))) (t ++ 0 :: rest) = rest1 t ++ 0 :: rest.
Proof.
  intros Ht. pose proof (decode1_inside t Ht). pose proof (decode1_pos t).
  rewrite drop_app_le by (unfold zlen in *; lia). done.
Qed.

Lemma zlen_runes t : zlen (runes t) <= zlen t.
Proof.
  induction t as [|t Ht IH] using runes_ind; [done|]. rewrite runes_step, zlen_cons by done.
  pose proof (rest1_length t Ht). unfold zlen in *. lia.
Qed.

(** The runes of encoded code points are these code points. *)
Lemma rest1_utf8 c u : scalar c -> rest1 (utf8 c ++ u) = u.
Proof.
  intros Hc. unfold rest1. rewrite decode1_utf8 by done. cbn [snd]. unfold zlen. rewrite Nat2Z.id.
  by rewrite drop_app_length.
Qed.
Lemma utf8_nonempty c u : utf8 c ++ u <> [].
Proof. intros E. pose proof (utf8_length c). apply (f_equal zlen) in E. rewrite zlen_app, zlen_nil in E. pose proof (zlen_nonneg u). lia. Qed.

Lemma runes_encoded cs : Forall scalar cs -> fst <$> runes (concat (utf8 <$> cs)) = cs.
Proof.
  induction cs as [|c cs IH]; intros Hs; [done|]. apply Forall_cons_1 in Hs as [Hc Hs].
  cbn [fmap list_fmap concat]. rewrite runes_step by apply utf8_nonempty.
  rewrite rest1_utf8, decode1_utf8 by done. cbn [fmap list_fmap fst]. f_equal. by apply IH.
Qed.

(** ** One step of the loops over a string *)

Lemma chartorune_text t rest : text t -> bytes rest -> t <> [] -> chartorune (t ++ 0 :: rest) = Some (decode1 t).
Proof. intros Ht. apply chartorune_string, text_bytes, Ht. Qed.

(** An ASCII byte is a rune by itself. *)
Lemma decode1_ascii b t : b < 0x80 -> decode1 (b :: t) = (b, 1).
Proof. intros Hb. cbn [decode1]. by destruct (Z.ltb_spec b 0x80); [|lia]. Qed.
Lemma rest1_ascii b t : b < 0x80 -> rest1 (b :: t) = t.
Proof. intros Hb. unfold rest1. by rewrite decode1_ascii. Qed.

(** The bytes of a rune that is not ASCII are not ASCII. *)
Lemma decode1_high b t : text (b :: t) -> 0x80 <= b ->
  Forall (fun x => 0x80 <= x) (take (Z.to_nat (snd (decode1 (b :: t)))) (b :: t)) /\ 0x80 <= fst (decode1 (b :: t)).
Proof.
  intros Ht Hb. assert (Hne : b :: t <> []) by done.
  destruct (decode1_decodes (b :: t) (text_bytes _ Ht) Hne) as [(Hs & [u E] & En)|(_ & Ec & En)].
  2:{ rewrite En, Ec. split; [|done]. change (Z.to_nat 1) with 1%nat. cbn [take]. by repeat constructor. }
  rewrite En. generalize dependent (fst (decode1 (b :: t))). intros c Hs E En.
  unfold zlen. rewrite Nat2Z.id, E, take_app_length. clear En.
  destruct Hs as [Hs _]. unfold utf8 in *. 
  destruct (Z.ltb_spec c 0x80); [injection E; lia|]. split; [|done].
  destruct (Z.ltb_spec c 0x800); [|destruct (Z.ltb_spec c 0x10000)];
    repeat apply Forall_cons_2; try apply Forall_nil_2; dlia.
Qed.

(** ** utflen *)

Lemma head_string t (rest : list Z) : exists b s, t ++ 0 :: rest = b :: s /\ head (t ++ 0 :: rest) = Some b.
Proof. destruct t; cbn; eauto. Qed.

Section strings.
Context (rest : list Z) (Hrest : bytes rest).

(** The loops take the ASCII branch on an ASCII byte, and call [chartorune] on
    the others; both steps are the reference's. *)
Lemma utflen_loop_eq t : forall fuel n,
  text t -> (length t < fuel)%nat -> 0 <= n -> n + zlen t < 2 ^ 31 ->
  utflen_loop fuel (t ++ 0 :: rest) n = Some (n + zlen (runes t)).
Proof.
  induction t as [|t Hne IH] using runes_ind; intros fuel n Ht Hf Hn Hb.
  { destruct fuel; [cbn in Hf; lia|]. cbn. by rewrite Z.add_0_r. }
  destruct fuel as [|fuel]; [lia|]. pose proof (rest1_length t Hne).
  rewrite runes_step, zlen_cons by done.
  assert (E : utflen_loop (S fuel) (t ++ 0 :: rest) n = utflen_loop fuel (rest1 t ++ 0 :: rest) (i32 (n + 1))).
  { destruct t as [|b t]; [done|]. pose proof (proj1 (text_cons _ _ Ht)).
    cbn [utflen_loop app head mbind option_bind]. change Runeself with 0x80.
    destruct (Z.ltb_spec b 0x80).
    - destruct (Z.eqb_spec b 0); [lia|]. by rewrite rest1_ascii.
    - change (b :: t ++ 0 :: rest) with ((b :: t) ++ 0 :: rest). rewrite chartorune_text by done.
      cbn [mbind option_bind]. rewrite (surjective_pairing (decode1 (b :: t))). by rewrite drop_string. }
  rewrite E. unfold zlen in *. rewrite i32_id by lia. rewrite IH; [f_equal; lia|by apply text_rest1|lia..].
Qed.

Lemma utflen_eq t : text t -> zlen t < 2 ^ 31 -> utflen (t ++ 0 :: rest) = Some (zlen (runes t)).
Proof.
  intros Ht Hb. unfold utflen. rewrite utflen_loop_eq; [done|done| |lia|lia].
  rewrite length_app. cbn. lia.
Qed.

(** ** The first and the last rune equal to [c] *)

Definition first_rune (c : Z) (t : list Z) : option (list Z) := snd <$> head (filter (fun p => p.1 = c) (runes t)).
Definition last_rune (c : Z) (t : list Z) : option (list Z) := snd <$> list.last (filter (fun p => p.1 = c) (runes t)).
Definition string_at (p : list Z) : list Z := p ++ 0 :: rest.

Lemma string_at_cons b p : string_at (b :: p) = b :: string_at p.
Proof. done. Qed.

Lemma first_rune_nil c : first_rune c [] = None.
Proof. done. Qed.
Lemma first_rune_step c t : t <> [] ->
  first_rune c t = if decide (fst (decode1 t) = c) then Some t else first_rune c (rest1 t).
Proof.
  intros Ht. unfold first_rune. rewrite runes_step, filter_cons by done. cbn [fst].
  by case_decide.
Qed.
Lemma last_rune_step c t : t <> [] ->
  last_rune c t = match last_rune c (rest1 t) with
                  | Some p => Some p
                  | None => if decide (fst (decode1 t) = c) then Some t else None
                  end.
Proof.
  intros Ht. unfold last_rune. rewrite runes_step, filter_cons by done. cbn [fst].
  case_decide; [|by destruct (list.last _)].
  destruct (filter _ (runes (rest1 t))) as [|x l] eqn:E; [done|].
  change (list.last (((decode1 t).1, t) :: x :: l)) with (list.last (x :: l)).
  by destruct (list.last (x :: l)) eqn:El; [|apply list.last_None in El].
Qed.

Lemma utfrune_loop_eq t : forall fuel c,
  text t -> (length t < fuel)%nat -> 0x80 <= c ->
  utfrune_loop fuel (string_at t) c = Some (string_at <$> first_rune c t).
Proof.
  unfold string_at. induction t as [|t Hne IH] using runes_ind; intros fuel c Ht Hf Hc.
  { by destruct fuel; [cbn in Hf; lia|]. }
  destruct fuel as [|fuel]; [lia|]. pose proof (rest1_length t Hne).
  rewrite first_rune_step by done. specialize (IH fuel c (text_rest1 t Ht) ltac:(lia) Hc).
  destruct t as [|b t]; [done|]. pose proof (proj1 (text_cons _ _ Ht)).
  cbn [utfrune_loop app head mbind option_bind]. change Runeself with 0x80.
  destruct (Z.ltb_spec b 0x80).
  - destruct (Z.eqb_spec b 0); [lia|]. destruct (Z.eqb_spec b c); [lia|].
    rewrite decode1_ascii, decide_False by (done || cbn; lia). cbn [tail].
    by rewrite rest1_ascii in IH |- *.
  - change (b :: t ++ 0 :: rest) with ((b :: t) ++ 0 :: rest). rewrite chartorune_text by done.
    cbn [mbind option_bind]. destruct (decode1 (b :: t)) as [r n] eqn:E. cbn [fst].
    case_decide as D; [by subst; rewrite Z.eqb_refl|]. destruct (Z.eqb_spec r c); [done|].
    replace n with (snd (decode1 (b :: t))) by (by rewrite E). by rewrite drop_string.
Qed.

Lemma utfrrune_loop_eq t : forall fuel c s1,
  text t -> (length t < fuel)%nat -> 0x80 <= c ->
  utfrrune_loop fuel (string_at t) c s1 =
    Some (match last_rune c t with Some p => Some (string_at p) | None => s1 end).
Proof.
  unfold string_at. induction t as [|t Hne IH] using runes_ind; intros fuel c s1 Ht Hf Hc.
  { by destruct fuel; [cbn in Hf; lia|]. }
  destruct fuel as [|fuel]; [lia|]. pose proof (rest1_length t Hne).
  rewrite last_rune_step by done. specialize (fun s => IH fuel c s (text_rest1 t Ht) ltac:(lia) Hc).
  destruct t as [|b t]; [done|]. pose proof (proj1 (text_cons _ _ Ht)).
  cbn [utfrrune_loop app head mbind option_bind]. change Runeself with 0x80.
  destruct (Z.ltb_spec b 0x80).
  - destruct (Z.eqb_spec b 0); [lia|]. destruct (Z.eqb_spec b c); [lia|].
    rewrite decode1_ascii, decide_False by (done || cbn; lia). cbn [tail].
    rewrite rest1_ascii in IH |- * by done. rewrite IH. by destruct (last_rune c t).
  - change (b :: t ++ 0 :: rest) with ((b :: t) ++ 0 :: rest). rewrite chartorune_text by done.
    cbn [mbind option_bind]. destruct (decode1 (b :: t)) as [r n] eqn:E. cbn [fst].
    replace n with (snd (decode1 (b :: t))) by (by rewrite E). rewrite drop_string, IH by done.
    destruct (last_rune c (rest1 (b :: t))); [done|].
    case_decide; destruct (Z.eqb_spec r c); done.
Qed.

(** ** strchr, strrchr: an ASCII byte is found by looking at every byte *)

Lemma strchr_end_eq t : text t -> strchr_end (string_at t) = Some (string_at []).
Proof.
  induction t as [|b t IH]; intros Ht; [done|]. apply text_cons in Ht as [Hb Ht].
  cbn. destruct (Z.eqb_spec b 0); [lia|]. by apply IH.
Qed.

Lemma strchr_loop_skip u s c : Forall (fun b => b <> 0 /\ b <> c) u -> strchr_loop (u ++ s) c = strchr_loop s c.
Proof.
  induction 1 as [|b u [H0 Hc] _ IH]; [done|]. cbn [app strchr_loop].
  destruct (Z.eqb_spec b 0); [done|]. by destruct (Z.eqb_spec b c).
Qed.

Lemma string_skip t : t <> [] -> string_at t = take (Z.to_nat (snd (decode1 t))) t ++ string_at (rest1 t).
Proof. intros Ht. unfold string_at, rest1. by rewrite app_assoc, take_drop. Qed.

Lemma strchr_first t c : text t -> 0 < c < 0x80 -> strchr_loop (string_at t) c = Some (string_at <$> first_rune c t).
Proof.
  induction t as [|t Hne IH] using runes_ind; intros Ht Hc; [done|].
  rewrite first_rune_step by done. specialize (IH (text_rest1 t Ht) Hc).
  destruct t as [|b t]; [done|]. pose proof (proj1 (text_cons _ _ Ht)).
  destruct (Z.lt_ge_cases b 0x80).
  - rewrite decode1_ascii by done. rewrite rest1_ascii in IH |- * by done. cbn [fst].
    cbn. destruct (Z.eqb_spec b 0); [lia|].
    case_decide; destruct (Z.eqb_spec b c); done.
  - destruct (decode1_high b t Ht) as [Hh Hf]; [done|].
    rewrite decide_False by lia. rewrite string_skip by done. rewrite strchr_loop_skip; [done|].
    eapply Forall_impl; [|exact Hh]. cbn. lia.
Qed.

(** Where the first rune equal to [c] is, and what is left of the others. *)
Lemma first_rune_spec c t p :
  first_rune c t = Some p ->
  p <> [] /\ fst (decode1 p) = c /\ p `suffix_of` t /\
  last_rune c t = match last_rune c (rest1 p) with Some q => Some q | None => Some p end.
Proof.
  induction t as [|t Hne IH] using runes_ind; [done|].
  rewrite first_rune_step, last_rune_step by done. case_decide as D.
  { intros E. injection E as <-. by destruct (last_rune c (rest1 t)). }
  intros E. destruct (IH E) as (H1 & H2 & H3 & H4). split_and!; [done|done| |].
  { etrans; [exact H3|]. unfold rest1. exists (take (Z.to_nat (decode1 t).2) t). by rewrite take_drop. }
  rewrite H4. by destruct (last_rune c (rest1 p)).
Qed.
Lemma first_rune_None c t : first_rune c t = None -> last_rune c t = None.
Proof.
  induction t as [|t Hne IH] using runes_ind; [done|].
  rewrite first_rune_step, last_rune_step by done. case_decide; [done|]. intros E. by rewrite IH.
Qed.

Lemma suffix_text (p t : list Z) : p `suffix_of` t -> text t -> text p.
Proof. intros [u ->] H. by apply text_app in H as [_ H]. Qed.

Lemma strrchr_loop_eq fuel : forall t c r,
  text t -> (length t < fuel)%nat -> 0 < c < 0x80 ->
  strrchr_loop fuel (string_at t) c r =
    Some (match last_rune c t with Some p => Some (string_at p) | None => r end).
Proof.
  induction fuel as [|fuel IH]; intros t c r Ht Hf Hc; [lia|]. cbn [strrchr_loop].
  unfold strchr. destruct (Z.eqb_spec c 0); [lia|]. rewrite u8_id by lia. rewrite strchr_first by done.
  cbn [mbind option_bind]. destruct (first_rune c t) as [p|] eqn:E; cbn [fmap option_fmap option_map].
  2:{ by rewrite (first_rune_None _ _ E). }
  destruct (first_rune_spec _ _ _ E) as (H1 & H2 & H3 & H4).
  pose proof (suffix_text _ _ H3 Ht) as Hp. apply suffix_length in H3.
  destruct p as [|b p]; [done|].
  assert (b = c) as ->.
  { destruct (Z.lt_ge_cases b 0x80); [by rewrite decode1_ascii in H2|].
    destruct (decode1_high b p Hp); [done|]. lia. }
  rewrite rest1_ascii in H4 by lia. cbn [string_at app tail]. cbn [length] in H3.
  change (p ++ 0 :: rest) with (string_at p). rewrite IH; [|by apply text_cons in Hp as [_ Hp]|lia|done].
  rewrite H4. by destruct (last_rune c p).
Qed.

(** ** What the four searches find *)

Lemma utfrune_first t c : text t -> 0 < c < 2 ^ 32 ->
  utfrune (string_at t) c = Some (string_at <$> first_rune c t).
Proof.
  intros Ht Hc. unfold utfrune. change Runesync with 0x80. destruct (Z.ltb_spec c 0x80).
  - unfold strchr. destruct (Z.eqb_spec c 0); [lia|]. rewrite u8_id by lia. apply strchr_first; [done|lia].
  - apply utfrune_loop_eq; [done| |done]. unfold string_at. rewrite length_app. cbn. lia.
Qed.
Lemma utfrrune_last t c : text t -> 0 < c < 2 ^ 32 ->
  utfrrune (string_at t) c = Some (string_at <$> last_rune c t).
Proof.
  intros Ht Hc. assert (length t < S (length (string_at t)))%nat.
  { unfold string_at. rewrite length_app. cbn. lia. }
  unfold utfrrune. change Runesync with 0x80. destruct (Z.ltb_spec c 0x80).
  - unfold strrchr. destruct (Z.eqb_spec c 0); [lia|]. rewrite strrchr_loop_eq by (done || lia). by destruct (last_rune c t).
  - rewrite utfrrune_loop_eq by done. by destruct (last_rune c t).
Qed.
Lemma utfrune_nul t : text t -> utfrune (string_at t) 0 = Some (Some (string_at [])).
Proof. intros Ht. unfold utfrune, strchr. cbn [Z.ltb Z.eqb]. by rewrite strchr_end_eq. Qed.

(** ** strstr *)

Fixpoint find_suffix (P : list Z -> bool) (t : list Z) : option (list Z) :=
  if P t then Some t else match t with [] => None | _ :: t' => find_suffix P t' end.

Definition starts (u : list Z) (t : list Z) : bool := bool_decide (u `prefix_of` t).

Lemma starts_cons a u b t : starts (a :: u) (b :: t) = (a =? b) && starts u t.
Proof.
  unfold starts. destruct (Z.eqb_spec a b) as [->|Hn]; cbn [andb].
  - apply bool_decide_ext. split; [by apply prefix_cons_inv_2|by apply prefix_cons].
  - apply bool_decide_eq_false. intros H. by apply prefix_cons_inv_1 in H.
Qed.
Lemma starts_nil t : starts [] t = true.
Proof. apply bool_decide_eq_true, prefix_nil. Qed.
Lemma starts_cons_nil a u : starts (a :: u) [] = false.
Proof. apply bool_decide_eq_false. intros H. by apply prefix_nil_inv in H. Qed.

Lemma find_suffix_suffix P t p : find_suffix P t = Some p -> p `suffix_of` t /\ P p = true.
Proof.
  induction t as [|b t IH]; cbn; intros E.
  { destruct (P []) eqn:H; [|done]. by injection E as <-. }
  destruct (P (b :: t)) eqn:H; [by injection E as <-|].
  destruct (IH E) as [Hs Hp]. split; [by apply suffix_cons_r|done].
Qed.

Definition begins (c : Z) (q : list Z) : bool := match q with b :: _ => b =? c | [] => false end.

Lemma strchr_bytes t c : text t -> strchr_loop (string_at t) c = Some (string_at <$> find_suffix (begins c) t).
Proof.
  induction t as [|b t IH]; intros Ht; [done|]. apply text_cons in Ht as [Hb Ht].
  cbn. destruct (Z.eqb_spec b 0); [lia|]. destruct (Z.eqb_spec b c); [done|]. by apply IH.
Qed.

Lemma strstr_match_eq u : forall p b r2, text u -> text p ->
  strstr_match (u ++ 0 :: r2) (b :: string_at p) = Some (starts u p).
Proof.
  induction u as [|c u IH]; intros p b r2 Hu Hp; [by rewrite starts_nil|].
  apply text_cons in Hu as [Hc Hu]. cbn [app strstr_match]. destruct (Z.eqb_spec c 0); [lia|].
  destruct p as [|a p]; cbn.
  - rewrite starts_cons_nil. by destruct (Z.eqb_spec c 0).
  - rewrite starts_cons. apply text_cons in Hp as [Ha Hp]. destruct (Z.eqb_spec c a); [|done].
    by apply (IH p a r2).
Qed.

Lemma find_suffix_starts c u t :
  find_suffix (starts (c :: u)) t =
    match find_suffix (begins c) t with
    | Some (_ :: p) => if starts u p then Some (c :: p) else find_suffix (starts (c :: u)) p
    | _ => None
    end.
Proof.
  induction t as [|b t IH]; cbn [find_suffix begins]; [by rewrite starts_cons_nil|].
  rewrite starts_cons. rewrite (Z.eqb_sym c b). destruct (Z.eqb_spec b c) as [->|]; cbn [andb].
  - by destruct (starts u t).
  - by rewrite IH.
Qed.

Lemma strstr_loop_eq fuel : forall t c u r2,
  text t -> text (c :: u) -> (length t < fuel)%nat ->
  strstr_loop fuel (string_at <$> find_suffix (begins c) t) c (u ++ 0 :: r2) =
    Some (string_at <$> find_suffix (starts (c :: u)) t).
Proof.
  induction fuel as [|fuel IH]; intros t c u r2 Ht Hu Hf; [lia|].
  rewrite find_suffix_starts. destruct (find_suffix (begins c) t) as [q|] eqn:E; [|done].
  apply find_suffix_suffix in E as [Hs Hb]. pose proof (suffix_text _ _ Hs Ht) as Hq.
  apply suffix_length in Hs. destruct q as [|b p]; [done|]. apply Z.eqb_eq in Hb as ->.
  apply text_cons in Hq as [_ Hp]. pose proof (text_cons _ _ Hu) as [Hc Hu'].
  cbn [fmap option_fmap option_map strstr_loop]. rewrite string_at_cons.
  rewrite strstr_match_eq by done. cbn [mbind option_bind]. destruct (starts u p); [done|].
  cbn [tail]. unfold strchr.
  destruct (Z.eqb_spec c 0); [lia|]. rewrite u8_id by lia. rewrite strchr_bytes by done.
  cbn [mbind option_bind length] in *. apply IH; [done|done|lia].
Qed.

Lemma strstr_eq t u r2 : text t -> text u ->
  strstr (string_at t) (u ++ 0 :: r2) = Some (string_at <$> find_suffix (starts u) t).
Proof.
  intros Ht Hu. unfold strstr. destruct u as [|c u].
  { cbn. destruct t as [|b t]; cbn [find_suffix]; by rewrite starts_nil. }
  pose proof (text_cons _ _ Hu) as [Hc Hu'].
  cbn [app head mbind option_bind]. destruct (Z.eqb_spec c 0); [lia|]. unfold strchr.
  destruct (Z.eqb_spec c 0); [lia|]. rewrite u8_id by lia. rewrite strchr_bytes by done.
  cbn [mbind option_bind tail]. apply strstr_loop_eq; [done|done|].
  unfold string_at. rewrite length_app. cbn. lia.
Qed.

(** ** strlen, strncmp *)

Lemma strlen_eq u r2 : text u -> zlen u < 2 ^ 31 -> strlen (u ++ 0 :: r2) = Some (zlen u).
Proof.
  intros Hu Hl. unfold strlen, strchr. cbn [Z.eqb].
  assert (E : forall u, text u -> strchr_end (u ++ 0 :: r2) = Some (0 :: r2)).
  { clear u Hu Hl. induction u as [|b u IH]; intros Hu; [done|]. apply text_cons in Hu as [Hb Hu].
    cbn. destruct (Z.eqb_spec b 0); [lia|]. by apply IH. }
  rewrite E by done. cbn [mbind option_bind]. rewrite zlen_app. rewrite i32_id; [f_equal; lia|].
  pose proof (zlen_nonneg u). lia.
Qed.

Lemma strncmp_eq u : forall p r2, text u -> text p ->
  exists d, strncmp_loop (length u) (string_at p) (u ++ 0 :: r2) = Some d /\ (d = 0 <-> starts u p = true).
Proof.
  induction u as [|c u IH]; intros p r2 Hu Hp; [exists 0; by rewrite starts_nil|].
  apply text_cons in Hu as [Hc Hu]. cbn [length strncmp_loop app head tail mbind option_bind].
  destruct p as [|a p]; [change (string_at []) with (0 :: rest)|rewrite string_at_cons]; cbn [head tail mbind option_bind].
  - rewrite starts_cons_nil. destruct (Z.eqb_spec 0 c); [lia|]. cbn [negb].
    eexists; split; [done|]. destruct (Z.ltb_spec c 0); [lia|]. done.
  - apply text_cons in Hp as [Ha Hp]. rewrite starts_cons. rewrite (Z.eqb_sym c a).
    destruct (Z.eqb_spec a c) as [->|]; cbn [negb andb].
    + destruct (Z.eqb_spec c 0); [lia|]. by apply IH.
    + eexists; split; [done|]. by destruct (c <? a).
Qed.

(** ** utfutf looks at fewer places than strstr and finds the same *)

(** The bytes of a rune after its first continue it. *)
Lemma decode1_conts b t : text (b :: t) ->
  Forall (fun x => cont x = true) (take (Z.to_nat (snd (decode1 (b :: t))) - 1) t).
Proof.
  intros Ht. assert (Hne : b :: t <> []) by done.
  destruct (decode1_decodes (b :: t) (text_bytes _ Ht) Hne) as [(Hs & [u E] & En)|(_ & _ & En)].
  2:{ rewrite En. constructor. }
  rewrite En. destruct (utf8_shape _ Hs) as (x & v & Ev & _ & Hv). rewrite Ev in *. injection E as -> ->.
  unfold zlen. cbn [length]. replace (_ - 1)%nat with (length v) by lia. by rewrite take_app_length.
Qed.

(** Nothing that begins with a byte that is not a continuation starts inside a
    rune. *)
Lemma find_suffix_rune a u t :
  text t -> t <> [] -> cont a = false -> starts (a :: u) t = false ->
  find_suffix (starts (a :: u)) t = find_suffix (starts (a :: u)) (rest1 t).
Proof.
  intros Ht Hne Ha Hs. destruct t as [|b t]; [done|]. cbn [find_suffix]. rewrite Hs.
  pose proof (decode1_conts b t Ht) as Hc. unfold rest1.
  destruct (Z.to_nat (snd (decode1 (b :: t)))) as [|n] eqn:E; [pose proof (decode1_pos (b :: t)); lia|].
  cbn [drop]. replace (S n - 1)%nat with n in Hc by lia. clear E Hs Ht Hne. revert t Hc.
  induction n as [|n IH]; intros t Hc; [done|]. destruct t as [|x t]; [done|].
  cbn [take drop] in *. apply Forall_cons_1 in Hc as [Hx Hc].
  cbn [find_suffix]. rewrite starts_cons. destruct (Z.eqb_spec a x) as [->|]; [congruence|]. by apply IH.
Qed.

Lemma starts_rune c u t : scalar c -> starts (utf8 c ++ u) t = true -> fst (decode1 t) = c.
Proof. intros Hc H. apply bool_decide_eq_true in H as [v ->]. rewrite <- app_assoc. by rewrite decode1_utf8. Qed.

Lemma find_suffix_first c u t : scalar c -> text t ->
  find_suffix (starts (utf8 c ++ u)) t =
    match first_rune c t with
    | Some p => if starts (utf8 c ++ u) p then Some p else find_suffix (starts (utf8 c ++ u)) (rest1 p)
    | None => None
    end.
Proof.
  intros Hc. destruct (utf8_shape c Hc) as (a & v & Ev & Ha & _).
  induction t as [|t Hne IH] using runes_ind; intros Ht.
  { rewrite Ev. cbn [app find_suffix]. by rewrite starts_cons_nil. }
  rewrite first_rune_step by done. specialize (IH (text_rest1 _ Ht)).
  destruct (starts (utf8 c ++ u) t) eqn:E.
  { rewrite decide_True by (by eapply starts_rune). rewrite E. destruct t; cbn [find_suffix]; by rewrite E. }
  rewrite Ev in E, IH |- *. cbn [app] in *. rewrite find_suffix_rune by done. case_decide; [by rewrite E|done].
Qed.

Lemma utfutf_loop_eq fuel : forall t c u r2,
  scalar c -> c <> Runeerror -> 0 < c -> text t -> text (utf8 c ++ u) -> (length t < fuel)%nat ->
  utfutf_loop fuel (string_at t) ((utf8 c ++ u) ++ 0 :: r2) c (zlen (utf8 c)) (zlen (utf8 c ++ u)) =
    Some (string_at <$> find_suffix (starts (utf8 c ++ u)) t).
Proof.
  induction fuel as [|fuel IH]; intros t c u r2 Hc He H0 Ht Hu Hf; [lia|].
  cbn [utfutf_loop]. rewrite utfrune_first by (done || (destruct Hc; lia)). cbn [mbind option_bind].
  rewrite find_suffix_first by done. destruct (first_rune c t) as [p|] eqn:E; cbn [fmap option_fmap option_map]; [|done].
  destruct (first_rune_spec _ _ _ E) as (H1 & H2 & H3 & _).
  pose proof (suffix_text _ _ H3 Ht) as Hp. apply suffix_length in H3.
  destruct (strncmp_eq (utf8 c ++ u) p r2 Hu Hp) as (d & Ed & Hd). unfold strncmp.
  replace (Z.to_nat (zlen (utf8 c ++ u))) with (length (utf8 c ++ u)) by (unfold zlen; lia).
  rewrite Ed. cbn [mbind option_bind]. destruct (Z.eqb_spec d 0) as [->|Hd0].
  { by rewrite (proj1 Hd eq_refl). }
  destruct (starts (utf8 c ++ u) p) eqn:Es; [by destruct Hd0; apply Hd|].
  replace (zlen (utf8 c)) with (snd (decode1 p)).
  2:{ destruct (decode1_decodes p (text_bytes _ Hp) H1) as [(_ & _ & En)|(_ & Er & _)]; [by rewrite En, H2|congruence]. }
  unfold string_at at 1. rewrite drop_string by done. fold (string_at (rest1 p)).
  replace (snd (decode1 p)) with (zlen (utf8 c)).
  2:{ destruct (decode1_decodes p (text_bytes _ Hp) H1) as [(_ & _ & En)|(_ & Er & _)]; [by rewrite En, H2|congruence]. }
  pose proof (rest1_length p H1).
  apply IH; [done..|by apply text_rest1|done|lia].
Qed.

Lemma utfutf_eq t u r2 : text t -> text u -> bytes r2 -> zlen u < 2 ^ 31 -> fst (decode1 u) <> Runeerror \/ u = [] ->
  utfutf (string_at t) (u ++ 0 :: r2) = strstr (string_at t) (u ++ 0 :: r2).
Proof.
  intros Ht Hu Hr Hl He. unfold utfutf. destruct (decide (u = [])) as [->|Hne]; [done|].
  destruct He as [He|]; [|done].
  rewrite chartorune_string by (done || by apply text_bytes). cbn [mbind option_bind].
  destruct (decode1_decodes u (text_bytes _ Hu) Hne) as [(Hs & [v Ev] & En)|(_ & Er & _)]; [|done].
  destruct (decode1 u) as [c n]. cbn [fst snd] in *. subst n. 
  assert (i32 c = c) as -> by (apply i32_id; destruct Hs; lia). change Runesync with 0x80.
  destruct (Z.leb_spec c 0x80); [done|].
  rewrite strlen_eq by done. cbn [mbind option_bind]. rewrite strstr_eq by done. rewrite Ev in *.
  apply utfutf_loop_eq; try done; [lia|]. unfold string_at. rewrite length_app. cbn. lia.
Qed.

(** ** utfnlen *)

(** The runes of [t] that are known from its first [left] bytes. *)
Fixpoint whole_runes (fuel : nat) (t : list Z) (left : Z) : Z :=
  match fuel, t with
  | S fuel, b :: _ => if wants b <=? left then 1 + whole_runes fuel (rest1 t) (left - snd (decode1 t)) else 0
  | _, _ => 0
  end.

Lemma utfnlen_loop_eq t : forall fuel f left n,
  text t -> (length t < fuel)%nat -> (length t <= f)%nat -> left < 2 ^ 31 -> 0 <= n -> n + zlen t < 2 ^ 31 ->
  utfnlen_loop fuel (string_at t) left n = Some (n + whole_runes f t left).
Proof.
  induction t as [|t Hne IH] using runes_ind; intros fuel f left n Ht Hf Hff Hl Hn Hb.
  { destruct fuel; [cbn in Hf; lia|]. cbn. destruct (_ <? left); destruct f; cbn; by rewrite Z.add_0_r. }
  destruct fuel as [|fuel]; [lia|]. pose proof (rest1_length t Hne) as Hlen. pose proof (text_rest1 t Ht) as Htr.
  pose proof (text_bytes _ Ht) as Hbt. pose proof (decode1_pos t) as Hd.
  unfold zlen in Hb. destruct t as [|b t]; [done|]. pose proof (proj1 (text_cons _ _ Ht)).
  destruct f as [|f]; [cbn in Hff; lia|]. cbn [whole_runes].
  specialize (fun l m H1 H2 => IH fuel f l m Htr ltac:(lia) ltac:(cbn in *; lia) H1 H2).
  unfold zlen in IH. cbn [utfnlen_loop]. rewrite string_at_cons. cbn [head mbind option_bind tail].
  change Runeself with 0x80. destruct (Z.ltb_spec 0 left); cbn [negb].
  2:{ destruct (Z.leb_spec (wants b) left); [unfold wants in *; revert H1; zbool; lia|]. by rewrite Z.add_0_r. }
  destruct (Z.ltb_spec b 0x80).
  { destruct (Z.eqb_spec b 0); [lia|]. replace (wants b) with 1 by (unfold wants; by zbool).
    destruct (Z.leb_spec 1 left); [|lia]. rewrite decode1_ascii in * by done. rewrite rest1_ascii in * by done.
    rewrite i32_id by lia. cbn [snd]. rewrite IH by lia. f_equal. lia. }
  rewrite (i32_id left) by lia.
  rewrite fullrune_eq; [|apply (byte_seq_app (b :: t)); split; [done|by apply Forall_cons_2]|done].
  cbn [mbind option_bind]. destruct (Z.leb_spec (wants b) left); cbn [Z.b2z Z.eqb]; [|by rewrite Z.add_0_r].
  change (b :: string_at t) with ((b :: t) ++ 0 :: rest). rewrite chartorune_text by done. cbn [mbind option_bind].
  rewrite (surjective_pairing (decode1 (b :: t))) at 1. rewrite drop_string, i32_id by (done || lia).
  fold (string_at (rest1 (b :: t))). rewrite IH by lia. f_equal. lia.
Qed.

Lemma utfnlen_eq t m : text t -> zlen t < 2 ^ 31 -> m < 2 ^ 31 ->
  utfnlen (string_at t) m = Some (whole_runes (length t) t m).
Proof.
  intros Ht Hl Hm. unfold utfnlen. apply (utfnlen_loop_eq t _ (length t)); try (done || lia).
  unfold string_at. rewrite length_app. cbn. lia.
Qed.

(** On encoded code points: those whose encodings end within the bytes. *)
Lemma whole_runes_encoded cs : forall f left, Forall scalar cs -> (length (concat (utf8 <$> cs)) <= f)%nat ->
  exists j : nat, whole_runes f (concat (utf8 <$> cs)) left = Z.of_nat j /\ (j <= length cs)%nat /\
    (0 <= left -> zlen (concat (utf8 <$> take j cs)) <= left) /\
    ((j < length cs)%nat -> left < zlen (concat (utf8 <$> take (S j) cs))).
Proof.
  induction cs as [|c cs IH]; intros f left Hs Hf.
  { exists 0%nat. destruct f; cbn; split_and!; (done || lia). }
  apply Forall_cons_1 in Hs as [Hc Hs]. cbn [fmap list_fmap concat] in *.
  destruct (utf8_shape c Hc) as (b & v & Ev & _ & _). pose proof (utf8_wants c b v Hc Ev) as Hw.
  pose proof (utf8_length c). rewrite length_app in Hf. 
  destruct f as [|f]; [unfold zlen in *; lia|].
  assert (E : whole_runes (S f) (utf8 c ++ concat (utf8 <$> cs)) left =
    if wants b <=? left then 1 + whole_runes f (concat (utf8 <$> cs)) (left - zlen (utf8 c)) else 0).
  { rewrite <- (rest1_utf8 c (concat (utf8 <$> cs))) at 2 by done.
    replace (zlen (utf8 c)) with (snd (decode1 (utf8 c ++ concat (utf8 <$> cs)))) by (by rewrite decode1_utf8).
    by rewrite Ev. }
  unfold fmap in *. rewrite E. rewrite Hw. destruct (Z.leb_spec (zlen (utf8 c)) left).
  - destruct (IH f (left - zlen (utf8 c)) Hs) as (j & -> & Hj & H1 & H2); [unfold zlen in *; lia|].
    exists (S j). cbn [length take list_fmap concat]. rewrite !zlen_app. split_and!; [lia|lia| |].
    + intros _. specialize (H1 ltac:(lia)). lia.
    + intros Hlt. specialize (H2 ltac:(lia)). cbn [take] in H2. lia.
  - exists 0%nat. cbn [length take list_fmap concat]. split_and!; [done|lia|by intros|].
    intros _. rewrite zlen_app. pose proof (zlen_nonneg (@nil Z)). unfold zlen in *. lia.
Qed.

(** ** utfecpy *)

Lemma memccpy_loop_eq n : forall i pre xs t,
  text t -> zlen pre = i -> (n <= length xs)%nat ->
  memccpy_loop n i (pre ++ xs) (string_at t) 0 =
    Some (if decide (length t < n)%nat
          then (Some (i + zlen t + 1), pre ++ t ++ 0 :: drop (S (length t)) xs)
          else (None, pre ++ take n t ++ drop n xs)).
Proof.
  induction n as [|n IH]; intros i pre xs t Ht Hi Hn; [by rewrite decide_False by lia|].
  destruct xs as [|x xs]; cbn [length] in Hn; [lia|]. cbn [memccpy_loop].
  assert (Hput : forall b, 0 <= b < 256 -> strput (pre ++ x :: xs) i b = Some (pre ++ b :: xs)).
  { intros b Hb. rewrite strput_ok by (rewrite zlen_app, zlen_cons; pose proof (zlen_nonneg xs); pose proof (zlen_nonneg pre); lia).
    rewrite u8_id, insert_app_r_alt by (done || (unfold zlen in Hi; lia)).
    replace (Z.to_nat i - length pre)%nat with 0%nat by (unfold zlen in Hi; lia). done. }
  destruct t as [|b t].
  { change (string_at []) with (0 :: rest). cbn [head mbind option_bind]. rewrite Hput by done.
    cbn [mbind option_bind Z.eqb]. rewrite decide_True by (cbn; lia). by rewrite Z.add_0_r. }
  pose proof (text_cons _ _ Ht) as [Hb Ht']. rewrite string_at_cons. cbn [head mbind option_bind tail].
  rewrite Hput by lia. cbn [mbind option_bind]. destruct (Z.eqb_spec b 0); [lia|].
  rewrite cons_middle, (app_assoc pre). rewrite IH; [|done|rewrite zlen_app; change (zlen [b]) with 1; lia|lia].
  f_equal. cbn [length]. rewrite zlen_cons. destruct (decide (length t < n)%nat).
  - rewrite decide_True by lia. rewrite <- app_assoc. cbn [app]. do 2 f_equal. lia.
  - rewrite decide_False by lia. rewrite <- app_assoc. done.
Qed.

Lemma and_C0 b : byte b -> (Z.land b 0xC0 =? 0x80) = cont b.
Proof.
  intros Hb. apply (byte_check (fun b => eqb (Z.land b 0xC0 =? 0x80) (cont b))) in Hb; [|vm_compute; reflexivity].
  by apply eqb_prop.
Qed.

(** Where the cut is: the last byte that begins a sequence. *)
Lemma utfecpy_back_spec n : forall to, (n <= length to)%nat -> bytes to -> exists k : nat,
  utfecpy_back n to = Some (Z.of_nat k) /\ (k < n \/ k = 0)%nat /\
  (k = 0%nat \/ exists b, to !! k = Some b /\ cont b = false) /\
  (forall i b, (k < i < n)%nat -> to !! i = Some b -> cont b = true).
Proof.
  induction n as [|n IH]; intros to Hn Hto; [exists 0%nat; split_and!; auto; lia|].
  cbn [utfecpy_back]. destruct (lookup_lt_is_Some_2 to n) as [b E]; [lia|]. rewrite E. cbn [mbind option_bind].
  rewrite and_C0 by exact (Forall_lookup_1 _ _ _ _ Hto E). destruct (cont b) eqn:C.
  - destruct (IH to ltac:(lia) Hto) as (k & Ek & Hk & Hc & Hi). exists k. split_and!; [done|lia|done|].
    intros i b' Hki Eb. destruct (decide (i = n)) as [->|]; [congruence|]. apply (Hi i); [lia|done].
  - exists n. split_and!; [done|lia|right; eauto|]. lia.
Qed.

(** The places of encoded text that do not continue a sequence are its boundaries. *)
Lemma boundary cs : forall k, Forall scalar cs -> (k <= length (concat (utf8 <$> cs)))%nat ->
  (forall b, concat (utf8 <$> cs) !! k = Some b -> k = 0%nat \/ cont b = false) ->
  exists j, take k (concat (utf8 <$> cs)) = concat (utf8 <$> take j cs).
Proof.
  induction cs as [|c cs IH]; intros k Hs Hk Hb; [exists 0%nat; by destruct k|].
  apply Forall_cons_1 in Hs as [Hc Hs]. destruct (decide (k = 0%nat)) as [->|Hk0]; [by exists 0%nat|].
  cbn [fmap list_fmap concat] in *. destruct (utf8_shape c Hc) as (a & v & Ev & Ha & Hv).
  assert (length (utf8 c) <= k)%nat.
  { destruct (Nat.le_gt_cases (length (utf8 c)) k) as [|Hlt]; [done|]. exfalso.
    destruct (lookup_lt_is_Some_2 (utf8 c) k Hlt) as [b E].
    destruct (Hb b) as [?|Hcb]; [by rewrite lookup_app_l|done|].
    rewrite Ev in E. destruct k as [|k]; [done|]. cbn in E. pose proof (Forall_lookup_1 _ _ _ _ Hv E) as H. cbn in H. congruence. }
  destruct (IH (k - length (utf8 c))%nat Hs) as [j Ej].
  - rewrite length_app in Hk. unfold fmap in *. lia.
  - intros b E. destruct (Hb b) as [?|?]; [|lia|by right]. rewrite lookup_app_r by lia. exact E.
  - exists (S j). cbn [take fmap list_fmap concat]. unfold fmap in *. rewrite <- Ej. by rewrite take_app_ge by lia.
Qed.

(** The boundary after [i] code points continues no sequence. *)
Lemma boundary_lookup cs i b : Forall scalar cs ->
  concat (utf8 <$> cs) !! length (concat (utf8 <$> take i cs)) = Some b -> cont b = false.
Proof.
  intros Hs E. replace (concat (utf8 <$> cs)) with (concat (utf8 <$> take i cs) ++ concat (utf8 <$> drop i cs)) in E
    by (by rewrite <- concat_app, <- fmap_app, take_drop).
  rewrite lookup_app_r, Nat.sub_diag in E by lia. destruct (drop i cs) as [|c l] eqn:D; [done|].
  assert (scalar c) as Hc.
  { apply (Forall_drop _ i) in Hs. rewrite D in Hs. by apply Forall_cons_1 in Hs as [? _]. }
  destruct (utf8_shape c Hc) as (a & v & Ev & Ha & _). cbn in E. rewrite Ev in E. by injection E as <-.
Qed.

(** The encoding of code points other than 0 holds no NUL. *)
Lemma text_encoded cs : Forall scalar cs -> Forall (fun c => c <> 0) cs -> text (concat (utf8 <$> cs)).
Proof.
  induction cs as [|c cs IH]; intros Hs H0; [constructor|].
  apply Forall_cons_1 in Hs as [[Hc Hn] Hs], H0 as [H0 H0s]. cbn [fmap list_fmap concat]. apply text_app.
  split; [|by apply IH]. unfold utf8.
  destruct (Z.ltb_spec c 0x80); [|destruct (Z.ltb_spec c 0x800); [|destruct (Z.ltb_spec c 0x10000)]];
    repeat apply Forall_cons_2; try apply Forall_nil_2; cbn in *; dlia.
Qed.

Lemma drop_over (l to : list Z) e :
  (length l <= e)%nat -> (length l <= length to)%nat -> drop e (l ++ drop (length l) to) = drop e to.
Proof. intros H1 H2. rewrite drop_app_ge, drop_drop by done. f_equal. lia. Qed.

Lemma utfecpy_encoded cs to e :
  Forall scalar cs -> text (concat (utf8 <$> cs)) -> bytes to -> 0 < e <= zlen to -> zlen to < 2 ^ 32 ->
  exists j tl, let p := concat (utf8 <$> take j cs) in
    utfecpy to e (string_at (concat (utf8 <$> cs))) = Some (zlen p, p ++ 0 :: tl) /\
    zlen p < e /\ (forall i, zlen (concat (utf8 <$> take i cs)) < e -> zlen (concat (utf8 <$> take i cs)) <= zlen p) /\
    drop (Z.to_nat e) (p ++ 0 :: tl) = drop (Z.to_nat e) to.
Proof.
  intros Hs Ht Hto He Hb.
  assert (Hpre : forall i, zlen (concat (utf8 <$> take i cs)) <= zlen (concat (utf8 <$> cs))).
  { intros i. rewrite <- (take_drop i cs) at 2. rewrite fmap_app, concat_app, zlen_app.
    pose proof (zlen_nonneg (concat (utf8 <$> drop i cs))). lia. }
  remember (concat (utf8 <$> cs)) as t eqn:Et.
  unfold utfecpy. destruct (Z.leb_spec e 0); [lia|]. unfold memccpy. rewrite u32_id by lia.
  change (Z.land 0 0xFF) with 0.
  pose proof (memccpy_loop_eq (Z.to_nat e) 0 [] to t Ht eq_refl ltac:(unfold zlen in *; lia)) as E.
  cbn [app] in E. rewrite E. clear E. cbn [mbind option_bind].
  destruct (decide (length t < Z.to_nat e)%nat) as [Hlt|Hge].
  - exists (length cs), (drop (S (length t)) to). cbv zeta. rewrite take_ge, <- Et by lia.
    split_and!; [do 2 f_equal; lia|unfold zlen; lia|done|].
    pose proof (drop_over (t ++ [0]) to (Z.to_nat e)) as D. rewrite length_app in D. cbn [length] in D.
    rewrite <- app_assoc in D. cbn [app] in D. rewrite Nat.add_1_r in D. apply D; unfold zlen in *; lia.
  - destruct (utfecpy_back_spec (Z.to_nat e) (take (Z.to_nat e) t ++ drop (Z.to_nat e) to)) as (k & -> & Hk & Hc & Hi).
    { rewrite length_app, length_take, length_drop. unfold zlen in *. lia. }
    { apply byte_seq_app. split; [apply Forall_take; by apply text_bytes|by apply Forall_drop]. }
    assert (Hlook : forall i, (i < Z.to_nat e)%nat -> (take (Z.to_nat e) t ++ drop (Z.to_nat e) to) !! i = t !! i).
    { intros i Hi'. rewrite lookup_app_l by (rewrite length_take; lia). by apply lookup_take_lt. }
    assert (k < Z.to_nat e)%nat as Hke by (unfold zlen in *; lia).
    cbn [mbind option_bind]. rewrite strput_ok.
    2:{ rewrite zlen_app. unfold zlen in *. rewrite length_take, length_drop. lia. }
    cbn [mbind option_bind]. rewrite Nat2Z.id. change (u8 0) with 0.
    destruct (boundary cs k Hs) as [j Ej]; [rewrite <- Et; lia| |].
    { intros b E. rewrite <- Et in E. destruct Hc as [->|(b' & E' & Hb')]; [by left|]. right.
      rewrite Hlook in E' by done. congruence. }
    rewrite <- Et in Ej.
    assert (Hp : zlen (take k t) = Z.of_nat k) by (unfold zlen; rewrite length_take; lia).
    exists j, (drop (S k) (take (Z.to_nat e) t) ++ drop (Z.to_nat e) to). cbv zeta. rewrite <- Ej, Hp.
    split_and!.
    + do 2 f_equal. rewrite insert_take_drop by (rewrite length_app, length_take; lia).
      rewrite take_app_le, drop_app_le by (rewrite length_take; lia).
      by rewrite take_take, Nat.min_l by lia.
    + lia.
    + intros i Hlt. destruct (Z.le_gt_cases (zlen (concat (utf8 <$> take i cs))) (Z.of_nat k)) as [|Hgt]; [done|].
      exfalso. unfold zlen in *.
      destruct (lookup_lt_is_Some_2 t (length (concat (utf8 <$> take i cs)))) as [b E]; [lia|].
      pose proof E as E'. rewrite Et in E'. apply boundary_lookup in E'; [|done].
      rewrite (Hi (length (concat (utf8 <$> take i cs))) b) in E'; [done|lia|]. rewrite Hlook by lia. done.
    + rewrite cons_middle, !app_assoc. apply drop_app_length'. rewrite !length_app, length_drop, !length_take. cbn [length]. lia.
Qed.
End strings.
