(* ===== verification/UtfProps.v ===== *)
(** * UTF-8 in the C library: properties *)
From S2P Require Import Prelude Utf UtfThms UtfStr.

(** C29. [chartorune] on any string (bytes [t], then a NUL): it reads nothing
    past the NUL, and its result is the code point whose encoding begins the
    string and the length of that encoding or, when the string begins with no
    encoding of a code point (a stray or missing continuation byte, an overlong
    form, a surrogate, a value above 0x10FFFF), the error rune and one byte.
    That determines the result. *)
Theorem chartorune_decides t rest :
  bytes t -> bytes rest -> t <> [] ->
  exists c n, chartorune (t ++ 0 :: rest) = Some (c, n) /\ decodes t c n /\
    forall c' n', decodes t c' n' -> c' = c /\ n' = n.
Proof.
  intros Ht Hr Hne. exists (fst (decode1 t)), (snd (decode1 t)).
  rewrite chartorune_string, <- surjective_pairing by done. split_and!; [done|by apply decode1_decodes|].
  intros c' n' H. eapply decodes_at_most_one; [exact H|]. by apply decode1_decodes.
Qed.

Lemma chartorune_decides_witness :
  exists c n, chartorune ([0xED; 0xA0; 0x80] ++ 0 :: []) = Some (c, n) /\ decodes [0xED; 0xA0; 0x80] c n /\
    forall c' n', decodes [0xED; 0xA0; 0x80] c' n' -> c' = c /\ n' = n.
Proof. apply chartorune_decides; [repeat constructor; lia..|done]. Defined.

(** C30. Round trip.  For any rune and any buffer with room for its encoding,
    [runetochar] writes an encoding at the front of the buffer, nothing else, and
    [chartorune] reads back the same number of bytes and the same rune, or the
    error rune when the rune is no code point (a surrogate, or above 0x10FFFF). *)
Theorem runetochar_chartorune str c :
  0 <= c < 2 ^ 32 -> bytes str -> zlen (utf8 (runerepl c)) <= zlen str ->
  exists n str', runetochar str c = Some (n, str') /\ n = zlen (utf8 (runerepl c)) /\
    drop (Z.to_nat n) str' = drop (Z.to_nat n) str /\
    chartorune str' = Some (if decide (scalar c) then c else Runeerror, n).
Proof.
  intros Hc Hb Hl. rewrite runetochar_encodes by done. pose proof (runerepl_scalar c) as Hs.
  eexists _, _. split_and!; [done|done| |].
  { unfold zlen. rewrite Nat2Z.id. by rewrite drop_app_length. }
  destruct (utf8_shape _ Hs) as (b & u & E & _ & _).
  pose proof (utf8_wants _ _ _ Hs E) as Hw. pose proof (decode1_utf8 (runerepl c) (drop (length (utf8 (runerepl c))) str) Hs) as Hd.
  rewrite E in *. cbn [app] in *. rewrite chartorune_long; [by rewrite Hd| |].
  - change (b :: u ++ ?r) with ((b :: u) ++ r). apply byte_seq_app. split; [rewrite <- E; by apply utf8_bytes|by apply Forall_drop].
  - rewrite Hw, !zlen_cons, zlen_app. pose proof (zlen_nonneg (drop (length (b :: u)) str)). lia.
Qed.

Lemma runetochar_chartorune_witness :
  exists n str', runetochar [1; 2; 3; 4; 5] 0x1F600 = Some (n, str') /\ n = zlen (utf8 (runerepl 0x1F600)) /\
    drop (Z.to_nat n) str' = drop (Z.to_nat n) [1; 2; 3; 4; 5] /\
    chartorune str' = Some (if decide (scalar 0x1F600) then 0x1F600 else Runeerror, n).
Proof. apply runetochar_chartorune; [lia|repeat constructor; lia|vm_compute; discriminate]. Defined.

(** [fullrune] on the first [n] bytes of a buffer: 1 means that these bytes
    decide what [chartorune] reads, whatever follows them; it is 1 when they
    begin with an encoding, and 0 when they are a part of one. *)
Theorem fullrune_decides s n :
  bytes s -> 0 < n <= zlen s ->
  exists f, fullrune s n = Some f /\ (f = 0 \/ f = 1) /\
    (f = 1 -> exists r, snd r <= n /\ forall u, bytes u -> chartorune (slice 0 n s ++ u) = Some r) /\
    (forall c, scalar c -> utf8 c `prefix_of` slice 0 n s -> f = 1) /\
    (forall c, scalar c -> slice 0 n s `prefix_of` utf8 c -> n < zlen (utf8 c) -> f = 0).
Proof.
  intros Hs Hn. destruct s as [|b s]; [change (zlen (@nil Z)) with 0 in Hn; lia|].
  rewrite fullrune_eq by (done || lia). eexists. split; [done|]. split; [destruct (wants b <=? n); auto|].
  assert (E : slice 0 n (b :: s) = b :: slice 0 (n - 1) s).
  { unfold slice. cbn [Z.to_nat drop]. replace (Z.to_nat n) with (S (Z.to_nat (n - 1))) by lia. done. }
  rewrite E. rewrite zlen_cons in Hn.
  assert (Hl : zlen (slice 0 (n - 1) s) = n - 1) by (apply zlen_slice; lia). split_and!.
  - destruct (Z.leb_spec (wants b) n) as [Hw|]; [|done]. intros _.
    exists (decode1 (b :: slice 0 (n - 1) s)). split; [pose proof (decode1_wants b (slice 0 (n - 1) s)); lia|].
    intros u Hu. cbn [app]. rewrite chartorune_long; [| |rewrite zlen_cons, zlen_app; pose proof (zlen_nonneg u); lia].
    + rewrite decode1_app; [done|]. rewrite zlen_cons. lia.
    + apply (byte_seq_app (b :: slice 0 (n - 1) s)). split; [|done]. rewrite <- E. by apply Forall_take, Forall_drop.
  - intros c Hc [v Ev]. destruct (utf8_shape c Hc) as (a & w & Ew & _ & _). pose proof (utf8_wants c a w Hc Ew) as Hw.
    assert (zlen (utf8 c) <= n).
    { apply (f_equal zlen) in Ev. rewrite zlen_app, zlen_cons in Ev. pose proof (zlen_nonneg v). lia. }
    rewrite Ew in Ev. injection Ev as <- _. destruct (Z.leb_spec (wants b) n); [done|lia].
  - intros c Hc [v Ev] Hlt. destruct (utf8_shape c Hc) as (a & w & Ew & _ & _). pose proof (utf8_wants c a w Hc Ew) as Hw.
    rewrite Ew in Ev. injection Ev as <- _. destruct (Z.leb_spec (wants a) n); [lia|done].
Qed.

Lemma fullrune_decides_witness :
  exists f, fullrune [0xE2; 0x82; 0xAC; 0] 2 = Some f /\ (f = 0 \/ f = 1) /\
    (f = 1 -> exists r, snd r <= 2 /\ forall u, bytes u -> chartorune (slice 0 2 [0xE2; 0x82; 0xAC; 0] ++ u) = Some r) /\
    (forall c, scalar c -> utf8 c `prefix_of` slice 0 2 [0xE2; 0x82; 0xAC; 0] -> f = 1) /\
    (forall c, scalar c -> slice 0 2 [0xE2; 0x82; 0xAC; 0] `prefix_of` utf8 c -> 2 < zlen (utf8 c) -> f = 0).
Proof. apply fullrune_decides; [repeat constructor; lia|done]. Defined.

(** Counting.  On encoded code points [utflen] returns how many there are,
    [utfnlen(s, m)] the number of those whose encodings end within the first [m]
    bytes, [runenlen] of the code points the number of bytes of the encoding, and
    [runelen] the length of each. *)
Theorem utf_counts cs rest m :
  Forall scalar cs -> Forall (fun c => c <> 0) cs -> bytes rest ->
  zlen (concat (utf8 <$> cs)) < 2 ^ 31 -> 0 <= m < 2 ^ 31 ->
  utflen (string_at rest (concat (utf8 <$> cs))) = Some (zlen cs) /\
  (exists j : nat, utfnlen (string_at rest (concat (utf8 <$> cs))) m = Some (Z.of_nat j) /\ (j <= length cs)%nat /\
    zlen (concat (utf8 <$> take j cs)) <= m /\
    ((j < length cs)%nat -> m < zlen (concat (utf8 <$> take (S j) cs)))) /\
  runenlen (cs ++ rest) (zlen cs) = Some (zlen (concat (utf8 <$> cs))) /\
  Forall (fun c => runelen c = Some (zlen (utf8 c))) cs.
Proof.
  intros Hs H0 Hr Hl Hm. pose proof (text_encoded cs Hs H0) as Ht. split_and!.
  - unfold string_at. rewrite utflen_eq by done. f_equal. rewrite <- (runes_encoded cs Hs) at 2.
    unfold zlen. by rewrite length_fmap.
  - rewrite utfnlen_eq by (done || lia).
    destruct (whole_runes_encoded cs (length (concat (utf8 <$> cs))) m Hs) as (j & -> & Hj & H1 & H2); [lia|].
    exists j. split_and!; [done|done|apply H1; lia|done].
  - unfold runenlen. pose proof (zlen_nonneg cs). destruct (Z.ltb_spec (zlen cs) 0); [lia|].
    unfold zlen at 1. rewrite Nat2Z.id. by apply runenlen_loop_eq.
  - eapply Forall_impl; [|exact Hs]. intros c Hc. cbn. rewrite runelen_eq by (destruct Hc; lia).
    unfold runerepl. by rewrite decide_True.
Qed.

(** Text for the witnesses: an ASCII rune, one of three bytes, one of four. *)
Definition sample_runes : list Z := [0x41; 0x20AC; 0x1F600].

Lemma utf_counts_witness :
  utflen (string_at [7] (concat (utf8 <$> sample_runes))) = Some (zlen sample_runes) /\
  (exists j : nat, utfnlen (string_at [7] (concat (utf8 <$> sample_runes))) 6 = Some (Z.of_nat j) /\
    (j <= length sample_runes)%nat /\
    zlen (concat (utf8 <$> take j sample_runes)) <= 6 /\
    ((j < length sample_runes)%nat -> 6 < zlen (concat (utf8 <$> take (S j) sample_runes)))) /\
  runenlen (sample_runes ++ [7]) (zlen sample_runes) = Some (zlen (concat (utf8 <$> sample_runes))) /\
  Forall (fun c => runelen c = Some (zlen (utf8 c))) sample_runes.
Proof.
  apply utf_counts; [|repeat constructor; lia|repeat constructor; lia|vm_compute; reflexivity|lia].
  repeat constructor; lia.
Defined.

(** Searching for a rune.  On every string, well formed or not, [utfrune]
    points at the first rune equal to [c] (as [chartorune] cuts the string) and
    [utfrrune] at the last, and both return nil when there is none; an ASCII rune
    is found although the search then looks at every byte. *)
Theorem utfrune_finds t rest c :
  text t -> bytes rest -> 0 < c < 2 ^ 32 ->
  utfrune (string_at rest t) c = Some (string_at rest <$> first_rune c t) /\
  utfrrune (string_at rest t) c = Some (string_at rest <$> last_rune c t).
Proof. intros. split; [by apply utfrune_first|by apply utfrrune_last]. Qed.

Lemma utfrune_finds_witness :
  utfrune (string_at [] [0x41; 0xE2; 0x82; 0xAC; 0x41; 0xFF]) 0x20AC = Some (string_at [] <$> first_rune 0x20AC [0x41; 0xE2; 0x82; 0xAC; 0x41; 0xFF]) /\
  utfrrune (string_at [] [0x41; 0xE2; 0x82; 0xAC; 0x41; 0xFF]) 0x20AC = Some (string_at [] <$> last_rune 0x20AC [0x41; 0xE2; 0x82; 0xAC; 0x41; 0xFF]).
Proof. apply utfrune_finds; [repeat constructor; lia|constructor|lia]. Defined.

(** C31. Searching for a string.  [utfutf], which compares only where the first
    rune of the pattern is, returns what [strstr] returns, the first place where
    the bytes of the pattern are, on every string and for every pattern that does
    not begin with the error rune. *)
Theorem utfutf_strstr t rest u rest2 :
  text t -> bytes rest -> text u -> bytes rest2 -> zlen u < 2 ^ 31 -> fst (decode1 u) <> Runeerror ->
  utfutf (string_at rest t) (string_at rest2 u) = Some (string_at rest <$> find_suffix (starts u) t) /\
  strstr (string_at rest t) (string_at rest2 u) = Some (string_at rest <$> find_suffix (starts u) t).
Proof.
  intros Ht Hr Hu Hr2 Hl He. unfold string_at at 2 5. rewrite utfutf_eq by (done || by left).
  by rewrite strstr_eq.
Qed.

Lemma utfutf_strstr_witness :
  utfutf (string_at [] [0xC3; 0xC3; 0xA9; 0x42]) (string_at [] [0xC3; 0xA9]) =
    Some (string_at [] <$> find_suffix (starts [0xC3; 0xA9]) [0xC3; 0xC3; 0xA9; 0x42]) /\
  strstr (string_at [] [0xC3; 0xC3; 0xA9; 0x42]) (string_at [] [0xC3; 0xA9]) =
    Some (string_at [] <$> find_suffix (starts [0xC3; 0xA9]) [0xC3; 0xC3; 0xA9; 0x42]).
Proof. apply utfutf_strstr; [repeat constructor; lia|constructor|repeat constructor; lia|constructor|done|vm_compute; discriminate]. Defined.

(** The excluded pattern: the loop steps by the width of the pattern's first
    rune, so where a broken byte stands for the error rune it steps too far: past
    the NUL of the first string, and past the pattern itself in the second. *)
Lemma utfutf_error_rune :
  utfutf [0xFF; 0] [0xEF; 0xBF; 0xBD; 0] = None /\
  utfutf [0xFF; 0xEF; 0xBF; 0xBD; 0x41; 0x42; 0x43; 0] [0xEF; 0xBF; 0xBD; 0] = Some None /\
  strstr [0xFF; 0xEF; 0xBF; 0xBD; 0x41; 0x42; 0x43; 0] [0xEF; 0xBF; 0xBD; 0] = Some (Some [0xEF; 0xBF; 0xBD; 0x41; 0x42; 0x43; 0]).
Proof. split_and!; vm_compute; reflexivity. Qed.

(** A value above 0x10FFFF is counted as four bytes and written as three. *)
Lemma runenlen_out_of_range c :
  0x110000 <= c < 2 ^ 32 -> runenlen [c] 1 = Some 4 /\ runelen c = Some 3.
Proof.
  intros Hc. split.
  - unfold runenlen. change (1 <? 0) with false. cbv iota. change (Z.to_nat 1) with 1%nat.
    cbn [runenlen_loop head mbind option_bind]. rewrite runenlen_add_eq by lia.
    change Rune1 with 0x7F. by zbool.
  - rewrite runelen_eq by lia. unfold runerepl. rewrite decide_False by (unfold scalar; lia). done.
Qed.

(** C32. [utfecpy] copies whole code points: into any buffer with [e] bytes it
    writes the longest run of the leading code points that leaves room for a NUL,
    the NUL after them, returns a pointer to the NUL, and touches nothing past [e]. *)
Theorem utfecpy_whole cs rest to e :
  Forall scalar cs -> Forall (fun c => c <> 0) cs -> bytes rest -> bytes to -> 0 < e <= zlen to -> zlen to < 2 ^ 32 ->
  exists j tl, let p := concat (utf8 <$> take j cs) in
    utfecpy to e (string_at rest (concat (utf8 <$> cs))) = Some (zlen p, p ++ 0 :: tl) /\
    zlen p < e /\ (forall i, zlen (concat (utf8 <$> take i cs)) < e -> zlen (concat (utf8 <$> take i cs)) <= zlen p) /\
    drop (Z.to_nat e) (p ++ 0 :: tl) = drop (Z.to_nat e) to.
Proof.
  intros Hs H0 Hr Hto He Hb. pose proof (text_encoded cs Hs H0) as Ht.
  by apply utfecpy_encoded.
Qed.

Lemma utfecpy_whole_witness :
  exists j tl, let p := concat (utf8 <$> take j [0x41; 0x20AC; 0xE9]) in
    utfecpy [1; 2; 3; 4; 5; 6; 7] 6 (string_at [] (concat (utf8 <$> [0x41; 0x20AC; 0xE9]))) = Some (zlen p, p ++ 0 :: tl) /\
    zlen p < 6 /\ (forall i, zlen (concat (utf8 <$> take i [0x41; 0x20AC; 0xE9])) < 6 -> zlen (concat (utf8 <$> take i [0x41; 0x20AC; 0xE9])) <= zlen p) /\
    drop (Z.to_nat 6) (p ++ 0 :: tl) = drop (Z.to_nat 6) [1; 2; 3; 4; 5; 6; 7].
Proof. apply utfecpy_whole; [repeat constructor; lia|repeat constructor; lia|constructor|repeat constructor; lia|done|done]. Defined.
