(* ===== verification/Mp.v ===== *)
(** * Multiple precision arithmetic: the code

    [lib/mp/port]: digit vectors ([mpvecadd.c], [mpvecsub.c],
    [mpvecdigmuladd.c], [mpveccmp.c], [mpvectscmp.c], [mpdigdiv.c], the vector
    part of [mpmul.c]) and integers ([mpaux.c], [mpadd.c], [mpsub.c], [mpcmp.c],
    [mpleft.c], [mpright.c], [mpmul.c], [mpdiv.c], [mpmod.c]).

    The store is the list of the objects allocated so far, an object the [mpint]
    structure with its digit array; a freed object is [None].  An array that
    belongs to no [mpint] is an object whose other fields nobody reads.  A
    pointer to a digit is an object and a position in its array.  An access
    outside an array, to a freed object, or a signed overflow in the size of an
    array is undefined; [assert], [abort] and [sysfatal] leave the run ([Ret]).
    Allocation succeeds: when it fails the program ends with [sysfatal]. *)
From S2P Require Import Prelude CMonad.

(** [mpdigit] is [unsigned int]. *)
Definition Dbytes : Z := 4.
Definition Dbits : Z := Dbytes * 8.
Definition MPstatic : Z := 0x01.
Definition MPnorm : Z := 0x02.
Definition MPtimesafe : Z := 0x04.
Definition MPfield : Z := 0x08.
Definition mpdighi : Z := u32 (Z.shiftl 1 (Dbits - 1)).
Definition DIGITS (x : Z) : Z := Z.quot (Dbits - 1 + x) Dbits.

Record Mpint := mkMpint {
  mp_sign : Z;          (* +1 or -1 *)
  mp_size : Z;          (* allocated digits *)
  mp_top : Z;           (* significant digits *)
  mp_p : list Z;
  mp_flags : Z
}.
Record MpStore := mkMpStore {
  objs : list (option Mpint);
  mpmindigits : Z
}.
Definition Ptr : Type := nat * Z.
Definition padd (q : Ptr) (i : Z) : Ptr := (q.1, q.2 + i).

Definition mp_set_sign (v : Z) (o : Mpint) : Mpint := mkMpint v (mp_size o) (mp_top o) (mp_p o) (mp_flags o).
Definition mp_set_size (v : Z) (o : Mpint) : Mpint := mkMpint (mp_sign o) v (mp_top o) (mp_p o) (mp_flags o).
Definition mp_set_top (v : Z) (o : Mpint) : Mpint := mkMpint (mp_sign o) (mp_size o) v (mp_p o) (mp_flags o).
Definition mp_set_p (v : list Z) (o : Mpint) : Mpint := mkMpint (mp_sign o) (mp_size o) (mp_top o) v (mp_flags o).
Definition mp_set_flags (v : Z) (o : Mpint) : Mpint := mkMpint (mp_sign o) (mp_size o) (mp_top o) (mp_p o) v.
Definition set_objs (l : list (option Mpint)) (s : MpStore) : MpStore := mkMpStore l (mpmindigits s).

Definition mpobj (b : nat) (s : MpStore) : option Mpint := mjoin (objs s !! b).
Definition mp_put (b : nat) (o : option Mpint) (s : MpStore) : MpStore := set_objs (<[b := o]> (objs s)) s.

Definition mp_get (b : nat) : M MpStore Mpint := gets (mpobj b) ≫= of_option.
(** [b->field = ...] *)
Definition mp_upd (b : nat) (f : Mpint -> Mpint) : M MpStore () :=
  o ← mp_get b; modify (mp_put b (Some (f o))).
Definition ldig (q : Ptr) : M MpStore Z := o ← mp_get q.1; of_option (zget (mp_p o) q.2).
Definition sdig (q : Ptr) (v : Z) : M MpStore () :=
  o ← mp_get q.1;
  if (0 <=? q.2) && (q.2 <? zlen (mp_p o)) then modify (mp_put q.1 (Some (mp_set_p (<[Z.to_nat q.2 := v]> (mp_p o)) o)))
  else undefined.
(** [memmove(q, src, n*Dbytes)] once [src] is read, and [memset(q, 0, n*Dbytes)]. *)
Definition ldigs (q : Ptr) (n : Z) : M MpStore (list Z) :=
  o ← mp_get q.1;
  if (0 <=? q.2) && (0 <=? n) && (q.2 + n <=? zlen (mp_p o)) then mret (slice q.2 n (mp_p o)) else undefined.
Definition sdigs (q : Ptr) (v : list Z) : M MpStore () :=
  o ← mp_get q.1;
  if (0 <=? q.2) && (q.2 + zlen v <=? zlen (mp_p o)) then modify (mp_put q.1 (Some (mp_set_p (blit q.2 v (mp_p o)) o)))
  else undefined.
Definition zdigs (q : Ptr) (n : Z) : M MpStore () :=
  if n <? 0 then undefined else sdigs q (replicate (Z.to_nat n) 0).

(** A signed [int] expression. *)
Definition cint (x : Z) : M MpStore Z :=
  if (- 2 ^ 31 <=? x) && (x <? 2 ^ 31) then mret x else undefined.
(** [assert(b)], [abort()] and [sysfatal(...)]: the program ends. *)
Definition assert_ (b : bool) : M MpStore () := if b then mret tt else leave (-1).
Definition abort_ {A} : M MpStore A := leave (-1).

(** ** mpvecadd.c *)

Fixpoint mpvecadd_both (n : nat) (a b sum : Ptr) (carry : Z) : M MpStore (Ptr * Ptr * Z) :=
  match n with
  | O => mret (a, sum, carry)
  | S n =>
    x ← ldig a; y ← ldig b;
    let x := u32 (x + carry) in
    let carry := if x <? carry then 1 else 0 in
    let x := u32 (x + y) in
    let carry := if x <? y then carry + 1 else carry in
    _ ← sdig sum x;
    mpvecadd_both n (padd a 1) (padd b 1) (padd sum 1) carry
  end.
Fixpoint mpvecadd_rest (n : nat) (a sum : Ptr) (carry : Z) : M MpStore (Ptr * Z) :=
  match n with
  | O => mret (sum, carry)
  | S n =>
    x ← ldig a;
    let x := u32 (x + carry) in
    let carry := if x <? carry then 1 else 0 in
    _ ← sdig sum x;
    mpvecadd_rest n (padd a 1) (padd sum 1) carry
  end.
Definition mpvecadd (a : Ptr) (alen : Z) (b : Ptr) (blen : Z) (sum : Ptr) : M MpStore () :=
  '(a, sum, carry) ← mpvecadd_both (Z.to_nat blen) a b sum 0;
  '(sum, carry) ← mpvecadd_rest (Z.to_nat (alen - Z.max 0 blen)) a sum carry;
  sdig sum carry.

(** ** mpvecsub.c *)

Fixpoint mpvecsub_both (n : nat) (a b diff : Ptr) (borrow : Z) : M MpStore (Ptr * Ptr * Z) :=
  match n with
  | O => mret (a, diff, borrow)
  | S n =>
    x ← ldig a; y ← ldig b;
    let y := u32 (y + borrow) in
    let borrow := if y <? borrow then 1 else 0 in
    let borrow := if x <? y then borrow + 1 else borrow in
    _ ← sdig diff (u32 (x - y));
    mpvecsub_both n (padd a 1) (padd b 1) (padd diff 1) borrow
  end.
Fixpoint mpvecsub_rest (n : nat) (a diff : Ptr) (borrow : Z) : M MpStore () :=
  match n with
  | O => mret tt
  | S n =>
    x ← ldig a;
    let y := u32 (x - borrow) in
    let borrow := if x <? y then 1 else 0 in
    _ ← sdig diff y;
    mpvecsub_rest n (padd a 1) (padd diff 1) borrow
  end.
Definition mpvecsub (a : Ptr) (alen : Z) (b : Ptr) (blen : Z) (diff : Ptr) : M MpStore () :=
  '(a, diff, borrow) ← mpvecsub_both (Z.to_nat blen) a b diff 0;
  mpvecsub_rest (Z.to_nat (alen - Z.max 0 blen)) a diff borrow.

(** ** mpvecdigmuladd.c *)

Definition LO (x : Z) : Z := Z.land x (Z.shiftl 1 (Dbits / 2) - 1).
Definition HI (x : Z) : Z := Z.shiftr x (Dbits / 2).

(** [mpdigmul(a, b, p)]: the digits stored in [p[0]] and [p[1]]. *)
Definition mpdigmul (a b : Z) : Z * Z :=
  let ah := HI a in let al := LO a in
  let bh := HI b in let bl := LO b in
  let p1 := u32 (ah * bl) in
  let p2 := u32 (bh * al) in
  let p3 := u32 (bl * al) in
  let p4 := u32 (ah * bh) in
  let carry := 0 in
  let x := u32 (Z.shiftl p1 (Dbits / 2)) in
  let p3 := u32 (p3 + x) in
  let carry := if p3 <? x then carry + 1 else carry in
  let x := u32 (Z.shiftl p2 (Dbits / 2)) in
  let p3 := u32 (p3 + x) in
  let carry := if p3 <? x then carry + 1 else carry in
  let p4 := u32 (p4 + (carry + HI p1 + HI p2)) in
  (p3, p4).

Fixpoint mpvecdigmuladd_loop (n : nat) (b : Ptr) (m : Z) (p : Ptr) (carry part1 : Z) : M MpStore (Ptr * Z * Z) :=
  match n with
  | O => mret (p, carry, part1)
  | S n =>
    let x := u32 (part1 + carry) in
    let carry := if x <? carry then 1 else 0 in
    y ← ldig p;
    d ← ldig b;
    let '(part0, part1) := mpdigmul d m in
    let x := u32 (x + part0) in
    let carry := if x <? part0 then carry + 1 else carry in
    let x := u32 (x + y) in
    let carry := if x <? y then carry + 1 else carry in
    _ ← sdig p x;
    mpvecdigmuladd_loop n (padd b 1) m (padd p 1) carry part1
  end.
Definition mpvecdigmuladd (b : Ptr) (n m : Z) (p : Ptr) : M MpStore () :=
  '(p, carry, part1) ← mpvecdigmuladd_loop (Z.to_nat n) b m p 0 0;
  sdig p (u32 (part1 + carry)).

Fixpoint mpvecdigmulsub_loop (n : nat) (b : Ptr) (m : Z) (p : Ptr) (borrow part1 : Z) : M MpStore (Ptr * Z * Z) :=
  match n with
  | O => mret (p, borrow, part1)
  | S n =>
    x ← ldig p;
    let y := u32 (x - borrow) in
    let borrow := if x <? y then 1 else 0 in
    let x := part1 in
    d ← ldig b;
    let '(part0, part1) := mpdigmul d m in
    let x := u32 (x + part0) in
    let borrow := if x <? part0 then borrow + 1 else borrow in
    let x := u32 (y - x) in
    let borrow := if y <? x then borrow + 1 else borrow in
    _ ← sdig p x;
    mpvecdigmulsub_loop n (padd b 1) m (padd p 1) borrow part1
  end.
Definition mpvecdigmulsub (b : Ptr) (n m : Z) (p : Ptr) : M MpStore Z :=
  '(p, borrow, part1) ← mpvecdigmulsub_loop (Z.to_nat n) b m p 0 0;
  x ← ldig p;
  let y := u32 (x - borrow - part1) in
  _ ← sdig p y;
  mret (if x <? y then -1 else 1).

(** ** mpveccmp.c, mpvectscmp.c *)

(** [while(alen > blen) if(a[--alen] != 0) return ...;]: whether it returns. *)
Fixpoint high_nonzero (n : nat) (a : Ptr) (alen : Z) : M MpStore bool :=
  match n with
  | O => mret false
  | S n => x ← ldig (padd a (alen - 1)); if negb (x =? 0) then mret true else high_nonzero n a (alen - 1)
  end.
Fixpoint mpveccmp_loop (n : nat) (a b : Ptr) : M MpStore Z :=
  match n with
  | O => mret 0
  | S n =>
    xa ← ldig (padd a (Z.of_nat n)); xb ← ldig (padd b (Z.of_nat n));
    let x := u32 (xa - xb) in
    if x =? 0 then mpveccmp_loop n a b
    else mret (if xa <? x then -1 else 1)
  end.
Definition mpveccmp (a : Ptr) (alen : Z) (b : Ptr) (blen : Z) : M MpStore Z :=
  r ← high_nonzero (Z.to_nat (alen - blen)) a alen;
  if r : bool then mret 1 else
  r ← high_nonzero (Z.to_nat (blen - alen)) b blen;
  if r : bool then mret (-1) else
  mpveccmp_loop (Z.to_nat (Z.min alen blen)) a b.

(** [(-v^v|v)>>Dbits-1] *)
Definition nonzero_bit (v : Z) : Z := Z.shiftr (Z.lor (Z.lxor (u32 (- v)) v) v) (Dbits - 1).
Fixpoint high_or (n : nat) (a : Ptr) (alen v : Z) : M MpStore Z :=
  match n with
  | O => mret v
  | S n => x ← ldig (padd a (alen - 1)); high_or n a (alen - 1) (Z.lor v x)
  end.
(** [~x] on a digit, and on an [int]. *)
Definition notd (x : Z) : Z := u32 (Z.lnot x).
Fixpoint mpvectscmp_loop (n : nat) (a b : Ptr) (m p : Z) : M MpStore (Z * Z) :=
  match n with
  | O => mret (m, p)
  | S n =>
    x ← ldig (padd a (Z.of_nat n)); y ← ldig (padd b (Z.of_nat n));
    let z := u32 (x - y) in
    let x := notd x in
    let v := Z.land (nonzero_bit z) (Z.lnot m) in
    let p := Z.lor (Z.land (Z.shiftr (notd (Z.lor (Z.lor (Z.land x y) (Z.land x z)) (Z.land y z))) (Dbits - 1)) v)
                   (Z.land p (Z.lnot v)) in
    mpvectscmp_loop n a b (Z.lor m v) p
  end.
Definition mpvectscmp (a : Ptr) (alen : Z) (b : Ptr) (blen : Z) : M MpStore Z :=
  '(m, p) ← (if blen <? alen then
               v ← high_or (Z.to_nat (alen - blen)) a alen 0;
               mret (nonzero_bit v, nonzero_bit v)
             else if alen <? blen then
               v ← high_or (Z.to_nat (blen - alen)) b blen 0;
               mret (nonzero_bit v, Z.lxor (nonzero_bit v) 1)
             else mret (0, 0));
  '(m, p) ← mpvectscmp_loop (Z.to_nat (Z.min alen blen)) a b m p;
  mret (Z.lor (p - m) m).

(** ** mpdigdiv.c *)

(** The shift-and-subtract loop from [i] = [n - 1] down. *)
Fixpoint mpdigdiv_loop (n : nat) (divisor hi lo q x : Z) : Z * Z :=
  match n with
  | O => (lo, q)
  | S n =>
    if negb (0 <? hi) then (lo, q) else
    let i := Z.of_nat n in
    let x := Z.shiftr x 1 in
    if hi <? x then mpdigdiv_loop n divisor hi lo q x else
    let y := u32 (Z.shiftl divisor i) in
    if (x =? hi) && (lo <? y) then mpdigdiv_loop n divisor hi lo q x else
    let hi := if lo <? y then u32 (hi - 1) else hi in
    let lo := u32 (lo - y) in
    let hi := u32 (hi - x) in
    mpdigdiv_loop n divisor hi lo (Z.lor q (u32 (Z.shiftl 1 i))) x
  end.
(** [mpdigdiv(dividend, divisor, &quotient)] with [dividend[1] = hi] and
    [dividend[0] = lo]: the quotient. *)
Definition mpdigdiv (hi lo divisor : Z) : Z :=
  if (divisor <=? hi) || (divisor =? 0) then notd 0
  else if notd divisor =? 0 then
    let lo := u32 (lo + hi) in
    let '(hi, lo) := if lo <? hi then (u32 (hi + 1), u32 (lo + 1)) else (hi, lo) in
    let hi := if u32 (lo + 1) =? 0 then u32 (hi + 1) else hi in
    hi
  else
    let '(lo, q) := mpdigdiv_loop (Z.to_nat Dbits) divisor hi lo 0 divisor in
    u32 (q + lo / divisor).

(** ** Allocation: mpaux.c *)

(** [mallocz(n*Dbytes, 1)], an array. *)
Definition mallocz (n : Z) : M MpStore Ptr :=
  b ← gets (fun s => length (objs s));
  _ ← modify (fun s => set_objs (objs s ++ [Some (mkMpint 1 n 0 (replicate (Z.to_nat n) 0) 0)]) s);
  mret (b, 0).
Definition free (b : nat) : M MpStore () := _ ← mp_get b; modify (mp_put b None).

Definition mpsetminbits (n : Z) : M MpStore () :=
  if n <? 0 then abort_ else
  let n := if n =? 0 then 1 else n in
  modify (fun s => mkMpStore (objs s) (DIGITS n)).

Definition mpnew (n : Z) : M MpStore nat :=
  if n <? 0 then abort_ else
  min ← gets mpmindigits;
  let n := DIGITS n in
  let n := if n <? min then min else n in
  b ← gets (fun s => length (objs s));
  _ ← modify (fun s => set_objs (objs s ++ [Some (mkMpint 1 n 0 (replicate (Z.to_nat n) 0) MPnorm)]) s);
  mret b.

(** When the array grows, from behind the structure or by [realloc], the digits
    below [top] are kept; those above are about to be cleared. *)
Definition mpbits (b : nat) (m : Z) : M MpStore () :=
  o ← mp_get b;
  let n := DIGITS m in
  if (n <=? mp_size o) && (n <=? mp_top o) then mret tt else
  _ ← (if n <=? mp_size o then mret tt
       else mp_upd b (fun o => mkMpint (mp_sign o) n (mp_top o)
                              (slice 0 (mp_top o) (mp_p o) ++ replicate (Z.to_nat (n - mp_top o)) 0) (mp_flags o)));
  _ ← zdigs (b, mp_top o) (n - mp_top o);
  mp_upd b (fun o => mkMpint (mp_sign o) (mp_size o) n (mp_p o) (Z.land (mp_flags o) (Z.lnot MPnorm))).

Definition mpfree (b : nat) : M MpStore () :=
  o ← mp_get b;
  if negb (Z.land (mp_flags o) MPstatic =? 0) then abort_ else
  _ ← zdigs (b, 0) (mp_size o);
  free b.

(** The loop of [mpnorm]: [i + 1] when it stops, from [n]. *)
Fixpoint mpnorm_loop (n : nat) (b : nat) : M MpStore Z :=
  match n with
  | O => mret 0
  | S n => x ← ldig (b, Z.of_nat n); if negb (x =? 0) then mret (Z.of_nat (S n)) else mpnorm_loop n b
  end.
Definition mpnorm (b : nat) : M MpStore () :=
  o ← mp_get b;
  if negb (Z.land (mp_flags o) MPtimesafe =? 0) then
    _ ← assert_ (mp_sign o =? 1);
    mp_upd b (fun o => mp_set_flags (Z.land (mp_flags o) (Z.lnot MPnorm)) o)
  else
    i ← mpnorm_loop (Z.to_nat (mp_top o)) b;
    mp_upd b (fun o => mkMpint (if i =? 0 then 1 else mp_sign o) (mp_size o) i (mp_p o) (Z.lor (mp_flags o) MPnorm)).

Definition mpcopy (old : nat) : M MpStore nat :=
  o ← mp_get old;
  bits ← cint (Dbits * mp_size o);
  new ← mpnew bits;
  _ ← mp_upd new (fun n => mkMpint (mp_sign o) (mp_size n) (mp_top o) (mp_p n)
                                   (Z.land (mp_flags o) (Z.lnot (Z.lor MPstatic MPfield))));
  v ← ldigs (old, 0) (mp_top o);
  _ ← sdigs (new, 0) v;
  mret new.

(** [mpassign(old, new)] for [new] not nil. *)
Definition mpassign (old new : nat) : M MpStore () :=
  if (old =? new)%nat then mret tt else
  o ← mp_get old;
  _ ← mp_upd new (mp_set_top 0);
  bits ← cint (Dbits * mp_top o);
  _ ← mpbits new bits;
  _ ← mp_upd new (fun n => mkMpint (mp_sign o) (mp_size n) (mp_top o) (mp_p n)
        (Z.lor (Z.land (mp_flags n) (Z.lnot MPnorm)) (Z.land (mp_flags o) (Z.lnot (Z.lor MPstatic MPfield)))));
  v ← ldigs (old, 0) (mp_top o);
  sdigs (new, 0) v.

(** The static constants, the first objects of the store. *)
Definition mpzero : nat := 0.
Definition mpone : nat := 1.
Definition mptwo : nat := 2.
Definition mpinit : MpStore :=
  mkMpStore [Some (mkMpint 1 1 0 [0] (Z.lor MPstatic MPnorm));
             Some (mkMpint 1 1 1 [1] (Z.lor MPstatic MPnorm));
             Some (mkMpint 1 1 1 [2] (Z.lor MPstatic MPnorm))] 33.

(** ** mpcmp.c *)

Definition mpmagcmp (b1 b2 : nat) : M MpStore Z :=
  o1 ← mp_get b1; o2 ← mp_get b2;
  let i := Z.lor (mp_flags o1) (mp_flags o2) in
  if negb (Z.land i MPtimesafe =? 0) then mpvectscmp (b1, 0) (mp_top o1) (b2, 0) (mp_top o2)
  else if negb (Z.land i MPnorm =? 0) && negb (mp_top o1 - mp_top o2 =? 0) then mret (mp_top o1 - mp_top o2)
  else mpveccmp (b1, 0) (mp_top o1) (b2, 0) (mp_top o2).

Definition mpcmp (b1 b2 : nat) : M MpStore Z :=
  o1 ← mp_get b1; o2 ← mp_get b2;
  let sign := Z.shiftr (mp_sign o1 - mp_sign o2) 1 in
  c ← mpmagcmp b1 b2;
  mret (Z.lor sign (Z.land (Z.land sign 1 - 1) (c * mp_sign o1))).

(** ** mpadd.c, mpsub.c *)

Definition timesafe3 (o1 o2 o3 : Mpint) : bool :=
  negb (Z.land (Z.lor (Z.lor (mp_flags o1) (mp_flags o2)) (mp_flags o3)) MPtimesafe =? 0).
(** [r->flags |= (b1->flags | b2->flags) & MPtimesafe] *)
Definition pass_timesafe (b1 b2 r : nat) : M MpStore () :=
  o1 ← mp_get b1; o2 ← mp_get b2;
  mp_upd r (fun o => mp_set_flags (Z.lor (mp_flags o) (Z.land (Z.lor (mp_flags o1) (mp_flags o2)) MPtimesafe)) o).

Definition mpmagadd (b1 b2 sum : nat) : M MpStore () :=
  _ ← pass_timesafe b1 b2 sum;
  o1 ← mp_get b1; o2 ← mp_get b2;
  let '(b1, o1, b2, o2) := if mp_top o1 <? mp_top o2 then (b2, o2, b1, o1) else (b1, o1, b2, o2) in
  let n := mp_top o1 in
  let m := mp_top o2 in
  if n =? 0 then mpassign mpzero sum
  else if m =? 0 then mpassign b1 sum
  else
    bits ← cint ((n + 1) * Dbits);
    _ ← mpbits sum bits;
    _ ← mp_upd sum (mp_set_top (n + 1));
    _ ← mpvecadd (b1, 0) n (b2, 0) m (sum, 0);
    _ ← mp_upd sum (mp_set_sign 1);
    mpnorm sum.

Definition mpmagsub (b1 b2 diff : nat) : M MpStore () :=
  c ← mpmagcmp b1 b2;
  '(b1, b2, sign) ←
    (if c <? 0 then
       o1 ← mp_get b1; o2 ← mp_get b2; o3 ← mp_get diff;
       _ ← assert_ (negb (timesafe3 o1 o2 o3));
       mret (b2, b1, -1)
     else
       _ ← pass_timesafe b1 b2 diff;
       mret (b1, b2, 1));
  o1 ← mp_get b1; o2 ← mp_get b2;
  let n := mp_top o1 in
  let m := mp_top o2 in
  if m =? 0 then
    _ ← mpassign b1 diff;
    mp_upd diff (mp_set_sign sign)
  else
    bits ← cint (n * Dbits);
    _ ← mpbits diff bits;
    _ ← mpvecsub (b1, 0) n (b2, 0) m (diff, 0);
    _ ← mp_upd diff (fun o => mp_set_top n (mp_set_sign sign o));
    mpnorm diff.

Definition mpadd (b1 b2 sum : nat) : M MpStore () :=
  o1 ← mp_get b1; o2 ← mp_get b2;
  if negb (mp_sign o1 =? mp_sign o2) then
    o3 ← mp_get sum;
    _ ← assert_ (negb (timesafe3 o1 o2 o3));
    if mp_sign o1 <? 0 then mpmagsub b2 b1 sum else mpmagsub b1 b2 sum
  else
    let sign := mp_sign o1 in
    _ ← mpmagadd b1 b2 sum;
    o ← mp_get sum;
    if negb (mp_top o =? 0) then mp_upd sum (mp_set_sign sign) else mret tt.

Definition mpsub (b1 b2 diff : nat) : M MpStore () :=
  o1 ← mp_get b1; o2 ← mp_get b2;
  let sign := mp_sign o1 in
  if negb (mp_sign o1 =? mp_sign o2) then
    o3 ← mp_get diff;
    _ ← assert_ (negb (timesafe3 o1 o2 o3));
    _ ← mpmagadd b1 b2 diff;
    mp_upd diff (mp_set_sign sign)
  else
    _ ← mpmagsub b1 b2 diff;
    o ← mp_get diff;
    if negb (mp_top o =? 0) then mp_upd diff (fun o => mp_set_sign (mp_sign o * sign) o) else mret tt.

(** ** mpright.c, mpleft.c

    A negative shift is a shift the other way; one call deep is enough, as the
    second call has a positive count. *)

Fixpoint mpright_digits (n : nat) (i d : Z) (b res : nat) : M MpStore () :=
  match n with
  | O => mret tt
  | S n => x ← ldig (b, i + d); _ ← sdig (res, i) x; mpright_digits n (i + 1) d b res
  end.
Fixpoint mpright_bits (n : nat) (i d l r : Z) (b res : nat) (last : Z) : M MpStore (Z * Z) :=
  match n with
  | O => mret (i, last)
  | S n =>
    this ← ldig (b, i + d + 1);
    _ ← sdig (res, i) (Z.lor (u32 (Z.shiftl this l)) (Z.shiftr last r));
    mpright_bits n (i + 1) d l r b res this
  end.
Definition pass_timesafe1 (b r : nat) : M MpStore () :=
  o ← mp_get b; mp_upd r (fun x => mp_set_flags (Z.lor (mp_flags x) (Z.land (mp_flags o) MPtimesafe)) x).

(** [mpright] with [shift >= 0]. *)
Definition mpright_pos (b : nat) (shift : Z) (res : nat) : M MpStore () :=
  o ← mp_get b;
  _ ← mp_upd res (mp_set_sign (mp_sign o));
  if mp_top o =? 0 then mp_upd res (mp_set_top 0) else
  _ ← (if negb (res =? b)%nat then bits ← cint (mp_top o * Dbits - shift); mpbits res bits else mret tt);
  if (res =? b)%nat && (shift =? 0) then mret tt else
  let d := shift / Dbits in
  let r := shift - d * Dbits in
  let l := Dbits - r in
  if mp_top o <=? d then mp_upd res (fun x => mp_set_sign 1 (mp_set_top 0 x)) else
  i ← (if r =? 0 then
         _ ← mpright_digits (Z.to_nat (mp_top o - d)) 0 d b res;
         mret (mp_top o - d)
       else
         last ← ldig (b, d);
         '(i, last) ← mpright_bits (Z.to_nat (mp_top o - d - 1)) 0 d l r b res last;
         _ ← sdig (res, i) (Z.shiftr last r);
         mret (i + 1));
  _ ← mp_upd res (mp_set_top i);
  _ ← pass_timesafe1 b res;
  mpnorm res.

Fixpoint mpleft_digits (n : nat) (d : Z) (b res : nat) : M MpStore () :=
  match n with
  | O => mret tt
  | S n => x ← ldig (b, Z.of_nat n); _ ← sdig (res, Z.of_nat n + d) x; mpleft_digits n d b res
  end.
Fixpoint mpleft_bits (n : nat) (d l r : Z) (b res : nat) (last : Z) : M MpStore Z :=
  match n with
  | O => mret last
  | S n =>
    this ← ldig (b, Z.of_nat n);
    _ ← sdig (res, Z.of_nat n + d + 1) (Z.lor (u32 (Z.shiftl last l)) (Z.shiftr this r));
    mpleft_bits n d l r b res this
  end.

(** [mpleft] with [shift > 0]; the loop that clears the low digits is [zdigs]. *)
Definition mpleft_pos (b : nat) (shift : Z) (res : nat) : M MpStore () :=
  o ← mp_get b;
  _ ← mp_upd res (mp_set_sign (mp_sign o));
  if mp_top o =? 0 then mp_upd res (mp_set_top 0) else
  let otop := mp_top o in
  bits ← cint (otop * Dbits + shift);
  _ ← mpbits res bits;
  _ ← mp_upd res (mp_set_top (DIGITS bits));
  let d := shift / Dbits in
  let l := shift - d * Dbits in
  let r := Dbits - l in
  _ ← (if l =? 0 then mpleft_digits (Z.to_nat otop) d b res
       else
         last ← mpleft_bits (Z.to_nat otop) d l r b res 0;
         sdig (res, d) (u32 (Z.shiftl last l)));
  _ ← zdigs (res, 0) d;
  _ ← pass_timesafe1 b res;
  mpnorm res.

Definition mpright (b : nat) (shift : Z) (res : nat) : M MpStore () :=
  o ← mp_get b;
  if (shift <? 0) && negb (mp_top o =? 0) then
    _ ← mp_upd res (mp_set_sign (mp_sign o)); mpleft_pos b (- shift) res
  else mpright_pos b shift res.
Definition mpleft (b : nat) (shift : Z) (res : nat) : M MpStore () :=
  o ← mp_get b;
  if (shift <=? 0) && negb (mp_top o =? 0) then
    _ ← mp_upd res (mp_set_sign (mp_sign o)); mpright_pos b (- shift) res
  else mpleft_pos b shift res.

(** ** mpmul.c *)

Definition KARATSUBAMIN : Z := 32.

(** [mpkaratsuba], with the multiplication it calls. *)
Definition mpkaratsuba (mpvecmul : Ptr -> Z -> Ptr -> Z -> Ptr -> M MpStore ())
    (a : Ptr) (alen : Z) (b : Ptr) (blen : Z) (p : Ptr) : M MpStore () :=
  let n := alen / 2 in
  let n := if negb (Z.land alen 1 =? 0) then n + 1 else n in
  let u0len := n in
  let u1len := alen - n in
  let '(v0len, v1len) := if n <? blen then (n, blen - n) else (blen, 0) in
  let u0 := a in
  let u1 := padd a u0len in
  let v0 := b in
  let v1 := padd b v0len in
  t ← mallocz (5 * (2 * n + 1));
  let u0v0 := t in
  let u1v1 := padd t (2 * n + 1) in
  let diffprod := padd t (2 * (2 * n + 1)) in
  let res := padd t (3 * (2 * n + 1)) in
  let reslen := 4 * n + 1 in
  c ← mpveccmp u1 u1len u0 u0len;
  sign ← (if c <? 0 then _ ← mpvecsub u0 u0len u1 u1len u0v0; mret (-1)
          else _ ← mpvecsub u1 u1len u0 u1len u0v0; mret 1);
  c ← mpveccmp v0 v0len v1 v1len;
  sign ← (if c <? 0 then _ ← mpvecsub v1 v1len v0 v1len u1v1; mret (sign * -1)
          else _ ← mpvecsub v0 v0len v1 v1len u1v1; mret sign);
  _ ← mpvecmul u0v0 u0len u1v1 v0len diffprod;
  _ ← zdigs t (2 * (2 * n + 1));
  _ ← (if 0 <? v1len then mpvecmul u1 u1len v1 v1len u1v1 else mret tt);
  _ ← mpvecmul u0 u0len v0 v0len u0v0;
  _ ← mpvecadd res reslen u0v0 (u0len + v0len) res;
  _ ← mpvecadd (padd res n) (reslen - n) u0v0 (u0len + v0len) (padd res n);
  _ ← (if 0 <? v1len then
         _ ← mpvecadd (padd res n) (reslen - n) u1v1 (u1len + v1len) (padd res n);
         mpvecadd (padd res (2 * n)) (reslen - 2 * n) u1v1 (u1len + v1len) (padd res (2 * n))
       else mret tt);
  _ ← (if sign <? 0 then mpvecsub (padd res n) (reslen - n) diffprod (u0len + v0len) (padd res n)
       else mpvecadd (padd res n) (reslen - n) diffprod (u0len + v0len) (padd res n));
  v ← ldigs res (alen + blen);
  _ ← sdigs p v;
  free t.1.

(** The quadratic loop, from [i]. *)
Fixpoint mpvecmul_loop (n : nat) (i : Z) (skip : bool) (a : Ptr) (alen : Z) (b p : Ptr) : M MpStore () :=
  match n with
  | O => mret tt
  | S n =>
    d ← ldig (padd b i);
    _ ← (if skip && (d =? 0) then mret tt else mpvecdigmuladd a alen d (padd p i));
    mpvecmul_loop n (i + 1) skip a alen b p
  end.

(** [fuel] bounds the depth of the recursion through [mpkaratsuba]. *)
Fixpoint mpvecmul_rec (fuel : nat) (a : Ptr) (alen : Z) (b : Ptr) (blen : Z) (p : Ptr) : M MpStore () :=
  match fuel with
  | O => undefined
  | S fuel =>
    let '(a, alen, b, blen) := if alen <? blen then (b, blen, a, alen) else (a, alen, b, blen) in
    if (KARATSUBAMIN <=? alen) && (1 <? blen) then mpkaratsuba (mpvecmul_rec fuel) a alen b blen p
    else mpvecmul_loop (Z.to_nat blen) 0 true a alen b p
  end.
Definition mpvecmul (a : Ptr) (alen : Z) (b : Ptr) (blen : Z) (p : Ptr) : M MpStore () :=
  mpvecmul_rec (Z.to_nat (Z.max alen blen) + 1) a alen b blen p.

Definition mpvectsmul (a : Ptr) (alen : Z) (b : Ptr) (blen : Z) (p : Ptr) : M MpStore () :=
  let '(a, alen, b, blen) := if alen <? blen then (b, blen, a, alen) else (a, alen, b, blen) in
  if blen =? 0 then mret tt else mpvecmul_loop (Z.to_nat blen) 0 false a alen b p.

Definition mpmul (b1 b2 prod : nat) : M MpStore () :=
  let oprod := prod in
  prod ← (if (prod =? b1)%nat || (prod =? b2)%nat then
            o ← mp_get oprod;
            prod ← mpnew 0;
            _ ← mp_upd prod (mp_set_flags (mp_flags o));
            mret prod
          else mret prod);
  _ ← pass_timesafe b1 b2 prod;
  _ ← mp_upd prod (mp_set_top 0);
  o1 ← mp_get b1; o2 ← mp_get b2;
  bits ← cint ((mp_top o1 + mp_top o2 + 1) * Dbits);
  _ ← mpbits prod bits;
  o ← mp_get prod;
  _ ← (if negb (Z.land (mp_flags o) MPtimesafe =? 0)
       then mpvectsmul (b1, 0) (mp_top o1) (b2, 0) (mp_top o2) (prod, 0)
       else mpvecmul (b1, 0) (mp_top o1) (b2, 0) (mp_top o2) (prod, 0));
  _ ← mp_upd prod (fun o => mp_set_top (mp_top o1 + mp_top o2 + 1) (mp_set_sign (mp_sign o1 * mp_sign o2) o));
  _ ← mpnorm prod;
  if negb (oprod =? prod)%nat then
    _ ← mpassign prod oprod;
    mpfree prod
  else mret tt.

(** ** mptov.c, mpdiv.c, mpmod.c *)

Definition VLDIGITS : Z := 8 / Dbytes.

Fixpoint vtomp_loop (n : nat) (s uv : Z) (b : nat) : M MpStore () :=
  match n with
  | O => mret tt
  | S n => _ ← sdig (b, s) (u32 uv); vtomp_loop n (s + 1) (Z.shiftr uv (Dbytes * 8)) b
  end.
(** [vtomp(v, b)] for [b] not nil. *)
Definition vtomp (v : Z) (b : nat) : M MpStore () :=
  _ ← mpbits b (VLDIGITS * Dbytes);
  let sign := if v <? 0 then -1 else 1 in
  _ ← mp_upd b (mp_set_sign sign);
  _ ← vtomp_loop (Z.to_nat VLDIGITS) 0 (u64 (v * sign)) b;
  _ ← mp_upd b (mp_set_top VLDIGITS);
  mpnorm b.

(** [for(s = 0; ((divisor->p[0] >> s) & 1) == 0; s++);] *)
Fixpoint low_bit (fuel : nat) (d s : Z) : option Z :=
  match fuel with
  | O => None
  | S fuel => if Z.land (Z.shiftr d s) 1 =? 0 then low_bit fuel d (s + 1) else Some s
  end.
(** [for(s = 0; (qd & mpdighi) == 0; s++) qd <<= 1;] *)
Fixpoint high_shift (fuel : nat) (qd s : Z) : option Z :=
  match fuel with
  | O => None
  | S fuel => if Z.land qd mpdighi =? 0 then high_shift fuel (u32 (Z.shiftl qd 1)) (s + 1) else Some s
  end.

(** D3a: [qd] when the loop stops; it runs at most three times. *)
Fixpoint trial_loop (fuel : nat) (vp up t : Ptr) (qd : Z) : M MpStore Z :=
  match fuel with
  | O => undefined
  | S fuel =>
    _ ← zdigs t 3;
    _ ← mpvecdigmuladd (padd vp (-1)) 2 qd t;
    c ← mpveccmp t 3 (padd up (-2)) 3;
    if 0 <? c then trial_loop fuel vp up t (u32 (qd - 1)) else mret qd
  end.

(** D2, D7: [n] iterations with [up] at the top digit; [qp] is where the next
    quotient digit goes. *)
Fixpoint mpdiv_loop (n : nat) (u v t : nat) (vn : Z) (vp up : Ptr) (qp : option Ptr) : M MpStore () :=
  match n with
  | O => mret tt
  | S n =>
    hi ← ldig up; lo ← ldig (padd up (-1)); d ← ldig vp;
    let qd := mpdigdiv hi lo d in
    qd ← (if 1 <? vn then trial_loop 3 vp up (t, 0) qd else mret qd);
    sign ← mpvecdigmulsub (v, 0) vn qd (padd up (- vn));
    qd ← (if sign <? 0 then
            _ ← mpvecadd (padd up (- vn)) (vn + 1) (v, 0) vn (padd up (- vn));
            mret (u32 (qd - 1))
          else mret qd);
    qp ← (match qp with
          | Some qp => _ ← sdig qp qd; mret (Some (padd qp (-1)))
          | None => mret None
          end);
    _ ← mp_upd u (fun o => mp_set_top (mp_top o - 1) o);
    _ ← sdig up 0;
    mpdiv_loop n u v t vn vp (padd up (-1)) qp
  end.

Definition same (a : option nat) (b : nat) : bool := match a with Some a => (a =? b)%nat | None => false end.

(** D1 and D1a: [u], [v] and the shift [s]. *)
Definition mpdiv_setup (dividend divisor : nat) (quotient remainder : option nat) : M MpStore (nat * nat * Z) :=
  od ← mp_get dividend; ov ← mp_get divisor;
  qd ← ldig (divisor, mp_top ov - 1);
  s ← of_option (high_shift 32 qd 0);
  bits ← cint ((mp_top od + 2) * Dbits + s);
  u ← mpnew bits;
  if (s =? 0) && negb (same quotient divisor) && negb (same remainder divisor) then
    _ ← mpassign dividend u;
    mret (u, divisor, s)
  else
    _ ← mpleft dividend s u;
    bits ← cint (mp_top ov * Dbits);
    v ← mpnew bits;
    _ ← mpleft divisor s v;
    mret (u, v, s).

Definition mpdiv_general (dividend divisor : nat) (quotient remainder : option nat) : M MpStore () :=
  '(u, v, s) ← mpdiv_setup dividend divisor quotient remainder;
  ou ← mp_get u; ov ← mp_get v;
  let up := (u, mp_top ou - 1) in
  let vp := (v, mp_top ov - 1) in
  let vn := mp_top ov in
  hi ← ldig up; d ← ldig vp;
  up ← (if d <=? hi then
          _ ← sdig (padd up 1) 0;
          _ ← mp_upd u (fun o => mp_set_top (mp_top o + 1) o);
          mret (padd up 1)
        else mret up);
  t ← mpnew (4 * Dbits);
  ou ← mp_get u;
  qp ← (match quotient with
        | Some q =>
          bits ← cint ((mp_top ou - mp_top ov) * Dbits);
          _ ← mpbits q bits;
          _ ← mp_upd q (mp_set_top (mp_top ou - mp_top ov));
          mret (Some (q, mp_top ou - mp_top ov - 1))
        | None => mret None
        end);
  _ ← mpdiv_loop (Z.to_nat (mp_top ou - vn)) u v t vn vp up qp;
  _ ← (match quotient with
       | Some q =>
         oq ← mp_get q;
         _ ← assert_ (Z.land (mp_flags oq) MPtimesafe =? 0);
         _ ← mpnorm q;
         od ← mp_get dividend; ov ← mp_get divisor;
         if negb (mp_sign od =? mp_sign ov) then mp_upd q (mp_set_sign (-1)) else mret tt
       | None => mret tt
       end);
  _ ← (match remainder with
       | Some r =>
         or ← mp_get r;
         _ ← assert_ (Z.land (mp_flags or) MPtimesafe =? 0);
         _ ← mpright u s r;
         od ← mp_get dividend;
         mp_upd r (mp_set_sign (mp_sign od))
       | None => mret tt
       end);
  _ ← mpfree t;
  _ ← mpfree u;
  if negb (v =? divisor)%nat then mpfree v else mret tt.

Definition mpdiv (dividend divisor : nat) (quotient remainder : option nat) : M MpStore () :=
  _ ← assert_ (match quotient, remainder with
               | Some q, Some r => negb (q =? r)%nat | None, None => false | _, _ => true end);
  ov ← mp_get divisor;
  _ ← assert_ (negb (Z.land (mp_flags ov) MPnorm =? 0));
  if mp_top ov =? 0 then abort_ else
  p0 ← ldig (divisor, 0);
  if (mp_top ov =? 1) && (Z.land p0 (u32 (p0 - 1)) =? 0) then
    od ← mp_get dividend;
    x ← ldig (dividend, 0);
    let r := mp_sign od * Z.land x (u32 (p0 - 1)) in
    _ ← (match quotient with
         | Some q => s ← of_option (low_bit 32 p0 0); mpright dividend s q
         | None => mret tt
         end);
    match remainder with
    | Some r0 => _ ← pass_timesafe1 dividend r0; vtomp r r0
    | None => mret tt
    end
  else
  od ← mp_get dividend;
  _ ← assert_ (Z.land (mp_flags od) MPtimesafe =? 0);
  c ← mpmagcmp dividend divisor;
  if c <? 0 then
    _ ← (match remainder with Some r => mpassign dividend r | None => mret tt end);
    match quotient with Some q => mpassign mpzero q | None => mret tt end
  else mpdiv_general dividend divisor quotient remainder.

(** [n] is no field modulus ([MPfield]); those reduce by their own code. *)
Definition mpmod (x n r : nat) : M MpStore () :=
  o ← mp_get x;
  on ← mp_get n;
  _ ← assert_ (Z.land (mp_flags on) MPfield =? 0);
  _ ← mpdiv x n None (Some r);
  if mp_sign o <? 0 then mpmagsub n r r else mret tt.
