(* ===== verification/MpVal.v ===== *)
(** * Multiple precision arithmetic: digits and the store

    The integer a digit vector stands for ([val]), the digits of an integer
    ([digits]), what the store holds at a pointer ([seg]) and what storing a
    vector does ([wr]), with the rules by which loads and stores of the code are
    rewritten to these. *)
From S2P Require Import Prelude CMonad Mp.

Definition B : Z := 2 ^ 32.
Lemma B_eq : B = 4294967296. Proof. done. Qed.
Lemma B_pos : 0 < B. Proof. done. Qed.
Lemma Bn_pos n : 0 < B ^ Z.of_nat n.
Proof. apply Z.pow_pos_nonneg; [done|lia]. Qed.

Fixpoint val (l : list Z) : Z := match l with [] => 0 | x :: l => x + B * val l end.
Definition dig (l : list Z) : Prop := Forall (fun x => 0 <= x < B) l.
Fixpoint digits (n : nat) (v : Z) : list Z :=
  match n with O => [] | S n => v mod B :: digits n (v / B) end.

Lemma dig_cons x l : dig (x :: l) -> 0 <= x < B /\ dig l.
Proof. intros H. by apply Forall_cons_1 in H. Qed.
Lemma dig_app l r : dig (l ++ r) <-> dig l /\ dig r.
Proof. apply Forall_app. Qed.

Lemma digits_length n v : length (digits n v) = n.
Proof. revert v. induction n as [|n IH]; intros v; cbn; [done|]. by rewrite IH. Qed.
Lemma digits_zlen n v : zlen (digits n v) = Z.of_nat n.
Proof. unfold zlen. by rewrite digits_length. Qed.
Lemma digits_dig n v : dig (digits n v).
Proof.
  revert v. induction n as [|n IH]; intros v; [constructor|].
  apply Forall_cons_2; [apply Z.mod_pos_bound, B_pos|apply IH].
Qed.

Lemma pow_S n : B ^ Z.of_nat (S n) = B * B ^ Z.of_nat n.
Proof. rewrite Nat2Z.inj_succ, Z.pow_succ_r by lia. done. Qed.

Lemma val_digits n v : val (digits n v) = v mod B ^ Z.of_nat n.
Proof.
  revert v. induction n as [|n IH]; intros v; cbn [digits val]; [by rewrite Z.mod_1_r|].
  rewrite IH, pow_S. pose proof (Bn_pos n). rewrite Z.rem_mul_r by (try done; lia). done.
Qed.

Lemma val_bound l : dig l -> 0 <= val l < B ^ zlen l.
Proof.
  unfold zlen. induction l as [|x l IH]; intros Hl; [done|]. apply dig_cons in Hl as [Hx Hl].
  cbn [val length]. rewrite pow_S. pose proof (Bn_pos (length l)). specialize (IH Hl). pose proof B_pos. nia.
Qed.

Lemma val_app l r : val (l ++ r) = val l + B ^ zlen l * val r.
Proof.
  induction l as [|x l IH]; cbn [app val]; [change (zlen (@nil Z)) with 0; lia|].
  rewrite IH. unfold zlen. cbn [length]. rewrite pow_S. lia.
Qed.
Lemma val_zeros n : val (replicate n 0) = 0.
Proof. induction n as [|n IH]; cbn; [done|]. rewrite IH. lia. Qed.
Lemma zeros_dig n : dig (replicate n 0).
Proof. apply Forall_replicate. by split. Qed.

(** A vector is the digits of its value. *)
Lemma digits_val l : dig l -> digits (length l) (val l) = l.
Proof.
  induction l as [|x l IH]; intros Hl; [done|]. apply dig_cons in Hl as [Hx Hl]. cbn [length digits val].
  replace ((x + B * val l) mod B) with x.
  2:{ rewrite Z.mul_comm, Z.mod_add by done. by rewrite Z.mod_small. }
  replace ((x + B * val l) / B) with (val l); [by rewrite IH|].
  rewrite Z.mul_comm, Z.div_add by done. by rewrite Z.div_small.
Qed.
Lemma val_inj l r : dig l -> dig r -> length l = length r -> val l = val r -> l = r.
Proof. intros Hl Hr E Ev. by rewrite <- (digits_val l), <- (digits_val r), E, Ev. Qed.

Lemma digits_ext n v w : v mod B ^ Z.of_nat n = w mod B ^ Z.of_nat n -> digits n v = digits n w.
Proof.
  intros E. apply val_inj; [apply digits_dig..|by rewrite !digits_length|by rewrite !val_digits].
Qed.

Lemma digits_app n m v : digits (n + m) v = digits n v ++ digits m (v / B ^ Z.of_nat n).
Proof.
  revert v. induction n as [|n IH]; intros v; cbn [Nat.add digits app]; [by rewrite Z.div_1_r|].
  rewrite IH, pow_S. rewrite Z.div_div by (try done; apply Bn_pos). done.
Qed.
Lemma digits_0 n : digits n 0 = replicate n 0.
Proof. induction n as [|n IH]; cbn [digits replicate]; [done|]. change (0 mod B) with 0. change (0 / B) with 0. by rewrite IH. Qed.

Lemma u32_mod x : u32 x = x mod B.
Proof. done. Qed.

(** ** The store *)

Definition seg (s : MpStore) (q : Ptr) (l : list Z) : Prop :=
  exists o, mpobj q.1 s = Some o /\ pts (mp_p o) q.2 l.
Definition wr (q : Ptr) (l : list Z) (s : MpStore) : MpStore :=
  match mpobj q.1 s with
  | Some o => mp_put q.1 (Some (mp_set_p (blit q.2 l (mp_p o)) o)) s
  | None => s
  end.
(** [n] digits at [q], and after a store at [q] those at [a] are still to be read. *)
Definition room (s : MpStore) (q : Ptr) (n : Z) : Prop := exists l, seg s q l /\ zlen l = n.
Definition apart (a : Ptr) (n : Z) (q : Ptr) (m : Z) : Prop := a.1 <> q.1 \/ a.2 + n <= q.2 \/ q.2 + m <= a.2.
Definition fwd (a : Ptr) (n : Z) (q : Ptr) : Prop := a.1 <> q.1 \/ q.2 <= a.2 \/ a.2 + n <= q.2.

Lemma mpobj_put b o s : (b < length (objs s))%nat -> mpobj b (mp_put b o s) = o.
Proof. intros H. unfold mpobj, mp_put, set_objs. cbn [objs]. by rewrite list_lookup_insert_eq. Qed.
Lemma mpobj_put_ne b b' o s : b <> b' -> mpobj b' (mp_put b o s) = mpobj b' s.
Proof. intros H. unfold mpobj, mp_put, set_objs. cbn [objs]. by rewrite list_lookup_insert_ne. Qed.
Lemma mpobj_lt b o s : mpobj b s = Some o -> (b < length (objs s))%nat.
Proof. unfold mpobj. intros E. apply lookup_lt_is_Some_1. destruct (objs s !! b); [eauto|done]. Qed.
Lemma mpobj_put_eq b o o' s : mpobj b s = Some o -> mpobj b (mp_put b o' s) = o'.
Proof. intros E. by apply mpobj_put, (mpobj_lt b o). Qed.
Lemma mp_put_put b o o' s : mp_put b o (mp_put b o' s) = mp_put b o s.
Proof. unfold mp_put, set_objs. cbn [objs mpmindigits]. by rewrite list_insert_insert_eq. Qed.
Lemma mp_put_id b o s : mpobj b s = Some o -> mp_put b (Some o) s = s.
Proof.
  unfold mpobj, mp_put, set_objs. intros E. destruct s as [l d]. cbn [objs mpmindigits] in *. f_equal.
  apply list_insert_id. destruct (l !! b) as [[o'|]|]; cbn in E; congruence.
Qed.
Lemma mp_put_comm b b' o o' s : b <> b' -> mp_put b o (mp_put b' o' s) = mp_put b' o' (mp_put b o s).
Proof. intros H. unfold mp_put, set_objs. cbn [objs mpmindigits]. by rewrite list_insert_insert_ne. Qed.

Lemma set_p_id o : mp_set_p (mp_p o) o = o.
Proof. by destruct o. Qed.

(** ** Segments *)

Lemma seg_bound s q l : seg s q l -> 0 <= q.2.
Proof. intros (o & _ & H). by apply pts_pos in H. Qed.
Lemma padd_padd q i j : padd (padd q i) j = padd q (i + j).
Proof. unfold padd. cbn. f_equal. lia. Qed.
Lemma padd_0 q : padd q 0 = q.
Proof. unfold padd. destruct q. cbn. f_equal. lia. Qed.

Lemma seg_app s q l r : seg s q (l ++ r) <-> seg s q l /\ seg s (padd q (zlen l)) r.
Proof.
  split.
  - intros (o & E & H). apply pts_app in H as [H1 H2]. split; by exists o.
  - intros [(o & E & H1) (o' & E' & H2)]. cbn in *. rewrite E in E'. injection E' as <-.
    exists o. split; [done|]. by apply pts_app.
Qed.
Lemma seg_cons s q x l : seg s q (x :: l) <-> seg s q [x] /\ seg s (padd q 1) l.
Proof. apply (seg_app s q [x] l). Qed.
Lemma seg_inj s q l r : seg s q l -> seg s q r -> zlen l = zlen r -> l = r.
Proof. intros (o & E & H1) (o' & E' & H2). rewrite E in E'. injection E' as <-. by apply (pts_inj (mp_p o) q.2). Qed.

Lemma room_split s q n m : 0 <= n -> 0 <= m -> room s q (n + m) -> room s q n /\ room s (padd q n) m.
Proof.
  intros Hn Hm (l & H & E). rewrite <- (take_drop (Z.to_nat n) l) in H. apply seg_app in H as [H1 H2].
  unfold zlen in *. rewrite length_take in H2. replace (Z.of_nat (Z.to_nat n `min` length l)) with n in H2 by lia.
  split; eexists; (split; [eassumption|]); unfold zlen; rewrite ?length_take, ?length_drop; lia.
Qed.
Lemma seg_room s q l : seg s q l -> room s q (zlen l).
Proof. intros H. by exists l. Qed.

Lemma room_wr_blit o q n (l : list Z) : room o q n -> zlen l = n ->
  exists x, mpobj q.1 o = Some x /\ 0 <= q.2 /\ q.2 + zlen l <= zlen (mp_p x).
Proof.
  intros (r & (x & E & H) & Hr) Hl. exists x. split_and!; [done|by apply pts_pos in H|].
  apply pts_bound in H. lia.
Qed.

Lemma seg_wr_same s q l n : room s q n -> zlen l = n -> seg (wr q l s) q l.
Proof.
  intros H E. destruct (room_wr_blit _ _ _ _ H E) as (x & Ex & H0 & Hb). unfold wr. rewrite Ex.
  eexists. split; [by eapply mpobj_put_eq|]. cbn. by apply pts_blit_same.
Qed.
Lemma seg_wr_other s q l a r n :
  room s q n -> zlen l = n -> apart a (zlen r) q n -> seg s a r -> seg (wr q l s) a r.
Proof.
  intros H E Ha (y & Ey & Hy). destruct (room_wr_blit _ _ _ _ H E) as (x & Ex & H0 & Hb). unfold wr. rewrite Ex.
  destruct (decide (a.1 = q.1)) as [Eq|Ne].
  - rewrite Eq in *. rewrite Ex in Ey. injection Ey as <-. eexists. split; [rewrite Eq; by eapply mpobj_put_eq|].
    cbn. apply pts_blit_other; try done. unfold apart in Ha. rewrite Eq, E in *. destruct Ha as [?|?]; [done|lia].
  - exists y. split; [|done]. by rewrite mpobj_put_ne.
Qed.
Lemma room_wr s q l a n m : room s q n -> zlen l = n -> room s a m -> room (wr q l s) a m.
Proof.
  intros H E (r & (y & Ey & Hy) & Hr). destruct (room_wr_blit _ _ _ _ H E) as (x & Ex & H0 & Hb). unfold wr. rewrite Ex.
  destruct (decide (a.1 = q.1)) as [Eq|Ne].
  - rewrite Eq in *. rewrite Ex in Ey. injection Ey as <-. exists (slice a.2 m (blit q.2 l (mp_p x))).
    pose proof (pts_bound _ _ _ Hy). pose proof (pts_pos _ _ _ Hy). pose proof (zlen_nonneg r).
    split; [|rewrite zlen_slice; rewrite ?zlen_blit; lia].
    eexists. split; [rewrite Eq; by eapply mpobj_put_eq|]. cbn. apply slice_pts; rewrite ?zlen_blit; lia.
  - exists r. split; [|done]. exists y. by rewrite mpobj_put_ne.
Qed.

Lemma blit_blit q l r (p : list Z) : 0 <= q -> q + zlen (l ++ r) <= zlen p ->
  blit (q + zlen l) r (blit q l p) = blit q (l ++ r) p.
Proof.
  intros Hq Hb. rewrite zlen_app in Hb. pose proof (zlen_nonneg l). pose proof (zlen_nonneg r).
  apply list_eq. intros i.
  rewrite !lookup_blit; rewrite ?zlen_blit, ?zlen_app; try lia.
  unfold zlen in *. repeat case_decide; try lia.
  - done.
  - by rewrite lookup_app_l by lia.
  - rewrite lookup_app_r by lia. f_equal. lia.
  - done.
Qed.
Lemma wr_app s q l r : room s q (zlen (l ++ r)) -> wr (padd q (zlen l)) r (wr q l s) = wr q (l ++ r) s.
Proof.
  intros H. destruct (room_wr_blit _ _ _ (l ++ r) H) as (x & Ex & H0 & Hb); [done|].
  unfold wr at 2 3. rewrite Ex. unfold wr. cbn [padd fst snd]. erewrite mpobj_put_eq by done. rewrite mp_put_put.
  cbn. by rewrite blit_blit.
Qed.
Lemma wr_cons s q x l n : room s q n -> n = 1 + zlen l -> wr (padd q 1) l (wr q [x] s) = wr q (x :: l) s.
Proof. intros H E. apply (wr_app s q [x] l). rewrite zlen_app. change (zlen [x]) with 1. by rewrite <- E. Qed.

Lemma wr_nil q s : wr q [] s = s.
Proof. unfold wr. destruct (mpobj q.1 s) as [o|] eqn:E; [|done]. rewrite blit_nil, set_p_id. by apply mp_put_id. Qed.

(** ** Loads and stores *)

Lemma mp_get_ok b o s : mpobj b s = Some o -> mp_get b s = (Ok o, s).
Proof. intros E. unfold mp_get. rewrite bind_gets, E. done. Qed.
Lemma bind_get {A} b o s (f : Mpint -> M MpStore A) : mpobj b s = Some o -> (mp_get b ≫= f) s = f o s.
Proof. intros E. by rewrite (bind_ok _ _ _ _ _ (mp_get_ok _ _ _ E)). Qed.
Lemma mp_upd_ok b o f s : mpobj b s = Some o -> mp_upd b f s = (Ok tt, mp_put b (Some (f o)) s).
Proof. intros E. unfold mp_upd. by rewrite (bind_get _ o). Qed.

Lemma ldig_ok s q x : seg s q [x] -> ldig q s = (Ok x, s).
Proof.
  intros (o & E & H). unfold ldig. rewrite (bind_get _ o) by done.
  apply pts_zget with (i := 0) in H; [|done]. rewrite Z.add_0_r in H. by rewrite H.
Qed.
Lemma sdig_ok s q x : room s q 1 -> sdig q x s = (Ok tt, wr q [x] s).
Proof.
  intros H. destruct (room_wr_blit _ _ _ [x] H) as (o & E & H0 & Hb); [done|]. change (zlen [x]) with 1 in Hb.
  unfold sdig. rewrite (bind_get _ o) by done.
  destruct (Z.leb_spec 0 q.2); [|lia]. destruct (Z.ltb_spec q.2 (zlen (mp_p o))); [|lia]. cbn [andb].
  unfold modify, wr. rewrite E. do 5 f_equal. unfold blit. cbn [length].
  rewrite insert_take_drop by (unfold zlen in *; lia). cbn [app]. do 2 f_equal. f_equal. lia.
Qed.
Lemma ldigs_ok s q l n : seg s q l -> n = zlen l -> ldigs q n s = (Ok l, s).
Proof.
  intros (o & E & H) ->. unfold ldigs. rewrite (bind_get _ o) by done.
  pose proof (pts_pos _ _ _ H). pose proof (pts_bound _ _ _ H). pose proof (zlen_nonneg l).
  destruct (Z.leb_spec 0 q.2); [|lia]. destruct (Z.leb_spec 0 (zlen l)); [|lia].
  destruct (Z.leb_spec (q.2 + zlen l) (zlen (mp_p o))); [|lia]. cbn [andb]. by rewrite (pts_slice _ _ _ H).
Qed.
Lemma sdigs_ok s q l : room s q (zlen l) -> sdigs q l s = (Ok tt, wr q l s).
Proof.
  intros H. destruct (room_wr_blit _ _ _ l H) as (o & E & H0 & Hb); [done|].
  unfold sdigs. rewrite (bind_get _ o) by done.
  destruct (Z.leb_spec 0 q.2); [|lia]. destruct (Z.leb_spec (q.2 + zlen l) (zlen (mp_p o))); [|lia]. cbn [andb].
  unfold modify, wr. by rewrite E.
Qed.
Lemma zdigs_ok s q n : 0 <= n -> room s q n -> zdigs q n s = (Ok tt, wr q (replicate (Z.to_nat n) 0) s).
Proof.
  intros Hn H. unfold zdigs. destruct (Z.ltb_spec n 0); [lia|]. apply sdigs_ok.
  replace (zlen _) with n; [done|]. unfold zlen. rewrite length_replicate. lia.
Qed.
