(* ===== verification/MpVec.v ===== *)
(** * Multiple precision arithmetic: digit vectors

    Each vector routine stores the digits of the integer it computes: the sum,
    the difference, a product added or subtracted, modulo the room it writes;
    the operands may be where the result goes, or ahead of it. *)
From S2P Require Import Prelude CMonad Mp MpVal.

Lemma digits_step n t v : digits (S n) (t + B * v) = t mod B :: digits n (t / B + v).
Proof.
  cbn [digits]. rewrite (Z.mul_comm B v), Z.mod_add, Z.div_add by done. done.
Qed.

Lemma carry_step n t v : 0 <= n -> (t + B * v) / B ^ (n + 1) = (t / B + v) / B ^ n.
Proof.
  intros Hn. rewrite Z.pow_add_r, Z.pow_1_r, (Z.mul_comm _ B) by lia.
  pose proof (Z.pow_pos_nonneg B n B_pos Hn). rewrite <- Z.div_div by (done || lia).
  by rewrite (Z.mul_comm B v), Z.div_add by done.
Qed.

(** Splitting a segment and what is left to read after a store at [q]. *)
Lemma seg_next s a x l q z :
  seg s a (x :: l) -> fwd a (zlen (x :: l)) q -> room s q 1 ->
  seg (wr q [z] s) (padd a 1) l /\ fwd (padd a 1) (zlen l) (padd q 1).
Proof.
  intros H Hf Hq. rewrite zlen_cons in Hf. apply seg_cons in H as [_ H]. split.
  - eapply seg_wr_other; [exact Hq|done| |done]. unfold fwd, apart, padd in *. cbn. lia.
  - unfold fwd, padd in *. cbn. lia.
Qed.
Lemma room_next s q n z : 0 <= n -> room s q (1 + n) -> room s q 1 /\ room (wr q [z] s) (padd q 1) n.
Proof.
  intros Hn H. apply room_split in H as [H1 H2]; [|lia..]. split; [done|]. by eapply room_wr.
Qed.

Ltac carry_cases :=
  wraps; rewrite ?B_eq in *;
  repeat match goal with
    | |- context [?a <? ?b] => destruct (Z.ltb_spec a b)
    | |- context [?a <=? ?b] => destruct (Z.leb_spec a b)
    end; Z.div_mod_to_equations; lia.

(** ** mpvecadd *)

Definition addc (x y c : Z) : Z * Z :=
  let x := u32 (x + c) in
  let c := if x <? c then 1 else 0 in
  let x := u32 (x + y) in
  (x, if x <? y then c + 1 else c).
Lemma addc_digit x y c : 0 <= x < B -> 0 <= y < B -> 0 <= c <= 1 -> (addc x y c).1 = (x + y + c) mod B.
Proof. intros. unfold addc. cbn [fst]. carry_cases. Qed.
Lemma addc_carry x y c : 0 <= x < B -> 0 <= y < B -> 0 <= c <= 1 -> (addc x y c).2 = (x + y + c) / B.
Proof. intros. unfold addc. cbn [snd]. carry_cases. Qed.

Lemma mpvecadd_both_ok la : forall lb a b sum c s,
  length la = length lb -> dig la -> dig lb -> 0 <= c <= 1 ->
  seg s a la -> seg s b lb -> room s sum (zlen la) -> fwd a (zlen la) sum -> fwd b (zlen lb) sum ->
  mpvecadd_both (length la) a b sum c s =
    (Ok (padd a (zlen la), padd sum (zlen la), (val la + val lb + c) / B ^ zlen la),
     wr sum (digits (length la) (val la + val lb + c)) s).
Proof.
  induction la as [|x la IH]; intros [|y lb] a b sum c s El Ha Hb Hc Sa Sb Hr Fa Fb; try done.
  { change (zlen (@nil Z)) with 0. rewrite !padd_0, wr_nil. cbn [val]. by rewrite Z.div_1_r. }
  injection El as El. apply dig_cons in Ha as [Hx Ha], Hb as [Hy Hb].
  cbn [length mpvecadd_both].
  pose proof Sa as Sa0. pose proof Sb as Sb0. apply seg_cons in Sa0 as [Sx _], Sb0 as [Sy _].
  rewrite (bind_ok _ _ _ _ _ (ldig_ok _ _ _ Sx)), (bind_ok _ _ _ _ _ (ldig_ok _ _ _ Sy)).
  rewrite zlen_cons, Z.add_comm in Hr. pose proof (zlen_nonneg la).
  change (u32 (u32 (x + c) + y)) with (addc x y c).1.
  change (if (addc x y c).1 <? y then _ else _) with (addc x y c).2.
  destruct (room_next s sum (zlen la) (addc x y c).1) as [H1 H2]; [done..|].
  rewrite (bind_ok _ _ _ _ _ (sdig_ok _ _ _ H1)).
  destruct (seg_next s a x la sum (addc x y c).1) as [Sa' Fa']; [done..|].
  destruct (seg_next s b y lb sum (addc x y c).1) as [Sb' Fb']; [done..|].
  rewrite (IH lb); try done.
  2:{ rewrite addc_carry by done. rewrite B_eq in *. dlia. }
  rewrite addc_carry, addc_digit by done. rewrite !padd_padd, zlen_cons.
  assert (Ev : val (x :: la) + val (y :: lb) + c = (x + y + c) + B * (val la + val lb)) by (cbn [val]; lia).
  rewrite Ev, digits_step.
  replace (val la + val lb + (x + y + c) / B) with ((x + y + c) / B + (val la + val lb)) by lia.
  rewrite (wr_cons _ _ _ _ (1 + zlen la)); [|exact Hr|by rewrite digits_zlen].
  rewrite carry_step by done. by rewrite (Z.add_comm 1).
Qed.

Definition addc1 (x c : Z) : Z * Z := let x := u32 (x + c) in (x, if x <? c then 1 else 0).
Lemma addc1_digit x c : (addc1 x c).1 = (x + c) mod B.
Proof. done. Qed.
Lemma addc1_carry x c : 0 <= x < B -> 0 <= c <= 1 -> (addc1 x c).2 = (x + c) / B.
Proof. intros. unfold addc1. cbn [snd]. carry_cases. Qed.

Lemma mpvecadd_rest_ok la : forall a sum c s,
  dig la -> 0 <= c <= 1 -> seg s a la -> room s sum (zlen la) -> fwd a (zlen la) sum ->
  mpvecadd_rest (length la) a sum c s =
    (Ok (padd sum (zlen la), (val la + c) / B ^ zlen la), wr sum (digits (length la) (val la + c)) s).
Proof.
  induction la as [|x la IH]; intros a sum c s Ha Hc Sa Hr Fa.
  { change (zlen (@nil Z)) with 0. rewrite padd_0, wr_nil. cbn [val]. by rewrite Z.div_1_r. }
  apply dig_cons in Ha as [Hx Ha]. cbn [length mpvecadd_rest].
  pose proof Sa as Sa0. apply seg_cons in Sa0 as [Sx _].
  rewrite (bind_ok _ _ _ _ _ (ldig_ok _ _ _ Sx)).
  rewrite zlen_cons, Z.add_comm in Hr. pose proof (zlen_nonneg la).
  change (u32 (x + c)) with (addc1 x c).1. change (if (addc1 x c).1 <? c then 1 else 0) with (addc1 x c).2.
  destruct (room_next s sum (zlen la) (addc1 x c).1) as [H1 H2]; [done..|].
  rewrite (bind_ok _ _ _ _ _ (sdig_ok _ _ _ H1)).
  destruct (seg_next s a x la sum (addc1 x c).1) as [Sa' Fa']; [done..|].
  assert (Hc' : 0 <= (addc1 x c).2 <= 1) by (rewrite addc1_carry by done; rewrite B_eq in *; dlia).
  rewrite IH by done. rewrite addc1_carry, addc1_digit by done. rewrite !padd_padd, zlen_cons.
  replace (val (x :: la) + c) with ((x + c) + B * val la) by (cbn [val]; lia).
  rewrite digits_step, carry_step by done.
  replace (val la + (x + c) / B) with ((x + c) / B + val la) by lia.
  rewrite (wr_cons _ _ _ _ (1 + zlen la)); [|exact Hr|by rewrite digits_zlen].
  by rewrite (Z.add_comm 1).
Qed.

(** The result of the two loops, before the last digit. *)
Lemma digits_two la1 la2 lb : length la1 = length lb -> dig la1 -> dig lb ->
  digits (length la1) (val la1 + val lb) ++ digits (length la2) (val la2 + (val la1 + val lb) / B ^ zlen la1)
  = digits (length (la1 ++ la2)) (val (la1 ++ la2) + val lb).
Proof.
  intros E H1 H2. rewrite length_app, digits_app. rewrite val_app. fold (zlen la1).
  pose proof (Z.pow_pos_nonneg B (zlen la1) B_pos (zlen_nonneg la1)).
  replace (val la1 + B ^ zlen la1 * val la2 + val lb) with ((val la1 + val lb) + val la2 * B ^ zlen la1) by lia.
  rewrite Z.div_add by lia. f_equal; [|f_equal; lia].
  apply digits_ext. fold (zlen la1). by rewrite Z.mod_add by lia.
Qed.

Lemma fwd_app a n m q : 0 <= n -> 0 <= m -> fwd a (n + m) q -> fwd a n q /\ fwd (padd a n) m (padd q n).
Proof. unfold fwd, padd. cbn. lia. Qed.

Lemma seg_rest s a l r q v : seg s a (l ++ r) -> fwd a (zlen (l ++ r)) q -> room s q (zlen l) -> zlen v = zlen l ->
  seg (wr q v s) (padd a (zlen l)) r.
Proof.
  intros H Hf Hq Hv. rewrite zlen_app in Hf. apply seg_app in H as [_ H].
  eapply seg_wr_other; [exact Hq|done| |done]. unfold fwd, apart, padd in *. cbn. lia.
Qed.

Lemma carry_app l1 l2 w :
  (val l1 + B ^ zlen l1 * val l2 + w) / B ^ (zlen l1 + zlen l2) = (val l2 + (val l1 + w) / B ^ zlen l1) / B ^ zlen l2.
Proof.
  pose proof (zlen_nonneg l1). pose proof (zlen_nonneg l2).
  pose proof (Z.pow_pos_nonneg B (zlen l1) B_pos ltac:(lia)). pose proof (Z.pow_pos_nonneg B (zlen l2) B_pos ltac:(lia)).
  rewrite Z.pow_add_r by lia. rewrite <- Z.div_div by lia.
  replace (val l1 + B ^ zlen l1 * val l2 + w) with (val l1 + w + val l2 * B ^ zlen l1) by lia.
  rewrite Z.div_add by lia. f_equal. lia.
Qed.

(** [mpvecadd]: the sum, one digit longer than the longer operand; it may be
    stored over either operand. *)
Lemma mpvecadd_ok s a la b lb sum :
  dig la -> dig lb -> zlen lb <= zlen la -> seg s a la -> seg s b lb -> room s sum (zlen la + 1) ->
  fwd a (zlen la) sum -> fwd b (zlen lb) sum ->
  mpvecadd a (zlen la) b (zlen lb) sum s = (Ok tt, wr sum (digits (S (length la)) (val la + val lb)) s).
Proof.
  intros Ha Hb Hl Sa Sb Hr Fa Fb.
  pose proof (zlen_nonneg la). pose proof (zlen_nonneg lb).
  pose proof (room_split s sum (zlen la) 1 ltac:(lia) ltac:(lia) Hr) as [Hr1 Hr2].
  set (l1 := take (length lb) la). set (l2 := drop (length lb) la).
  assert (E : la = l1 ++ l2) by (symmetry; apply take_drop).
  assert (L1 : length l1 = length lb) by (unfold l1; rewrite length_take; unfold zlen in *; lia).
  rewrite E in Ha, Sa, Fa. apply dig_app in Ha as [D1 D2].
  assert (Z1 : zlen l1 = zlen lb) by (unfold zlen; lia).
  assert (Z2 : zlen la = zlen lb + zlen l2) by (rewrite E, zlen_app; lia). pose proof (zlen_nonneg l2).
  assert (Zl : zlen la = zlen l1 + zlen l2) by lia.
  unfold mpvecadd. replace (Z.to_nat (zlen lb)) with (length l1) by (unfold zlen; lia).
  pose proof (proj1 (seg_app _ _ _ _) Sa) as [S1 _].
  rewrite zlen_app in Fa. pose proof (fwd_app a (zlen l1) (zlen l2) sum ltac:(lia) ltac:(lia) Fa) as [F1 F2].
  assert (Hr0 : room s sum (zlen l1) /\ room s (padd sum (zlen l1)) (zlen l2)).
  { apply room_split; [lia|lia|]. by replace (zlen l1 + zlen l2) with (zlen la) by lia. }
  destruct Hr0 as [Hr0 Hr3].
  rewrite (bind_ok _ _ _ _ _ (mpvecadd_both_ok l1 lb a b sum 0 s L1 D1 Hb ltac:(lia) S1 Sb Hr0 F1 Fb)).
  replace (Z.to_nat (zlen la - Z.max 0 (zlen lb))) with (length l2) by (unfold zlen in *; lia).
  assert (Hc : 0 <= (val l1 + val lb + 0) / B ^ zlen l1 <= 1).
  { pose proof (val_bound _ D1). pose proof (val_bound _ Hb). rewrite <- Z1 in *.
    split; [apply Z.div_pos; lia|]. apply Z.lt_succ_r, Z.div_lt_upper_bound; lia. }
  set (d1 := digits (length l1) (val l1 + val lb + 0)).
  assert (Zd : zlen d1 = zlen l1) by apply digits_zlen.
  assert (Sr : seg (wr sum d1 s) (padd a (zlen l1)) l2) by (apply seg_rest; by rewrite ?zlen_app).
  assert (Rr : forall q m, room s q m -> room (wr sum d1 s) q m) by (intros q m; by apply (room_wr s sum d1 q (zlen l1) m)).
  rewrite (bind_ok _ _ _ _ _ (mpvecadd_rest_ok l2 _ _ _ _ D2 Hc Sr (Rr _ _ Hr3) F2)).
  rewrite padd_padd. replace (zlen l1 + zlen l2) with (zlen la) by lia.
  set (d2 := digits (length l2) _). assert (Zd2 : zlen d2 = zlen l2) by apply digits_zlen.
  rewrite sdig_ok by (eapply room_wr; [exact (Rr _ _ Hr3)|done|exact (Rr _ _ Hr2)]).
  rewrite <- Zd. rewrite wr_app by (by rewrite zlen_app, Zd, Zd2, <- Zl).
  rewrite Zl, <- Zd, <- Zd2, <- zlen_app, wr_app by (rewrite !zlen_app, Zd, Zd2, <- Zl; done).
  do 2 f_equal. unfold d2, d1.
  rewrite Z.add_0_r, (digits_two l1 l2 lb), <- E by done.
  rewrite <- (Nat.add_1_r (length la)), digits_app. cbn [digits]. do 2 f_equal.
  rewrite !digits_zlen. fold (zlen l1) (zlen l2) (zlen la). rewrite <- carry_app.
  rewrite <- val_app, <- Zl, <- E. symmetry. apply Z.mod_small.
  assert (dig la) as Da by (rewrite E; by apply dig_app).
  pose proof (val_bound _ Da). pose proof (val_bound _ Hb).
  pose proof (Z.pow_le_mono_r B (zlen lb) (zlen la) B_pos Hl).
  pose proof (Z.pow_pos_nonneg B (zlen la) B_pos ltac:(lia)).
  split; [apply Z.div_pos; lia|]. apply Z.div_lt_upper_bound; [lia|].
  assert (2 <= B) by done. nia.
Qed.

(** ** mpvecsub *)

Definition subc (x y c : Z) : Z * Z :=
  let y := u32 (y + c) in
  let c := if y <? c then 1 else 0 in
  (u32 (x - y), if x <? y then c + 1 else c).
Lemma subc_digit x y c : 0 <= x < B -> 0 <= y < B -> 0 <= c <= 1 -> (subc x y c).1 = (x - y - c) mod B.
Proof. intros. unfold subc. cbn [fst]. carry_cases. Qed.
Lemma subc_borrow x y c : 0 <= x < B -> 0 <= y < B -> 0 <= c <= 1 -> - (subc x y c).2 = (x - y - c) / B.
Proof. intros. unfold subc. cbn [snd]. carry_cases. Qed.

Lemma mpvecsub_both_ok la : forall lb a b diff c s,
  length la = length lb -> dig la -> dig lb -> 0 <= c <= 1 ->
  seg s a la -> seg s b lb -> room s diff (zlen la) -> fwd a (zlen la) diff -> fwd b (zlen lb) diff ->
  mpvecsub_both (length la) a b diff c s =
    (Ok (padd a (zlen la), padd diff (zlen la), - ((val la - val lb - c) / B ^ zlen la)),
     wr diff (digits (length la) (val la - val lb - c)) s).
Proof.
  induction la as [|x la IH]; intros [|y lb] a b diff c s El Ha Hb Hc Sa Sb Hr Fa Fb; try done.
  { change (zlen (@nil Z)) with 0. rewrite !padd_0, wr_nil. cbn [val]. rewrite Z.div_1_r. by replace (- (0 - 0 - c)) with c by lia. }
  injection El as El. apply dig_cons in Ha as [Hx Ha], Hb as [Hy Hb].
  cbn [length mpvecsub_both].
  pose proof Sa as Sa0. pose proof Sb as Sb0. apply seg_cons in Sa0 as [Sx _], Sb0 as [Sy _].
  rewrite (bind_ok _ _ _ _ _ (ldig_ok _ _ _ Sx)), (bind_ok _ _ _ _ _ (ldig_ok _ _ _ Sy)).
  rewrite zlen_cons, Z.add_comm in Hr. pose proof (zlen_nonneg la).
  change (u32 (x - u32 (y + c))) with (subc x y c).1.
  change (if x <? u32 (y + c) then _ else _) with (subc x y c).2.
  destruct (room_next s diff (zlen la) (subc x y c).1) as [H1 H2]; [done..|].
  rewrite (bind_ok _ _ _ _ _ (sdig_ok _ _ _ H1)).
  destruct (seg_next s a x la diff (subc x y c).1) as [Sa' Fa']; [done..|].
  destruct (seg_next s b y lb diff (subc x y c).1) as [Sb' Fb']; [done..|].
  pose proof (subc_borrow x y c Hx Hy Hc) as Eb.
  rewrite (IH lb); try done.
  2:{ rewrite B_eq in *. Z.div_mod_to_equations. lia. }
  rewrite subc_digit by done. rewrite !padd_padd, zlen_cons.
  replace (val (x :: la) - val (y :: lb) - c) with ((x - y - c) + B * (val la - val lb)) by (cbn [val]; lia).
  rewrite digits_step, carry_step by done. rewrite <- Eb.
  replace (- (subc x y c).2 + (val la - val lb)) with (val la - val lb - (subc x y c).2) by lia.
  rewrite (wr_cons _ _ _ _ (1 + zlen la)); [|exact Hr|by rewrite digits_zlen].
  by rewrite (Z.add_comm 1).
Qed.

Definition subc1 (x c : Z) : Z * Z := let y := u32 (x - c) in (y, if x <? y then 1 else 0).
Lemma subc1_digit x c : (subc1 x c).1 = (x - c) mod B.
Proof. done. Qed.
Lemma subc1_borrow x c : 0 <= x < B -> 0 <= c <= 1 -> - (subc1 x c).2 = (x - c) / B.
Proof. intros. unfold subc1. cbn [snd]. carry_cases. Qed.

Lemma mpvecsub_rest_ok la : forall a diff c s,
  dig la -> 0 <= c <= 1 -> seg s a la -> room s diff (zlen la) -> fwd a (zlen la) diff ->
  mpvecsub_rest (length la) a diff c s = (Ok tt, wr diff (digits (length la) (val la - c)) s).
Proof.
  induction la as [|x la IH]; intros a diff c s Ha Hc Sa Hr Fa; [by rewrite wr_nil|].
  apply dig_cons in Ha as [Hx Ha]. cbn [length mpvecsub_rest].
  pose proof Sa as Sa0. apply seg_cons in Sa0 as [Sx _].
  rewrite (bind_ok _ _ _ _ _ (ldig_ok _ _ _ Sx)).
  rewrite zlen_cons, Z.add_comm in Hr. pose proof (zlen_nonneg la).
  change (u32 (x - c)) with (subc1 x c).1. change (if x <? (subc1 x c).1 then 1 else 0) with (subc1 x c).2.
  destruct (room_next s diff (zlen la) (subc1 x c).1) as [H1 H2]; [done..|].
  rewrite (bind_ok _ _ _ _ _ (sdig_ok _ _ _ H1)).
  destruct (seg_next s a x la diff (subc1 x c).1) as [Sa' Fa']; [done..|].
  pose proof (subc1_borrow x c Hx Hc) as Eb.
  rewrite IH; try done.
  2:{ rewrite B_eq in *. Z.div_mod_to_equations. lia. }
  rewrite subc1_digit. replace (val (x :: la) - c) with ((x - c) + B * val la) by (cbn [val]; lia).
  rewrite digits_step. rewrite <- Eb. replace (- (subc1 x c).2 + val la) with (val la - (subc1 x c).2) by lia.
  by rewrite (wr_cons _ _ _ _ (1 + zlen la)); [|exact Hr|by rewrite digits_zlen].
Qed.

(** [mpvecsub]: the difference modulo its length. *)
Lemma mpvecsub_ok s a la b lb diff :
  dig la -> dig lb -> zlen lb <= zlen la -> seg s a la -> seg s b lb -> room s diff (zlen la) ->
  fwd a (zlen la) diff -> fwd b (zlen lb) diff ->
  mpvecsub a (zlen la) b (zlen lb) diff s = (Ok tt, wr diff (digits (length la) (val la - val lb)) s).
Proof.
  intros Ha Hb Hl Sa Sb Hr Fa Fb.
  pose proof (zlen_nonneg la). pose proof (zlen_nonneg lb).
  set (l1 := take (length lb) la). set (l2 := drop (length lb) la).
  assert (E : la = l1 ++ l2) by (symmetry; apply take_drop).
  assert (L1 : length l1 = length lb) by (unfold l1; rewrite length_take; unfold zlen in *; lia).
  assert (Z1 : zlen l1 = zlen lb) by (unfold zlen; lia).
  assert (Zl : zlen la = zlen l1 + zlen l2) by (rewrite E, zlen_app; lia). pose proof (zlen_nonneg l2).
  rewrite E in Ha, Sa, Fa. apply dig_app in Ha as [D1 D2].
  unfold mpvecsub. replace (Z.to_nat (zlen lb)) with (length l1) by (unfold zlen; lia).
  pose proof (proj1 (seg_app _ _ _ _) Sa) as [S1 _].
  rewrite zlen_app in Fa. pose proof (fwd_app a (zlen l1) (zlen l2) diff ltac:(lia) ltac:(lia) Fa) as [F1 F2].
  rewrite Zl in Hr. pose proof (room_split s diff (zlen l1) (zlen l2) ltac:(lia) ltac:(lia) Hr) as [Hr0 Hr3].
  rewrite (bind_ok _ _ _ _ _ (mpvecsub_both_ok l1 lb a b diff 0 s L1 D1 Hb ltac:(lia) S1 Sb Hr0 F1 Fb)).
  replace (Z.to_nat (zlen la - Z.max 0 (zlen lb))) with (length l2) by (unfold zlen in *; lia).
  assert (Hc : 0 <= - ((val l1 - val lb - 0) / B ^ zlen l1) <= 1).
  { pose proof (val_bound _ D1). pose proof (val_bound _ Hb). rewrite <- Z1 in *.
    pose proof (Z.div_lt_upper_bound (val l1 - val lb - 0) (B ^ zlen l1) 1).
    pose proof (Z.div_le_lower_bound (val l1 - val lb - 0) (B ^ zlen l1) (-1)). lia. }
  set (d1 := digits (length l1) (val l1 - val lb - 0)).
  assert (Zd : zlen d1 = zlen l1) by apply digits_zlen.
  assert (Sr : seg (wr diff d1 s) (padd a (zlen l1)) l2) by (apply seg_rest; by rewrite ?zlen_app).
  assert (Rr : room (wr diff d1 s) (padd diff (zlen l1)) (zlen l2)) by (by apply (room_wr s diff d1 _ (zlen l1))).
  rewrite (mpvecsub_rest_ok l2 _ _ _ _ D2 Hc Sr Rr F2).
  set (d2 := digits (length l2) _). assert (Zd2 : zlen d2 = zlen l2) by apply digits_zlen.
  rewrite <- Zd, wr_app by (by rewrite zlen_app, Zd, Zd2). do 2 f_equal. unfold d1, d2.
  rewrite Z.sub_0_r, E, length_app, digits_app. fold (zlen l1). rewrite val_app.
  pose proof (Z.pow_pos_nonneg B (zlen l1) B_pos ltac:(lia)).
  replace (val l1 + B ^ zlen l1 * val l2 - val lb) with ((val l1 - val lb) + val l2 * B ^ zlen l1) by lia.
  rewrite Z.div_add by lia. f_equal; [|f_equal; lia].
  apply digits_ext. fold (zlen l1). by rewrite Z.mod_add by lia.
Qed.

(** ** mpdigmul *)

Lemma HI_eq x : HI x = x / 65536.
Proof. unfold HI. change (Dbits / 2) with 16. by rewrite Z.shiftr_div_pow2. Qed.
Lemma LO_eq x : LO x = x mod 65536.
Proof. unfold LO. change (Z.shiftl 1 (Dbits / 2) - 1) with (Z.ones 16). by rewrite Z.land_ones. Qed.

Lemma mpdigmul_ok a b : 0 <= a < B -> 0 <= b < B -> mpdigmul a b = ((a * b) mod B, a * b / B).
Proof.
  intros Ha Hb. unfold mpdigmul. rewrite !HI_eq, !LO_eq. change (Dbits / 2) with 16. rewrite !Z.shiftl_mul_pow2 by lia.
  change (2 ^ 16) with 65536. rewrite B_eq in *.
  assert (Ea : a = a / 65536 * 65536 + a mod 65536) by dlia.
  assert (Eb : b = b / 65536 * 65536 + b mod 65536) by dlia.
  assert (0 <= a / 65536 < 65536) by dlia. assert (0 <= a mod 65536 < 65536) by dlia.
  assert (0 <= b / 65536 < 65536) by dlia. assert (0 <= b mod 65536 < 65536) by dlia.
  generalize dependent (a / 65536). intros ah. generalize dependent (a mod 65536). intros al Hal Ea.
  generalize dependent (b / 65536). intros bh. generalize dependent (b mod 65536). intros bl Hbl Eb Hbh Hah.
  assert (M : forall x y, 0 <= x < 65536 -> 0 <= y < 65536 -> 0 <= x * y <= 4294836225) by (intros; nia).
  pose proof (M ah bl Hah Hbl) as H1. pose proof (M bh al Hbh Hal) as H2. pose proof (M bl al Hbl Hal) as H3.
  pose proof (M ah bh Hah Hbh) as H4.
  assert (E : a * b = (ah * bh) * 4294967296 + (ah * bl + bh * al) * 65536 + bl * al) by (subst; ring).
  assert (Hab : 0 <= a * b <= 18446744065119617025) by nia.
  rewrite (u32_id (ah * bl)), (u32_id (bh * al)), (u32_id (bl * al)), (u32_id (ah * bh)) by lia.
  rewrite E in *. clear E M Ea Eb Ha Hb.
  generalize dependent (ah * bl). generalize dependent (bh * al). generalize dependent (bl * al). generalize dependent (ah * bh).
  clear. intros p4 H4 p3 H3 p2 H2 p1 H1 H. f_equal; carry_cases.
Qed.

(** ** mpvecdigmuladd *)

Definition muladdc (h c y p0 : Z) : Z * Z :=
  let x := u32 (h + c) in
  let c := if x <? c then 1 else 0 in
  let x := u32 (x + p0) in
  let c := if x <? p0 then c + 1 else c in
  let x := u32 (x + y) in
  (x, if x <? y then c + 1 else c).
Lemma muladdc_digit h c y p0 : (muladdc h c y p0).1 = (h + c + p0 + y) mod B.
Proof. unfold muladdc. cbn [fst]. rewrite !u32_mod, B_eq. dlia. Qed.
Lemma muladdc_carry h c y p0 :
  0 <= h -> 0 <= c -> h + c < B -> 0 <= y < B -> 0 <= p0 < B ->
  (muladdc h c y p0).2 = (h + c + p0 + y) / B.
Proof. intros. unfold muladdc. cbn [snd]. carry_cases. Qed.

Lemma mpvecdigmuladd_loop_ok lb : forall lp b m p c h s,
  length lp = length lb -> dig lb -> dig lp -> 0 <= m < B -> 0 <= h -> 0 <= c -> h + c < B ->
  seg s b lb -> seg s p lp -> fwd b (zlen lb) p ->
  exists c' h', mpvecdigmuladd_loop (length lb) b m p c h s =
      (Ok (padd p (zlen lb), c', h'), wr p (digits (length lb) (val lp + m * val lb + h + c)) s) /\
    h' + c' = (val lp + m * val lb + h + c) / B ^ zlen lb /\ 0 <= h' /\ 0 <= c' /\ h' + c' < B.
Proof.
  induction lb as [|d lb IH]; intros [|y lp] b m p c h s El Hb Hp Hm Hh Hc Hhc Sb Sp Fb; try done.
  { exists c, h. change (zlen (@nil Z)) with 0. rewrite !padd_0, wr_nil. cbn [val]. rewrite Z.div_1_r.
    split_and!; [done|lia..]. }
  injection El as El. apply dig_cons in Hb as [Hd Hb], Hp as [Hy Hp].
  cbn [length mpvecdigmuladd_loop].
  pose proof Sb as Sb0. pose proof Sp as Sp0. apply seg_cons in Sb0 as [Sd _], Sp0 as [Sy Sp'].
  rewrite (bind_ok _ _ _ _ _ (ldig_ok _ _ _ Sy)), (bind_ok _ _ _ _ _ (ldig_ok _ _ _ Sd)).
  rewrite mpdigmul_ok by done. set (p0 := (d * m) mod B). set (h1 := d * m / B).
  assert (Hp0 : 0 <= p0 < B) by (apply Z.mod_pos_bound; done).
  assert (Ep : d * m = B * h1 + p0) by (apply Z.div_mod; done).
  assert (Hh1 : 0 <= h1) by (apply Z.div_pos; nia).
  change (u32 (u32 (u32 (h + c) + p0) + y)) with (muladdc h c y p0).1.
  change (if (muladdc h c y p0).1 <? y then _ else _) with (muladdc h c y p0).2.
  assert (Hr : room s p (1 + zlen lb)).
  { exists (y :: lp). split; [done|]. unfold zlen. cbn [length]. lia. }
  pose proof (zlen_nonneg lb).
  destruct (room_next s p (zlen lb) (muladdc h c y p0).1) as [H1 H2]; [done..|].
  rewrite (bind_ok _ _ _ _ _ (sdig_ok _ _ _ H1)).
  destruct (seg_next s b d lb p (muladdc h c y p0).1) as [Sb' Fb']; [done..|].
  assert (Sp1 : seg (wr p [(muladdc h c y p0).1] s) (padd p 1) lp).
  { eapply seg_wr_other; [exact H1|done| |done]. right. right. cbn. lia. }
  pose proof (muladdc_carry h c y p0 Hh Hc Hhc Hy Hp0) as Ec.
  assert (Hc2 : 0 <= (muladdc h c y p0).2) by (rewrite Ec; apply Z.div_pos; [lia|done]).
  assert (Hsum : h1 + (muladdc h c y p0).2 = (d * m + (h + c + y)) / B).
  { rewrite Ec, Ep. replace (B * h1 + p0 + (h + c + y)) with (h + c + p0 + y + h1 * B) by lia. rewrite Z.div_add by done. lia. }
  assert (Hlt : h1 + (muladdc h c y p0).2 < B).
  { rewrite Hsum. apply Z.div_lt_upper_bound; [done|]. nia. }
  destruct (IH lp (padd b 1) m (padd p 1) (muladdc h c y p0).2 h1 (wr p [(muladdc h c y p0).1] s))
    as (c' & h' & Er & Ehc & Hh' & Hc' & Hl'); try done.
  assert (Ev : val (y :: lp) + m * val (d :: lb) + h + c = (d * m + (h + c + y)) + B * (val lp + m * val lb)) by (cbn [val]; lia).
  exists c', h'. split; [|split_and!; [|done..]].
  - rewrite Er, !padd_padd, zlen_cons, Ev, digits_step, muladdc_digit.
    replace (val lp + m * val lb + h1 + (muladdc h c y p0).2) with ((d * m + (h + c + y)) / B + (val lp + m * val lb)) by lia.
    replace ((h + c + p0 + y) mod B) with ((d * m + (h + c + y)) mod B).
    2:{ rewrite Ep. replace (B * h1 + p0 + (h + c + y)) with (h + c + p0 + y + h1 * B) by lia. by rewrite Z.mod_add. }
    rewrite (wr_cons _ _ _ _ (1 + zlen lb)); [|exact Hr|by rewrite digits_zlen].
    by rewrite (Z.add_comm 1).
  - rewrite Ehc, Ev, zlen_cons, carry_step by done. f_equal. lia.
Qed.

(** [mpvecdigmuladd]: [n + 1] digits, the last of them stored, not added to. *)
Lemma mpvecdigmuladd_ok s b lb m p lp :
  dig lb -> dig lp -> 0 <= m < B -> length lp = length lb ->
  seg s b lb -> seg s p lp -> room s p (zlen lb + 1) -> fwd b (zlen lb) p ->
  mpvecdigmuladd b (zlen lb) m p s = (Ok tt, wr p (digits (S (length lb)) (val lp + m * val lb)) s).
Proof.
  intros Hb Hp Hm El Sb Sp Hr Fb. pose proof (zlen_nonneg lb).
  destruct (mpvecdigmuladd_loop_ok lb lp b m p 0 0 s) as (c & h & Er & Ehc & Hh & Hc & Hl); try done.
  unfold mpvecdigmuladd. replace (Z.to_nat (zlen lb)) with (length lb) by (unfold zlen; lia).
  rewrite (bind_ok _ _ _ _ _ Er). rewrite !Z.add_0_r in *.
  pose proof (room_split s p (zlen lb) 1 ltac:(lia) ltac:(lia) Hr) as [Hr1 Hr2].
  set (D := digits (length lb) (val lp + m * val lb)). assert (ZD : zlen D = zlen lb) by apply digits_zlen.
  rewrite sdig_ok by (by eapply room_wr). rewrite <- ZD at 1.
  rewrite wr_app by (rewrite zlen_app, ZD; done). do 2 f_equal.
  rewrite <- (Nat.add_1_r (length lb)), digits_app. fold D. f_equal. cbn [digits]. fold (zlen lb). f_equal.
  rewrite <- Ehc. by rewrite u32_mod, Z.add_comm.
Qed.

(** ** mpvecdigmulsub *)

Definition mulsubc (h c x p0 : Z) : Z * Z :=
  let y := u32 (x - c) in
  let c := if x <? y then 1 else 0 in
  let z := u32 (h + p0) in
  let c := if z <? p0 then c + 1 else c in
  let w := u32 (y - z) in
  (w, if y <? w then c + 1 else c).
Lemma mulsubc_digit h c x p0 : (mulsubc h c x p0).1 = (x - (h + c + p0)) mod B.
Proof. unfold mulsubc. cbn [fst]. rewrite !u32_mod, B_eq. dlia. Qed.
Lemma mulsubc_borrow h c x p0 :
  0 <= h < B -> 0 <= c < B -> 0 <= x < B -> 0 <= p0 < B -> - (mulsubc h c x p0).2 = (x - (h + c + p0)) / B.
Proof. intros. unfold mulsubc. cbn [snd]. carry_cases. Qed.

Lemma mpvecdigmulsub_loop_ok lb : forall lp b m p c h s,
  length lp = length lb -> dig lb -> dig lp -> 0 <= m < B -> 0 <= h -> 0 <= c -> h + c < B ->
  seg s b lb -> seg s p lp -> fwd b (zlen lb) p ->
  exists c' h', mpvecdigmulsub_loop (length lb) b m p c h s =
      (Ok (padd p (zlen lb), c', h'), wr p (digits (length lb) (val lp - (m * val lb + h + c))) s) /\
    - (h' + c') = (val lp - (m * val lb + h + c)) / B ^ zlen lb /\ 0 <= h' /\ 0 <= c' /\ h' + c' < B.
Proof.
  induction lb as [|d lb IH]; intros [|x lp] b m p c h s El Hb Hp Hm Hh Hc Hhc Sb Sp Fb; try done.
  { exists c, h. change (zlen (@nil Z)) with 0. rewrite !padd_0, wr_nil. cbn [val]. rewrite Z.div_1_r.
    split_and!; [done|lia..]. }
  injection El as El. apply dig_cons in Hb as [Hd Hb], Hp as [Hx Hp].
  cbn [length mpvecdigmulsub_loop].
  pose proof Sb as Sb0. pose proof Sp as Sp0. apply seg_cons in Sb0 as [Sd _], Sp0 as [Sx Sp'].
  rewrite (bind_ok _ _ _ _ _ (ldig_ok _ _ _ Sx)), (bind_ok _ _ _ _ _ (ldig_ok _ _ _ Sd)).
  rewrite mpdigmul_ok by done. set (p0 := (d * m) mod B). set (h1 := d * m / B).
  assert (Hp0 : 0 <= p0 < B) by (apply Z.mod_pos_bound; done).
  assert (Ep : d * m = B * h1 + p0) by (apply Z.div_mod; done).
  assert (Hh1 : 0 <= h1) by (apply Z.div_pos; nia).
  change (u32 (u32 (x - c) - u32 (h + p0))) with (mulsubc h c x p0).1.
  change (if u32 (x - c) <? (mulsubc h c x p0).1 then _ else _) with (mulsubc h c x p0).2.
  assert (Hr : room s p (1 + zlen lb)).
  { exists (x :: lp). split; [done|]. unfold zlen. cbn [length]. lia. }
  pose proof (zlen_nonneg lb).
  destruct (room_next s p (zlen lb) (mulsubc h c x p0).1) as [H1 H2]; [done..|].
  rewrite (bind_ok _ _ _ _ _ (sdig_ok _ _ _ H1)).
  destruct (seg_next s b d lb p (mulsubc h c x p0).1) as [Sb' Fb']; [done..|].
  assert (Sp1 : seg (wr p [(mulsubc h c x p0).1] s) (padd p 1) lp).
  { eapply seg_wr_other; [exact H1|done| |done]. right. right. cbn. lia. }
  pose proof (mulsubc_borrow h c x p0 ltac:(lia) ltac:(lia) Hx Hp0) as Ec.
  assert (Hc2 : 0 <= (mulsubc h c x p0).2).
  { assert ((x - (h + c + p0)) / B <= 0); [|lia]. apply Z.lt_succ_r. apply Z.div_lt_upper_bound; [done|lia]. }
  assert (Hsum : - (h1 + (mulsubc h c x p0).2) = (x - (d * m + (h + c))) / B).
  { rewrite Ep. replace (x - (B * h1 + p0 + (h + c))) with (x - (h + c + p0) + (- h1) * B) by lia. rewrite Z.div_add by done. lia. }
  assert (Hlt : h1 + (mulsubc h c x p0).2 < B).
  { assert (- B < (x - (d * m + (h + c))) / B); [|lia].
    apply (Z.lt_le_trans _ (- B + 1)); [lia|]. apply Z.div_le_lower_bound; [done|]. nia. }
  destruct (IH lp (padd b 1) m (padd p 1) (mulsubc h c x p0).2 h1 (wr p [(mulsubc h c x p0).1] s))
    as (c' & h' & Er & Ehc & Hh' & Hc' & Hl'); try done.
  assert (Ev : val (x :: lp) - (m * val (d :: lb) + h + c) = (x - (d * m + (h + c))) + B * (val lp - m * val lb)) by (cbn [val]; lia).
  exists c', h'. split; [|split_and!; [|done..]].
  - rewrite Er, !padd_padd, zlen_cons, Ev, digits_step, mulsubc_digit.
    replace (val lp - (m * val lb + h1 + (mulsubc h c x p0).2)) with ((x - (d * m + (h + c))) / B + (val lp - m * val lb)) by lia.
    replace ((x - (h + c + p0)) mod B) with ((x - (d * m + (h + c))) mod B).
    2:{ rewrite Ep. replace (x - (B * h1 + p0 + (h + c))) with (x - (h + c + p0) + (- h1) * B) by lia. by rewrite Z.mod_add. }
    rewrite (wr_cons _ _ _ _ (1 + zlen lb)); [|exact Hr|by rewrite digits_zlen].
    by rewrite (Z.add_comm 1).
  - rewrite Ehc, Ev, zlen_cons, carry_step by done. f_equal. lia.
Qed.

Lemma val_snoc l x : val (l ++ [x]) = val l + B ^ zlen l * x.
Proof. rewrite val_app. cbn [val]. lia. Qed.

(** [mpvecdigmulsub]: the difference modulo its length, and whether it is negative. *)
Lemma mpvecdigmulsub_ok s b lb m p lp :
  dig lb -> dig lp -> 0 <= m < B -> length lp = S (length lb) ->
  seg s b lb -> seg s p lp -> fwd b (zlen lb) p ->
  mpvecdigmulsub b (zlen lb) m p s =
    (Ok (if val lp <? m * val lb then -1 else 1), wr p (digits (length lp) (val lp - m * val lb)) s).
Proof.
  intros Hb Hp Hm El Sb Sp Fb. pose proof (zlen_nonneg lb).
  destruct (exists_last (l := lp)) as (l & x & ->); [by intros ->|].
  rewrite length_app in El. cbn [length] in El. apply dig_app in Hp as [Hp Hx]. apply dig_cons in Hx as [Hx _].
  assert (Zl : zlen l = zlen lb) by (unfold zlen; lia).
  apply seg_app in Sp as [Sp Sx].
  destruct (mpvecdigmulsub_loop_ok lb l b m p 0 0 s) as (c & h & Er & Ehc & Hh & Hc & Hl); try (done || lia).
  unfold mpvecdigmulsub. replace (Z.to_nat (zlen lb)) with (length lb) by (unfold zlen; lia).
  rewrite (bind_ok _ _ _ _ _ Er). rewrite !Z.add_0_r in *.
  set (D := digits (length lb) (val l - m * val lb)) in *. assert (ZD : zlen D = zlen lb) by apply digits_zlen.
  pose proof (seg_room _ _ _ Sp) as Hr1. rewrite Zl in Hr1. pose proof (seg_room _ _ _ Sx) as Hr2. rewrite Zl in Sx, Hr2.
  assert (Sx' : seg (wr p D s) (padd p (zlen lb)) [x]).
  { eapply seg_wr_other; [exact Hr1|done| |done]. right. right. cbn. lia. }
  rewrite (bind_ok _ _ _ _ _ (ldig_ok _ _ _ Sx')).
  assert (Hr3 : room (wr p D s) (padd p (zlen lb)) 1) by (by eapply room_wr).
  rewrite (bind_ok _ _ _ _ _ (sdig_ok _ _ _ Hr3)). rewrite val_snoc, Zl.
  pose proof (Z.pow_pos_nonneg B (zlen lb) B_pos ltac:(lia)) as HB.
  unfold mret, M_ret. f_equal.
  - f_equal.
    assert (E : (val l + B ^ zlen lb * x <? m * val lb) = (x <? h + c)).
    { replace (val l - m * val lb) with (val l - m * val lb) in Ehc by done.
      pose proof (Z.div_mod (val l - m * val lb) (B ^ zlen lb) ltac:(lia)).
      pose proof (Z.mod_pos_bound (val l - m * val lb) (B ^ zlen lb) HB). rewrite <- Ehc in *.
      destruct (Z.ltb_spec x (h + c)); [apply Z.ltb_lt|apply Z.ltb_ge]; nia. }
    rewrite E. clear - Hh Hc Hl Hx. carry_cases.
  - rewrite <- ZD at 1. rewrite wr_app.
    2:{ rewrite zlen_app, ZD. exists (l ++ [x]). split; [apply seg_app; split; [done|by rewrite Zl]|]. rewrite zlen_app. by rewrite Zl. }
    f_equal. rewrite length_app. cbn [length]. rewrite digits_app.
    assert (EL : length l = length lb) by lia. rewrite EL. fold (zlen lb).
    replace (val l + B ^ zlen lb * x - m * val lb) with ((val l - m * val lb) + x * B ^ zlen lb) by lia.
    rewrite Z.div_add by lia. f_equal.
    + unfold D. apply digits_ext. fold (zlen lb). by rewrite Z.mod_add by lia.
    + cbn [digits]. rewrite <- Ehc. rewrite u32_mod. do 2 f_equal. lia.
Qed.

(** ** mpveccmp *)

(** The sign of [v - w]. *)
Definition zcmp (v w : Z) : Z := if v <? w then -1 else if v =? w then 0 else 1.

Lemma val_0_nonneg l : dig l -> val l = 0 \/ 0 < val l.
Proof. intros H. pose proof (val_bound _ H). lia. Qed.

Lemma high_nonzero_ok h : forall l a s, dig h -> seg s a (l ++ h) ->
  high_nonzero (length h) a (zlen (l ++ h)) s = (Ok (negb (val h =? 0)), s).
Proof.
  induction h as [|x h IH] using rev_ind; intros l a s Hh Sa; [done|].
  apply dig_app in Hh as [Hh Hx]. apply dig_cons in Hx as [Hx _].
  rewrite length_app. cbn [length]. rewrite Nat.add_1_r. cbn [high_nonzero].
  rewrite app_assoc in *. pose proof Sa as Sa0. apply seg_app in Sa0 as [Sa1 Sx].
  assert (Zl : zlen ((l ++ h) ++ [x]) - 1 = zlen (l ++ h)) by (rewrite (zlen_app _ [x]); change (zlen [x]) with 1; lia).
  rewrite Zl. rewrite (bind_ok _ _ _ _ _ (ldig_ok _ _ _ Sx)). rewrite val_snoc.
  pose proof (Z.pow_pos_nonneg B (zlen h) B_pos (zlen_nonneg h)). pose proof (val_bound _ Hh).
  destruct (Z.eqb_spec x 0) as [->|Hn]; cbn [negb].
  - rewrite IH by done. by rewrite Z.mul_0_r, Z.add_0_r.
  - destruct (Z.eqb_spec (val h + B ^ zlen h * x) 0); [nia|done].
Qed.

Lemma mpveccmp_loop_ok la : forall lb a b s, length la = length lb -> dig la -> dig lb ->
  seg s a la -> seg s b lb -> mpveccmp_loop (length la) a b s = (Ok (zcmp (val la) (val lb)), s).
Proof.
  induction la as [|x la IH] using rev_ind; intros lb a b s El Ha Hb Sa Sb; [by destruct lb|].
  destruct (exists_last (l := lb)) as (lb' & y & ->); [intros ->; rewrite length_app in El; cbn in El; lia|].
  rewrite !length_app in El. cbn [length] in El. assert (El' : length la = length lb') by lia.
  apply dig_app in Ha as [Ha Hx], Hb as [Hb Hy]. apply dig_cons in Hx as [Hx _], Hy as [Hy _].
  apply seg_app in Sa as [Sa Sx], Sb as [Sb Sy].
  rewrite length_app. cbn [length]. rewrite Nat.add_1_r. cbn [mpveccmp_loop].
  fold (zlen la). replace (zlen lb') with (zlen la) in Sy by (unfold zlen; lia).
  rewrite (bind_ok _ _ _ _ _ (ldig_ok _ _ _ Sx)), (bind_ok _ _ _ _ _ (ldig_ok _ _ _ Sy)).
  rewrite !val_snoc. replace (zlen lb') with (zlen la) by (unfold zlen; lia).
  pose proof (Z.pow_pos_nonneg B (zlen la) B_pos (zlen_nonneg la)) as HB.
  pose proof (val_bound _ Ha) as Va. pose proof (val_bound _ Hb) as Vb.
  replace (zlen lb') with (zlen la) in Vb by (unfold zlen; lia).
  destruct (Z.eqb_spec (u32 (x - y)) 0) as [E|E].
  - assert (x = y) as -> by (wraps; rewrite B_eq in *; dlia). rewrite (IH lb') by done.
    unfold zcmp. do 2 f_equal.
    destruct (Z.ltb_spec (val la) (val lb')), (Z.ltb_spec (val la + B ^ zlen la * y) (val lb' + B ^ zlen la * y)); try lia; try done.
    destruct (Z.eqb_spec (val la) (val lb')), (Z.eqb_spec (val la + B ^ zlen la * y) (val lb' + B ^ zlen la * y)); lia.
  - unfold zcmp, mret, M_ret. do 2 f_equal.
    assert (Hxy : x <> y) by (intros ->; rewrite Z.sub_diag in E; done).
    assert (Hlt : (x <? u32 (x - y)) = (x <? y)) by (clear - Hx Hy Hxy; wraps; rewrite B_eq in *;
      destruct (Z.ltb_spec x y); [apply Z.ltb_lt|apply Z.ltb_ge]; dlia).
    rewrite Hlt. destruct (Z.ltb_spec x y).
    + destruct (Z.ltb_spec (val la + B ^ zlen la * x) (val lb' + B ^ zlen la * y)); [done|nia].
    + destruct (Z.ltb_spec (val la + B ^ zlen la * x) (val lb' + B ^ zlen la * y)); [nia|].
      destruct (Z.eqb_spec (val la + B ^ zlen la * x) (val lb' + B ^ zlen la * y)); [nia|done].
Qed.

Lemma zcmp_high l h w : dig l -> dig h -> 0 <= w < B ^ zlen l -> val h <> 0 -> zcmp (val (l ++ h)) w = 1.
Proof.
  intros Hl Hh Hw Hn. rewrite val_app. pose proof (val_bound _ Hl). pose proof (val_bound _ Hh). unfold zcmp.
  destruct (Z.ltb_spec (val l + B ^ zlen l * val h) w); [nia|].
  destruct (Z.eqb_spec (val l + B ^ zlen l * val h) w); [nia|done].
Qed.
Lemma zcmp_sym v w : zcmp w v = - zcmp v w.
Proof.
  unfold zcmp. destruct (Z.ltb_spec v w), (Z.ltb_spec w v), (Z.eqb_spec v w), (Z.eqb_spec w v); try lia.
Qed.
Lemma val_high_zero l h : val h = 0 -> val (l ++ h) = val l.
Proof. intros H. rewrite val_app, H. lia. Qed.

(** A vector cut at the length of the other. *)
Lemma split_at (l : list Z) n : 0 <= n <= zlen l -> exists l1 l2, l = l1 ++ l2 /\ zlen l1 = n /\ zlen l2 = zlen l - n.
Proof.
  intros Hn. exists (take (Z.to_nat n) l), (drop (Z.to_nat n) l). rewrite take_drop. unfold zlen in *.
  rewrite length_take, length_drop. split_and!; [done|lia..].
Qed.

(** [mpveccmp]: the sign of the difference, whatever the lengths. *)
Lemma mpveccmp_ok s a la b lb :
  dig la -> dig lb -> seg s a la -> seg s b lb ->
  mpveccmp a (zlen la) b (zlen lb) s = (Ok (zcmp (val la) (val lb)), s).
Proof.
  intros Ha Hb Sa Sb. pose proof (zlen_nonneg la). pose proof (zlen_nonneg lb). unfold mpveccmp.
  destruct (Z.le_ge_cases (zlen lb) (zlen la)) as [Hl|Hl].
  - destruct (split_at la (zlen lb)) as (l1 & l2 & -> & Z1 & Z2); [lia|].
    apply dig_app in Ha as [D1 D2].
    replace (Z.to_nat (zlen (l1 ++ l2) - zlen lb)) with (length l2) by (unfold zlen in *; lia).
    rewrite (bind_ok _ _ _ _ _ (high_nonzero_ok l2 l1 a s D2 Sa)).
    destruct (Z.eqb_spec (val l2) 0) as [E|E]; cbn [negb].
    2:{ rewrite zcmp_high; try done. rewrite Z1. by apply val_bound. }
    replace (Z.to_nat (zlen lb - zlen (l1 ++ l2))) with 0%nat by lia. cbn [high_nonzero]. rewrite bind_mret.
    replace (Z.to_nat _) with (length l1) by (unfold zlen in *; lia).
    apply seg_app in Sa as [Sa _]. rewrite (mpveccmp_loop_ok l1 lb) by (done || (unfold zlen in *; lia)).
    by rewrite val_high_zero.
  - destruct (split_at lb (zlen la)) as (l1 & l2 & -> & Z1 & Z2); [lia|].
    apply dig_app in Hb as [D1 D2].
    replace (Z.to_nat (zlen la - zlen (l1 ++ l2))) with 0%nat by lia. cbn [high_nonzero]. rewrite bind_mret.
    replace (Z.to_nat (zlen (l1 ++ l2) - zlen la)) with (length l2) by (unfold zlen in *; lia).
    rewrite (bind_ok _ _ _ _ _ (high_nonzero_ok l2 l1 b s D2 Sb)).
    destruct (Z.eqb_spec (val l2) 0) as [E|E]; cbn [negb].
    2:{ rewrite zcmp_sym, zcmp_high; try done. rewrite Z1. by apply val_bound. }
    replace (Z.to_nat _) with (length la) by (unfold zlen in *; lia).
    apply seg_app in Sb as [Sb _]. rewrite (mpveccmp_loop_ok la l1) by (done || (unfold zlen in *; lia)).
    by rewrite (val_high_zero l1).
Qed.
