(* ===== verification/MpMul.v ===== *)
(** * Multiple precision arithmetic: products of digit vectors

    The quadratic loop and [mpkaratsuba] both store the digits of the product:
    [mpvecmul] computes the product of its operands for all lengths, with its
    scratch arrays freed. *)
From S2P Require Import Prelude CMonad Mp MpVal MpVec.

(** ** The store with [k] more objects, all freed *)

Definition grow (k : nat) (s : MpStore) : MpStore := set_objs (objs s ++ replicate k None) s.

Lemma grow_0 s : grow 0 s = s.
Proof. unfold grow, set_objs. destruct s. cbn. by rewrite app_nil_r. Qed.
Lemma grow_grow k j s : grow k (grow j s) = grow (j + k) s.
Proof. unfold grow, set_objs. cbn. rewrite <- app_assoc. by rewrite replicate_add. Qed.
Lemma mpobj_grow k b s o : mpobj b s = Some o -> mpobj b (grow k s) = Some o.
Proof.
  intros E. pose proof (mpobj_lt _ _ _ E). unfold mpobj, grow, set_objs in *. cbn. by rewrite lookup_app_l.
Qed.
Lemma mp_put_grow k b o s : (b < length (objs s))%nat -> mp_put b o (grow k s) = grow k (mp_put b o s).
Proof. intros H. unfold mp_put, grow, set_objs. cbn. f_equal. by apply insert_app_l. Qed.
Lemma wr_grow k q l s : (exists o, mpobj q.1 s = Some o) -> wr q l (grow k s) = grow k (wr q l s).
Proof.
  intros (o & E). unfold wr. rewrite (mpobj_grow k _ _ _ E), E. apply mp_put_grow. by eapply mpobj_lt.
Qed.
Lemma seg_grow k s q l : seg s q l -> seg (grow k s) q l.
Proof. intros (o & E & H). exists o. split; [by apply mpobj_grow|done]. Qed.
Lemma room_grow k s q n : room s q n -> room (grow k s) q n.
Proof. intros (l & H & E). exists l. split; [by apply seg_grow|done]. Qed.
Lemma seg_obj s q l : seg s q l -> exists o, mpobj q.1 s = Some o.
Proof. intros (o & E & _). eauto. Qed.
Lemma room_obj s q n : room s q n -> exists o, mpobj q.1 s = Some o.
Proof. intros (l & H & _). by eapply seg_obj. Qed.

(** ** Storing over part of what was stored *)

Lemma set_p_set_p a b o : mp_set_p a (mp_set_p b o) = mp_set_p a o.
Proof. done. Qed.
(** Storing what is there changes nothing. *)
Lemma wr_self s q l : seg s q l -> wr q l s = s.
Proof.
  intros (o & Eo & Ho). unfold wr. rewrite Eo.
  assert (E : blit q.2 l (mp_p o) = mp_p o); [|rewrite E, set_p_id; by rewrite mp_put_id].
  pose proof (pts_pos _ _ _ Ho). pose proof (pts_bound _ _ _ Ho). destruct Ho as (_ & _ & Hi).
  apply list_eq. intros i. rewrite lookup_blit by done. repeat case_decide; try done.
  rewrite <- Hi by (unfold zlen in *; lia). f_equal. lia.
Qed.

Lemma blit_over q i l r (p : list Z) : 0 <= q -> 0 <= i -> i + zlen r <= zlen l -> q + zlen l <= zlen p ->
  blit q l (blit (q + i) r p) = blit q l p.
Proof.
  intros. pose proof (zlen_nonneg r). apply list_eq. intros j. rewrite !lookup_blit; rewrite ?zlen_blit; try lia.
  repeat case_decide; try lia; done.
Qed.
Lemma wr_over s q i l r : 0 <= i -> i + zlen r <= zlen l -> room s q (zlen l) ->
  wr q l (wr (padd q i) r s) = wr q l s.
Proof.
  intros Hi Hr H. destruct (room_wr_blit _ _ _ l H) as (x & Ex & H0 & Hb); [done|].
  unfold wr at 2 3. cbn [padd fst snd]. rewrite Ex. unfold wr. erewrite mpobj_put_eq by done. rewrite mp_put_put. cbn.
  by rewrite blit_over.
Qed.
Lemma wr_part s q l y x r : room s q (zlen (l ++ y ++ r)) -> zlen x = zlen y ->
  wr (padd q (zlen l)) x (wr q (l ++ y ++ r) s) = wr q (l ++ x ++ r) s.
Proof.
  intros H E. assert (H' : room s q (zlen (l ++ x ++ r))) by (rewrite !zlen_app in *; by rewrite E).
  destruct (room_wr_blit _ _ _ (l ++ y ++ r) H) as (o & Eo & H0 & Hb); [done|].
  unfold wr at 2 3. rewrite Eo. unfold wr. cbn [padd fst snd]. erewrite mpobj_put_eq by done. rewrite mp_put_put. cbn.
  rewrite set_p_set_p. do 3 f_equal. pose proof (zlen_nonneg l). pose proof (zlen_nonneg x). pose proof (zlen_nonneg r).
  rewrite !zlen_app in Hb. apply list_eq. intros j.
  rewrite !lookup_blit; rewrite ?zlen_blit; rewrite ?zlen_app; try lia. unfold zlen in *.
  repeat case_decide; try lia; try done.
  - by rewrite !lookup_app_l by lia.
  - rewrite (lookup_app_r l), lookup_app_l by lia. f_equal. lia.
  - rewrite !(lookup_app_r l) by lia. rewrite !lookup_app_r by lia. f_equal. lia.
Qed.
Lemma room_eq s q n m : room s q n -> n = m -> room s q m.
Proof. by intros ? <-. Qed.
Lemma wr_wr s q l r : room s q (zlen l) -> zlen r = zlen l -> wr q l (wr q r s) = wr q l s.
Proof. intros H E. rewrite <- (padd_0 q) at 2. apply wr_over; [lia|lia|done]. Qed.

(** ** Digits of sums *)

Lemma digits_add_high i n v w : digits (i + n) (v + B ^ Z.of_nat i * w) = digits i v ++ digits n (v / B ^ Z.of_nat i + w).
Proof.
  pose proof (Bn_pos i). rewrite digits_app. rewrite (Z.mul_comm (B ^ _)), Z.div_add by lia. f_equal.
  apply digits_ext. by rewrite Z.mod_add by lia.
Qed.
Lemma digits_high_zero n k v : 0 <= v < B ^ Z.of_nat n -> digits (n + k) v = digits n v ++ replicate k 0.
Proof. intros H. rewrite digits_app, Z.div_small by done. by rewrite digits_0. Qed.

Lemma val_mul_bound la lb : dig la -> dig lb -> 0 <= val la * val lb < B ^ (zlen la + zlen lb).
Proof.
  intros Ha Hb. pose proof (val_bound _ Ha). pose proof (val_bound _ Hb).
  rewrite Z.pow_add_r by apply zlen_nonneg. nia.
Qed.

(** ** The quadratic loop *)

Lemma div_pow_bound v i n : 0 <= i -> 0 <= n -> 0 <= v < B ^ (n + i) -> 0 <= v / B ^ i < B ^ n.
Proof.
  intros Hi Hn H. rewrite Z.pow_add_r in H by lia.
  pose proof (Z.pow_pos_nonneg B i B_pos ltac:(lia)). split; [apply Z.div_pos; lia|]. apply Z.div_lt_upper_bound; lia.
Qed.

(** One round: [p[i:i+n]], zero at the top, becomes itself plus [d] times [a]. *)
Lemma mpvecmul_step skip a la d p v s :
  dig la -> 0 <= d < B -> seg s a la -> 0 <= v < B ^ zlen la ->
  seg s p (digits (length la) v ++ [0]) -> apart a (zlen la) p (zlen la + 1) ->
  (if skip && (d =? 0) then mret tt else mpvecdigmuladd a (zlen la) d p) s =
    (Ok tt, wr p (digits (S (length la)) (v + d * val la)) s).
Proof.
  intros Ha Hd Sa Hv Sp Aa. pose proof (zlen_nonneg la). destruct (skip && (d =? 0)) eqn:Esk.
  - apply andb_true_iff in Esk as [_ Ez%Z.eqb_eq]. subst d. unfold mret, M_ret. f_equal. symmetry. apply wr_self.
    rewrite Z.mul_0_l, Z.add_0_r, <- (Nat.add_1_r (length la)). by rewrite (digits_high_zero _ 1).
  - pose proof (seg_room _ _ _ Sp) as Hr. rewrite zlen_app, digits_zlen in Hr. apply seg_app in Sp as [Sp _].
    rewrite (mpvecdigmuladd_ok s a la d p (digits (length la) v)); try done;
      [|apply digits_dig|by rewrite digits_length|unfold apart, fwd in *; lia].
    by rewrite val_digits, Z.mod_small.
Qed.

Lemma mpvecmul_loop_ok skip a la b p l2 : forall s l1,
  dig la -> dig l1 -> dig l2 -> seg s a la -> seg s (padd b (zlen l1)) l2 ->
  seg s p (digits (length la + length l1) (val la * val l1) ++ replicate (length l2) 0) ->
  apart a (zlen la) p (zlen la + zlen (l1 ++ l2)) -> apart (padd b (zlen l1)) (zlen l2) p (zlen la + zlen (l1 ++ l2)) ->
  mpvecmul_loop (length l2) (zlen l1) skip a (zlen la) b p s =
    (Ok tt, wr p (digits (length la + length (l1 ++ l2)) (val la * val (l1 ++ l2))) s).
Proof.
  induction l2 as [|d l2 IH]; intros s l1 Ha H1 H2 Sa Sb Sp Aa Ab.
  { cbn [length replicate mpvecmul_loop] in *. rewrite !app_nil_r in *. unfold mret, M_ret. by rewrite wr_self. }
  apply dig_cons in H2 as [Hd H2]. cbn [length mpvecmul_loop].
  pose proof Sb as Sb0. apply seg_cons in Sb0 as [Sd Sb'].
  rewrite (bind_ok _ _ _ _ _ (ldig_ok _ _ _ Sd)).
  pose proof (zlen_nonneg la). pose proof (zlen_nonneg l1). pose proof (zlen_nonneg l2).
  assert (El : l1 ++ d :: l2 = (l1 ++ [d]) ++ l2) by (by rewrite <- app_assoc).
  assert (Zl : zlen (l1 ++ [d]) = zlen l1 + 1) by (rewrite zlen_app; done).
  set (V := val la * val l1) in *.
  assert (HV : 0 <= V < B ^ (zlen la + zlen l1)) by (by apply val_mul_bound).
  assert (Ed : digits (length la + length l1) V ++ replicate (S (length l2)) 0 =
    digits (length l1) V ++ (digits (length la) (V / B ^ zlen l1) ++ [0]) ++ replicate (length l2) 0).
  { rewrite (Nat.add_comm (length la)), digits_app. rewrite <- !app_assoc. done. }
  cbn [length] in Sp. rewrite Ed in Sp. pose proof Sp as Sp0.
  apply seg_app in Sp0 as [_ Sp0]. rewrite digits_zlen in Sp0. apply seg_app in Sp0 as [Sp0 _].
  set (X := digits (S (length la)) (V / B ^ zlen l1 + d * val la)).
  assert (ZX : zlen X = zlen la + 1) by (unfold X; rewrite digits_zlen; unfold zlen; lia).
  rewrite zlen_app, zlen_cons in Aa, Ab.
  assert (HV1 : 0 <= V / B ^ zlen l1 < B ^ zlen la) by (apply div_pow_bound; (done || lia)).
  assert (Aa1 : apart a (zlen la) (padd p (zlen l1)) (zlen la + 1)) by (clear - Aa H H0 H3; unfold apart, padd in *; cbn; lia).
  rewrite (bind_ok _ _ _ _ _ (mpvecmul_step skip a la d (padd p (zlen l1)) (V / B ^ zlen l1) s Ha Hd Sa HV1 Sp0 Aa1)). fold X.
  assert (Enew : digits (length l1) V ++ X = digits (length la + length (l1 ++ [d])) (val la * val (l1 ++ [d]))).
  { rewrite length_app. cbn [length]. replace (length la + (length l1 + 1))%nat with (length l1 + S (length la))%nat by lia.
    rewrite val_snoc. replace (val la * (val l1 + B ^ zlen l1 * d)) with (V + B ^ Z.of_nat (length l1) * (d * val la))
      by (unfold V, zlen; lia). by rewrite digits_add_high. }
  pose proof (seg_room _ _ _ Sp) as Hr. rewrite !zlen_app, !digits_zlen in Hr. change (zlen [0]) with 1 in Hr.
  assert (Hr2 : room s (padd p (zlen l1)) (zlen la + 1)).
  { pose proof (seg_room _ _ _ Sp0) as R. by rewrite zlen_app, digits_zlen in R. }
  rewrite <- Zl. rewrite IH; try done.
  - rewrite <- El. f_equal. apply wr_over; [lia| |].
    + rewrite digits_zlen, ZX, length_app. cbn [length]. unfold zlen. lia.
    + rewrite digits_zlen. eapply (room_eq _ _ _ _ Hr). rewrite !length_app. unfold zlen. rewrite length_replicate. cbn [length]. lia.
  - apply dig_app. split; [done|]. apply Forall_cons_2; [done|by apply Forall_nil_2].
  - apply (seg_wr_other _ _ _ _ _ _ Hr2); [done| |done]. clear - Aa H H0 H3. unfold apart, padd in *. cbn. lia.
  - rewrite Zl, <- padd_padd. apply (seg_wr_other _ _ _ _ _ _ Hr2); [done| |done].
    clear - Ab H H0 H3. unfold apart, padd in *. cbn in *. lia.
  - rewrite <- Enew, <- app_assoc.
    pose proof (seg_wr_same s (padd p (zlen l1)) X _ Hr2 ZX) as SX.
    apply seg_app in Sp as [Sp1 Sp2]. rewrite digits_zlen in Sp2. apply seg_app in Sp2 as [_ Sp3].
    apply seg_app. split; [|apply seg_app; split].
    + apply (seg_wr_other _ _ _ _ _ _ Hr2); [done| |done]. rewrite digits_zlen. right. left. unfold padd, zlen. cbn. lia.
    + by rewrite digits_zlen.
    + apply (seg_wr_other _ _ _ _ _ _ Hr2); [done| |].
      * right. right. rewrite digits_zlen, ZX. unfold padd, zlen. cbn. lia.
      * rewrite digits_zlen, ZX. rewrite zlen_app, digits_zlen in Sp3. exact Sp3.
  - rewrite zlen_app, Zl. clear - Aa. unfold apart in *. lia.
  - rewrite !zlen_app, <- padd_padd; change (zlen [d]) with 1. clear - Ab H0. unfold apart, padd in *. cbn in *. lia.
Qed.

(** ** Scratch space that starts as zeros *)

(** Storing a vector is storing it with what follows it. *)
Lemma wr_extend s q l r : seg s (padd q (zlen l)) r -> room s q (zlen (l ++ r)) -> wr q l s = wr q (l ++ r) s.
Proof.
  intros Hr H. rewrite <- wr_app by done. symmetry. apply wr_self.
  rewrite zlen_app in H. apply room_split in H as [H _]; [|apply zlen_nonneg..].
  apply (seg_wr_other _ _ _ _ _ _ H); [done| |done]. right. right. cbn. lia.
Qed.
(** Digits stored over zeros, padded to the length of the zeros. *)
Lemma wr_digits_zeros s q n m v : (n <= m)%nat -> seg s q (replicate m 0) -> 0 <= v < B ^ Z.of_nat n ->
  wr q (digits n v) s = wr q (digits m v) s.
Proof.
  intros Hn Sq Hv. replace m with (n + (m - n))%nat by lia. rewrite digits_high_zero by done.
  replace m with (n + (m - n))%nat in Sq by lia. rewrite replicate_add in Sq.
  pose proof (seg_room _ _ _ Sq) as Hr. apply seg_app in Sq as [_ Sq].
  replace (zlen (replicate n 0)) with (zlen (digits n v)) in Sq by (rewrite digits_zlen; unfold zlen; by rewrite length_replicate).
  apply wr_extend; [done|]. eapply room_eq; [exact Hr|]. rewrite !zlen_app, digits_zlen. unfold zlen. by rewrite length_replicate.
Qed.

(** The two subtractions of [mpkaratsuba]: a vector [x] and one [y] no longer. *)
Section absdiff.
Context (s : MpStore) (px py dst : Ptr) (x y : list Z) (m : nat).
Context (Hx : dig x) (Hy : dig y) (Hl : zlen y <= zlen x) (Sx : seg s px x) (Sy : seg s py y).
Context (Hm : (length x <= m)%nat) (Sd : seg s dst (replicate m 0)).
Context (Ax : fwd px (zlen x) dst) (Ay : fwd py (zlen y) dst).

Lemma room_zeros k : (k <= m)%nat -> room s dst (Z.of_nat k).
Proof using Sd.
  clear - Sd. intros Hk. pose proof (seg_room _ _ _ Sd) as H. unfold zlen in H. rewrite length_replicate in H.
  replace (Z.of_nat m) with (Z.of_nat k + Z.of_nat (m - k)) in H by lia. by apply room_split in H as [H _]; [|lia..].
Qed.

Lemma sub_long : val y <= val x ->
  mpvecsub px (zlen x) py (zlen y) dst s = (Ok tt, wr dst (digits m (val x - val y)) s).
Proof using All.
  intros Hv. rewrite mpvecsub_ok by (try done; by apply (room_zeros (length x))).
  pose proof (val_bound _ Hx). pose proof (val_bound _ Hy).
  f_equal. apply wr_digits_zeros; [done|done|]. fold (zlen x). lia.
Qed.
Lemma sub_short : val x <= val y ->
  mpvecsub py (zlen y) px (zlen y) dst s = (Ok tt, wr dst (digits m (val y - val x)) s).
Proof using All.
  intros Hv. pose proof (zlen_nonneg y).
  destruct (split_at x (zlen y)) as (x1 & x2 & Ex & Z1 & Z2); [lia|].
  pose proof (val_bound _ Hx). pose proof (val_bound _ Hy).
  assert (D : dig x1 /\ dig x2) by (apply dig_app; by rewrite <- Ex). destruct D as [D1 D2].
  assert (E2 : val x1 = val x).
  { rewrite Ex, val_app in *. pose proof (val_bound _ D1). pose proof (val_bound _ D2). rewrite Z1 in *.
    pose proof (Z.pow_pos_nonneg B (zlen y) B_pos ltac:(lia)). assert (val x2 = 0) by nia. lia. }
  assert (S1 : seg s px x1) by (rewrite Ex in Sx; by apply seg_app in Sx as [? _]).
  assert (Ly : (length y <= m)%nat) by (unfold zlen in *; lia).
  rewrite <- E2. rewrite <- Z1 at 2. rewrite mpvecsub_ok; try done; [|lia|by apply (room_zeros (length y))|].
  - f_equal. apply wr_digits_zeros; [done|done|]. fold (zlen y). rewrite E2. lia.
  - rewrite Z1. revert Ax Hl. unfold fwd. lia.
Qed.
End absdiff.

(** ** mpvecmul *)

(** What the multiplication called by [mpkaratsuba] is to do for operands
    shorter than [bound]: the product, and scratch objects that it frees. *)
Definition multiplies (mul : Ptr -> Z -> Ptr -> Z -> Ptr -> M MpStore ()) (bound : Z) : Prop :=
  forall s a la b lb p,
    dig la -> dig lb -> zlen la < bound -> zlen lb < bound -> seg s a la -> seg s b lb ->
    seg s p (replicate (length la + length lb) 0) ->
    apart a (zlen la) p (zlen la + zlen lb) -> apart b (zlen lb) p (zlen la + zlen lb) ->
    exists k, mul a (zlen la) b (zlen lb) p s =
      (Ok tt, grow k (wr p (digits (length la + length lb) (val la * val lb)) s)).

(** The scratch array [t], its contents [T], over the store [s0]. *)
Section scratch.
Context (t : Ptr) (s0 : MpStore).

Lemma scratch_seg L X R : room s0 t (zlen (L ++ X ++ R)) -> seg (wr t (L ++ X ++ R) s0) (padd t (zlen L)) X.
Proof.
  intros H. pose proof (seg_wr_same s0 t _ _ H eq_refl) as S. apply seg_app in S as [_ S].
  by apply seg_app in S as [S _].
Qed.
Lemma scratch_other T a l : room s0 t (zlen T) -> a.1 <> t.1 -> seg s0 a l -> seg (wr t T s0) a l.
Proof. intros H Ha. apply (seg_wr_other _ _ _ _ _ _ H); [done|by left]. Qed.
End scratch.

Lemma mallocz_ok n s : 0 <= n ->
  mallocz n s = (Ok (length (objs s), 0), set_objs (objs s ++ [Some (mkMpint 1 n 0 (replicate (Z.to_nat n) 0) 0)]) s).
Proof. done. Qed.

Lemma obj_alloc x s : mpobj (length (objs s)) (set_objs (objs s ++ [Some x]) s) = Some x.
Proof. unfold mpobj, set_objs. cbn. rewrite lookup_app_r, Nat.sub_diag by lia. done. Qed.
Lemma obj_old x s b o : mpobj b s = Some o -> mpobj b (set_objs (objs s ++ [Some x]) s) = Some o.
Proof. intros E. pose proof (mpobj_lt _ _ _ E). unfold mpobj, set_objs in *. cbn. by rewrite lookup_app_l. Qed.
Lemma seg_alloc x s a l : seg s a l -> seg (set_objs (objs s ++ [Some x]) s) a l.
Proof. intros (o & E & H). exists o. split; [by apply obj_old|done]. Qed.

Lemma digits_split m i v : (i <= m)%nat -> digits m v = digits i v ++ digits (m - i) (v / B ^ Z.of_nat i).
Proof. intros H. rewrite <- digits_app. f_equal. lia. Qed.

(** ** The steps of mpkaratsuba on its scratch array *)
Section parts.
Context (t : Ptr) (σ : MpStore) (L R : list Z) (m : nat).

Lemma zlen_zeros k : zlen (replicate k 0) = Z.of_nat k.
Proof. unfold zlen. by rewrite length_replicate. Qed.

(** A product stored in a part that holds zeros. *)
Lemma part_mul mul bound px x py y :
  multiplies mul bound -> room σ t (zlen (L ++ replicate m 0 ++ R)) ->
  dig x -> dig y -> zlen x < bound -> zlen y < bound -> (length x + length y <= m)%nat ->
  seg (wr t (L ++ replicate m 0 ++ R) σ) px x -> seg (wr t (L ++ replicate m 0 ++ R) σ) py y ->
  apart px (zlen x) (padd t (zlen L)) (Z.of_nat m) -> apart py (zlen y) (padd t (zlen L)) (Z.of_nat m) ->
  exists k, mul px (zlen x) py (zlen y) (padd t (zlen L)) (wr t (L ++ replicate m 0 ++ R) σ) =
    (Ok tt, wr t (L ++ digits m (val x * val y) ++ R) (grow k σ)).
Proof.
  intros Hmul Hr Hx Hy Bx By Hm Sx Sy Ax Ay.
  pose proof (scratch_seg t σ L (replicate m 0) R Hr) as Sz.
  assert (Sz' : seg (wr t (L ++ replicate m 0 ++ R) σ) (padd t (zlen L)) (replicate (length x + length y) 0)).
  { replace m with ((length x + length y) + (m - (length x + length y)))%nat in Sz at 2 by lia.
    rewrite replicate_add in Sz. by apply seg_app in Sz as [Sz _]. }
  destruct (Hmul _ px x py y (padd t (zlen L)) Hx Hy Bx By Sx Sy Sz') as [k Ek];
    [unfold apart, zlen in *; lia..|].
  exists k. rewrite Ek. f_equal.
  rewrite (wr_digits_zeros _ _ _ m); [|lia|exact Sz|rewrite Nat2Z.inj_add; by apply val_mul_bound].
  rewrite wr_part by (done || by rewrite digits_zlen, zlen_zeros).
  rewrite wr_grow; [done|]. by eapply room_obj.
Qed.
End parts.

Section result.
Context (t : Ptr) (σ : MpStore) (L : list Z) (m : nat).
Local Notation st r := (wr t (L ++ digits m r) σ).
Context (Hr : room σ t (zlen (L ++ digits m 0))).

Lemma res_room r : room σ t (zlen (L ++ digits m r)).
Proof using Hr. rewrite zlen_app, digits_zlen in *. exact Hr. Qed.


Lemma res_seg r i j : (i + j <= m)%nat -> seg (st r) (padd t (zlen L + Z.of_nat i)) (digits j (r / B ^ Z.of_nat i)).
Proof using Hr.
  intros H. pose proof (seg_wr_same σ t _ _ (res_room r) eq_refl) as S. set (x := st r) in *. apply seg_app in S as [_ S].
  rewrite (digits_split m i) in S by lia. apply seg_app in S as [_ S]. rewrite padd_padd, digits_zlen in S.
  rewrite (digits_split (m - i) j) in S by lia. by apply seg_app in S as [S _].
Qed.

(** Digits stored from place [i] to the end. *)
Lemma res_store r i v : (i <= m)%nat ->
  wr (padd t (zlen L + Z.of_nat i)) (digits (m - i) (r / B ^ Z.of_nat i + v)) (st r) = st (r + B ^ Z.of_nat i * v).
Proof using Hr.
  intros Hi. rewrite (digits_split m i r), (digits_split m i (r + _)) by done.
  pose proof (Bn_pos i). rewrite (Z.mul_comm (B ^ _)), Z.div_add by lia.
  replace (digits i (r + v * B ^ Z.of_nat i)) with (digits i r) by (apply digits_ext; by rewrite Z.mod_add by lia).
  rewrite !(app_assoc L). rewrite <- (app_nil_r (digits (m - i) (r / _))), <- (app_nil_r (digits (m - i) (_ + _))).
  replace (zlen L + Z.of_nat i) with (zlen (L ++ digits i r)) by (by rewrite zlen_app, digits_zlen).
  rewrite app_nil_r at 1. apply wr_part; [|by rewrite !digits_zlen].
  eapply room_eq; [exact Hr|]. rewrite !zlen_app, !digits_zlen. change (zlen []) with 0. lia.
Qed.

Lemma res_add r pw w i : (1 <= m)%nat -> dig w -> seg (st r) pw w -> (length w + i <= m - 1)%nat ->
  pw.1 <> t.1 \/ pw.2 + zlen w <= t.2 + zlen L ->
  0 <= r < B ^ Z.of_nat (m - 1) -> r + B ^ Z.of_nat i * val w < B ^ Z.of_nat (m - 1) ->
  mpvecadd (padd t (zlen L + Z.of_nat i)) (Z.of_nat (m - 1 - i)) pw (zlen w) (padd t (zlen L + Z.of_nat i)) (st r) =
    (Ok tt, st (r + B ^ Z.of_nat i * val w)).
Proof using Hr.
  intros Hm Hw Sw Hl Hp Hb Hs. set (q := padd t (zlen L + Z.of_nat i)).
  assert (Sx : seg (st r) q (digits (m - 1 - i) (r / B ^ Z.of_nat i))) by (apply res_seg; lia).
  assert (Ex : val (digits (m - 1 - i) (r / B ^ Z.of_nat i)) = r / B ^ Z.of_nat i).
  { rewrite val_digits. apply Z.mod_small. apply div_pow_bound; [lia|lia|].
    by replace (Z.of_nat (m - 1 - i) + Z.of_nat i) with (Z.of_nat (m - 1)) by lia. }
  pose proof (mpvecadd_ok (st r) q (digits (m - 1 - i) (r / B ^ Z.of_nat i)) pw w q) as E.
  rewrite digits_zlen, digits_length, Ex in E. rewrite E; try done.
  - f_equal. replace (S (m - 1 - i)) with (m - i)%nat by lia. apply res_store. lia.
  - apply digits_dig.
  - unfold zlen. lia.
  - eapply room_eq; [eapply seg_room, (res_seg r i (m - i)); lia|]. rewrite digits_zlen. lia.
  - right. left. lia.
  - unfold fwd, q, padd. cbn. lia.
Qed.

Lemma res_sub r pw w i : (1 <= m)%nat -> dig w -> seg (st r) pw w -> (length w + i <= m - 1)%nat ->
  pw.1 <> t.1 \/ pw.2 + zlen w <= t.2 + zlen L ->
  0 <= r < B ^ Z.of_nat (m - 1) -> 0 <= r - B ^ Z.of_nat i * val w ->
  mpvecsub (padd t (zlen L + Z.of_nat i)) (Z.of_nat (m - 1 - i)) pw (zlen w) (padd t (zlen L + Z.of_nat i)) (st r) =
    (Ok tt, st (r - B ^ Z.of_nat i * val w)).
Proof using Hr.
  intros Hm Hw Sw Hl Hp Hb Hs. set (q := padd t (zlen L + Z.of_nat i)). pose proof (Bn_pos i) as Bi.
  assert (Sx : seg (st r) q (digits (m - i) (r / B ^ Z.of_nat i))) by (apply res_seg; lia).
  pose proof (val_bound _ Hw) as BW.
  assert (Em : (m - i = (m - 1 - i) + 1)%nat) by (clear - Hm Hl; lia).
  assert (Hd : 0 <= r / B ^ Z.of_nat i < B ^ Z.of_nat (m - 1 - i)).
  { clear - Hb Hl Hm. apply div_pow_bound; [lia|lia|]. by replace (Z.of_nat (m - 1 - i) + Z.of_nat i) with (Z.of_nat (m - 1)) by lia. }
  assert (Hd' : 0 <= r / B ^ Z.of_nat i - val w < B ^ Z.of_nat (m - 1 - i)).
  { assert (val w <= r / B ^ Z.of_nat i) by (apply Z.div_le_lower_bound; [done|clear - Hs; lia]). clear - H Hd BW. lia. }
  rewrite Em, digits_high_zero in Sx by done.
  pose proof (seg_room _ _ _ Sx) as Rx. rewrite zlen_app, digits_zlen in Rx. change (zlen (replicate 1 0)) with 1 in Rx.
  pose proof Sx as Sx0. apply seg_app in Sx as [Sx St].
  assert (Ex : val (digits (m - 1 - i) (r / B ^ Z.of_nat i)) = r / B ^ Z.of_nat i) by (rewrite val_digits; by apply Z.mod_small).
  pose proof (mpvecsub_ok (st r) q (digits (m - 1 - i) (r / B ^ Z.of_nat i)) pw w q) as E.
  rewrite digits_zlen, digits_length, Ex in E. rewrite E; try done.
  - f_equal. rewrite (wr_extend _ _ _ (replicate 1 0)).
    + rewrite <- digits_high_zero by done. rewrite <- Em, <- (Z.add_opp_r _ (val w)), <- (Z.add_opp_r r), <- Z.mul_opp_r. apply res_store. clear - Hl; lia.
    + rewrite digits_zlen in St |- *. exact St.
    + rewrite zlen_app, digits_zlen. exact Rx.
  - apply digits_dig.
  - unfold zlen. clear - Hl. lia.
  - eapply room_eq; [eapply seg_room; exact Sx|]. by rewrite digits_zlen.
  - right. left. clear. lia.
  - unfold fwd, q, padd. cbn. clear - Hp. lia.
Qed.
End result.

Lemma mul_le_sq x y q : 0 <= x <= q -> 0 <= y <= q -> 0 <= x * y <= q * q.
Proof. intros. split; [apply Z.mul_nonneg_nonneg; lia|apply Z.mul_le_mono_nonneg; lia]. Qed.
Lemma zcmp_neg v w : (zcmp v w <? 0) = (v <? w).
Proof. unfold zcmp. destruct (v <? w); [done|]. by destruct (v =? w). Qed.

(** ** mpkaratsuba *)

Lemma bind_ok_assoc {A C} (m1 : M MpStore A) (f : A -> M MpStore C) (g : C -> M MpStore ()) s a s' :
  (x ← m1; f x) s = (Ok a, s') -> (x ← m1; y ← f x; g y) s = g a s'.
Proof. unfold mbind, M_bind. destruct (m1 s) as [[x|v|] s1]; [|done..]. intros ->. done. Qed.
Lemma room_pre s q l m n : room s q m -> m = zlen l -> 0 <= n <= zlen l -> room (wr q l s) q n.
Proof.
  intros H -> Hn. pose proof (room_wr s q l q _ _ H eq_refl H) as R.
  apply (room_eq _ _ _ (n + (zlen l - n))) in R; [|lia]. by apply room_split in R as [R _]; [|lia..].
Qed.
Section karatsuba.
Context (mul : Ptr -> Z -> Ptr -> Z -> Ptr -> M MpStore ()) (bound : Z) (Hmul : multiplies mul bound).
(** The halves of the operands: [u0] and [v0] are [n] digits, or [v0] is all of
    the second operand and [v1] empty. *)
Context (a b : Ptr) (u0 u1 v0 v1 : list Z) (n : nat).
Context (Hu0 : length u0 = n) (Hu1 : (length u1 <= n)%nat) (Hv1 : (length v1 <= length v0)%nat)
  (Hv0 : (length v0 <= n)%nat) (Hv : v1 = [] \/ length v0 = n).
Context (Du0 : dig u0) (Du1 : dig u1) (Dv0 : dig v0) (Dv1 : dig v1).
Context (Hn : (0 < n)%nat) (Hbound : Z.of_nat n < bound).
Context (t : Ptr).
Local Notation m := (2 * n + 1)%nat.
Local Notation zs := (replicate m 0).
Local Notation u1p := (padd a (zlen u0)).
Local Notation v1p := (padd b (zlen v0)).

(** The operands are in the store [σ], which has room for the scratch array and
    does not place them in it. *)
Definition kara_store (σ : MpStore) : Prop :=
  t.1 <> a.1 /\ t.1 <> b.1 /\ seg σ a (u0 ++ u1) /\ seg σ b (v0 ++ v1) /\ room σ t (Z.of_nat (5 * m)).

Lemma kara_room σ (T : list Z) : kara_store σ -> length T = (5 * m)%nat -> room σ t (zlen T).
Proof using. clear. intros (_ & _ & _ & _ & H) E. unfold zlen. by rewrite E. Qed.
Lemma kara_grow k σ : kara_store σ -> kara_store (grow k σ).
Proof using.
  clear. intros (H1 & H2 & H3 & H4 & H5). split_and!; [done|done|by apply seg_grow..|by apply room_grow].
Qed.

Lemma kara_segs σ T : kara_store σ -> length T = (5 * m)%nat ->
  seg (wr t T σ) a u0 /\ seg (wr t T σ) u1p u1 /\ seg (wr t T σ) b v0 /\ seg (wr t T σ) v1p v1.
Proof using.
  clear. intros Hσ HT. pose proof (kara_room _ _ Hσ HT) as Hr. destruct Hσ as (H1 & H2 & Sa & Sb & _).
  apply (scratch_other t σ T) in Sa, Sb; try done. apply seg_app in Sa as [? ?], Sb as [? ?]. done.
Qed.

Lemma apart_scratch q k i j : t.1 <> q.1 -> apart q k (padd t i) j.
Proof using. clear. intros H. left. cbn. congruence. Qed.
Lemma fwd_scratch q k i : t.1 <> q.1 -> fwd q k (padd t i).
Proof using. clear. intros H. left. cbn. congruence. Qed.

(** The absolute differences of the halves, and the sign of their product. *)
Definition kara_sign : Z := if val u1 <? val u0 then (if val v0 <? val v1 then 1 else -1) else (if val v0 <? val v1 then -1 else 1).

Lemma kara_u σ R : kara_store σ -> length R = (4 * m)%nat ->
  (c ← mpveccmp u1p (zlen u1) a (zlen u0);
   if c <? 0 then _ ← mpvecsub a (zlen u0) u1p (zlen u1) t; mret (-1)
   else _ ← mpvecsub u1p (zlen u1) a (zlen u1) t; mret 1) (wr t (zs ++ R) σ) =
  (Ok (if val u1 <? val u0 then -1 else 1), wr t (digits m (Z.abs (val u1 - val u0)) ++ R) σ).
Proof using All.
  intros Hσ HR. assert (HT : length (zs ++ R) = (5 * m)%nat) by (rewrite length_app, length_replicate; lia).
  destruct (kara_segs _ _ Hσ HT) as (S1 & S2 & _). pose proof (kara_room _ _ Hσ HT) as Hr.
  rewrite (bind_ok _ _ _ _ _ (mpveccmp_ok _ _ _ _ _ Du1 Du0 S2 S1)). rewrite zcmp_neg.
  pose proof (scratch_seg t σ [] zs R Hr) as Sz. rewrite padd_0 in Sz. cbn [app] in Sz.
  destruct Hσ as (H1 & _).
  pose proof (wr_part σ t [] zs (digits m (Z.abs (val u1 - val u0))) R Hr ltac:(by rewrite digits_zlen, zlen_zeros)) as E.
  change (zlen []) with 0 in E. rewrite padd_0 in E. cbn [app] in E. rewrite <- E.
  assert (F1 : forall k, fwd a k t) by (intros k; left; congruence).
  assert (F2 : forall k, fwd u1p k t) by (intros k; left; cbn; congruence).
  destruct (Z.ltb_spec (val u1) (val u0)).
  - rewrite (bind_ok _ _ _ _ _ (sub_long _ a u1p t u0 u1 m Du0 Du1 ltac:(unfold zlen; lia) S1 S2 ltac:(lia) Sz (F1 _) (F2 _) ltac:(lia))).
    rewrite Z.abs_neq by lia. unfold mret, M_ret. do 3 f_equal. lia.
  - rewrite (bind_ok _ _ _ _ _ (sub_short _ a u1p t u0 u1 m Du0 Du1 ltac:(unfold zlen; lia) S1 S2 ltac:(lia) Sz (F1 _) (F2 _) ltac:(lia))).
    rewrite Z.abs_eq by lia. done.
Qed.

Lemma kara_v σ X R sign : kara_store σ -> length X = m -> length R = (3 * m)%nat ->
  (c ← mpveccmp b (zlen v0) v1p (zlen v1);
   if c <? 0 then _ ← mpvecsub v1p (zlen v1) b (zlen v1) (padd t (Z.of_nat m)); mret (sign * -1)
   else _ ← mpvecsub b (zlen v0) v1p (zlen v1) (padd t (Z.of_nat m)); mret sign) (wr t (X ++ zs ++ R) σ) =
  (Ok (if val v0 <? val v1 then sign * -1 else sign), wr t (X ++ digits m (Z.abs (val v0 - val v1)) ++ R) σ).
Proof using All.
  intros Hσ HX HR. assert (HT : length (X ++ zs ++ R) = (5 * m)%nat) by (rewrite !length_app, length_replicate; lia).
  destruct (kara_segs _ _ Hσ HT) as (_ & _ & S1 & S2). pose proof (kara_room _ _ Hσ HT) as Hr.
  rewrite (bind_ok _ _ _ _ _ (mpveccmp_ok _ _ _ _ _ Dv0 Dv1 S1 S2)). rewrite zcmp_neg.
  pose proof (scratch_seg t σ X zs R Hr) as Sz. destruct Hσ as (_ & H1 & _).
  pose proof (wr_part σ t X zs (digits m (Z.abs (val v0 - val v1))) R Hr ltac:(by rewrite digits_zlen, zlen_zeros)) as E.
  replace (zlen X) with (Z.of_nat m) in * by (unfold zlen; lia). rewrite <- E.
  assert (F1 : forall k, fwd b k (padd t (Z.of_nat m))) by (intros k; by apply fwd_scratch).
  assert (F2 : forall k, fwd v1p k (padd t (Z.of_nat m))) by (intros k; by apply fwd_scratch).
  destruct (Z.ltb_spec (val v0) (val v1)).
  - rewrite (bind_ok _ _ _ _ _ (sub_short _ b v1p _ v0 v1 m Dv0 Dv1 ltac:(unfold zlen; lia) S1 S2 ltac:(lia) Sz (F1 _) (F2 _) ltac:(lia))).
    rewrite Z.abs_neq by lia. unfold mret, M_ret. do 3 f_equal. lia.
  - rewrite (bind_ok _ _ _ _ _ (sub_long _ b v1p _ v0 v1 m Dv0 Dv1 ltac:(unfold zlen; lia) S1 S2 ltac:(lia) Sz (F1 _) (F2 _) ltac:(lia))).
    rewrite Z.abs_eq by lia. done.
Qed.

Local Notation du := (Z.abs (val u1 - val u0)).
Local Notation dv := (Z.abs (val v0 - val v1)).

Lemma du_bound : 0 <= du < B ^ Z.of_nat n.
Proof using All.
  pose proof (val_bound _ Du0). pose proof (val_bound _ Du1).
  pose proof (Z.pow_le_mono_r B (zlen u1) (Z.of_nat n) B_pos ltac:(unfold zlen; lia)).
  unfold zlen in *. rewrite Hu0 in *. lia.
Qed.
Lemma dv_bound : 0 <= dv < B ^ zlen v0.
Proof using All.
  pose proof (val_bound _ Dv0). pose proof (val_bound _ Dv1).
  pose proof (Z.pow_le_mono_r B (zlen v1) (zlen v0) B_pos ltac:(unfold zlen; lia)). lia.
Qed.

Lemma kara_d σ R : kara_store σ -> length R = (2 * m)%nat ->
  exists k, mul t (zlen u0) (padd t (Z.of_nat m)) (zlen v0) (padd t (2 * Z.of_nat m))
      (wr t ((digits m du ++ digits m dv) ++ zs ++ R) σ) =
    (Ok tt, wr t ((digits m du ++ digits m dv) ++ digits m (du * dv) ++ R) (grow k σ)).
Proof using All.
  intros Hσ HR. assert (HT : length ((digits m du ++ digits m dv) ++ zs ++ R) = (5 * m)%nat).
  { rewrite !length_app, !digits_length, length_replicate. lia. }
  pose proof (kara_room _ _ Hσ HT) as Hr. pose proof du_bound. pose proof dv_bound.
  pose proof (seg_wr_same σ t _ _ Hr eq_refl) as S. set (x := wr t _ σ) in *.
  rewrite <- app_assoc in S. apply seg_app in S as [S1 S]. apply seg_app in S as [S2 _]. rewrite digits_zlen in S2.
  rewrite (digits_split m n) in S1 by lia. apply seg_app in S1 as [S1 _].
  rewrite (digits_split m (length v0)) in S2 by lia. apply seg_app in S2 as [S2 _].
  destruct (part_mul t σ (digits m du ++ digits m dv) R m mul bound t (digits n du) (padd t (Z.of_nat m)) (digits (length v0) dv))
    as [k Ek]; try (done || apply digits_dig); rewrite ?digits_zlen, ?digits_length; try lia.
  - right. left. unfold padd. cbn. rewrite zlen_app, !digits_zlen. lia.
  - right. left. unfold padd. cbn. rewrite zlen_app, !digits_zlen. lia.
  - exists k. rewrite !digits_zlen, zlen_app, !digits_zlen, !val_digits in Ek. fold x in Ek.
    rewrite !Z.mod_small in Ek by done. rewrite <- Hu0 in Ek at 1. fold (zlen u0) in Ek.
    replace (2 * Z.of_nat m) with (Z.of_nat m + Z.of_nat m) by lia. exact Ek.
Qed.

Lemma kara_u1v1 σ X R : kara_store σ -> length X = m -> length R = (3 * m)%nat ->
  exists k, (if 0 <? zlen v1 then mul u1p (zlen u1) v1p (zlen v1) (padd t (Z.of_nat m)) else mret tt)
      (wr t (X ++ zs ++ R) σ) =
    (Ok tt, wr t (X ++ digits m (val u1 * val v1) ++ R) (grow k σ)).
Proof using All.
  intros Hσ HX HR. destruct (Z.ltb_spec 0 (zlen v1)) as [Hv1'|Hv1'].
  2:{ exists 0%nat. rewrite (zlen_0_inv v1) by (pose proof (zlen_nonneg v1); lia).
      cbn [val]. by rewrite Z.mul_0_r, digits_0, grow_0. }
  assert (HT : length (X ++ zs ++ R) = (5 * m)%nat) by (rewrite !length_app, length_replicate; lia).
  destruct (kara_segs _ _ Hσ HT) as (_ & S1 & _ & S2). pose proof (kara_room _ _ Hσ HT) as Hr.
  destruct Hσ as (H1 & H2 & _).
  replace (Z.of_nat m) with (zlen X) by (unfold zlen; lia).
  apply (part_mul t σ X R m mul bound u1p u1 v1p v1); try done; try (unfold zlen; lia); by apply apart_scratch.
Qed.

Lemma kara_u0v0 σ R : kara_store σ -> length R = (4 * m)%nat ->
  exists k, mul a (zlen u0) b (zlen v0) t (wr t (zs ++ R) σ) =
    (Ok tt, wr t (digits m (val u0 * val v0) ++ R) (grow k σ)).
Proof using All.
  intros Hσ HR. assert (HT : length (zs ++ R) = (5 * m)%nat) by (rewrite !length_app, length_replicate; lia).
  destruct (kara_segs _ _ Hσ HT) as (S1 & _ & S2 & _). pose proof (kara_room _ _ Hσ HT) as Hr.
  destruct Hσ as (H1 & H2 & _).
  destruct (part_mul t σ [] R m mul bound a u0 b v0) as [k Ek]; try done; try (unfold zlen; lia); try by apply apart_scratch.
  change (zlen []) with 0 in Ek. rewrite padd_0 in Ek. by exists k.
Qed.

(** The additions and the subtraction in the result part. *)
Local Notation Y := (B ^ Z.of_nat n).
Definition kara_total : Z :=
  val u0 * val v0 + Y * (val u0 * val v0) + Y * (val u1 * val v1) + Y * Y * (val u1 * val v1) + kara_sign * (Y * (du * dv)).

Lemma kara_total_eq : kara_total = val (u0 ++ u1) * val (v0 ++ v1).
Proof using All.
  rewrite !val_app. unfold zlen at 1. rewrite Hu0. unfold kara_total, kara_sign.
  assert (E : val v1 = 0 \/ zlen v0 = Z.of_nat n).
  { destruct Hv as [->|E]; [by left|right; unfold zlen; lia]. }
  assert (E1 : (val v0 + B ^ zlen v0 * val v1) = val v0 + Y * val v1) by (destruct E as [->| ->]; lia).
  rewrite E1. destruct (Z.ltb_spec (val u1) (val u0)), (Z.ltb_spec (val v0) (val v1)).
  - rewrite !Z.abs_neq by lia. ring.
  - rewrite (Z.abs_neq (val u1 - val u0)), (Z.abs_eq (val v0 - val v1)) by lia. ring.
  - rewrite (Z.abs_eq (val u1 - val u0)), (Z.abs_neq (val v0 - val v1)) by lia. ring.
  - rewrite !Z.abs_eq by lia. ring.
Qed.

(** The four products, below the square of [P], and their sum. *)
Lemma sum_bound P A C D : 0 < P -> 0 <= A <= P * P -> 0 <= C <= P * P -> 0 <= D <= P * P ->
  A + P * A + P * C + P * P * C + P * D < B * (P * P * P * P).
Proof using.
  clear. intros HP HA HC HD. assert (HQ : 1 <= P <= P * P) by nia. replace (P * P * P * P) with ((P * P) * (P * P)) by ring.
  generalize dependent (P * P). intros Q HA HC HD HQ.
  pose proof (mul_le_sq 1 Q Q ltac:(lia) ltac:(lia)). pose proof (mul_le_sq P A Q ltac:(lia) ltac:(lia)). pose proof (mul_le_sq P C Q ltac:(lia) ltac:(lia)).
  pose proof (mul_le_sq P D Q ltac:(lia) ltac:(lia)). pose proof (mul_le_sq Q C Q ltac:(lia) ltac:(lia)).
  rewrite B_eq. generalize dependent (Q * Q). intros. lia.
Qed.
Lemma val_bound_le (l : list Z) (k : nat) : dig l -> (length l <= k)%nat -> 0 <= val l <= B ^ Z.of_nat k.
Proof using.
  clear. intros D H. pose proof (val_bound _ D). pose proof (Z.pow_le_mono_r B (zlen l) (Z.of_nat k) B_pos ltac:(unfold zlen; lia)). lia.
Qed.
Lemma pow_4n : B ^ Z.of_nat (2 * m - 1) = B * (Y * Y * Y * Y).
Proof using.
  clear. rewrite <- !Z.pow_add_r by lia. rewrite <- (Z.pow_1_r B) at 2. rewrite <- Z.pow_add_r by lia. f_equal. lia.
Qed.
Lemma kara_bounds :
  let A := val u0 * val v0 in let C := val u1 * val v1 in let D := du * dv in
  0 <= A /\ 0 <= C /\ 0 <= D /\ 0 < Y /\
  A + Y * A + Y * C + Y * Y * C + Y * D < B ^ Z.of_nat (2 * m - 1).
Proof using All.
  cbv zeta. pose proof (Bn_pos n) as HY. pose proof du_bound as H1. pose proof dv_bound as H2. rewrite pow_4n.
  pose proof (val_bound_le u0 n Du0 ltac:(lia)) as B0. pose proof (val_bound_le u1 n Du1 ltac:(lia)) as B1.
  pose proof (val_bound_le v0 n Dv0 ltac:(lia)) as B2. pose proof (val_bound_le v1 n Dv1 ltac:(lia)) as B3.
  pose proof (mul_le_sq _ _ Y B0 B2) as M0. pose proof (mul_le_sq _ _ Y B1 B3) as M1.
  assert (M2 : 0 <= du * dv <= Y * Y) by (clear - H1 H2 B2 B3; apply mul_le_sq; lia).
  pose proof (sum_bound _ _ _ _ HY M0 M1 M2) as Hs. clear - HY M0 M1 M2 Hs. tauto.
Qed.


Local Notation KL := (digits m (val u0 * val v0) ++ digits m (val u1 * val v1) ++ digits m (du * dv)).
Local Notation res := (padd t (3 * Z.of_nat m)).
Local Notation reslen := (Z.of_nat (2 * m - 1)).

Lemma kara_L_length : zlen KL = 3 * Z.of_nat m.
Proof using. clear. rewrite !zlen_app, !digits_zlen. lia. Qed.
Lemma kara_st_room σ r : kara_store σ -> room σ t (zlen (KL ++ digits (2 * m) r)).
Proof using. clear. intros Hσ. apply kara_room; [done|]. rewrite !length_app, !digits_length. lia. Qed.

(** The three products in front of the result. *)
Lemma kara_parts σ r x y z : kara_store σ -> (x <= m)%nat -> (y <= m)%nat -> (z <= m)%nat ->
  let s := wr t (KL ++ digits (2 * m) r) σ in
  seg s t (digits x (val u0 * val v0)) /\ seg s (padd t (Z.of_nat m)) (digits y (val u1 * val v1)) /\
  seg s (padd t (2 * Z.of_nat m)) (digits z (du * dv)).
Proof using.
  clear. intros Hσ Hx Hy Hz s. pose proof (seg_wr_same σ t _ _ (kara_st_room σ r Hσ) eq_refl) as S.
  change (wr t _ σ) with s in S. clearbody s. apply seg_app in S as [S _].
  apply seg_app in S as [S1 S]. apply seg_app in S as [S2 S3]. rewrite !digits_zlen in *. rewrite padd_padd in S3.
  rewrite (digits_split m x) in S1 by done. rewrite (digits_split m y) in S2 by done. rewrite (digits_split m z) in S3 by done.
  apply seg_app in S1 as [S1 _], S2 as [S2 _], S3 as [S3 _].
  replace (Z.of_nat m + Z.of_nat m) with (2 * Z.of_nat m) in S3 by lia. done.
Qed.

Lemma kara_add σ r pw w i : kara_store σ -> dig w -> seg (wr t (KL ++ digits (2 * m) r) σ) pw w ->
  (length w + i <= 2 * m - 1)%nat -> pw.2 + zlen w <= t.2 + 3 * Z.of_nat m ->
  0 <= r < B ^ reslen -> r + B ^ Z.of_nat i * val w < B ^ reslen ->
  mpvecadd (padd res (Z.of_nat i)) (reslen - Z.of_nat i) pw (zlen w) (padd res (Z.of_nat i)) (wr t (KL ++ digits (2 * m) r) σ) =
    (Ok tt, wr t (KL ++ digits (2 * m) (r + B ^ Z.of_nat i * val w)) σ).
Proof using.
  clear. intros Hσ Hw Sw Hl Hp Hb Hs. rewrite padd_padd. rewrite <- kara_L_length in Hp |- *.
  replace (reslen - Z.of_nat i) with (Z.of_nat (2 * m - 1 - i)) by lia.
  apply res_add; try done; [by apply kara_st_room|lia|by right].
Qed.
Lemma kara_subtract σ r pw w i : kara_store σ -> dig w -> seg (wr t (KL ++ digits (2 * m) r) σ) pw w ->
  (length w + i <= 2 * m - 1)%nat -> pw.2 + zlen w <= t.2 + 3 * Z.of_nat m ->
  0 <= r < B ^ reslen -> 0 <= r - B ^ Z.of_nat i * val w ->
  mpvecsub (padd res (Z.of_nat i)) (reslen - Z.of_nat i) pw (zlen w) (padd res (Z.of_nat i)) (wr t (KL ++ digits (2 * m) r) σ) =
    (Ok tt, wr t (KL ++ digits (2 * m) (r - B ^ Z.of_nat i * val w)) σ).
Proof using.
  clear. intros Hσ Hw Sw Hl Hp Hb Hs. rewrite padd_padd. rewrite <- kara_L_length in Hp |- *.
  replace (reslen - Z.of_nat i) with (Z.of_nat (2 * m - 1 - i)) by lia.
  apply res_sub; try done; [by apply kara_st_room|lia|by right].
Qed.

(** The products are read back whole. *)
Lemma val_digits_mul (k : nat) (x y : list Z) v : (length x + length y)%nat = k -> dig x -> dig y -> v = val x * val y -> val (digits k v) = v.
Proof using.
  clear. intros <- Hx Hy ->. rewrite val_digits. apply Z.mod_small. rewrite Nat2Z.inj_add. by apply val_mul_bound.
Qed.
Lemma zlen_digits2 (x y : list Z) v : zlen (digits (length x + length y) v) = zlen x + zlen y.
Proof using. clear. rewrite digits_zlen. unfold zlen. lia. Qed.
Lemma val_digits_D : val (digits (length u0 + length v0) (du * dv)) = du * dv.
Proof using All.
  rewrite val_digits. apply Z.mod_small. pose proof du_bound as H1. pose proof dv_bound as H2.
  rewrite Nat2Z.inj_add, Hu0, Z.pow_add_r by lia. fold (zlen v0). clear - H1 H2.
  split; [apply Z.mul_nonneg_nonneg; lia|apply Z.mul_lt_mono_nonneg; lia].
Qed.

Lemma kara_addA σ r i : kara_store σ -> (i <= n)%nat -> 0 <= r -> 0 <= r + B ^ Z.of_nat i * (val u0 * val v0) < B ^ reslen -> r < B ^ reslen ->
  mpvecadd (padd res (Z.of_nat i)) (reslen - Z.of_nat i) t (zlen u0 + zlen v0) (padd res (Z.of_nat i)) (wr t (KL ++ digits (2 * m) r) σ) =
    (Ok tt, wr t (KL ++ digits (2 * m) (r + B ^ Z.of_nat i * (val u0 * val v0))) σ).
Proof using All.
  intros Hσ Hi H0 H1 H2.
  destruct (kara_parts σ r (length u0 + length v0) 0 0 Hσ ltac:(lia) ltac:(lia) ltac:(lia)) as (S & _ & _).
  pose proof (kara_add σ r t (digits (length u0 + length v0) (val u0 * val v0)) i Hσ (digits_dig _ _) S) as E.
  rewrite (val_digits_mul _ u0 v0), zlen_digits2, digits_length in E by done.
  apply E; try lia; unfold zlen; lia.
Qed.
Lemma kara_addC σ r i : kara_store σ -> (i <= 2 * n)%nat -> 0 <= r -> 0 <= r + B ^ Z.of_nat i * (val u1 * val v1) < B ^ reslen -> r < B ^ reslen ->
  mpvecadd (padd res (Z.of_nat i)) (reslen - Z.of_nat i) (padd t (Z.of_nat m)) (zlen u1 + zlen v1) (padd res (Z.of_nat i)) (wr t (KL ++ digits (2 * m) r) σ) =
    (Ok tt, wr t (KL ++ digits (2 * m) (r + B ^ Z.of_nat i * (val u1 * val v1))) σ).
Proof using All.
  intros Hσ Hi H0 H1 H2.
  destruct (kara_parts σ r 0 (length u1 + length v1) 0 Hσ ltac:(lia) ltac:(lia) ltac:(lia)) as (_ & S & _).
  pose proof (kara_add σ r _ (digits (length u1 + length v1) (val u1 * val v1)) i Hσ (digits_dig _ _) S) as E.
  rewrite (val_digits_mul _ u1 v1), zlen_digits2, digits_length in E by done.
  apply E; try lia; unfold padd, zlen; cbn [fst snd]; lia.
Qed.
Lemma kara_D σ r : kara_store σ -> 0 <= r < B ^ reslen ->
  0 <= r + kara_sign * (Y * (du * dv)) < B ^ reslen ->
  (if kara_sign <? 0 then mpvecsub (padd res (Z.of_nat n)) (reslen - Z.of_nat n) (padd t (2 * Z.of_nat m)) (zlen u0 + zlen v0) (padd res (Z.of_nat n))
   else mpvecadd (padd res (Z.of_nat n)) (reslen - Z.of_nat n) (padd t (2 * Z.of_nat m)) (zlen u0 + zlen v0) (padd res (Z.of_nat n)))
    (wr t (KL ++ digits (2 * m) r) σ) =
    (Ok tt, wr t (KL ++ digits (2 * m) (r + kara_sign * (Y * (du * dv)))) σ).
Proof using All.
  intros Hσ H0 H1.
  destruct (kara_parts σ r 0 0 (length u0 + length v0) Hσ ltac:(lia) ltac:(lia) ltac:(lia)) as (_ & _ & S).
  assert (Hs : kara_sign = 1 \/ kara_sign = -1) by (unfold kara_sign; repeat case_match; auto).
  destruct Hs as [Es|Es]; rewrite Es in *; cbn [Z.ltb Z.compare].
  - pose proof (kara_add σ r _ (digits (length u0 + length v0) (du * dv)) n Hσ (digits_dig _ _) S) as E.
    rewrite val_digits_D, zlen_digits2, digits_length in E. rewrite Z.mul_1_l in *. apply E; try lia; unfold padd, zlen; cbn [fst snd]; lia.
  - pose proof (kara_subtract σ r _ (digits (length u0 + length v0) (du * dv)) n Hσ (digits_dig _ _) S) as E.
    rewrite val_digits_D, zlen_digits2, digits_length in E.
    replace (r + -1 * (Y * (du * dv))) with (r - Y * (du * dv)) in * by lia. apply E; try lia; unfold padd, zlen; cbn [fst snd]; lia.
Qed.

Lemma kara_sum σ (g : () -> M MpStore ()) : kara_store σ ->
  (_ ← mpvecadd res reslen t (zlen u0 + zlen v0) res;
   _ ← mpvecadd (padd res (Z.of_nat n)) (reslen - Z.of_nat n) t (zlen u0 + zlen v0) (padd res (Z.of_nat n));
   _ ← (if 0 <? zlen v1 then
          _ ← mpvecadd (padd res (Z.of_nat n)) (reslen - Z.of_nat n) (padd t (Z.of_nat m)) (zlen u1 + zlen v1) (padd res (Z.of_nat n));
          mpvecadd (padd res (2 * (Z.of_nat n))) (reslen - 2 * (Z.of_nat n)) (padd t (Z.of_nat m)) (zlen u1 + zlen v1) (padd res (2 * (Z.of_nat n)))
        else mret tt);
   x ← (if kara_sign <? 0 then mpvecsub (padd res (Z.of_nat n)) (reslen - Z.of_nat n) (padd t (2 * Z.of_nat m)) (zlen u0 + zlen v0) (padd res (Z.of_nat n))
    else mpvecadd (padd res (Z.of_nat n)) (reslen - Z.of_nat n) (padd t (2 * Z.of_nat m)) (zlen u0 + zlen v0) (padd res (Z.of_nat n)));
   g x)
    (wr t (KL ++ digits (2 * m) 0) σ) =
  g tt (wr t (KL ++ digits (2 * m) kara_total) σ).
Proof using All.
  intros Hσ.
  destruct kara_bounds as (HA & HC & HD & HY & Htot). cbv zeta in *.
  pose proof kara_total_eq as Et. pose proof (val_bound (u0 ++ u1) ltac:(by apply dig_app)) as V1.
  pose proof (val_bound (v0 ++ v1) ltac:(by apply dig_app)) as V2.
  assert (Ht : 0 <= kara_total) by (rewrite Et; apply Z.mul_nonneg_nonneg; lia). clear Et V1 V2.
  assert (Hs : kara_sign = 1 \/ kara_sign = -1) by (unfold kara_sign; repeat case_match; auto).
  assert (EY : B ^ Z.of_nat (2 * n) = Y * Y) by (clear; rewrite <- Z.pow_add_r by lia; f_equal; lia).
  pose proof (kara_addA σ 0 0 Hσ) as E1. change (Z.of_nat 0) with 0 in E1. rewrite padd_0, Z.sub_0_r, Z.pow_0_r, Z.mul_1_l, Z.add_0_l in E1.
  pose proof (kara_addA σ (val u0 * val v0) n Hσ) as E2. pose proof (kara_addC σ (val u0 * val v0 + Y * (val u0 * val v0)) n Hσ) as E3.
  pose proof (kara_addC σ (val u0 * val v0 + Y * (val u0 * val v0) + Y * (val u1 * val v1)) (2 * n) Hσ) as E4.
  rewrite EY in E4. replace (Z.of_nat (2 * n)) with (2 * (Z.of_nat n)) in E4 by (clear; lia).
  pose proof (fun r => kara_D σ r Hσ) as E5. unfold kara_total in *.
  assert (Hv1' : zlen v1 <= 0 -> val u1 * val v1 = 0).
  { intros Hl. rewrite (zlen_0_inv v1) by (pose proof (zlen_nonneg v1); clear - Hl H; lia). apply Z.mul_0_r. }
  clear - HA HC HD HY Htot Ht Hs E1 E2 E3 E4 E5 Hv1'.
  generalize dependent kara_sign. generalize dependent (val u0 * val v0). generalize dependent (val u1 * val v1). generalize dependent (du * dv).
  intros D HD C HC Hv1' A HA Htot E1 E2 E3 E4 sign Ht Hs E5.
  pose proof (Z.mul_nonneg_nonneg Y A ltac:(lia) HA) as YA. pose proof (Z.mul_nonneg_nonneg Y C ltac:(lia) HC) as YC. pose proof (Z.mul_nonneg_nonneg Y D ltac:(lia) HD) as YD.
  assert (YYC : 0 <= Y * Y * C) by (rewrite <- Z.mul_assoc; apply Z.mul_nonneg_nonneg; lia).
  rewrite (bind_ok _ _ _ _ _ (E1 ltac:(lia) ltac:(lia) ltac:(lia) ltac:(lia))), (bind_ok _ _ _ _ _ (E2 ltac:(lia) ltac:(lia) ltac:(lia) ltac:(lia))). clear E1 E2.
  assert (E6 : (if 0 <? zlen v1 then
       _ ← mpvecadd (padd res (Z.of_nat n)) (reslen - Z.of_nat n) (padd t (Z.of_nat m)) (zlen u1 + zlen v1) (padd res (Z.of_nat n));
       mpvecadd (padd res (2 * (Z.of_nat n))) (reslen - 2 * (Z.of_nat n)) (padd t (Z.of_nat m)) (zlen u1 + zlen v1) (padd res (2 * (Z.of_nat n)))
     else mret tt) (wr t ((digits m A ++ digits m C ++ digits m D) ++ digits (2 * m) (A + Y * A)) σ) =
    (Ok tt, wr t ((digits m A ++ digits m C ++ digits m D) ++ digits (2 * m) (A + Y * A + Y * C + Y * Y * C)) σ)).
  { destruct (Z.ltb_spec 0 (zlen v1)) as [Hl|Hl].
    - rewrite (bind_ok _ _ _ _ _ (E3 ltac:(lia) ltac:(lia) ltac:(lia) ltac:(lia))). apply E4; lia.
    - rewrite (Hv1' Hl), !Z.mul_0_r, !Z.add_0_r. done. }
  rewrite (bind_ok _ _ _ _ _ E6). erewrite bind_ok; [done|]. apply E5; [lia|]. destruct Hs as [Es|Es]; rewrite Es in *; lia.
Qed.

(** From the cleared scratch array to the sum of the products. *)
Lemma kara_products σ : kara_store σ -> exists k, forall f : Z -> M MpStore (),
  (c ← mpveccmp u1p (zlen u1) a (zlen u0);
   sign ← (if c <? 0 then _ ← mpvecsub a (zlen u0) u1p (zlen u1) t; mret (-1)
           else _ ← mpvecsub u1p (zlen u1) a (zlen u1) t; mret 1);
   c ← mpveccmp b (zlen v0) v1p (zlen v1);
   sign ← (if c <? 0 then _ ← mpvecsub v1p (zlen v1) b (zlen v1) (padd t (Z.of_nat m)); mret (sign * -1)
           else _ ← mpvecsub b (zlen v0) v1p (zlen v1) (padd t (Z.of_nat m)); mret sign);
   _ ← mul t (zlen u0) (padd t (Z.of_nat m)) (zlen v0) (padd t (2 * Z.of_nat m));
   _ ← zdigs t (2 * Z.of_nat m);
   _ ← (if 0 <? zlen v1 then mul u1p (zlen u1) v1p (zlen v1) (padd t (Z.of_nat m)) else mret tt);
   _ ← mul a (zlen u0) b (zlen v0) t;
   f sign) (wr t (zs ++ zs ++ zs ++ digits (2 * m) 0) σ) =
  f kara_sign (wr t (KL ++ digits (2 * m) 0) (grow k σ)).
Proof using All.
  intros Hσ. set (Z2 := digits (2 * m) 0). assert (LZ : length Z2 = (2 * m)%nat) by apply digits_length.
  assert (Lz : length zs = m) by apply length_replicate.
  destruct (kara_d σ Z2 Hσ LZ) as [k1 E1]. pose proof (kara_grow k1 σ Hσ) as Hσ1. set (σ1 := grow k1 σ) in *.
  destruct (kara_u1v1 σ1 zs (digits m (du * dv) ++ Z2) Hσ1 Lz ltac:(rewrite length_app, digits_length; lia)) as [k2 E2].
  pose proof (kara_grow k2 σ1 Hσ1) as Hσ2. set (σ2 := grow k2 σ1) in *.
  destruct (kara_u0v0 σ2 (digits m (val u1 * val v1) ++ digits m (du * dv) ++ Z2) Hσ2 ltac:(rewrite !length_app, !digits_length; lia)) as [k3 E3].
  exists (k1 + (k2 + k3))%nat. intros f.
  rewrite (bind_ok_assoc _ _ _ _ _ _ (kara_u σ (zs ++ zs ++ Z2) Hσ ltac:(rewrite !length_app; lia))).
  set (sg := if val u1 <? val u0 then -1 else 1).
  rewrite (bind_ok_assoc _ _ _ _ _ _ (kara_v σ (digits m du) (zs ++ Z2) sg Hσ ltac:(apply digits_length) ltac:(rewrite !length_app; lia))).
  replace (if val v0 <? val v1 then sg * -1 else sg) with kara_sign by (unfold kara_sign, sg; repeat case_match; done).
  rewrite (app_assoc (digits m du)). rewrite (bind_ok _ _ _ _ _ E1). clear E1.
  assert (LK : length ((digits m du ++ digits m dv) ++ digits m (du * dv) ++ Z2) = (5 * m)%nat) by (rewrite !length_app, !digits_length; lia).
  pose proof (kara_room σ1 _ Hσ1 LK) as Hr.
  assert (R2 : room (wr t ((digits m du ++ digits m dv) ++ digits m (du * dv) ++ Z2) σ1) t (2 * Z.of_nat m)).
  { eapply room_pre; [exact Hr|done|]. unfold zlen. rewrite LK. lia. }
  erewrite (bind_ok (zdigs t (2 * Z.of_nat m))); [|apply zdigs_ok; [lia|exact R2]].
  replace (replicate (Z.to_nat (2 * Z.of_nat m)) 0) with (zs ++ zs) by (rewrite <- replicate_add; f_equal; lia).
  assert (E : wr t (zs ++ zs) (wr t ((digits m du ++ digits m dv) ++ digits m (du * dv) ++ Z2) σ1) =
    wr t (zs ++ zs ++ digits m (du * dv) ++ Z2) σ1).
  { pose proof (wr_part σ1 t [] (digits m du ++ digits m dv) (zs ++ zs) (digits m (du * dv) ++ Z2) Hr) as E.
    change (zlen []) with 0 in E. rewrite padd_0 in E. cbn [app] in E. rewrite E; [by rewrite <- app_assoc|].
    by rewrite !zlen_app, !digits_zlen, !zlen_zeros. }
  rewrite E. clear E. rewrite (bind_ok _ _ _ _ _ E2), (bind_ok _ _ _ _ _ E3). unfold σ2, σ1. rewrite !grow_grow, <- !app_assoc. done.
Qed.
End karatsuba.

(** ** The scratch array freed *)

Definition alloc (x : Mpint) (s : MpStore) : MpStore := set_objs (objs s ++ [Some x]) s.

Lemma wr_put q l b o s : q.1 <> b -> wr q l (mp_put b o s) = mp_put b o (wr q l s).
Proof.
  intros H. unfold wr. rewrite mpobj_put_ne by done. destruct (mpobj q.1 s); [|done]. by apply mp_put_comm.
Qed.
Lemma wr_alloc q l x s : room s q (zlen l) -> wr q l (alloc x s) = alloc x (wr q l s).
Proof.
  intros H. destruct (room_obj _ _ _ H) as (o & E). unfold wr. rewrite E. rewrite (obj_old x s _ _ E : mpobj q.1 (alloc x s) = _).
  unfold mp_put, alloc, set_objs. cbn. f_equal. apply insert_app_l. by eapply mpobj_lt.
Qed.
Lemma objs_wr q l s : length (objs (wr q l s)) = length (objs s).
Proof. unfold wr. destruct (mpobj q.1 s); [|done]. unfold mp_put, set_objs. cbn. apply length_insert. Qed.
Lemma free_alloc x k s : mp_put (length (objs s)) None (grow k (alloc x s)) = grow (S k) s.
Proof.
  unfold mp_put, grow, alloc, set_objs. cbn. f_equal. rewrite <- app_assoc. cbn [app].
  rewrite insert_app_r_alt, Nat.sub_diag by lia. done.
Qed.
(** The result copied out and the array freed: what is left of the run. *)
Lemma scratch_freed s x k p P T : p.1 <> length (objs s) -> room s p (zlen P) -> room (alloc x s) (length (objs s), 0) (zlen T) ->
  (_ ← sdigs p P; free (length (objs s))) (wr (length (objs s), 0) T (grow k (alloc x s))) = (Ok tt, grow (S k) (wr p P s)).
Proof.
  intros Hp HP HT. set (t := (length (objs s), 0)) in *.
  assert (Et : exists y, wr t T (grow k (alloc x s)) = mp_put t.1 (Some y) (grow k (alloc x s))).
  { destruct (room_obj _ _ _ (room_grow k _ _ _ HT)) as (o & E). unfold wr. rewrite E. eauto. }
  assert (Rp : room (wr t T (grow k (alloc x s))) p (zlen P)).
  { eapply room_wr; [apply room_grow; exact HT|done|]. apply room_grow. destruct HP as (l & Sl & <-). eexists. split; [by apply seg_alloc|done]. }
  rewrite (bind_ok _ _ _ _ _ (sdigs_ok _ _ _ Rp)). destruct Et as (y & ->). rewrite wr_put by done.
  assert (Rg : exists o, mpobj p.1 (alloc x s) = Some o).
  { destruct (room_obj _ _ _ HP) as (o & E). exists o. by apply obj_old. }
  rewrite wr_grow, wr_alloc by done. unfold free.
  assert (Hlt : (length (objs s) < length (objs (grow k (alloc x (wr p P s)))))%nat).
  { unfold grow, alloc, set_objs. cbn. rewrite !length_app, objs_wr. cbn. lia. }
  rewrite (bind_get _ y) by (cbn [t fst]; by apply mpobj_put). unfold modify. rewrite mp_put_put.
  cbn [t fst]. rewrite <- (objs_wr p P s). by rewrite free_alloc.
Qed.

Lemma kara_half alen : 0 <= alen ->
  (if negb (Z.land alen 1 =? 0) then alen / 2 + 1 else alen / 2) = (alen + 1) / 2.
Proof.
  intros H. change 1 with (Z.ones 1) at 1. rewrite Z.land_ones by lia. change (2 ^ 1) with 2.
  destruct (Z.eqb_spec (alen mod 2) 0); cbn [negb]; dlia.
Qed.
(** The second operand in two halves. *)
Lemma kara_split lb n : dig lb -> (0 < n)%nat -> zlen lb <= 2 * Z.of_nat n ->
  exists v0 v1, lb = v0 ++ v1 /\ (if Z.of_nat n <? zlen lb then (Z.of_nat n, zlen lb - Z.of_nat n) else (zlen lb, 0)) = (zlen v0, zlen v1) /\
    (length v1 <= length v0)%nat /\ (length v0 <= n)%nat /\ (v1 = [] \/ length v0 = n).
Proof.
  intros D Hn Hl. destruct (Z.ltb_spec (Z.of_nat n) (zlen lb)) as [H|H].
  - destruct (split_at lb (Z.of_nat n)) as (x1 & x2 & E & Z1 & Z2); [lia|]. exists x1, x2. rewrite Z1, Z2.
    split_and!; try done; unfold zlen in *; first [lia|right; lia].
  - exists lb, []. rewrite app_nil_r. split_and!; try done; cbn; unfold zlen in *; first [lia|by left].
Qed.

Lemma mpkaratsuba_ok mul bound s a la b lb p :
  multiplies mul bound -> dig la -> dig lb -> 1 < zlen la -> zlen la <= bound -> 0 < zlen lb <= zlen la ->
  seg s a la -> seg s b lb -> room s p (zlen la + zlen lb) ->
  exists k, mpkaratsuba mul a (zlen la) b (zlen lb) p s =
    (Ok tt, grow k (wr p (digits (length la + length lb) (val la * val lb)) s)).
Proof.
  intros Hm Da Db H1 Hb Hl Sa Sb Sp. unfold mpkaratsuba. rewrite kara_half by lia.
  set (n := Z.to_nat ((zlen la + 1) / 2)). replace ((zlen la + 1) / 2) with (Z.of_nat n) by (unfold n; dlia).
  assert (Hn : 2 * Z.of_nat n = zlen la \/ 2 * Z.of_nat n = zlen la + 1) by (unfold n; dlia).
  destruct (split_at la (Z.of_nat n)) as (u0 & u1 & Eu & Z1 & Z2); [lia|].
  destruct (kara_split lb n) as (v0 & v1 & Ev & -> & Hv1 & Hv0 & Hv); [done|lia|lia|].
  rewrite Eu in Da. rewrite Ev in Db. apply dig_app in Da as [Du0 Du1], Db as [Dv0 Dv1].
  set (t := (length (objs s), 0) : Ptr).
  rewrite (bind_ok _ _ _ _ _ (mallocz_ok (5 * (2 * Z.of_nat n + 1)) s ltac:(lia))).
  set (x := mkMpint _ _ _ _ _). fold (alloc x s). fold t.
  replace (zlen la - Z.of_nat n) with (zlen u1) by lia.
  assert (Lu0 : length u0 = n) by (unfold zlen in Z1; lia). assert (Lu1 : (length u1 <= n)%nat) by (unfold zlen in *; lia).
  replace (4 * Z.of_nat n + 1) with (Z.of_nat (2 * (2 * n + 1) - 1)) by lia.
  set (m := (2 * n + 1)%nat). replace (2 * Z.of_nat n + 1) with (Z.of_nat m) by lia.
  assert (S0 : seg (alloc x s) t (replicate (5 * m) 0)).
  { exists x. split; [by apply obj_alloc|]. unfold x. cbn [mp_p]. replace (Z.to_nat _) with (5 * m)%nat by lia. apply pts_all. }
  destruct (room_obj _ _ _ Sp) as (op & Ep). apply mpobj_lt in Ep.
  assert (Hσ : kara_store a b u0 u1 v0 v1 n t (alloc x s)).
  { destruct (seg_obj _ _ _ Sa) as (oa & Ea). destruct (seg_obj _ _ _ Sb) as (ob & Eb). apply mpobj_lt in Ea, Eb.
    split_and!; cbn [t fst]; [lia|lia|rewrite <- Eu; by apply seg_alloc|rewrite <- Ev; by apply seg_alloc|].
    eapply room_eq; [by apply seg_room|]. apply zlen_zeros. }
  assert (E0 : alloc x s = wr t (replicate m 0 ++ replicate m 0 ++ replicate m 0 ++ digits (2 * m) 0) (alloc x s)).
  { rewrite digits_0, <- !replicate_add. symmetry. apply wr_self. replace (m + (m + (m + 2 * m)))%nat with (5 * m)%nat by lia. done. }
  destruct (kara_products mul bound Hm a b u0 u1 v0 v1 n Lu0 Lu1 Hv1 Hv0 Hv Du0 Du1 Dv0 Dv1 ltac:(lia) ltac:(lia) t _ Hσ) as [k Ek].
  fold m in Ek. rewrite <- E0 in Ek. rewrite Z1 in Ek. exists (S k). etrans; [apply Ek|]. clear Ek.
  pose proof (fun g => kara_sum mul bound Hm a b u0 u1 v0 v1 n Lu0 Lu1 Hv1 Hv0 Hv Du0 Du1 Dv0 Dv1 ltac:(lia) ltac:(lia) t _ g (kara_grow _ _ _ _ _ _ _ _ k _ Hσ)) as Es.
  fold m in Es. rewrite Z1 in Es. etrans; [apply Es|]. clear Es.
  rewrite (kara_total_eq mul bound Hm a b u0 u1 v0 v1 n Lu0 Lu1 Hv1 Hv0 Hv Du0 Du1 Dv0 Dv1) by (done || lia). rewrite <- Eu, <- Ev.
  pose proof (kara_L_length u0 u1 v0 v1 n) as EL. fold m in EL. set (KL := digits m _ ++ _) in *.
  assert (HT : room (alloc x s) t (zlen (KL ++ digits (2 * m) (val la * val lb)))).
  { eapply room_eq; [by apply seg_room|]. rewrite zlen_app, EL, digits_zlen, zlen_zeros. lia. }
  assert (Ll : (length la + length lb <= 2 * m)%nat) by (unfold zlen in *; lia).
  assert (SR : seg (wr t (KL ++ digits (2 * m) (val la * val lb)) (grow k (alloc x s))) (padd t (3 * Z.of_nat m))
    (digits (length la + length lb) (val la * val lb))).
  { pose proof (seg_wr_same _ t _ _ (room_grow k _ _ _ HT) eq_refl) as S. set (y := wr t (KL ++ _) _) in *. apply seg_app in S as [_ S].
    rewrite EL, (digits_split _ (length la + length lb)) in S by done. by apply seg_app in S as [S _]. }
  rewrite (bind_ok _ _ _ _ _ (ldigs_ok _ _ _ (zlen la + zlen lb) SR ltac:(rewrite digits_zlen; unfold zlen; lia))).
  apply scratch_freed; [lia| |done]. eapply room_eq; [exact Sp|]. rewrite digits_zlen. unfold zlen. lia.
Qed.

(** ** mpvecmul *)

Lemma mpvecmul_rec_ok fuel : multiplies (mpvecmul_rec fuel) (Z.of_nat fuel).
Proof.
  induction fuel as [|fuel IH]; intros s a la b lb p Da Db H1 H2 Sa Sb Sp Aa Ab; pose proof (zlen_nonneg la); pose proof (zlen_nonneg lb); [lia|].
  cbn [mpvecmul_rec].
  assert (G : forall a la b lb, dig la -> dig lb -> zlen la < Z.of_nat (S fuel) -> zlen lb <= zlen la -> seg s a la -> seg s b lb ->
    seg s p (replicate (length la + length lb) 0) ->
    apart a (zlen la) p (zlen la + zlen lb) -> apart b (zlen lb) p (zlen la + zlen lb) ->
    exists k, (if (KARATSUBAMIN <=? zlen la) && (1 <? zlen lb) then mpkaratsuba (mpvecmul_rec fuel) a (zlen la) b (zlen lb) p
       else mpvecmul_loop (Z.to_nat (zlen lb)) 0 true a (zlen la) b p) s =
      (Ok tt, grow k (wr p (digits (length la + length lb) (val la * val lb)) s))).
  { clear - IH. intros a la b lb Da Db H1 H2 Sa Sb Sp Aa Ab. pose proof (zlen_nonneg lb).
    destruct (Z.leb_spec KARATSUBAMIN (zlen la)) as [Hk|Hk], (Z.ltb_spec 1 (zlen lb)) as [Hl|Hl]; cbn [andb].
    1:{ change KARATSUBAMIN with 32 in Hk. apply (mpkaratsuba_ok _ _ _ _ _ _ _ _ IH); try done; try lia.
        eapply room_eq; [by apply seg_room|]. rewrite zlen_zeros. unfold zlen. lia. }
    all: exists 0%nat; rewrite grow_0; replace (Z.to_nat (zlen lb)) with (length lb) by (unfold zlen; lia).
    all: pose proof (mpvecmul_loop_ok true a la b p lb s []) as E; cbn [app val length] in E;
      rewrite Z.mul_0_r, digits_0, Nat.add_0_r, padd_0, <- replicate_add in E; apply E; (done || by apply Forall_nil_2). }
  destruct (Z.ltb_spec (zlen la) (zlen lb)).
  - rewrite Nat.add_comm, (Z.mul_comm (val la)). apply G; try done; try lia.
    + by rewrite Nat.add_comm.
    + by rewrite Z.add_comm.
    + by rewrite Z.add_comm.
  - by apply G.
Qed.

Theorem mpvecmul_ok s a la b lb p :
  dig la -> dig lb -> seg s a la -> seg s b lb -> seg s p (replicate (length la + length lb) 0) ->
  apart a (zlen la) p (zlen la + zlen lb) -> apart b (zlen lb) p (zlen la + zlen lb) ->
  exists k, mpvecmul a (zlen la) b (zlen lb) p s =
    (Ok tt, grow k (wr p (digits (length la + length lb) (val la * val lb)) s)).
Proof.
  intros. pose proof (zlen_nonneg la). unfold mpvecmul. apply mpvecmul_rec_ok; (done || lia).
Qed.
