(* ===== verification/MpSafe.v ===== *)
(** * Multiple precision arithmetic: the constant-time vector operations

    [mpvectscmp] compares without branching on the digits and [mpvectsmul]
    multiplies without skipping zeros: the results are those of [mpveccmp] and
    of the product, but for equal numbers of which the second has more digits. *)
From S2P Require Import Prelude CMonad Mp MpVal MpVec MpMul.

(** ** Bits of a digit *)

Definition top (x : Z) : Z := x / 2 ^ 31.
Lemma top_shift x : Z.shiftr x (Dbits - 1) = top x.
Proof. apply Z.shiftr_div_pow2. done. Qed.
Lemma top_cases x : 0 <= x < B -> (top x = 0 /\ x < 2 ^ 31) \/ (top x = 1 /\ 2 ^ 31 <= x).
Proof. unfold top. rewrite B_eq. intros H. dlia. Qed.
Lemma top_u32 x : u32 x = x mod B /\ 0 <= u32 x < B.
Proof. rewrite u32_mod. split; [done|apply Z.mod_pos_bound, B_pos]. Qed.
Lemma notd_eq x : 0 <= x < B -> notd x = B - 1 - x.
Proof. intros H. unfold notd, Z.lnot. rewrite u32_mod, <- Z.sub_1_r, B_eq in *. dlia. Qed.

(** The bit [(-v^v|v)>>Dbits-1] tells whether [v] is zero. *)
Lemma nonzero_bit_eq v : 0 <= v < B -> nonzero_bit v = if v =? 0 then 0 else 1.
Proof.
  intros H. unfold nonzero_bit. rewrite Z.shiftr_lor, Z.shiftr_lxor, !top_shift. destruct (Z.eqb_spec v 0) as [->|Hn]; [done|].
  assert (E : u32 (- v) = B - v) by (rewrite u32_mod; rewrite B_eq in *; dlia). rewrite E.
  destruct (top_cases v H) as [[-> Hv]|[-> Hv]].
  - assert (top (B - v) = 1) as -> by (unfold top; rewrite B_eq in *; dlia). done.
  - destruct (top_cases (B - v)) as [[-> _]|[-> _]]; [rewrite B_eq in *; lia|done..].
Qed.

Lemma lor_digit x y : 0 <= x < B -> 0 <= y < B -> 0 <= Z.lor x y < B.
Proof.
  intros Hx Hy. assert (E : Z.lor x y = Z.lor x y mod B); [|rewrite E; apply Z.mod_pos_bound, B_pos].
  unfold B in *. rewrite <- Z.land_ones, Z.land_lor_distr_l, !Z.land_ones by lia. by rewrite !Z.mod_small.
Qed.

Lemma land_digit x y : 0 <= x < B -> 0 <= y < B -> 0 <= Z.land x y < B.
Proof.
  intros Hx Hy. assert (E : Z.land x y = Z.land x y mod B); [|rewrite E; apply Z.mod_pos_bound, B_pos].
  unfold B in *. rewrite <- Z.land_ones, <- Z.land_assoc, Z.land_ones by lia. by rewrite (Z.mod_small y).
Qed.

(** The borrow of [x - y]: its complement is the bit that says [x >= y]. *)
Lemma borrow_bit x y : 0 <= x < B -> 0 <= y < B ->
  Z.shiftr (notd (Z.lor (Z.lor (Z.land (notd x) y) (Z.land (notd x) (u32 (x - y)))) (Z.land y (u32 (x - y))))) (Dbits - 1) =
  if x <? y then 0 else 1.
Proof.
  intros Hx Hy. destruct (top_u32 (x - y)) as [Ez Hz]. set (z := u32 (x - y)) in *. set (nx := notd x).
  assert (En : nx = B - 1 - x) by (by apply notd_eq). assert (Hnx : 0 <= nx < B) by lia.
  set (w := Z.lor _ _). assert (Hw : 0 <= w < B) by (repeat apply lor_digit; by apply land_digit).
  rewrite notd_eq by done. rewrite top_shift.
  assert (Ew : top w = if x <? y then 1 else 0).
  { rewrite <- top_shift. unfold w. rewrite !Z.shiftr_lor, !Z.shiftr_land, !top_shift.
    destruct (top_cases nx Hnx) as [[-> T1]|[-> T1]], (top_cases y Hy) as [[-> T2]|[-> T2]], (top_cases z Hz) as [[-> T3]|[-> T3]];
      cbn; destruct (Z.ltb_spec x y); try done; exfalso; rewrite Ez, En, B_eq in *; dlia. }
  unfold top in *. rewrite B_eq in *. destruct (x <? y); dlia.
Qed.

(** ** mpvectscmp *)

Lemma high_or_ok h : forall l a v s, dig h -> 0 <= v < B -> seg s a (l ++ h) ->
  exists w, high_or (length h) a (zlen (l ++ h)) v s = (Ok w, s) /\ 0 <= w < B /\ (w = 0 <-> v = 0 /\ val h = 0).
Proof.
  induction h as [|x h IH] using rev_ind; intros l a v s Hh Hv Sa.
  { exists v. split_and!; [done|lia|lia|]. cbn. tauto. }
  apply dig_app in Hh as [Hh Hx]. apply dig_cons in Hx as [Hx _].
  rewrite length_app. cbn [length]. rewrite Nat.add_1_r. cbn [high_or].
  rewrite app_assoc in *. pose proof Sa as Sa0. apply seg_app in Sa0 as [Sa1 Sx].
  assert (Zl : zlen ((l ++ h) ++ [x]) - 1 = zlen (l ++ h)) by (rewrite (zlen_app _ [x]); change (zlen [x]) with 1; lia).
  rewrite Zl. rewrite (bind_ok _ _ _ _ _ (ldig_ok _ _ _ Sx)).
  destruct (IH l a (Z.lor v x) s Hh (lor_digit _ _ Hv Hx) Sa1) as (w & E & Hw & Iff). exists w. split_and!; [done|lia|lia|].
  rewrite Iff, Z.lor_eq_0_iff, val_snoc. pose proof (Z.pow_pos_nonneg B (zlen h) B_pos (zlen_nonneg h)). pose proof (val_bound _ Hh).
  split; [intros [[-> ->] ->]; lia|]. intros [-> E0]. assert (x = 0) by nia. subst. lia.
Qed.

(** [m] says that a difference was found and [p] on which side. *)
Lemma mpvectscmp_loop_ok la : forall lb a b m p s, length la = length lb -> dig la -> dig lb ->
  seg s a la -> seg s b lb -> 0 <= m <= 1 -> 0 <= p <= 1 ->
  mpvectscmp_loop (length la) a b m p s =
    (Ok (if m =? 1 then (1, p) else if val la =? val lb then (0, p) else (1, if val la <? val lb then 0 else 1)), s).
Proof.
  induction la as [|x la IH] using rev_ind; intros lb a b m p s El Ha Hb Sa Sb Hm Hp.
  { destruct lb; [|done]. cbn. unfold mret, M_ret. destruct (Z.eqb_spec m 1); do 3 f_equal; lia. }
  destruct (exists_last (l := lb)) as (lb' & y & ->); [intros ->; rewrite length_app in El; cbn in El; lia|].
  rewrite !length_app in El. cbn [length] in El. assert (El' : length la = length lb') by lia.
  apply dig_app in Ha as [Ha Hx], Hb as [Hb Hy]. apply dig_cons in Hx as [Hx _], Hy as [Hy _].
  apply seg_app in Sa as [Sa Sx], Sb as [Sb Sy].
  rewrite length_app. cbn [length]. rewrite Nat.add_1_r. cbn [mpvectscmp_loop].
  fold (zlen la). replace (zlen lb') with (zlen la) in Sy by (unfold zlen; lia).
  rewrite (bind_ok _ _ _ _ _ (ldig_ok _ _ _ Sx)), (bind_ok _ _ _ _ _ (ldig_ok _ _ _ Sy)).
  rewrite borrow_bit, nonzero_bit_eq by (done || apply top_u32).
  assert (Ez : (u32 (x - y) =? 0) = (x =? y)).
  { destruct (top_u32 (x - y)) as [E _]. rewrite E, B_eq in *. destruct (Z.eqb_spec x y); [apply Z.eqb_eq|apply Z.eqb_neq]; dlia. }
  rewrite Ez. rewrite !val_snoc. replace (zlen lb') with (zlen la) by (unfold zlen; lia).
  pose proof (Z.pow_pos_nonneg B (zlen la) B_pos (zlen_nonneg la)) as HB.
  pose proof (val_bound _ Ha) as Va. pose proof (val_bound _ Hb) as Vb.
  replace (zlen lb') with (zlen la) in Vb by (unfold zlen; lia).
  assert (Cm : m = 0 \/ m = 1) by lia. assert (Cp : p = 0 \/ p = 1) by lia.
  destruct (Z.eqb_spec x y) as [<-|Hxy].
  - assert (E1 : (val la + B ^ zlen la * x =? val lb' + B ^ zlen la * x) = (val la =? val lb')).
    { destruct (Z.eqb_spec (val la) (val lb')); [apply Z.eqb_eq|apply Z.eqb_neq]; lia. }
    assert (E2 : (val la + B ^ zlen la * x <? val lb' + B ^ zlen la * x) = (val la <? val lb')).
    { destruct (Z.ltb_spec (val la) (val lb')); [apply Z.ltb_lt|apply Z.ltb_ge]; lia. }
    rewrite E1, E2, Z.ltb_irrefl, Z.land_0_l, Z.lor_0_r, Z.land_0_r, Z.lor_0_l, Z.land_m1_r. by apply IH.
  - assert (E1 : (val la + B ^ zlen la * x =? val lb' + B ^ zlen la * y) = false) by (apply Z.eqb_neq; nia).
    assert (E2 : (val la + B ^ zlen la * x <? val lb' + B ^ zlen la * y) = (x <? y)).
    { destruct (Z.ltb_spec x y); [apply Z.ltb_lt|apply Z.ltb_ge]; nia. }
    rewrite E1, E2. destruct Cm as [->| ->], Cp as [->| ->], (x <? y);
      match goal with |- mpvectscmp_loop _ _ _ ?m ?p _ = _ => let m' := eval vm_compute in m in let p' := eval vm_compute in p in
        change m with m'; change p with p' end; rewrite (IH lb') by (done || lia); done.
Qed.

(** The part of the vectors that both have. *)
Lemma tscmp_tail la lb a b m p s : length la = length lb -> dig la -> dig lb -> seg s a la -> seg s b lb ->
  0 <= m <= 1 -> 0 <= p <= 1 ->
  ('(m, p) ← mpvectscmp_loop (length la) a b m p; mret (Z.lor (p - m) m)) s =
    (Ok (if m =? 1 then (if p =? 1 then 1 else -1)
         else if val la =? val lb then p else zcmp (val la) (val lb)), s).
Proof.
  intros El Ha Hb Sa Sb Hm Hp. rewrite (bind_ok _ _ _ _ _ (mpvectscmp_loop_ok la lb a b m p s El Ha Hb Sa Sb Hm Hp)).
  assert (Cm : m = 0 \/ m = 1) by lia. assert (Cp : p = 0 \/ p = 1) by lia. unfold zcmp.
  destruct Cm as [->| ->], Cp as [->| ->]; cbn; try done;
    destruct (Z.eqb_spec (val la) (val lb)), (Z.ltb_spec (val la) (val lb)); done || lia.
Qed.

(** What [mpvectscmp] returns. *)
Definition tscmp (la lb : list Z) : Z :=
  if (zlen la <? zlen lb) && (val la =? val lb) then 1 else zcmp (val la) (val lb).

Lemma mpvectscmp_ok s a la b lb : dig la -> dig lb -> seg s a la -> seg s b lb ->
  mpvectscmp a (zlen la) b (zlen lb) s = (Ok (tscmp la lb), s).
Proof.
  intros Ha Hb Sa Sb. unfold mpvectscmp, tscmp. pose proof (zlen_nonneg la). pose proof (zlen_nonneg lb).
  destruct (Z.ltb_spec (zlen lb) (zlen la)) as [Hl|Hl]; [|destruct (Z.ltb_spec (zlen la) (zlen lb)) as [Hl'|Hl']].
  - destruct (Z.ltb_spec (zlen la) (zlen lb)); [lia|]. cbn [andb].
    destruct (split_at la (zlen lb)) as (l1 & l2 & -> & Z1 & Z2); [lia|]. apply dig_app in Ha as [D1 D2].
    replace (Z.to_nat (zlen (l1 ++ l2) - zlen lb)) with (length l2) by (unfold zlen in *; lia).
    destruct (high_or_ok l2 l1 a 0 s D2 ltac:(done) Sa) as (w & E & Hw & Iff).
    erewrite bind_ok; [|rewrite (bind_ok _ _ _ _ _ E); done]. rewrite nonzero_bit_eq by done.
    replace (Z.to_nat _) with (length l1) by (unfold zlen in *; lia). apply seg_app in Sa as [Sa _].
    destruct (Z.eqb_spec w 0) as [Ew|Ew].
    + rewrite (tscmp_tail l1 lb) by (done || (unfold zlen in *; lia)). cbn [Z.eqb]. rewrite val_high_zero by tauto.
      unfold zcmp. destruct (Z.eqb_spec (val l1) (val lb)), (Z.ltb_spec (val l1) (val lb)); done || lia.
    + rewrite (tscmp_tail l1 lb) by (done || (unfold zlen in *; lia)). rewrite zcmp_high; try done; [rewrite Z1; by apply val_bound|tauto].
  - destruct (split_at lb (zlen la)) as (l1 & l2 & -> & Z1 & Z2); [lia|]. apply dig_app in Hb as [D1 D2].
    replace (Z.to_nat (zlen (l1 ++ l2) - zlen la)) with (length l2) by (unfold zlen in *; lia).
    destruct (high_or_ok l2 l1 b 0 s D2 ltac:(done) Sb) as (w & E & Hw & Iff).
    erewrite bind_ok; [|rewrite (bind_ok _ _ _ _ _ E); done]. rewrite nonzero_bit_eq by done.
    replace (Z.to_nat _) with (length la) by (unfold zlen in *; lia). apply seg_app in Sb as [Sb _]. cbn [andb].
    destruct (Z.eqb_spec w 0) as [Ew|Ew].
    + rewrite (tscmp_tail la l1) by (done || (unfold zlen in *; lia)). rewrite val_high_zero by tauto. done.
    + rewrite (tscmp_tail la l1) by (done || (unfold zlen in *; lia)).
      assert (Z1' : zcmp (val (l1 ++ l2)) (val la) = 1) by (apply zcmp_high; try done; [rewrite Z1; by apply val_bound|tauto]).
      rewrite (zcmp_sym (val (l1 ++ l2)) (val la)), Z1'. unfold zcmp in Z1'.
      destruct (Z.eqb_spec (val la) (val (l1 ++ l2))) as [Ee|]; [|done]. rewrite Ee, Z.ltb_irrefl, Z.eqb_refl in Z1'. done.
  - destruct (Z.ltb_spec (zlen la) (zlen lb)); [lia|]. cbn [andb]. rewrite bind_mret.
    replace (Z.to_nat _) with (length la) by (unfold zlen in *; lia).
    rewrite (tscmp_tail la lb) by (done || (unfold zlen in *; lia)). cbn [Z.eqb]. unfold zcmp.
    destruct (Z.eqb_spec (val la) (val lb)), (Z.ltb_spec (val la) (val lb)); done || lia.
Qed.

(** ** mpvectsmul *)

Lemma mpvectsmul_ok s a la b lb p :
  dig la -> dig lb -> seg s a la -> seg s b lb -> seg s p (replicate (length la + length lb) 0) ->
  apart a (zlen la) p (zlen la + zlen lb) -> apart b (zlen lb) p (zlen la + zlen lb) ->
  mpvectsmul a (zlen la) b (zlen lb) p s = (Ok tt, wr p (digits (length la + length lb) (val la * val lb)) s).
Proof.
  assert (G : forall a la b lb, dig la -> dig lb -> seg s a la -> seg s b lb ->
    seg s p (replicate (length la + length lb) 0) ->
    apart a (zlen la) p (zlen la + zlen lb) -> apart b (zlen lb) p (zlen la + zlen lb) ->
    (if zlen lb =? 0 then mret tt else mpvecmul_loop (Z.to_nat (zlen lb)) 0 false a (zlen la) b p) s =
      (Ok tt, wr p (digits (length la + length lb) (val la * val lb)) s)).
  { clear. intros a la b lb Da Db Sa Sb Sp Aa Ab. destruct (Z.eqb_spec (zlen lb) 0) as [E0|Hn].
    - apply zlen_0_inv in E0. subst lb. cbn [val length] in *. rewrite Z.mul_0_r, digits_0, wr_self by done. done.
    - replace (Z.to_nat (zlen lb)) with (length lb) by (unfold zlen; lia).
      pose proof (mpvecmul_loop_ok false a la b p lb s []) as E. cbn [app val length] in E.
      rewrite Z.mul_0_r, digits_0, Nat.add_0_r, padd_0, <- replicate_add in E. apply E; (done || by apply Forall_nil_2). }
  intros Da Db Sa Sb Sp Aa Ab. unfold mpvectsmul. destruct (Z.ltb_spec (zlen la) (zlen lb)).
  - rewrite Nat.add_comm, (Z.mul_comm (val la)). apply G; try done; [by rewrite Nat.add_comm|by rewrite Z.add_comm..].
  - by apply G.
Qed.
