(* ===== verification/MpInt.v ===== *)
(** * Multiple precision arithmetic: integers

    An object of the store as the integer it stands for ([mpz]), the normal
    form that the operations require and keep, and the operations that prepare
    and finish a result: [mpbits], [mpnorm], [mpassign].  Their effect is stated
    on the one object they change, [mp_put b (Some o') s], so that the same
    lemmas serve when the result is one of the operands. *)
From S2P Require Import Prelude CMonad Mp MpVal MpVec MpMul.

(** The digits in use, and what they stand for. *)
Definition mpd (o : Mpint) : list Z := take (Z.to_nat (mp_top o)) (mp_p o).
Definition mag (o : Mpint) : Z := val (mpd o).
Definition mpz (o : Mpint) : Z := mp_sign o * mag o.

(** Well formed: the sizes agree, the digits are digits, the flags are flags. *)
Record wf (o : Mpint) : Prop := mkwf {
  wf_size : mp_size o = zlen (mp_p o);
  wf_top : 0 <= mp_top o <= mp_size o;
  wf_dig : dig (mp_p o);
  wf_sign : mp_sign o = 1 \/ mp_sign o = -1;
  wf_flags : 0 <= mp_flags o < 16
}.
Definition plain (o : Mpint) : Prop := Z.land (mp_flags o) MPtimesafe = 0.
(** Normal: marked so, without leading zeros, and zero is positive. *)
Record normal (o : Mpint) : Prop := mknormal {
  normal_wf : wf o;
  normal_plain : plain o;
  normal_flag : Z.land (mp_flags o) MPnorm = MPnorm;
  normal_sign : mp_top o = 0 -> mp_sign o = 1;
  normal_lead : forall l x, mpd o = l ++ [x] -> x <> 0
}.
(** The flags of two objects agree but for [MPnorm]. *)
Definition same_flags (o o' : Mpint) : Prop := Z.lor (mp_flags o') MPnorm = Z.lor (mp_flags o) MPnorm.

(** ** Flags *)

Lemma flag_cases (P : Z -> Prop) : Forall P (seqZ 0 16) -> forall f, 0 <= f < 16 -> P f.
Proof. intros H f Hf. rewrite Forall_forall in H. apply H, list_elem_of_In, elem_of_seqZ. lia. Qed.
Ltac by_flags := match goal with
  | |- forall f : Z, 0 <= f < 16 -> @?P f => apply (flag_cases P); vm_compute; repeat (apply Forall_cons_2; [naive_solver|]); apply Forall_nil_2
  end.

Lemma flags_clear : forall f, 0 <= f < 16 -> 0 <= Z.land f (Z.lnot MPnorm) < 16.
Proof. by_flags. Qed.
Lemma flags_set : forall f, 0 <= f < 16 -> 0 <= Z.lor f MPnorm < 16.
Proof. by_flags. Qed.
Lemma flags_clear_set : forall f, 0 <= f < 16 -> Z.lor (Z.land f (Z.lnot MPnorm)) MPnorm = Z.lor f MPnorm.
Proof. by_flags. Qed.
(** What [mpassign] copies of the flags of a normal number. *)
Lemma flags_copied : forall f, 0 <= f < 16 -> Z.land f MPtimesafe = 0 -> Z.land f MPnorm = MPnorm ->
  Z.land f (Z.lnot (Z.lor MPstatic MPfield)) = MPnorm.
Proof. by_flags. Qed.
Lemma flags_plain : forall f, 0 <= f < 16 -> Z.land (Z.lor f MPnorm) MPtimesafe = Z.land f MPtimesafe.
Proof. by_flags. Qed.
Lemma flags_normal : forall f, 0 <= f < 16 -> Z.land (Z.lor f MPnorm) MPnorm = MPnorm.
Proof. by_flags. Qed.
Lemma flags_static : forall f, 0 <= f < 16 -> Z.land (Z.lor f MPnorm) MPstatic = Z.land f MPstatic.
Proof. by_flags. Qed.

Lemma same_flags_trans o o' o'' : same_flags o o' -> same_flags o' o'' -> same_flags o o''.
Proof. unfold same_flags. congruence. Qed.
Lemma same_flags_plain o o' : wf o -> wf o' -> same_flags o o' -> plain o -> plain o'.
Proof.
  intros W W' E H. unfold plain, same_flags in *. rewrite <- flags_plain by apply W'. rewrite E.
  by rewrite flags_plain by apply W.
Qed.
Lemma same_flags_static o o' : wf o -> wf o' -> same_flags o o' -> Z.land (mp_flags o') MPstatic = Z.land (mp_flags o) MPstatic.
Proof. intros W W' E. unfold same_flags in E. rewrite <- flags_static by apply W'. rewrite E. by rewrite flags_static by apply W. Qed.

(** ** Digits of an object *)

Lemma dig_take n l : dig l -> dig (take n l).
Proof. intros H. rewrite <- (take_drop n l) in H. by apply dig_app in H as [? _]. Qed.
Lemma dig_drop n l : dig l -> dig (drop n l).
Proof. intros H. rewrite <- (take_drop n l) in H. by apply dig_app in H as [_ ?]. Qed.
Lemma zlen_mpd o : wf o -> zlen (mpd o) = mp_top o.
Proof. intros [E [H1 H2] _ _ _]. unfold mpd, zlen in *. rewrite length_take. lia. Qed.
Lemma dig_mpd o : wf o -> dig (mpd o).
Proof. intros W. apply dig_take, W. Qed.
Lemma mag_bound o : wf o -> 0 <= mag o < B ^ mp_top o.
Proof. intros W. unfold mag. rewrite <- zlen_mpd by done. by apply val_bound, dig_mpd. Qed.
Lemma mag_nonneg o : wf o -> 0 <= mag o.
Proof. intros W. by apply (mag_bound o W). Qed.

Lemma pts_take n (p : list Z) : pts p 0 (take n p).
Proof. pose proof (pts_all p) as H. rewrite <- (take_drop n p) in H at 2. by apply pts_app in H as [? _]. Qed.

(** An object with a leading digit is at least a power of the base. *)
Lemma mag_lead o : normal o -> 0 < mp_top o -> B ^ (mp_top o - 1) <= mag o.
Proof.
  intros N Ht. pose proof (normal_wf _ N) as W. pose proof (zlen_mpd o W) as E. unfold mag.
  pose proof (dig_mpd o W) as D. pose proof (normal_lead _ N) as L.
  destruct (exists_last (l := mpd o)) as (l & x & El); [intros E0; rewrite E0 in E; cbn in E; change (zlen (@nil Z)) with 0 in E; lia|].
  specialize (L l x El). rewrite El in *. rewrite val_snoc. apply dig_app in D as [D Dx]. apply dig_cons in Dx as [Dx _].
  rewrite zlen_app in E. change (zlen [x]) with 1 in E. replace (mp_top o - 1) with (zlen l) by lia.
  pose proof (val_bound _ D). pose proof (Z.pow_pos_nonneg B (zlen l) B_pos (zlen_nonneg l)). nia.
Qed.
Lemma mag_zero o : normal o -> (mp_top o = 0 <-> mag o = 0).
Proof.
  intros N. pose proof (wf_top _ (normal_wf _ N)). split; intros E.
  - unfold mag, mpd. by rewrite E.
  - destruct (Z.eq_dec (mp_top o) 0) as [|Hn]; [done|]. pose proof (mag_lead o N ltac:(lia)).
    pose proof (Z.pow_pos_nonneg B (mp_top o - 1) B_pos ltac:(lia)). lia.
Qed.

(** ** The store with one object changed *)

Lemma seg_mpd s b o : mpobj b s = Some o -> seg s (b, 0) (mpd o).
Proof. intros E. exists o. split; [done|]. apply pts_take. Qed.
(** An operand is read back from a store whose result object has grown. *)
Lemma seg_view s b o b1 o1 : (b < length (objs s))%nat -> mpobj b1 s = Some o1 ->
  (b1 = b -> take (Z.to_nat (mp_top o1)) (mp_p o) = mpd o1) -> seg (mp_put b (Some o) s) (b1, 0) (mpd o1).
Proof.
  intros Hb E1 H. destruct (decide (b1 = b)) as [->|Hn].
  - exists o. split; [by apply mpobj_put|]. rewrite <- H by done. apply pts_take.
  - exists o1. split; [by rewrite mpobj_put_ne|]. apply pts_take.
Qed.
Lemma wr_put_same b i l o s : (b < length (objs s))%nat ->
  wr (b, i) l (mp_put b (Some o) s) = mp_put b (Some (mp_set_p (blit i l (mp_p o)) o)) s.
Proof. intros H. unfold wr. cbn [fst snd]. rewrite mpobj_put by done. by rewrite mp_put_put. Qed.
Lemma wr_obj b i l o s : mpobj b s = Some o -> wr (b, i) l s = mp_put b (Some (mp_set_p (blit i l (mp_p o)) o)) s.
Proof. intros E. unfold wr. cbn [fst snd]. by rewrite E. Qed.
Lemma room_put b i n o s : (b < length (objs s))%nat -> 0 <= i -> 0 <= n -> i + n <= zlen (mp_p o) -> room (mp_put b (Some o) s) (b, i) n.
Proof.
  intros H Hi Hn Hb. exists (slice i n (mp_p o)). split; [|apply zlen_slice; lia].
  exists o. split; [by apply mpobj_put|]. cbn. apply slice_pts; lia.
Qed.
Lemma upd_put b f o s : (b < length (objs s))%nat -> mp_upd b f (mp_put b (Some o) s) = (Ok tt, mp_put b (Some (f o)) s).
Proof. intros H. rewrite (mp_upd_ok b o) by (by apply mpobj_put). by rewrite mp_put_put. Qed.
Lemma objs_put b o s : length (objs (mp_put b o s)) = length (objs s).
Proof. unfold mp_put, set_objs. cbn. apply length_insert. Qed.

(** ** mpbits *)

Lemma DIGITS_eq m : 0 <= m -> DIGITS m = (m + 31) / 32.
Proof. intros H. unfold DIGITS. change Dbits with 32. rewrite Z.quot_div_nonneg by lia. f_equal. lia. Qed.
Lemma DIGITS_mul n : 0 <= n -> DIGITS (n * Dbits) = n.
Proof. intros H. change Dbits with 32. rewrite DIGITS_eq by lia. dlia. Qed.

(** What [mpbits] makes of an object: as it was, or with zeros above its digits. *)
Record grown (o : Mpint) (n : Z) (o' : Mpint) : Prop := mkgrown {
  grown_wf : wf o';
  grown_top : mp_top o' = Z.max (mp_top o) n;
  grown_digits : mpd o' = mpd o ++ replicate (Z.to_nat (n - mp_top o)) 0;
  grown_sign : mp_sign o' = mp_sign o;
  grown_flags : same_flags o o'
}.

Lemma mpbits_ok s b o m : mpobj b s = Some o -> wf o -> 0 <= m ->
  exists o', mpbits b m s = (Ok tt, mp_put b (Some o') s) /\ grown o (DIGITS m) o'.
Proof.
  intros Eo W Hm. pose proof (DIGITS_eq m Hm) as En. set (n := DIGITS m) in *. assert (0 <= n) by (rewrite En; apply Z.div_pos; lia). clear En.
  unfold mpbits. rewrite (bind_get _ _ _ _ Eo). fold n. pose proof (mpobj_lt _ _ _ Eo) as Hlt. pose proof W as [Es [T1 T2] D Hs Hf].
  destruct (Z.leb_spec n (mp_size o)) as [Hn|Hn]; cbn [andb].
  - destruct (Z.leb_spec n (mp_top o)) as [Ht|Ht].
    { exists o. split; [by rewrite mp_put_id|]. split; try done; [lia|]. replace (Z.to_nat (n - mp_top o)) with 0%nat by lia. by rewrite app_nil_r. }
    rewrite bind_mret. assert (R : room s (b, mp_top o) (n - mp_top o)).
    { rewrite <- (mp_put_id b o s Eo). apply room_put; (done || lia). }
    rewrite (bind_ok _ _ _ _ _ (zdigs_ok s (b, mp_top o) (n - mp_top o) ltac:(lia) R)). rewrite (wr_obj _ _ _ o), upd_put by done.
    eexists. split; [done|]. set (z := replicate _ 0). assert (Lz : length z = Z.to_nat (n - mp_top o)) by (unfold z; apply length_replicate).
    assert (Eb : blit (mp_top o) z (mp_p o) = mpd o ++ z ++ drop (Z.to_nat n) (mp_p o)).
    { unfold blit, mpd. do 3 f_equal. unfold zlen in *. lia. }
    assert (Lm : length (mpd o) = Z.to_nat (mp_top o)) by (pose proof (zlen_mpd o W); unfold zlen in *; lia).
    split.
    + split; cbn; rewrite ?Eb; rewrite ?zlen_app.
      * unfold zlen. rewrite Lz, Lm, length_drop. unfold zlen in *. lia.
      * lia.
      * apply dig_app; split; [by apply dig_mpd|]. apply dig_app; split; [apply zeros_dig|by apply dig_drop].
      * done.
      * by apply flags_clear.
    + cbn. lia.
    + unfold mpd at 1. cbn. rewrite Eb, app_assoc. fold z. rewrite take_app_le by (rewrite length_app; lia). apply take_ge. rewrite length_app. lia.
    + done.
    + unfold same_flags. cbn. by apply flags_clear_set.
  - rewrite (bind_ok _ _ _ _ _ (mp_upd_ok _ _ _ _ Eo)). set (g := slice 0 (mp_top o) (mp_p o) ++ _).
    assert (Lm : length (mpd o) = Z.to_nat (mp_top o)) by (pose proof (zlen_mpd o W); unfold zlen in *; lia).
    assert (Eg : g = mpd o ++ replicate (Z.to_nat (n - mp_top o)) 0) by done.
    assert (Zg : zlen g = n) by (rewrite Eg; unfold zlen; rewrite length_app, length_replicate; lia).
    erewrite bind_ok; [|apply zdigs_ok; [lia|apply room_put; (done || cbn; lia)]]. rewrite wr_put_same, upd_put by done. cbn [mp_p mp_set_p mp_sign mp_size mp_flags].
    assert (Eb : blit (mp_top o) (replicate (Z.to_nat (n - mp_top o)) 0) g = g).
    { unfold blit. rewrite Eg. rewrite take_app_le by lia. rewrite take_ge by lia. rewrite drop_ge; [by rewrite app_nil_r|].
      rewrite length_app, length_replicate. lia. }
    eexists. split; [done|]. cbn. rewrite Eb. split.
    + split; cbn; [by rewrite Zg|lia| |done|by apply flags_clear]. rewrite Eg. apply dig_app. split; [by apply dig_mpd|apply zeros_dig].
    + cbn. lia.
    + unfold mpd at 1. cbn. rewrite take_ge by (unfold zlen in Zg; lia). done.
    + done.
    + unfold same_flags. cbn. by apply flags_clear_set.
Qed.

(** ** mpnorm *)

Lemma mpnorm_loop_ok l : forall b s, dig l -> seg s (b, 0) l ->
  exists l', mpnorm_loop (length l) b s = (Ok (zlen l'), s) /\ l = l' ++ replicate (length l - length l') 0 /\
    (forall r x, l' = r ++ [x] -> x <> 0).
Proof.
  induction l as [|x l IH] using rev_ind; intros b s D Sq.
  { exists []. split_and!; [done|done|]. intros r x E. by destruct r. }
  apply dig_app in D as [D Dx]. pose proof Sq as S0. apply seg_app in S0 as [S1 Sx].
  rewrite length_app. cbn [length]. rewrite Nat.add_1_r. cbn [mpnorm_loop].
  assert (Ep : padd (b, 0) (zlen l) = (b, Z.of_nat (length l))) by done. rewrite Ep in Sx.
  rewrite (bind_ok _ _ _ _ _ (ldig_ok _ _ _ Sx)). destruct (Z.eqb_spec x 0) as [->|Hn]; cbn [negb].
  - destruct (IH b s D S1) as (l' & E & El & Hl). exists l'. split_and!; [done| |done].
    assert (Hle : (length l' <= length l)%nat) by (apply (f_equal length) in El; rewrite length_app in El; lia).
    replace (S (length l) - length l')%nat with ((length l - length l') + 1)%nat by lia.
    rewrite replicate_add. rewrite El at 1. by rewrite <- app_assoc.
  - exists (l ++ [x]). split_and!.
    + unfold mret, M_ret, zlen. rewrite length_app. cbn. do 3 f_equal. lia.
    + rewrite length_app. cbn. replace (_ - _)%nat with 0%nat by lia. by rewrite app_nil_r.
    + intros r y E. by apply app_inj_2 in E as [_ [= <-]].
Qed.

(** [mpnorm]: the same integer in normal form. *)
Lemma mpnorm_ok s b o : mpobj b s = Some o -> wf o -> plain o ->
  exists o', mpnorm b s = (Ok tt, mp_put b (Some o') s) /\ normal o' /\ mpz o' = mpz o /\ mag o' = mag o /\ mp_size o' = mp_size o /\
    mp_flags o' = Z.lor (mp_flags o) MPnorm.
Proof.
  intros Eo W P. unfold mpnorm. rewrite (bind_get _ _ _ _ Eo). rewrite P. cbn [Z.eqb negb].
  destruct (mpnorm_loop_ok (mpd o) b s (dig_mpd o W) (seg_mpd _ _ _ Eo)) as (l' & E & El & Hl).
  replace (Z.to_nat (mp_top o)) with (length (mpd o)) by (pose proof (zlen_mpd o W); unfold zlen in *; lia).
  rewrite (bind_ok _ _ _ _ _ E), (mp_upd_ok _ _ _ _ Eo). eexists. split; [done|].
  pose proof W as [Es [T1 T2] D Hs Hf]. pose proof (zlen_mpd o W) as Zm.
  assert (Hle : zlen l' <= mp_top o) by (rewrite <- Zm, El, zlen_app; pose proof (zlen_nonneg (replicate (length (mpd o) - length l') 0)); lia).
  set (o' := mkMpint _ _ _ _ _).
  assert (Ed : mpd o' = l').
  { unfold mpd. cbn. replace (take _ (mp_p o)) with (take (length l') (mpd o)).
    - rewrite El. rewrite take_app_le by lia. by apply take_ge.
    - unfold mpd, zlen in *. rewrite take_take. f_equal. lia. }
  assert (Em : mag o' = mag o) by (unfold mag; rewrite Ed, El, val_high_zero by apply val_zeros; done).
  pose proof (zlen_nonneg l').
  split_and!; try done.
  - split.
    + split; cbn; try done; [lia| |by apply flags_set]. destruct (zlen l' =? 0); tauto.
    + unfold plain. cbn. by rewrite flags_plain.
    + cbn. by apply flags_normal.
    + cbn. intros ->. done.
    + intros r x. rewrite Ed. apply Hl.
  - unfold mpz. rewrite Em. cbn. destruct (Z.eqb_spec (zlen l') 0) as [E0|]; [|done].
    unfold mag. rewrite El. apply zlen_0_inv in E0. rewrite E0. cbn [app]. rewrite val_zeros. lia.
Qed.
