(* ===== verification/MpAdd.v ===== *)
(** * Multiple precision arithmetic: comparison, addition, subtraction

    [mpassign], [mpmagcmp], [mpmagadd], [mpmagsub] on normal numbers: each
    leaves a normal number in its result object and changes nothing else, also
    when the result is one of the operands. *)
From S2P Require Import Prelude CMonad Mp MpVal MpVec MpMul MpSafe MpInt.

(** A number whose bits, with one digit more, an [int] counts. *)
Definition fits (n : Z) : Prop := (n + 1) * Dbits < 2 ^ 31.

Lemma cint_ok x s : - 2 ^ 31 <= x < 2 ^ 31 -> cint x s = (Ok x, s).
Proof. intros H. unfold cint. destruct (Z.leb_spec (-2 ^ 31) x), (Z.ltb_spec x (2 ^ 31)); try lia. done. Qed.

(** The result in normal form, with the flags of the object it is in. *)
Record result (o o' : Mpint) : Prop := mkresult { result_normal : normal o'; result_flags : same_flags o o' }.

Lemma set_top_wf o : wf o -> wf (mp_set_top 0 o).
Proof. intros [? [? ?] ? ? ?]. split; cbn; (done || lia). Qed.

Lemma mpassign_ok s b b' o n : mpobj b s = Some o -> mpobj b' s = Some n -> normal o -> wf n -> plain n -> fits (mp_top o) ->
  exists n', mpassign b b' s = (Ok tt, mp_put b' (Some n') s) /\ result n n' /\ mag n' = mag o /\ mp_sign n' = mp_sign o /\ mp_top n' = mp_top o.
Proof.
  intros Eo En N W P F. unfold mpassign. destruct (Nat.eqb_spec b b') as [<-|Hne].
  { rewrite Eo in En. injection En as <-. exists o. split_and!; try done. by rewrite mp_put_id. }
  pose proof (normal_wf _ N) as Wo. pose proof (wf_top _ Wo). unfold fits in F. pose proof (mpobj_lt _ _ _ En) as Hlt.
  rewrite (bind_get _ _ _ _ Eo), (bind_ok _ _ _ _ _ (mp_upd_ok _ _ _ _ En)).
  change Dbits with 32 in F. rewrite (bind_ok _ _ _ _ _ (cint_ok (Dbits * mp_top o) _ ltac:(change Dbits with 32; lia))).
  destruct (mpbits_ok (mp_put b' (Some (mp_set_top 0 n)) s) b' (mp_set_top 0 n) (Dbits * mp_top o)) as (g & Eg & G).
  { by apply mpobj_put. } { by apply set_top_wf. } { change Dbits with 32. lia. }
  rewrite mp_put_put in Eg. rewrite (bind_ok _ _ _ _ _ Eg). rewrite Z.mul_comm, DIGITS_mul in G by lia.
  rewrite (bind_ok _ _ _ _ _ (upd_put _ _ _ _ Hlt)).
  pose proof (zlen_mpd o Wo) as Zo. pose proof (grown_wf _ _ _ G) as [G1 [G2 G3] G4 G5 G6]. pose proof (grown_top _ _ _ G) as G7. cbn in G7.
  set (n1 := mkMpint _ _ _ _ _).
  assert (So : seg (mp_put b' (Some n1) s) (b, 0) (mpd o)) by (apply seg_view; done).
  rewrite (bind_ok _ _ _ _ _ (ldigs_ok _ _ _ _ So (eq_sym Zo))).
  rewrite (sdigs_ok (mp_put b' (Some n1) s) (b', 0) (mpd o)) by (apply room_put; cbn; (done || lia)).
  rewrite wr_put_same by done. set (r := mp_set_p (blit 0 (mpd o) (mp_p n1)) n1). exists r. split; [done|].
  assert (Ed : mpd r = mpd o).
  { unfold mpd at 1. cbn. rewrite blit_0, take_app_le by (unfold zlen in Zo; lia). apply take_ge. unfold zlen in Zo; lia. }
  assert (Ef : mp_flags n1 = Z.lor (Z.land (mp_flags g) (Z.lnot MPnorm)) MPnorm).
  { cbn. f_equal. apply flags_copied; [apply Wo|apply N|apply N]. }
  rewrite flags_clear_set in Ef by apply (grown_wf _ _ _ G).
  assert (Ef' : mp_flags n1 = Z.lor (mp_flags n) MPnorm) by (rewrite Ef; apply (grown_flags _ _ _ G)).
  split_and!; try done.
  - split; [split|].
    + split; cbn; [rewrite zlen_blit; lia|lia| |apply Wo|]. 
      * rewrite blit_0. apply dig_app. split; [by apply dig_mpd|by apply dig_drop].
      * change (0 <= mp_flags n1 < 16). rewrite Ef'. apply flags_set, W.
    + unfold plain. change (mp_flags r) with (mp_flags n1). rewrite Ef', flags_plain by apply W. done.
    + change (mp_flags r) with (mp_flags n1). rewrite Ef'. apply flags_normal, W.
    + apply (normal_sign _ N).
    + rewrite Ed. apply (normal_lead _ N).
    + unfold same_flags. change (mp_flags r) with (mp_flags n1). rewrite Ef'. clear. rewrite <- Z.lor_assoc. done.
  - unfold mag. by rewrite Ed.
Qed.

(** ** mpmagcmp, mpcmp *)

Lemma zcmp_sgn v w : zcmp v w = Z.sgn (v - w).
Proof. unfold zcmp. destruct (Z.ltb_spec v w), (Z.eqb_spec v w); lia. Qed.

Lemma land_lor_norm f g : Z.land f MPnorm = MPnorm -> (Z.land (Z.lor f g) MPnorm =? 0) = false.
Proof. intros H. rewrite Z.land_lor_distr_l, H. apply Z.eqb_neq. intros E. apply Z.lor_eq_0_iff in E as [E _]. done. Qed.
Lemma land_lor_plain f g : Z.land f MPtimesafe = 0 -> Z.land g MPtimesafe = 0 -> Z.land (Z.lor f g) MPtimesafe = 0.
Proof. intros H H'. by rewrite Z.land_lor_distr_l, H, H'. Qed.

Lemma mpmagcmp_ok s b1 b2 o1 o2 : mpobj b1 s = Some o1 -> mpobj b2 s = Some o2 -> normal o1 -> normal o2 ->
  exists c, mpmagcmp b1 b2 s = (Ok c, s) /\ Z.sgn c = Z.sgn (mag o1 - mag o2).
Proof.
  intros E1 E2 N1 N2. unfold mpmagcmp. rewrite (bind_get _ _ _ _ E1), (bind_get _ _ _ _ E2).
  rewrite land_lor_plain by (apply N1 || apply N2). cbn [Z.eqb negb].
  rewrite land_lor_norm by apply N1. cbn [negb andb].
  pose proof (normal_wf _ N1) as W1. pose proof (normal_wf _ N2) as W2. pose proof (wf_top _ W1). pose proof (wf_top _ W2).
  pose proof (mag_bound _ W1) as B1. pose proof (mag_bound _ W2) as B2.
  destruct (Z.eqb_spec (mp_top o1 - mp_top o2) 0) as [E|Hn]; cbn [negb].
  - rewrite <- (zlen_mpd o1), <- (zlen_mpd o2) by done.
    rewrite (mpveccmp_ok s _ _ _ _ (dig_mpd _ W1) (dig_mpd _ W2) (seg_mpd _ _ _ E1) (seg_mpd _ _ _ E2)).
    eexists. split; [done|]. rewrite zcmp_sgn. unfold mag. lia.
  - eexists. split; [done|]. destruct (Z.lt_ge_cases (mp_top o1) (mp_top o2)).
    + pose proof (mag_lead _ N2 ltac:(lia)). pose proof (Z.pow_le_mono_r B (mp_top o1) (mp_top o2 - 1) B_pos ltac:(lia)). lia.
    + pose proof (mag_lead _ N1 ltac:(lia)). pose proof (Z.pow_le_mono_r B (mp_top o2) (mp_top o1 - 1) B_pos ltac:(lia)). lia.
Qed.

Lemma mpz_sign o : normal o -> (mp_sign o = 1 /\ mpz o = mag o /\ 0 <= mag o) \/ (mp_sign o = -1 /\ mpz o = - mag o /\ 0 < mag o).
Proof.
  intros N. pose proof (normal_wf _ N) as W. pose proof (mag_nonneg _ W). destruct (wf_sign _ W) as [E|E]; [left|right]; unfold mpz; rewrite E.
  - split_and!; lia.
  - split_and!; try lia. destruct (Z.eq_dec (mag o) 0) as [E0|]; [|lia]. apply (mag_zero _ N), (normal_sign _ N) in E0. lia.
Qed.

Lemma mpcmp_ok s b1 b2 o1 o2 : mpobj b1 s = Some o1 -> mpobj b2 s = Some o2 -> normal o1 -> normal o2 ->
  exists c, mpcmp b1 b2 s = (Ok c, s) /\ Z.sgn c = Z.sgn (mpz o1 - mpz o2).
Proof.
  intros E1 E2 N1 N2. unfold mpcmp. rewrite (bind_get _ _ _ _ E1), (bind_get _ _ _ _ E2).
  destruct (mpmagcmp_ok s b1 b2 o1 o2 E1 E2 N1 N2) as (c & E & Hc). rewrite (bind_ok _ _ _ _ _ E).
  eexists. split; [done|].
  destruct (mpz_sign _ N1) as [(S1 & V1 & H1)|(S1 & V1 & H1)], (mpz_sign _ N2) as [(S2 & V2 & H2)|(S2 & V2 & H2)]; rewrite S1, S2, V1, V2.
  - change (Z.shiftr (1 - 1) 1) with 0. cbn [Z.land Z.sub Z.add Z.opp Z.pos_sub]. change (Z.land 0 1 - 1) with (-1). rewrite Z.land_m1_l, Z.lor_0_l. lia.
  - change (Z.lor _ _) with (Z.lor 1 (Z.land 0 (c * 1))). rewrite Z.land_0_l. change (Z.lor 1 0) with 1. lia.
  - change (Z.shiftr (-1 - 1) 1) with (-1). change (Z.land (-1) 1 - 1) with 0. rewrite Z.land_0_l. change (Z.lor (-1) 0) with (-1). lia.
  - change (Z.shiftr (-1 - -1) 1) with 0. change (Z.land 0 1 - 1) with (-1). rewrite Z.land_m1_l, Z.lor_0_l. lia.
Qed.

(** ** Sums *)

Lemma pass_timesafe_ok s b1 b2 r o1 o2 o : mpobj b1 s = Some o1 -> mpobj b2 s = Some o2 -> mpobj r s = Some o -> plain o1 -> plain o2 ->
  pass_timesafe b1 b2 r s = (Ok tt, s).
Proof.
  intros E1 E2 E P1 P2. unfold pass_timesafe. rewrite (bind_get _ _ _ _ E1), (bind_get _ _ _ _ E2), (mp_upd_ok _ _ _ _ E).
  rewrite land_lor_plain by done. rewrite Z.lor_0_r. destruct o. by rewrite mp_put_id.
Qed.

(** [mpnorm] of a result object in which digits were stored. *)
Lemma norm_put s b o n : (b < length (objs s))%nat -> wf o -> plain o -> same_flags n o ->
  exists r, mpnorm b (mp_put b (Some o) s) = (Ok tt, mp_put b (Some r) s) /\ result n r /\ mpz r = mpz o /\ mag r = mag o /\ mp_size r = mp_size o.
Proof.
  intros H W P F. destruct (mpnorm_ok (mp_put b (Some o) s) b o) as (r & E & N & Z1 & Z2 & Z3 & Ef); [by apply mpobj_put|done..|].
  rewrite mp_put_put in E. exists r. split_and!; try done. split; [done|]. apply (same_flags_trans _ o); [done|].
  unfold same_flags. rewrite Ef, <- Z.lor_assoc. done.
Qed.

(** Storing digits at the bottom of a result object with room for them. *)
Lemma blit_wf l o n : wf o -> dig l -> zlen l <= n <= mp_size o -> wf (mp_set_top n (mp_set_p (blit 0 l (mp_p o)) o)).
Proof.
  intros [H1 [H2 H3] H4 H5 H6] D Hl. pose proof (zlen_nonneg l). split; cbn; try done; [rewrite zlen_blit; lia|lia|].
  rewrite blit_0. apply dig_app. split; [done|by apply dig_drop].
Qed.
Lemma blit_mpd l o : wf o -> zlen l <= mp_size o -> mpd (mp_set_top (zlen l) (mp_set_p (blit 0 l (mp_p o)) o)) = l.
Proof.
  intros W Hl. unfold mpd. cbn. unfold zlen. rewrite Nat2Z.id, blit_0, take_app_le by lia. by apply take_ge.
Qed.
Lemma set_sign_mpd v o : mpd (mp_set_sign v o) = mpd o.
Proof. done. Qed.
Lemma set_sign_wf v o : wf o -> v = 1 \/ v = -1 -> wf (mp_set_sign v o).
Proof. intros [? ? ? ? ?] H. split; done. Qed.

Section magadd.
Context (s : MpStore) (b1 b2 sum : nat) (o1 o2 n : Mpint).
Context (E1 : mpobj b1 s = Some o1) (E2 : mpobj b2 s = Some o2) (En : mpobj sum s = Some n).
Context (N1 : normal o1) (N2 : normal o2) (W : wf n) (P : plain n) (F : fits (mp_top o1)) (Hle : mp_top o2 <= mp_top o1).

(** The result object once it has room for [k] digits. *)
Lemma operand_view g k b o : grown n k g -> mpobj b s = Some o ->
  b = sum -> take (Z.to_nat (mp_top o)) (mp_p g) = mpd o.
Proof using En W.
  intros G E ->. rewrite En in E. injection E as <-. pose proof (grown_digits _ _ _ G) as Ed. pose proof (grown_top _ _ _ G) as Et.
  apply (f_equal (take (Z.to_nat (mp_top n)))) in Ed. unfold mpd at 1 in Ed. rewrite take_take in Ed.
  rewrite Nat.min_l in Ed by lia. rewrite Ed. pose proof (zlen_mpd n W). rewrite take_app_le by (unfold zlen in *; lia).
  apply take_ge. unfold zlen in *. lia.
Qed.

Lemma magadd_main :
  exists r, (bits ← cint ((mp_top o1 + 1) * Dbits);
    _ ← mpbits sum bits;
    _ ← mp_upd sum (mp_set_top (mp_top o1 + 1));
    _ ← mpvecadd (b1, 0) (mp_top o1) (b2, 0) (mp_top o2) (sum, 0);
    _ ← mp_upd sum (mp_set_sign 1);
    mpnorm sum) s = (Ok tt, mp_put sum (Some r) s) /\ result n r /\ mag r = mag o1 + mag o2.
Proof using All.
  pose proof (normal_wf _ N1) as W1. pose proof (normal_wf _ N2) as W2. pose proof (wf_top _ W1). pose proof (wf_top _ W2).
  pose proof (mpobj_lt _ _ _ En) as Hlt. unfold fits in F.
  rewrite (bind_ok _ _ _ _ _ (cint_ok ((mp_top o1 + 1) * Dbits) _ ltac:(change Dbits with 32 in *; lia))).
  destruct (mpbits_ok s sum n ((mp_top o1 + 1) * Dbits) En W ltac:(change Dbits with 32; lia)) as (g & Eg & G).
  rewrite DIGITS_mul in G by lia. rewrite (bind_ok _ _ _ _ _ Eg). clear Eg. rewrite (bind_ok _ _ _ _ _ (upd_put _ _ _ _ Hlt)).
  pose proof (grown_wf _ _ _ G) as Wg. pose proof (grown_top _ _ _ G) as Tg. pose proof (wf_top _ Wg). pose proof (wf_size _ Wg).
  set (g1 := mp_set_top _ g). set (s1 := mp_put sum (Some g1) s).
  assert (S1 : seg s1 (b1, 0) (mpd o1)) by (apply seg_view; try done; intros E; by apply (operand_view g _ b1 _ G)).
  assert (S2 : seg s1 (b2, 0) (mpd o2)) by (apply seg_view; try done; intros E; by apply (operand_view g _ b2 _ G)).
  pose proof (mpvecadd_ok s1 (b1, 0) (mpd o1) (b2, 0) (mpd o2) (sum, 0) (dig_mpd _ W1) (dig_mpd _ W2)) as Ev.
  rewrite !zlen_mpd in Ev by done. erewrite bind_ok; [|apply Ev; try done].
  2:{ apply room_put; cbn; (done || lia). } 2:{ right. cbn. lia. } 2:{ right. cbn. lia. }
  set (l := digits _ _). assert (Zl : zlen l = mp_top o1 + 1).
  { unfold l. rewrite digits_zlen. pose proof (zlen_mpd o1 W1). unfold zlen in *. lia. }
  unfold s1. rewrite wr_put_same by done. rewrite (bind_ok _ _ _ _ _ (upd_put _ _ _ _ Hlt)).
  assert (Eg1 : mp_set_p (blit 0 l (mp_p g1)) g1 = mp_set_top (zlen l) (mp_set_p (blit 0 l (mp_p g)) g)) by (rewrite Zl; done).
  rewrite Eg1. assert (Wr : wf (mp_set_top (zlen l) (mp_set_p (blit 0 l (mp_p g)) g))).
  { apply blit_wf; [done|apply digits_dig|lia]. }
  destruct (norm_put s sum (mp_set_sign 1 (mp_set_top (zlen l) (mp_set_p (blit 0 l (mp_p g)) g))) n) as (r & Er & R & _ & Hm & _); try done.
  - apply set_sign_wf; [done|by left].
  - apply (same_flags_plain n g); (done || apply G).
  - apply G.
  - exists r. split_and!; try done. rewrite Hm. unfold mag at 1. rewrite set_sign_mpd, blit_mpd by (done || lia).
    unfold l. rewrite val_digits. fold (mag o1) (mag o2). apply Z.mod_small.
    replace (Z.of_nat (S (length (mpd o1)))) with (1 + mp_top o1) by (pose proof (zlen_mpd o1 W1); unfold zlen in *; lia).
    pose proof (mag_bound _ W1). pose proof (mag_bound _ W2). pose proof (Z.pow_le_mono_r B (mp_top o2) (mp_top o1) B_pos ltac:(lia)).
    rewrite Z.pow_add_r by lia. rewrite Z.pow_1_r. assert (2 <= B) by done. nia.
Qed.
End magadd.

(** The constant zero is in the store. *)
Definition has_zero (s : MpStore) : Prop := exists z, mpobj mpzero s = Some z /\ normal z /\ mag z = 0.

Lemma mpmagadd_ok s b1 b2 sum o1 o2 n : mpobj b1 s = Some o1 -> mpobj b2 s = Some o2 -> mpobj sum s = Some n ->
  normal o1 -> normal o2 -> wf n -> plain n -> has_zero s -> fits (Z.max (mp_top o1) (mp_top o2)) ->
  exists r, mpmagadd b1 b2 sum s = (Ok tt, mp_put sum (Some r) s) /\ result n r /\ mag r = mag o1 + mag o2.
Proof.
  intros E1 E2 En N1 N2 W P (z & Ez & Nz & Vz) F. pose proof (wf_top _ (normal_wf _ N1)). pose proof (wf_top _ (normal_wf _ N2)).
  unfold mpmagadd. rewrite (bind_ok _ _ _ _ _ (pass_timesafe_ok _ _ _ _ _ _ _ E1 E2 En (normal_plain _ N1) (normal_plain _ N2))).
  rewrite (bind_get _ _ _ _ E1), (bind_get _ _ _ _ E2).
  assert (G : forall b1 b2 o1 o2, mpobj b1 s = Some o1 -> mpobj b2 s = Some o2 -> normal o1 -> normal o2 ->
    fits (mp_top o1) -> 0 <= mp_top o2 <= mp_top o1 ->
    exists r, (if mp_top o1 =? 0 then mpassign mpzero sum
      else if mp_top o2 =? 0 then mpassign b1 sum
      else
        bits ← cint ((mp_top o1 + 1) * Dbits);
        _ ← mpbits sum bits;
        _ ← mp_upd sum (mp_set_top (mp_top o1 + 1));
        _ ← mpvecadd (b1, 0) (mp_top o1) (b2, 0) (mp_top o2) (sum, 0);
        _ ← mp_upd sum (mp_set_sign 1);
        mpnorm sum) s = (Ok tt, mp_put sum (Some r) s) /\ result n r /\ mag r = mag o1 + mag o2).
  { clear E1 E2 N1 N2 F H H0. clear b1 b2 o1 o2. intros b1 b2 o1 o2 E1 E2 N1 N2 F Hle.
    destruct (Z.eqb_spec (mp_top o1) 0) as [E0|Hn1]; [|destruct (Z.eqb_spec (mp_top o2) 0) as [E0|Hn2]].
    - assert (E0' : mp_top o2 = 0) by lia. apply (mag_zero _ N1) in E0. apply (mag_zero _ N2) in E0'. pose proof Vz as Tz. apply (mag_zero _ Nz) in Tz.
      destruct (mpassign_ok s mpzero sum z n Ez En Nz W P) as (r & Er & R & Hm & _); [unfold fits; by rewrite Tz|].
      exists r. split_and!; [done..|lia].
    - apply (mag_zero _ N2) in E0. destruct (mpassign_ok s b1 sum o1 n E1 En N1 W P F) as (r & Er & R & Hm & _).
      exists r. split_and!; [done..|lia].
    - apply magadd_main; (done || lia). }
  destruct (Z.ltb_spec (mp_top o1) (mp_top o2)).
  - destruct (G b2 b1 o2 o1) as (r & Er & R & Hm); try done; [by rewrite Z.max_r in F by lia|lia|]. exists r. split_and!; [done..|lia].
  - destruct (G b1 b2 o1 o2) as (r & Er & R & Hm); try done; [by rewrite Z.max_l in F by lia|lia|]. eauto.
Qed.

(** ** Differences *)

Lemma mpmagsub_main s b1 b2 diff o1 o2 n sign : mpobj b1 s = Some o1 -> mpobj b2 s = Some o2 -> mpobj diff s = Some n ->
  normal o1 -> normal o2 -> wf n -> plain n -> fits (mp_top o1) -> mag o2 <= mag o1 -> sign = 1 \/ sign = -1 /\ mag o2 < mag o1 ->
  exists r, (if mp_top o2 =? 0 then _ ← mpassign b1 diff; mp_upd diff (mp_set_sign sign)
    else
      bits ← cint (mp_top o1 * Dbits);
      _ ← mpbits diff bits;
      _ ← mpvecsub (b1, 0) (mp_top o1) (b2, 0) (mp_top o2) (diff, 0);
      _ ← mp_upd diff (fun o => mp_set_top (mp_top o1) (mp_set_sign sign o));
      mpnorm diff) s = (Ok tt, mp_put diff (Some r) s) /\ result n r /\ mpz r = sign * (mag o1 - mag o2).
Proof.
  intros E1 E2 En N1 N2 W P F Hle Hs. pose proof (mpobj_lt _ _ _ En) as Hlt.
  pose proof (normal_wf _ N1) as W1. pose proof (normal_wf _ N2) as W2. pose proof (wf_top _ W1). pose proof (wf_top _ W2).
  destruct (Z.eqb_spec (mp_top o2) 0) as [E0|Hn].
  - apply (mag_zero _ N2) in E0.
    destruct (mpassign_ok s b1 diff o1 n E1 En N1 W P F) as (r & Er & [Nr Fr] & Hm & _ & Ht). rewrite (bind_ok _ _ _ _ _ Er), upd_put by done.
    eexists. split; [done|]. pose proof (normal_wf _ Nr) as Wr. split.
    + split; [|done]. split; [apply set_sign_wf; [done|lia]|apply Nr|apply Nr| |apply (normal_lead _ Nr)].
      cbn. rewrite Ht. intros Hz. destruct Hs as [->|[_ Hs]]; [done|]. apply (mag_zero _ N1) in Hz. lia.
    + unfold mpz, mag at 1. rewrite set_sign_mpd. fold (mag r). rewrite Hm, E0. cbn. lia.
  - assert (Ht : mp_top o2 <= mp_top o1).
    { destruct (Z.le_gt_cases (mp_top o2) (mp_top o1)); [done|]. pose proof (mag_lead _ N2 ltac:(lia)). pose proof (mag_bound _ W1).
      pose proof (Z.pow_le_mono_r B (mp_top o1) (mp_top o2 - 1) B_pos ltac:(lia)). lia. }
    unfold fits in F. rewrite (bind_ok _ _ _ _ _ (cint_ok (mp_top o1 * Dbits) _ ltac:(change Dbits with 32 in *; lia))).
    destruct (mpbits_ok s diff n (mp_top o1 * Dbits) En W ltac:(change Dbits with 32; lia)) as (g & Eg & G).
    rewrite DIGITS_mul in G by lia. rewrite (bind_ok _ _ _ _ _ Eg). clear Eg.
    pose proof (grown_wf _ _ _ G) as Wg. pose proof (grown_top _ _ _ G) as Tg. pose proof (wf_top _ Wg). pose proof (wf_size _ Wg).
    set (s1 := mp_put diff (Some g) s).
    assert (S1 : seg s1 (b1, 0) (mpd o1)) by (apply seg_view; try done; intros E; by apply (operand_view s diff n En W g _ b1 _ G)).
    assert (S2 : seg s1 (b2, 0) (mpd o2)) by (apply seg_view; try done; intros E; by apply (operand_view s diff n En W g _ b2 _ G)).
    pose proof (mpvecsub_ok s1 (b1, 0) (mpd o1) (b2, 0) (mpd o2) (diff, 0) (dig_mpd _ W1) (dig_mpd _ W2)) as Ev.
    rewrite !zlen_mpd in Ev by done. erewrite bind_ok; [|apply Ev; try done].
    2:{ apply room_put; cbn; (done || lia). } 2:{ right. cbn. lia. } 2:{ right. cbn. lia. }
    set (l := digits _ _). assert (Zl : zlen l = mp_top o1) by (unfold l; rewrite digits_zlen; by apply zlen_mpd).
    unfold s1. rewrite wr_put_same by done. rewrite (bind_ok _ _ _ _ _ (upd_put _ _ _ _ Hlt)).
    rewrite <- Zl. set (x := mp_set_top (zlen l) (mp_set_p (blit 0 l (mp_p g)) g)).
    change (mp_set_top (zlen l) (mp_set_sign sign (mp_set_p (blit 0 l (mp_p g)) g))) with (mp_set_sign sign x).
    destruct (norm_put s diff (mp_set_sign sign x) n) as (r & Er & R & Hz & _ & _); try done.
    + apply set_sign_wf; [|lia]. apply blit_wf; [done|apply digits_dig|lia].
    + apply (same_flags_plain n g); (done || apply G).
    + apply G.
    + exists r. split_and!; try done. rewrite Hz. unfold mpz, mag at 1. rewrite set_sign_mpd. unfold x. rewrite blit_mpd by (done || lia).
      unfold l. rewrite val_digits. fold (mag o1) (mag o2). cbn [mp_sign mp_set_sign]. f_equal. apply Z.mod_small.
      fold (zlen (mpd o1)). rewrite zlen_mpd by done. pose proof (mag_bound _ W1). pose proof (mag_bound _ W2). lia.
Qed.

Lemma mpmagsub_ok s b1 b2 diff o1 o2 n : mpobj b1 s = Some o1 -> mpobj b2 s = Some o2 -> mpobj diff s = Some n ->
  normal o1 -> normal o2 -> wf n -> plain n -> fits (Z.max (mp_top o1) (mp_top o2)) ->
  exists r, mpmagsub b1 b2 diff s = (Ok tt, mp_put diff (Some r) s) /\ result n r /\ mpz r = mag o1 - mag o2.
Proof.
  intros E1 E2 En N1 N2 W P F. unfold mpmagsub. destruct (mpmagcmp_ok s b1 b2 o1 o2 E1 E2 N1 N2) as (c & Ec & Hc).
  rewrite (bind_ok _ _ _ _ _ Ec). assert (F12 : fits (mp_top o1) /\ fits (mp_top o2)) by (unfold fits in *; change Dbits with 32 in *; lia).
  destruct F12 as [F1 F2]. destruct (Z.ltb_spec c 0).
  - assert (T : timesafe3 o1 o2 n = false).
    { unfold timesafe3. rewrite land_lor_plain; [done| |done]. by apply land_lor_plain; apply normal_plain. }
    erewrite bind_ok; [|rewrite (bind_get _ _ _ _ E1), (bind_get _ _ _ _ E2), (bind_get _ _ _ _ En), T; done].
    cbn beta iota. rewrite (bind_get _ _ _ _ E2), (bind_get _ _ _ _ E1).
    destruct (mpmagsub_main s b2 b1 diff o2 o1 n (-1)) as (r & Er & R & Hz); try done; [lia|right; lia|]. exists r. split_and!; [done..|lia].
  - erewrite bind_ok; [|rewrite (bind_ok _ _ _ _ _ (pass_timesafe_ok _ _ _ _ _ _ _ E1 E2 En (normal_plain _ N1) (normal_plain _ N2))); done].
    cbn beta iota. rewrite (bind_get _ _ _ _ E1), (bind_get _ _ _ _ E2).
    destruct (mpmagsub_main s b1 b2 diff o1 o2 n 1) as (r & Er & R & Hz); try done; [lia|by left|]. exists r. split_and!; [done..|lia].
Qed.

(** ** mpadd, mpsub *)

Lemma result_sign n r sign : result n r -> sign = 1 \/ sign = -1 -> mp_top r <> 0 -> result n (mp_set_sign sign r).
Proof.
  intros [N F] Hs Ht. split; [|done]. pose proof (normal_wf _ N). split; [by apply set_sign_wf|apply N|apply N|done|apply (normal_lead _ N)].
Qed.
Lemma timesafe3_plain o1 o2 o3 : plain o1 -> plain o2 -> plain o3 -> timesafe3 o1 o2 o3 = false.
Proof. intros. unfold timesafe3. rewrite land_lor_plain; [done|by apply land_lor_plain|done]. Qed.

Section addsub.
Context (s : MpStore) (b1 b2 r : nat) (o1 o2 n : Mpint).
Context (E1 : mpobj b1 s = Some o1) (E2 : mpobj b2 s = Some o2) (En : mpobj r s = Some n).
Context (N1 : normal o1) (N2 : normal o2) (W : wf n) (P : plain n) (Hz : has_zero s) (F : fits (Z.max (mp_top o1) (mp_top o2))).

(** The sum of the magnitudes with the sign of the first operand. *)
Lemma magadd_signed sign : sign = 1 \/ sign = -1 /\ 0 < mag o1 -> forall f : () -> M MpStore (),
  (forall x, result n x -> mag x = mag o1 + mag o2 -> exists y, f tt (mp_put r (Some x) s) = (Ok tt, mp_put r (Some y) s) /\ result n y /\ mpz y = sign * mag x) ->
  exists y, (x ← mpmagadd b1 b2 r; f x) s = (Ok tt, mp_put r (Some y) s) /\ result n y /\ mpz y = sign * (mag o1 + mag o2).
Proof using All.
  intros Hs f Hf. destruct (mpmagadd_ok s b1 b2 r o1 o2 n) as (x & Ex & Rx & Hm); try done. rewrite (bind_ok _ _ _ _ _ Ex).
  destruct (Hf x Rx Hm) as (y & Ey & Ry & Hy). exists y. split_and!; [done..|]. by rewrite <- Hm.
Qed.

Lemma mpadd_ok : exists y, mpadd b1 b2 r s = (Ok tt, mp_put r (Some y) s) /\ result n y /\ mpz y = mpz o1 + mpz o2.
Proof using All.
  pose proof (mpobj_lt _ _ _ En) as Hlt. unfold mpadd. rewrite (bind_get _ _ _ _ E1), (bind_get _ _ _ _ E2).
  pose proof (mpz_sign _ N1) as C1. pose proof (mpz_sign _ N2) as C2.
  destruct (Z.eqb_spec (mp_sign o1) (mp_sign o2)) as [Es|Es]; cbn [negb].
  - destruct (magadd_signed (mp_sign o1) ltac:(lia) (fun _ => o ← mp_get r; if negb (mp_top o =? 0) then mp_upd r (mp_set_sign (mp_sign o1)) else mret tt))
      as (y & Ey & Ry & Hy); [|exists y; split_and!; try done; lia].
    intros x Rx Hm. rewrite (bind_get _ x) by (by apply mpobj_put). destruct (Z.eqb_spec (mp_top x) 0) as [Ht|Ht]; cbn [negb].
    + exists x. split_and!; try done. pose proof Ht as H0. apply (mag_zero _ (result_normal _ _ Rx)) in H0. unfold mpz. rewrite H0. lia.
    + rewrite upd_put by done. eexists. split; [done|]. split; [apply result_sign; (done || lia)|done].
  - rewrite (bind_get _ _ _ _ En), timesafe3_plain by (done || apply N1 || apply N2). cbn [negb assert_]. rewrite bind_mret.
    destruct (Z.ltb_spec (mp_sign o1) 0).
    + destruct (mpmagsub_ok s b2 b1 r o2 o1 n) as (y & Ey & Ry & Hy); try done; [by rewrite Z.max_comm|]. exists y. split_and!; [done..|lia].
    + destruct (mpmagsub_ok s b1 b2 r o1 o2 n) as (y & Ey & Ry & Hy); try done. exists y. split_and!; [done..|lia].
Qed.

Lemma mpsub_ok : exists y, mpsub b1 b2 r s = (Ok tt, mp_put r (Some y) s) /\ result n y /\ mpz y = mpz o1 - mpz o2.
Proof using All.
  pose proof (mpobj_lt _ _ _ En) as Hlt. unfold mpsub. rewrite (bind_get _ _ _ _ E1), (bind_get _ _ _ _ E2).
  pose proof (mpz_sign _ N1) as C1. pose proof (mpz_sign _ N2) as C2.
  destruct (Z.eqb_spec (mp_sign o1) (mp_sign o2)) as [Es|Es]; cbn [negb].
  - destruct (mpmagsub_ok s b1 b2 r o1 o2 n) as (x & Ex & Rx & Hx); try done. rewrite (bind_ok _ _ _ _ _ Ex), (bind_get _ x) by (by apply mpobj_put).
    pose proof (mpz_sign _ (result_normal _ _ Rx)) as Cx.
    destruct (Z.eqb_spec (mp_top x) 0) as [Ht|Ht]; cbn [negb].
    + exists x. split_and!; try done. apply (mag_zero _ (result_normal _ _ Rx)) in Ht. lia.
    + rewrite upd_put by done. eexists. split; [done|]. split; [apply result_sign; (done || lia)|].
      unfold mpz, mag at 1. rewrite set_sign_mpd. fold (mag x). cbn [mp_sign mp_set_sign]. 
      replace (mp_sign x * mp_sign o1 * mag x) with (mp_sign o1 * mpz x) by (unfold mpz; lia). rewrite Hx. lia.
  - rewrite (bind_get _ _ _ _ En), timesafe3_plain by (done || apply N1 || apply N2). cbn [negb assert_]. rewrite bind_mret.
    destruct (magadd_signed (mp_sign o1) ltac:(lia) (fun _ => mp_upd r (mp_set_sign (mp_sign o1)))) as (y & Ey & Ry & Hy); [|exists y; split_and!; try done; lia].
    intros x Rx Hm. rewrite upd_put by done. eexists. split; [done|]. split; [|done]. apply result_sign; [done|lia|].
    intros Ht. apply (mag_zero _ (result_normal _ _ Rx)) in Ht. lia.
Qed.
End addsub.
