(* ===== verification/MpProd.v ===== *)
(** * Multiple precision arithmetic: products

    [mpmul]: the product of two normal numbers, in any object that is not
    static when it is one of the operands; the objects the run allocates are
    freed. *)
From S2P Require Import Prelude CMonad Mp MpVal MpVec MpMul MpSafe MpInt MpAdd.

(** ** Allocation *)

Definition fresh (k : Z) : Mpint := mkMpint 1 k 0 (replicate (Z.to_nat k) 0) MPnorm.

Lemma fresh_wf k : 0 <= k -> wf (fresh k).
Proof.
  intros H. split; cbn; [|lia|apply zeros_dig|by left|done]. rewrite zlen_zeros. lia.
Qed.
Lemma mpnew_ok m s : 0 <= m -> mpnew m s = (Ok (length (objs s)), alloc (fresh (Z.max (DIGITS m) (mpmindigits s))) s).
Proof.
  intros H. unfold mpnew. destruct (Z.ltb_spec m 0); [lia|]. rewrite bind_gets. cbn beta zeta. rewrite bind_gets, bind_modify.
  unfold mret, M_ret. f_equal. unfold alloc, fresh. destruct (Z.ltb_spec (DIGITS m) (mpmindigits s)); [rewrite Z.max_r by lia|rewrite Z.max_l by lia]; done.
Qed.
Lemma DIGITS_nonneg m : 0 <= m -> 0 <= DIGITS m.
Proof. intros H. rewrite DIGITS_eq by done. apply Z.div_pos; lia. Qed.

Lemma alloc_at x s : mpobj (length (objs s)) (alloc x s) = Some x.
Proof. apply obj_alloc. Qed.
Lemma alloc_old x s b o : mpobj b s = Some o -> mpobj b (alloc x s) = Some o.
Proof. apply obj_old. Qed.
Lemma put_alloc_new x y s : mp_put (length (objs s)) (Some y) (alloc x s) = alloc y s.
Proof.
  unfold mp_put, alloc, set_objs. cbn. f_equal. rewrite insert_app_r_alt, Nat.sub_diag by lia. done.
Qed.
Lemma put_alloc_old b o x s : (b < length (objs s))%nat -> mp_put b o (alloc x s) = alloc x (mp_put b o s).
Proof. intros H. unfold mp_put, alloc, set_objs. cbn. f_equal. by apply insert_app_l. Qed.
Lemma objs_alloc x s : length (objs (alloc x s)) = S (length (objs s)).
Proof. unfold alloc, set_objs. cbn. rewrite length_app. cbn. lia. Qed.
Lemma objs_grow k s : (length (objs s) <= length (objs (grow k s)))%nat.
Proof. unfold grow, set_objs. cbn. rewrite length_app. lia. Qed.

(** [mpfree] of the object that a run allocated first. *)
Lemma mpfree_alloc x k s : wf x -> Z.land (mp_flags x) MPstatic = 0 ->
  mpfree (length (objs s)) (grow k (alloc x s)) = (Ok tt, grow (S k) s).
Proof.
  intros W H. set (b := length (objs s)). set (s1 := grow k (alloc x s)).
  assert (E : mpobj b s1 = Some x) by (apply mpobj_grow, alloc_at). assert (Hlt : (b < length (objs s1))%nat) by (by eapply mpobj_lt).
  unfold mpfree. rewrite (bind_get _ _ _ _ E), H. cbn [Z.eqb negb].
  assert (R : room s1 (b, 0) (mp_size x)).
  { rewrite <- (mp_put_id b x s1 E). pose proof (wf_top _ W). apply room_put; [done|lia|lia|]. pose proof (wf_size _ W). lia. }
  pose proof (wf_top _ W). rewrite (bind_ok _ _ _ _ _ (zdigs_ok s1 (b, 0) (mp_size x) ltac:(lia) R)).
  rewrite (wr_obj _ _ _ x) by done. unfold free. erewrite bind_get by (by apply mpobj_put). unfold modify. rewrite mp_put_put.
  unfold s1, b. by rewrite free_alloc.
Qed.

(** ** mpmul *)

Section mul.
Context (s : MpStore) (b1 b2 prod : nat) (o1 o2 n : Mpint).
Context (E1 : mpobj b1 s = Some o1) (E2 : mpobj b2 s = Some o2) (En : mpobj prod s = Some n).
Context (N1 : normal o1) (N2 : normal o2) (W : wf n) (P : plain n) (H1 : prod <> b1) (H2 : prod <> b2).
Context (F : (mp_top o1 + mp_top o2 + 1) * Dbits < 2 ^ 31).

(** [mpmul] when the result is neither operand, and what follows. *)
Lemma mul_main (f : () -> M MpStore ()) : exists r k, result n r /\ mpz r = mpz o1 * mpz o2 /\
  (_ ← pass_timesafe b1 b2 prod;
   _ ← mp_upd prod (mp_set_top 0);
   o1 ← mp_get b1; o2 ← mp_get b2;
   bits ← cint ((mp_top o1 + mp_top o2 + 1) * Dbits);
   _ ← mpbits prod bits;
   o ← mp_get prod;
   _ ← (if negb (Z.land (mp_flags o) MPtimesafe =? 0)
        then mpvectsmul (b1, 0) (mp_top o1) (b2, 0) (mp_top o2) (prod, 0)
        else mpvecmul (b1, 0) (mp_top o1) (b2, 0) (mp_top o2) (prod, 0));
   _ ← mp_upd prod (fun o => mp_set_top (mp_top o1 + mp_top o2 + 1) (mp_set_sign (mp_sign o1 * mp_sign o2) o));
   x ← mpnorm prod;
   f x) s = f tt (grow k (mp_put prod (Some r) s)).
Proof using All.
  pose proof (normal_wf _ N1) as W1. pose proof (normal_wf _ N2) as W2. pose proof (wf_top _ W1). pose proof (wf_top _ W2).
  pose proof (mpobj_lt _ _ _ En) as Hlt. set (t := mp_top o1 + mp_top o2 + 1) in *. assert (Ht : 0 < t) by lia.
  destruct (mpbits_ok (mp_put prod (Some (mp_set_top 0 n)) s) prod (mp_set_top 0 n) (t * Dbits)) as (g & Eg & G).
  { by apply mpobj_put. } { by apply set_top_wf. } { change Dbits with 32. lia. }
  rewrite mp_put_put in Eg. rewrite DIGITS_mul in G by lia.
  pose proof (grown_wf _ _ _ G) as Wg. pose proof (grown_top _ _ _ G) as Tg. cbn in Tg. rewrite Z.max_r in Tg by lia.
  pose proof (wf_top _ Wg). pose proof (wf_size _ Wg). pose proof (zlen_mpd _ W1) as Z1. pose proof (zlen_mpd _ W2) as Z2.
  set (s1 := mp_put prod (Some g) s) in *.
  assert (S1 : seg s1 (b1, 0) (mpd o1)) by (apply seg_view; done).
  assert (S2 : seg s1 (b2, 0) (mpd o2)) by (apply seg_view; done).
  assert (S3 : seg s1 (prod, 0) (replicate (length (mpd o1) + length (mpd o2)) 0)).
  { pose proof (seg_mpd s1 prod g ltac:(by apply mpobj_put)) as Sg. rewrite (grown_digits _ _ _ G) in Sg. cbn in Sg.
    change (mpd (mp_set_top 0 n)) with (@nil Z) in Sg. cbn [app] in Sg.
    replace (Z.to_nat (t - 0)) with ((length (mpd o1) + length (mpd o2)) + 1)%nat in Sg by (unfold zlen in *; lia).
    rewrite replicate_add in Sg. by apply seg_app in Sg as [Sg _]. }
  destruct (mpvecmul_ok s1 (b1, 0) (mpd o1) (b2, 0) (mpd o2) (prod, 0) (dig_mpd _ W1) (dig_mpd _ W2) S1 S2 S3) as [k Ek]; [left; cbn; congruence..|].
  rewrite Z1, Z2 in Ek. set (l := digits _ _) in Ek. unfold s1 in Ek. rewrite wr_put_same in Ek by done.
  set (x := mp_set_p (blit 0 l (mp_p g)) g) in Ek.
  set (y := mp_set_top t (mp_set_sign (mp_sign o1 * mp_sign o2) x)).
  assert (Zl : zlen l = t - 1) by (unfold l; rewrite digits_zlen; unfold zlen in *; lia).
  assert (Dy : mpd y = l ++ [0]).
  { unfold mpd, y, x. cbn. rewrite blit_0. pose proof (grown_digits _ _ _ G) as Ed. change (mpd (mp_set_top 0 n)) with (@nil Z) in Ed. cbn in Ed.
    unfold mpd in Ed. rewrite Tg in Ed. rewrite <- (take_drop (Z.to_nat t) (mp_p g)), Ed.
    replace (Z.to_nat (t - 0)) with (length l + 1)%nat by (unfold zlen in *; lia).
    rewrite replicate_add, <- app_assoc. rewrite drop_app_le by (rewrite length_replicate; lia). rewrite drop_ge by (rewrite length_replicate; lia).
    cbn [app]. rewrite app_assoc. rewrite take_app_le by (rewrite length_app; cbn; unfold zlen in *; lia). apply take_ge. rewrite length_app. cbn. unfold zlen in *; lia. }
  assert (Wy : wf y).
  { pose proof (blit_wf l g t Wg (digits_dig _ _) ltac:(lia)) as Wx. apply (set_sign_wf (mp_sign o1 * mp_sign o2)) in Wx; [done|].
    destruct (wf_sign _ W1) as [->| ->], (wf_sign _ W2) as [->| ->]; auto. }
  assert (Pg : plain g) by (apply (same_flags_plain (mp_set_top 0 n) g); [by apply set_top_wf|done|apply G|done]).
  destruct (mpnorm_ok (grow k (mp_put prod (Some y) s)) prod y) as (r & Er & N & Hz & _ & _ & Fr); [apply mpobj_grow; by apply mpobj_put|done..|].
  rewrite mp_put_grow, mp_put_put in Er by (by rewrite objs_put).
  exists r, k. split_and!.
  - split; [done|]. apply (same_flags_trans _ g); [apply G|]. unfold same_flags. rewrite Fr, <- Z.lor_assoc. done.
  - rewrite Hz. unfold mpz, mag. rewrite Dy, val_app. cbn [val mp_sign y mp_set_top mp_set_sign].
    unfold l. rewrite val_digits, Z.mod_small; [lia|]. rewrite Nat2Z.inj_add. apply (val_mul_bound (mpd o1) (mpd o2)); by apply dig_mpd.
  - rewrite (bind_ok _ _ _ _ _ (pass_timesafe_ok _ _ _ _ _ _ _ E1 E2 En (normal_plain _ N1) (normal_plain _ N2))).
    rewrite (bind_ok _ _ _ _ _ (mp_upd_ok _ _ _ _ En)).
    rewrite (bind_get b1 o1), (bind_get b2 o2) by (by rewrite mpobj_put_ne). fold t.
    rewrite (bind_ok _ _ _ _ _ (cint_ok (t * Dbits) _ ltac:(change Dbits with 32 in *; lia))), (bind_ok _ _ _ _ _ Eg).
    rewrite (bind_get prod g) by (by apply mpobj_put). rewrite Pg. cbn [Z.eqb negb]. rewrite (bind_ok _ _ _ _ _ Ek).
    assert (Ex : mpobj prod (grow k (mp_put prod (Some x) s)) = Some x) by (apply mpobj_grow; by apply mpobj_put).
    rewrite (bind_ok _ _ _ _ _ (mp_upd_ok _ _ _ _ Ex)).
    rewrite mp_put_grow, mp_put_put by (by rewrite objs_put). fold y.
    by rewrite (bind_ok _ _ _ _ _ Er).
Qed.
End mul.

Lemma abs_mpz o : wf o -> Z.abs (mpz o) = mag o.
Proof. intros W. pose proof (mag_nonneg _ W). unfold mpz. destruct (wf_sign _ W) as [->| ->]; lia. Qed.
Lemma result_wf n r : result n r -> wf r.
Proof. intros R. apply normal_wf, R. Qed.

Lemma mpmul_ok s b1 b2 prod o1 o2 n :
  mpobj b1 s = Some o1 -> mpobj b2 s = Some o2 -> mpobj prod s = Some n ->
  normal o1 -> normal o2 -> wf n -> plain n -> Z.land (mp_flags n) MPstatic = 0 -> (mp_top o1 + mp_top o2 + 1) * Dbits < 2 ^ 31 ->
  exists r k, mpmul b1 b2 prod s = (Ok tt, grow k (mp_put prod (Some r) s)) /\ result n r /\ mpz r = mpz o1 * mpz o2.
Proof.
  intros E1 E2 En N1 N2 W P Hst F. unfold mpmul. destruct ((prod =? b1)%nat || (prod =? b2)%nat) eqn:Ea.
  - erewrite bind_ok; [|rewrite (bind_get _ _ _ _ En), (bind_ok _ _ _ _ _ (mpnew_ok 0 s ltac:(done)))].
    2:{ rewrite (bind_ok _ _ _ _ _ (mp_upd_ok _ _ _ _ (alloc_at _ _))). rewrite put_alloc_new. done. }
    set (b := length (objs s)). set (c := mp_set_flags (mp_flags n) _). set (s1 := alloc c s).
    pose proof (mpobj_lt _ _ _ E1). pose proof (mpobj_lt _ _ _ E2). pose proof (mpobj_lt _ _ _ En).
    assert (Wc : wf c).
    { destruct (fresh_wf (Z.max (DIGITS 0) (mpmindigits s))) as [? ? ? ? ?]; [change (DIGITS 0) with 0; lia|]. split; try done. apply W. }
    destruct (mul_main s1 b1 b2 b o1 o2 c (alloc_old _ _ _ _ E1) (alloc_old _ _ _ _ E2) (alloc_at _ _) N1 N2 Wc P ltac:(lia) ltac:(lia) F
      (fun _ => if negb (prod =? b)%nat then _ ← mpassign b prod; mpfree b else mret tt)) as (r & k & R & Hz & Er).
    unfold s1, b in Er. rewrite put_alloc_new in Er. fold b in Er.
    assert (Er1 : mpobj b (grow k (alloc r s)) = Some r) by (apply mpobj_grow, alloc_at).
    assert (En1 : mpobj prod (grow k (alloc r s)) = Some n) by (apply mpobj_grow; by apply alloc_old).
    destruct (mpassign_ok _ b prod r n Er1 En1 (result_normal _ _ R) W P) as (q & Eq & Rq & Hm & Hs & _).
    { pose proof (result_wf _ _ R) as Wr. pose proof (mag_bound _ (normal_wf _ N1)). pose proof (mag_bound _ (normal_wf _ N2)).
      pose proof (wf_top _ (normal_wf _ N1)). pose proof (wf_top _ (normal_wf _ N2)).
      assert (Hr : mag r = mag o1 * mag o2).
      { rewrite <- !abs_mpz, <- Z.abs_mul, Hz by (done || by apply normal_wf). done. }
      assert (mp_top r <= mp_top o1 + mp_top o2); [|unfold fits; change Dbits with 32 in *; lia].
      destruct (Z.le_gt_cases (mp_top r) (mp_top o1 + mp_top o2)) as [|Hgt]; [done|].
      pose proof (mag_lead _ (result_normal _ _ R) ltac:(lia)). pose proof (Z.pow_le_mono_r B (mp_top o1 + mp_top o2) (mp_top r - 1) B_pos ltac:(lia)).
      rewrite Z.pow_add_r in * by lia. pose proof (Z.mul_lt_mono_nonneg (mag o1) (B ^ mp_top o1) (mag o2) (B ^ mp_top o2)). lia. }
    rewrite mp_put_grow, put_alloc_old in Eq by (done || (rewrite objs_alloc; lia)).
    exists q, (S k). split_and!; [|done|unfold mpz in *; by rewrite Hm, Hs].
    cbn beta iota. etrans; [exact Er|]. assert (Hpb : (prod =? b)%nat = false) by (apply Nat.eqb_neq; lia). rewrite Hpb. cbn [negb].
    rewrite (bind_ok _ _ _ _ _ Eq). pose proof (result_wf _ _ R) as Wr.
    replace b with (length (objs (mp_put prod (Some q) s))) by (by rewrite objs_put). apply mpfree_alloc; [done|].
    rewrite (same_flags_static c r Wc Wr) by apply R. done.
  - apply orb_false_iff in Ea as [Ha1%Nat.eqb_neq Ha2%Nat.eqb_neq]. rewrite bind_mret.
    destruct (mul_main s b1 b2 prod o1 o2 n E1 E2 En N1 N2 W P Ha1 Ha2 F
      (fun _ => if negb (prod =? prod)%nat then _ ← mpassign prod prod; mpfree prod else mret tt)) as (r & k & R & Hz & Er).
    exists r, k. split_and!; [|done..]. etrans; [exact Er|]. by rewrite Nat.eqb_refl.
Qed.
