(* ===== verification/MpShift.v ===== *)
(** * Multiple precision arithmetic: shifts

    [mpleft] multiplies by a power of two and [mpright] divides, rounding
    towards zero, for shifts of any sign and also in place. *)
From S2P Require Import Prelude CMonad Mp MpVal MpVec MpMul MpSafe MpInt MpAdd.

(** ** Digits of shifted vectors *)

Lemma pow2_B r : 0 <= r <= 32 -> B = 2 ^ (32 - r) * 2 ^ r.
Proof. intros H. rewrite <- Z.pow_add_r by lia. unfold B. f_equal. lia. Qed.
Lemma pow2_pos r : 0 <= r -> 0 < 2 ^ r.
Proof. intros H. by apply Z.pow_pos_nonneg. Qed.

Lemma mod_shifted L P w q : 0 < P -> 0 <= q < L -> (q + w * L) mod (L * P) = q + (w mod P) * L.
Proof.
  intros HP Hq. symmetry. apply (Z.mod_unique _ _ (w / P)).
  - left. pose proof (Z.mod_pos_bound w P HP). nia.
  - pose proof (Z.div_mod w P ltac:(lia)). nia.
Qed.
(** [this << l | last >> r]: the low digit of [(last + B*w) >> r]. *)
Lemma shift_digit last this w r : 0 < r < 32 -> 0 <= last < B -> w mod B = this ->
  Z.lor (u32 (Z.shiftl this (32 - r))) (Z.shiftr last r) = ((last + B * w) / 2 ^ r) mod B.
Proof.
  intros Hr Hl <-. rewrite u32_mod, Z.shiftl_mul_pow2, Z.shiftr_div_pow2 by lia.
  pose proof (pow2_pos r ltac:(lia)). pose proof (pow2_pos (32 - r) ltac:(lia)). pose proof (pow2_B r ltac:(lia)) as EB.
  assert (E1 : (last + B * w) / 2 ^ r = last / 2 ^ r + w * 2 ^ (32 - r)).
  { rewrite EB. replace (last + 2 ^ (32 - r) * 2 ^ r * w) with (last + w * 2 ^ (32 - r) * 2 ^ r) by lia. by rewrite Z.div_add by lia. }
  assert (Hd : 0 <= last / 2 ^ r < 2 ^ (32 - r)).
  { split; [apply Z.div_pos; lia|]. apply Z.div_lt_upper_bound; lia. }
  pose proof (mod_shifted (2 ^ (32 - r)) (2 ^ r) w 0 ltac:(lia) ltac:(lia)) as M0.
  pose proof (mod_shifted (2 ^ (32 - r)) (2 ^ r) w (last / 2 ^ r) ltac:(lia) ltac:(lia)) as M1.
  rewrite <- EB in M0, M1. rewrite !Z.add_0_l in M0. rewrite Z.mul_mod_idemp_l by done.
  rewrite E1, M0, M1, <- (Z.shiftl_mul_pow2 (w mod 2 ^ r)), Z.lor_comm, lor_shiftl_add, Z.shiftl_mul_pow2 by lia. lia.
Qed.

(** Storing behind what is stored first. *)
Lemma wr_front s q l r : room s q (zlen (l ++ r)) -> wr q l (wr (padd q (zlen l)) r s) = wr q (l ++ r) s.
Proof.
  intros H. pose proof H as H0. rewrite zlen_app in H0. apply room_split in H0 as [H1 H2]; [|apply zlen_nonneg..].
  rewrite (wr_extend _ q l r); [|by eapply seg_wr_same|].
  - apply wr_over; [apply zlen_nonneg|rewrite zlen_app; lia|done].
  - by eapply room_wr.
Qed.

(** ** mpright *)

Lemma mpright_digits_ok l : forall s b res i d, dig l -> seg s (b, i + d) l -> room s (res, i) (zlen l) -> 0 <= d -> 
  mpright_digits (length l) i d b res s = (Ok tt, wr (res, i) l s).
Proof.
  induction l as [|x l IH]; intros s b res i d D Sb Hr Hd; [by rewrite wr_nil|]. cbn [length mpright_digits].
  apply dig_cons in D as [_ D]. apply seg_cons in Sb as [Sx Sb]. rewrite zlen_cons, Z.add_comm in Hr. pose proof (zlen_nonneg l).
  pose proof Hr as Hr0. apply room_split in Hr0 as [Hr1 Hr2]; [|lia..].
  rewrite (bind_ok _ _ _ _ _ (ldig_ok _ _ _ Sx)), (bind_ok _ _ _ _ _ (sdig_ok _ _ _ Hr1)).
  assert (Sb' : seg (wr (res, i) [x] s) (b, i + 1 + d) l).
  { replace (i + 1 + d) with (i + d + 1) by lia. apply (seg_wr_other _ _ _ _ _ _ Hr1); [done| |done].
    unfold apart, padd. cbn. lia. }
  rewrite IH; try done; [|by eapply room_wr].
  f_equal. change (res, i + 1) with (padd (res, i) 1). by apply (wr_cons _ _ _ _ (1 + zlen l)).
Qed.

Lemma mpright_bits_ok rest : forall s b res i d r last, dig (last :: rest) -> 0 < r < 32 -> 0 <= d -> seg s (b, i + d + 1) rest ->
  room s (res, i) (1 + zlen rest) ->
  ('(i, last) ← mpright_bits (length rest) i d (32 - r) r b res last;
   _ ← sdig (res, i) (Z.shiftr last r);
   mret (i + 1)) s = (Ok (i + 1 + zlen rest), wr (res, i) (digits (S (length rest)) (val (last :: rest) / 2 ^ r)) s).
Proof.
  induction rest as [|this rest IH]; intros s b res i d r last D Hr Hd Sb Rm; apply dig_cons in D as [Dl D]; pose proof (pow2_pos r ltac:(lia)).
  - cbn [length mpright_bits val digits]. change (zlen (@nil Z)) with 0 in *. rewrite bind_mret. cbn beta iota. rewrite (bind_ok _ _ _ _ _ (sdig_ok _ _ _ Rm)).
    rewrite Z.shiftr_div_pow2 by lia. unfold mret, M_ret. rewrite Z.mul_0_r, !Z.add_0_r. rewrite Z.mod_small; [done|].
    split; [apply Z.div_pos; lia|]. apply Z.div_lt_upper_bound; nia.
  - cbn [length mpright_bits]. pose proof (zlen_nonneg rest). rewrite zlen_cons, (Z.add_comm (zlen rest)) in *. pose proof D as D0. apply dig_cons in D0 as [Dt Dr].
    pose proof Rm as Rm0. apply room_split in Rm0 as [R1 R2]; [|lia..]. apply seg_cons in Sb as [St Sb].
    set (y := Z.lor (u32 (Z.shiftl this (32 - r))) (Z.shiftr last r)).
    assert (Ey : y = (val (last :: this :: rest) / 2 ^ r) mod B).
    { cbn [val]. apply shift_digit; [done|done|]. rewrite Z.mul_comm, Z.mod_add by done. by apply Z.mod_small. }
    assert (Sb' : seg (wr (res, i) [y] s) (b, i + 1 + d + 1) rest).
    { apply (seg_wr_other _ _ _ _ _ _ R1); [done| |].
      - unfold apart. cbn. lia.
      - replace (b, i + 1 + d + 1) with (padd (b, i + d + 1) 1) by (unfold padd; cbn; f_equal; lia). done. }
    pose proof (IH (wr (res, i) [y] s) b res (i + 1) d r this D Hr Hd Sb' ltac:(by eapply room_wr)) as E.
    unfold mbind at 1, M_bind at 1. unfold mbind at 1, M_bind at 1. rewrite (ldig_ok _ _ _ St). fold y.
    unfold mbind at 1, M_bind at 1. rewrite (sdig_ok _ _ _ R1). etrans; [exact E|]. f_equal; [f_equal; lia|].
    change (res, i + 1) with (padd (res, i) 1). rewrite (wr_cons _ _ _ _ (1 + (1 + zlen rest))) by (rewrite ?digits_zlen; unfold zlen in *; (done || lia)).
    f_equal. symmetry. cbn [digits]. rewrite <- Ey. f_equal.
    replace (val (last :: this :: rest) / 2 ^ r / B) with (val (this :: rest) / 2 ^ r); [done|].
    rewrite Z.div_div, (Z.mul_comm (2 ^ r) B), <- Z.div_div by (done || lia). f_equal. cbn [val].
    replace (last + B * (this + B * val rest)) with (last + (this + B * val rest) * B) by lia.
    rewrite Z.div_add, Z.div_small by done. done.
Qed.

(** ** mpleft *)

Lemma digits_1 v : digits 1 v = [v mod B].
Proof. done. Qed.

Lemma mpleft_digits_ok l : forall s b res d, dig l -> seg s (b, 0) l -> room s (res, d) (zlen l) -> 0 <= d ->
  mpleft_digits (length l) d b res s = (Ok tt, wr (res, d) l s).
Proof.
  induction l as [|x l IH] using rev_ind; intros s b res d D Sb Hr Hd; [by rewrite wr_nil|].
  apply dig_app in D as [D _]. apply seg_app in Sb as [Sb Sx]. pose proof Hr as Hr0. rewrite zlen_app in Hr0. pose proof (zlen_nonneg l).
  apply room_split in Hr0 as [R1 R2]; [|done|done]. change (zlen [x]) with 1 in *.
  rewrite length_app. cbn [length]. rewrite Nat.add_1_r. cbn [mpleft_digits]. fold (zlen l).
  rewrite (bind_ok _ _ _ _ _ (ldig_ok _ (b, zlen l) _ Sx)). rewrite Z.add_comm.
  rewrite (bind_ok _ _ _ _ _ (sdig_ok _ (res, d + zlen l) _ R2)).
  rewrite IH; try done.
  - f_equal. by apply (wr_front _ (res, d)).
  - apply (seg_wr_other _ _ _ _ _ _ R2); [done| |done]. unfold apart. cbn. lia.
  - by eapply room_wr.
Qed.

Lemma left_digit v this n l : 0 < l < 32 -> 0 <= v < B ^ n -> 0 <= n -> 0 <= this < B ->
  2 ^ l * (v + B ^ n * this) / B ^ (n + 1) = this / 2 ^ (32 - l).
Proof.
  intros Hl Hv Hn Ht. pose proof (pow2_pos l ltac:(lia)) as Hp. pose proof (pow2_pos (32 - l) ltac:(lia)) as Hq.
  pose proof (Z.pow_pos_nonneg B n B_pos Hn) as HB. pose proof (pow2_B l ltac:(lia)) as EB.
  rewrite Z.pow_add_r, Z.pow_1_r by lia. rewrite EB at 3. replace (B ^ n * (2 ^ (32 - l) * 2 ^ l)) with (2 ^ l * (B ^ n * 2 ^ (32 - l))) by lia.
  rewrite Z.div_mul_cancel_l by lia. rewrite <- Z.div_div by lia. f_equal.
  rewrite (Z.mul_comm (B ^ n)), Z.div_add, Z.div_small by lia. done.
Qed.
Lemma mpleft_bits_ok lo : forall s b res d l last, dig lo -> 0 <= last < B -> 0 < l < 32 -> 0 <= d -> seg s (b, 0) lo ->
  room s (res, d) (zlen lo + 1) ->
  (last ← mpleft_bits (length lo) d l (32 - l) b res last; sdig (res, d) (u32 (Z.shiftl last l))) s =
    (Ok tt, wr (res, d) (digits (length lo + 1) (2 ^ l * (val lo + B ^ zlen lo * last))) s).
Proof.
  induction lo as [|this lo IH] using rev_ind; intros s b res d l last D Hla Hl Hd Sb Rm; pose proof (pow2_pos l ltac:(lia)) as Hp.
  - cbn [length mpleft_bits val Nat.add digits]. change (zlen (@nil Z)) with 0 in *. rewrite bind_mret. rewrite sdig_ok by done.
    rewrite u32_mod, Z.shiftl_mul_pow2 by lia. rewrite Z.pow_0_r. do 4 f_equal. lia.
  - apply dig_app in D as [D Dt]. apply dig_cons in Dt as [Dt _]. apply seg_app in Sb as [Sb St]. pose proof (zlen_nonneg lo).
    rewrite length_app, zlen_app in *. cbn [length] in *. change (zlen [this]) with 1 in *. rewrite (Nat.add_1_r (length lo)). cbn [mpleft_bits]. fold (zlen lo).
    pose proof Rm as Rm0. apply room_split in Rm0 as [R1 R2]; [|lia|done].
    set (y := Z.lor (u32 (Z.shiftl last l)) (Z.shiftr this (32 - l))).
    assert (Sb' : seg (wr (res, zlen lo + d + 1) [y] s) (b, 0) lo).
    { replace (res, zlen lo + d + 1) with (padd (res, d) (zlen lo + 1)) by (unfold padd; cbn; f_equal; lia).
      apply (seg_wr_other _ _ _ _ _ _ R2); [done| |done]. unfold apart, padd. cbn. lia. }
    assert (R2' : room s (res, zlen lo + d + 1) 1).
    { replace (res, zlen lo + d + 1) with (padd (res, d) (zlen lo + 1)) by (unfold padd; cbn; f_equal; lia). done. }
    pose proof (IH (wr (res, zlen lo + d + 1) [y] s) b res d l this D Dt Hl Hd Sb' ltac:(by eapply room_wr)) as E.
    unfold mbind at 1, M_bind at 1. unfold mbind at 1, M_bind at 1. rewrite (ldig_ok _ (b, zlen lo) _ St). fold y.
    unfold mbind at 1, M_bind at 1. rewrite (sdig_ok _ _ _ R2'). etrans; [exact E|]. f_equal.
    set (V := 2 ^ l * (val lo + B ^ zlen lo * this)).
    assert (En : Z.of_nat (S (length lo)) = zlen lo + 1) by (unfold zlen; lia).
    assert (EV : 2 ^ l * (val (lo ++ [this]) + B ^ (zlen lo + 1) * last) = V + B ^ Z.of_nat (S (length lo)) * (2 ^ l * last)).
    { rewrite val_snoc, En. unfold V. lia. }
    rewrite EV, (digits_add_high (S (length lo)) 1), En. rewrite digits_1.
    assert (Ed : V / B ^ (zlen lo + 1) = this / 2 ^ (32 - l)) by (apply left_digit; (done || by apply val_bound)).
    rewrite Ed. assert (Ey : y = (this / 2 ^ (32 - l) + 2 ^ l * last) mod B).
    { pose proof (shift_digit this last last (32 - l) ltac:(lia) Dt ltac:(by apply Z.mod_small)) as E1. replace (32 - (32 - l)) with l in E1 by lia.
      unfold y. rewrite E1. f_equal. rewrite (pow2_B l) by lia.
      replace (this + 2 ^ (32 - l) * 2 ^ l * last) with (this + 2 ^ l * last * 2 ^ (32 - l)) by lia. apply Z.div_add.
      pose proof (pow2_pos (32 - l) ltac:(lia)). lia. }
    rewrite <- Ey, Nat.add_1_r. set (X := digits (S (length lo)) V). assert (ZX : zlen X = zlen lo + 1) by (unfold X; rewrite digits_zlen; lia).
    assert (Eq : (res, zlen lo + d + 1) = padd (res, d) (zlen X)).
    { rewrite ZX. unfold padd. cbn [fst snd]. apply (f_equal (pair res)). lia. }
    rewrite Eq. apply wr_front. eapply room_eq; [exact Rm|]. rewrite zlen_app. change (zlen [y]) with 1. lia.
Qed.

(** ** The shifts of integers *)

Lemma seg_put_p s b o o' q l : mp_p o = mp_p o' -> (b < length (objs s))%nat -> seg (mp_put b (Some o) s) q l -> seg (mp_put b (Some o') s) q l.
Proof.
  intros E H (x & Ex & Hx). destruct (decide (q.1 = b)) as [Eq|Hn].
  - rewrite Eq, mpobj_put in Ex by done. injection Ex as <-. exists o'. split; [by rewrite Eq, mpobj_put|by rewrite <- E].
  - exists x. split; [by rewrite mpobj_put_ne in * by congruence|done].
Qed.


Lemma pass_timesafe1_ok s b res x : (res < length (objs s))%nat -> plain x ->
  (forall o, b <> res -> mpobj b s = Some o -> plain o) -> (b = res \/ exists o, mpobj b s = Some o) ->
  pass_timesafe1 b res (mp_put res (Some x) s) = (Ok tt, mp_put res (Some x) s).
Proof.
  intros H P Hp Hb. unfold pass_timesafe1.
  assert (G : exists o, mpobj b (mp_put res (Some x) s) = Some o /\ plain o).
  { destruct (decide (b = res)) as [->|Hn]; [exists x; split; [by apply mpobj_put|done]|].
    destruct Hb as [?|[o Eo]]; [done|]. exists o. split; [by rewrite mpobj_put_ne|by apply Hp]. }
  destruct G as (o & Eo & Po). rewrite (bind_get _ _ _ _ Eo), upd_put by done. rewrite Po, Z.lor_0_r. by destruct x.
Qed.

Lemma val_drop l d : dig l -> 0 <= d <= zlen l -> val (drop (Z.to_nat d) l) = val l / B ^ d.
Proof.
  intros D Hd. rewrite <- (take_drop (Z.to_nat d) l) in D |- * at 2. apply dig_app in D as [D1 D2]. rewrite val_app.
  assert (Et : zlen (take (Z.to_nat d) l) = d) by (unfold zlen in *; rewrite length_take; lia).
  pose proof (val_bound _ D1) as Hb. rewrite Et in *. pose proof (Z.pow_pos_nonneg B d B_pos ltac:(lia)).
  rewrite (Z.mul_comm (B ^ d)), Z.div_add, Z.div_small by lia. done.
Qed.
Lemma div_shift v d r : 0 <= v -> 0 <= d -> 0 <= r -> v / 2 ^ (d * 32 + r) = v / B ^ d / 2 ^ r.
Proof.
  intros Hv Hd Hr. rewrite Z.pow_add_r by lia. rewrite (Z.mul_comm d 32), Z.pow_mul_r by lia. change (2 ^ 32) with B.
  rewrite Z.div_div; [done| |by apply pow2_pos]. pose proof (Z.pow_pos_nonneg B d B_pos Hd). lia.
Qed.

(** The result object holds the shifted digits [l]: the end of both shifts. *)
Section shift_end.
Context (s : MpStore) (b res : nat) (g n : Mpint) (l : list Z).
Context (H : (res < length (objs s))%nat) (W : wf g) (P : plain g) (F : same_flags n g) (D : dig l) (Hl : zlen l <= mp_size g).
Context (Hp : forall o, b <> res -> mpobj b s = Some o -> plain o) (Hb : b = res \/ exists o, mpobj b s = Some o).

Lemma shift_norm :
  exists r', (_ ← pass_timesafe1 b res; mpnorm res) (mp_put res (Some (mp_set_top (zlen l) (mp_set_p (blit 0 l (mp_p g)) g))) s) =
    (Ok tt, mp_put res (Some r') s) /\ result n r' /\ mpz r' = mp_sign g * val l.
Proof using All.
  pose proof (zlen_nonneg l). set (x := mp_set_top _ _). assert (Wx : wf x) by (apply blit_wf; (done || lia)).
  rewrite (bind_ok _ _ _ _ _ (pass_timesafe1_ok s b res x H P Hp Hb)).
  destruct (norm_put s res x n H Wx P F) as (r & Er & R & Hz & _). exists r. split_and!; [done..|]. rewrite Hz.
  unfold mpz, mag, x. by rewrite blit_mpd.
Qed.
Lemma shift_end :
  exists r', (_ ← mp_upd res (mp_set_top (zlen l)); _ ← pass_timesafe1 b res; mpnorm res) (mp_put res (Some (mp_set_p (blit 0 l (mp_p g)) g)) s) =
    (Ok tt, mp_put res (Some r') s) /\ result n r' /\ mpz r' = mp_sign g * val l.
Proof using All. rewrite (bind_ok _ _ _ _ _ (upd_put _ _ _ _ H)). exact shift_norm. Qed.
End shift_end.

Lemma right_tail s b res g n l d r : (res < length (objs s))%nat -> wf g -> plain g -> same_flags n g -> dig l ->
  seg (mp_put res (Some g) s) (b, 0) l -> 0 <= d < zlen l -> 0 <= r < 32 -> zlen l - d <= mp_size g ->
  (forall o, b <> res -> mpobj b s = Some o -> plain o) -> (b = res \/ exists o, mpobj b s = Some o) ->
  exists r', (i ← (if r =? 0 then
         _ ← mpright_digits (Z.to_nat (zlen l - d)) 0 d b res;
         mret (zlen l - d)
       else
         last ← ldig (b, d);
         '(i, last) ← mpright_bits (Z.to_nat (zlen l - d - 1)) 0 d (Dbits - r) r b res last;
         _ ← sdig (res, i) (Z.shiftr last r);
         mret (i + 1));
    _ ← mp_upd res (mp_set_top i);
    _ ← pass_timesafe1 b res;
    mpnorm res) (mp_put res (Some g) s) = (Ok tt, mp_put res (Some r') s) /\ result n r' /\ mpz r' = mp_sign g * (val l / 2 ^ (d * 32 + r)).
Proof.
  intros H W P F D Sb Hd Hr Hs Hp Hb. rewrite div_shift, <- val_drop by (done || lia || by apply val_bound).
  set (h := drop (Z.to_nat d) l). assert (Lh : length h = Z.to_nat (zlen l - d)) by (unfold h, zlen in *; rewrite length_drop; lia).
  assert (Dh : dig h) by (by apply dig_drop).
  assert (Sh : seg (mp_put res (Some g) s) (b, 0 + d) h).
  { rewrite <- (take_drop (Z.to_nat d) l) in Sb. apply seg_app in Sb as [_ Sb]. unfold padd in Sb. cbn in Sb.
    replace (zlen (take (Z.to_nat d) l)) with d in Sb by (unfold zlen in *; rewrite length_take; lia). done. }
  pose proof (wf_size _ W). pose proof (wf_top _ W). assert (Zh : zlen h = zlen l - d) by (unfold zlen in *; lia).
  assert (Rm : forall k, 0 <= k <= zlen l - d -> room (mp_put res (Some g) s) (res, 0) k) by (intros k Hk; apply room_put; (done || lia)).
  destruct (Z.eqb_spec r 0) as [->|Hn].
  - rewrite <- Lh, <- Zh. erewrite bind_ok; [|rewrite (bind_ok _ _ _ _ _ (mpright_digits_ok h _ b res 0 d Dh Sh ltac:(apply Rm; lia) ltac:(lia))); done].
    rewrite wr_put_same by done. rewrite Z.div_1_r. apply shift_end; (done || lia).
  - destruct h as [|last rest] eqn:Eh; [cbn in Lh; lia|]. apply seg_cons in Sh as [Sl Sr]. cbn [Z.add] in *.
    rewrite zlen_cons in Zh. pose proof (zlen_nonneg rest).
    replace (Z.to_nat (zlen l - d - 1)) with (length rest) by (cbn in Lh; lia). change (Dbits - r) with (32 - r).
    pose proof (mpright_bits_ok rest _ b res 0 d r last Dh ltac:(lia) ltac:(lia) Sr ltac:(apply Rm; lia)) as E.
    set (X := digits _ _) in E. assert (ZX : 0 + 1 + zlen rest = zlen X) by (unfold X; rewrite digits_zlen; unfold zlen; lia). rewrite ZX in E.
    erewrite bind_ok; [|rewrite (bind_ok _ _ _ _ _ (ldig_ok _ (b, d) _ Sl)); exact E].
    rewrite wr_put_same by done. destruct (shift_end s b res g n X) as (r' & Er & R & Hz); try done; [apply digits_dig|lia|].
    exists r'. split_and!; [done..|]. rewrite Hz. f_equal. unfold X. rewrite val_digits. apply Z.mod_small.
    pose proof (val_bound _ Dh) as Hv. pose proof (pow2_pos r ltac:(lia)). split; [apply Z.div_pos; lia|].
    change (Z.of_nat (S (length rest))) with (zlen (last :: rest)). apply Z.div_lt_upper_bound; nia.
Qed.

Lemma mpbits_none s b o m : mpobj b s = Some o -> wf o -> m <= 0 -> mpbits b m s = (Ok tt, s).
Proof.
  intros E W H. unfold mpbits. rewrite (bind_get _ _ _ _ E). pose proof (wf_top _ W).
  assert (DIGITS m <= 0).
  { unfold DIGITS. change Dbits with 32. destruct (Z.le_gt_cases 0 (32 - 1 + m)).
    - rewrite Z.quot_small by lia. done.
    - replace (32 - 1 + m) with (- - (32 - 1 + m)) by lia. rewrite Z.quot_opp_l by lia. pose proof (Z.quot_pos (- (32 - 1 + m)) 32 ltac:(lia) ltac:(lia)). lia. }
  destruct (Z.leb_spec (DIGITS m) (mp_size o)); [|lia]. destruct (Z.leb_spec (DIGITS m) (mp_top o)); [|lia]. done.
Qed.

(** An object that a shift may use for its result. *)
Record ready (o : Mpint) : Prop := mkready { ready_wf : wf o; ready_plain : plain o; ready_flag : Z.land (mp_flags o) MPnorm = MPnorm }.
Lemma normal_ready o : normal o -> ready o.
Proof. intros N. split; apply N. Qed.
(** Zero in the result object. *)
Lemma zero_result n x : ready n -> wf x -> plain x -> mp_flags x = mp_flags n -> mp_sign x = 1 -> mp_top x = 0 -> result n x /\ mpz x = 0.
Proof.
  intros [_ _ N] W P F Hs Ht. assert (E : mpd x = []) by (unfold mpd; by rewrite Ht). split; [split|].
  - split; [done|done|by rewrite F|done|]. rewrite E. intros l y El. by destruct l.
  - unfold same_flags. by rewrite F.
  - unfold mpz, mag. rewrite E. cbn. lia.
Qed.

Section shifts.
Context (s : MpStore) (b res : nat) (o n : Mpint) (shift : Z).
Context (Eo : mpobj b s = Some o) (En : mpobj res s = Some n) (N : normal o) (Nn : ready n).
Context (Hs : 0 <= shift < 2 ^ 31) (F : mp_top o * Dbits + shift < 2 ^ 31).
Local Notation n1 := (mp_set_sign (mp_sign o) n).
Local Notation s1 := (mp_put res (Some n1) s).

(** The operand once the sign is stored in the result object. *)
Lemma signed_operand : exists o1, mpobj b s1 = Some o1 /\ mpd o1 = mpd o /\ (b = res -> n = o /\ n1 = o).
Proof using All.
  pose proof (mpobj_lt _ _ _ En). destruct (decide (b = res)) as [->|Hn].
  - assert (n = o) as -> by congruence. exists (mp_set_sign (mp_sign o) o). split_and!; [by apply mpobj_put|done|]. by destruct o.
  - exists o. split_and!; [by rewrite mpobj_put_ne|done|done].
Qed.
Lemma n1_wf : wf n1.
Proof using All. apply set_sign_wf; [apply Nn|apply wf_sign, normal_wf, N]. Qed.
Lemma plain_operand x : b <> res -> mpobj b s = Some x -> plain x.
Proof using All. intros _ E. rewrite Eo in E. injection E as <-. apply N. Qed.
Lemma zero_operand : mp_top o = 0 -> exists r,
  mp_upd res (mp_set_top 0) s1 = (Ok tt, mp_put res (Some r) s) /\ result n r /\ mpz r = 0.
Proof using All.
  intros Ht. pose proof (mpobj_lt _ _ _ En). rewrite upd_put by done. eexists. split; [done|].
  apply zero_result; try done; [apply set_top_wf, n1_wf|apply Nn|]. cbn. by apply (normal_sign _ N).
Qed.

(** The digits of the operand in the store with the result object grown. *)
Lemma operand_seg g k : grown n1 k g -> seg (mp_put res (Some g) s) (b, 0) (mpd o).
Proof using All.
  intros G. pose proof (mpobj_lt _ _ _ En). apply seg_view; try done. intros E.
  destruct signed_operand as (o1 & _ & _ & Hb). destruct (Hb E) as [E1 E2]. subst b. rewrite E2 in G.
  apply (operand_view s res n En (ready_wf _ Nn) g k res o); try done. by rewrite E1.
Qed.

Lemma mpright_pos_ok : exists r, mpright_pos b shift res s = (Ok tt, mp_put res (Some r) s) /\ result n r /\
  mpz r = mp_sign o * (mag o / 2 ^ shift).
Proof using All.
  pose proof (mpobj_lt _ _ _ En) as Hlt. pose proof (normal_wf _ N) as W. pose proof (wf_top _ W). pose proof (mag_bound _ W) as Hm.
  unfold mpright_pos. rewrite (bind_get _ _ _ _ Eo), (bind_ok _ _ _ _ _ (mp_upd_ok _ _ _ _ En)).
  destruct (Z.eqb_spec (mp_top o) 0) as [Ht|Ht].
  { destruct (zero_operand Ht) as (r & Er & R & Hz). exists r. split_and!; [done..|]. apply (mag_zero _ N) in Ht. rewrite Hz, Ht. rewrite Z.div_0_l; [lia|]. pose proof (pow2_pos shift). lia. }
  destruct signed_operand as (o1 & _ & _ & Hb). change Dbits with 32 in *.
  set (d := shift / 32). set (r := shift - d * 32). assert (Hd : shift = d * 32 + r /\ 0 <= r < 32 /\ 0 <= d) by (unfold d, r; dlia).
  destruct Hd as (Hd & Hr & Hd0).
  assert (G : exists g, grown n1 (if (res =? b)%nat then 0 else mp_top o - d) g /\ (res = b \/ mp_top o <= d -> g = n1) /\
    (if negb (res =? b)%nat then bits ← cint (mp_top o * 32 - shift); mpbits res bits else mret tt) s1 = (Ok tt, mp_put res (Some g) s)).
  { pose proof n1_wf as W1. destruct (Nat.eqb_spec res b) as [->|Hn]; cbn [negb].
    - exists n1. split; [|done]. pose proof (wf_top _ W1). split; try done; [lia|]. replace (Z.to_nat (0 - mp_top n1)) with 0%nat by lia. by rewrite app_nil_r.
    - assert (E1 : mpobj res s1 = Some n1) by (by apply mpobj_put).
      destruct (Z.le_gt_cases (mp_top o * 32 - shift) 0) as [Hneg|Hpos].
      + exists n1. pose proof (wf_top _ W1). split_and!; [|done|].
        * split; try done; [lia|]. replace (Z.to_nat (mp_top o - d - mp_top n1)) with 0%nat by lia. by rewrite app_nil_r.
        * rewrite (bind_ok _ _ _ _ _ (cint_ok (mp_top o * 32 - shift) _ ltac:(lia))). by apply (mpbits_none _ _ n1).
      + destruct (mpbits_ok s1 res n1 (mp_top o * 32 - shift) E1 W1 ltac:(lia)) as (g & Eg & G). rewrite mp_put_put in Eg. exists g. split_and!; [|by intros [?|?]; [done|lia]|].
        * rewrite DIGITS_eq in G by lia. replace ((mp_top o * 32 - shift + 31) / 32) with (mp_top o - d) in G; [done|]. dlia.
        * by rewrite (bind_ok _ _ _ _ _ (cint_ok (mp_top o * 32 - shift) _ ltac:(lia))). }
  destruct G as (g & G & Gb & Eg).
  rewrite (bind_ok _ _ _ _ _ Eg). clear Eg. pose proof (grown_wf _ _ _ G) as Wg. pose proof (wf_top _ Wg). pose proof (grown_top _ _ _ G) as Tg.
  assert (Fg : same_flags n g) by apply G. assert (Pg : plain g) by (apply (same_flags_plain n g); try done; [apply Nn|apply Nn]).
  assert (Sg : mp_sign g = mp_sign o) by apply (grown_sign _ _ _ G).
  destruct (Nat.eqb_spec res b) as [Erb|Hn]; [destruct (Z.eqb_spec shift 0) as [Es|Es]; cbn [andb]|cbn [andb]].
  1:{ destruct (Hb (eq_sym Erb)) as [E1 E2]. rewrite (Gb (or_introl Erb)), E2. exists o. split_and!; [done| |rewrite Es, Z.div_1_r; done].
      split; [done|]. by rewrite E1. }
  all: fold d; fold r; destruct (Z.leb_spec (mp_top o) d) as [Htd|Htd].
  1, 3: rewrite upd_put by done; eexists; split; [done|].
  1, 2: assert (Hz : mag o / 2 ^ shift = 0) by (apply Z.div_small; split; [lia|]; eapply Z.lt_le_trans; [apply Hm|]; unfold B;
    rewrite <- Z.pow_mul_r by lia; apply Z.pow_le_mono_r; lia); rewrite Hz, Z.mul_0_r, (Gb (or_intror Htd)).
  1, 2: apply zero_result; try done; [apply set_sign_wf; [apply set_top_wf, n1_wf|by left]|apply Nn].
  all: rewrite Hd, <- Sg; fold (mag o).
  all: pose proof (right_tail s b res g n (mpd o) d r Hlt Wg Pg Fg (dig_mpd _ W) (operand_seg _ _ G)) as T; rewrite zlen_mpd in T by done;
    apply T; try lia; try apply plain_operand; try (right; by exists o).
  rewrite (Gb (or_introl Erb)). destruct (Hb (eq_sym Erb)) as [E1 E2]. rewrite E2. lia.
Qed.

Lemma mpleft_pos_ok : 0 < shift -> exists r, mpleft_pos b shift res s = (Ok tt, mp_put res (Some r) s) /\ result n r /\
  mpz r = mpz o * 2 ^ shift.
Proof using All.
  intros Hpos. pose proof (mpobj_lt _ _ _ En) as Hlt. pose proof (normal_wf _ N) as W. pose proof (wf_top _ W). pose proof (mag_bound _ W) as Hm.
  unfold mpleft_pos. rewrite (bind_get _ _ _ _ Eo), (bind_ok _ _ _ _ _ (mp_upd_ok _ _ _ _ En)).
  destruct (Z.eqb_spec (mp_top o) 0) as [Ht|Ht].
  { destruct (zero_operand Ht) as (r & Er & R & Hz). exists r. split_and!; [done..|]. apply (mag_zero _ N) in Ht. rewrite Hz. unfold mpz. rewrite Ht. lia. }
  change Dbits with 32 in *.
  set (d := shift / 32). set (l := shift - d * 32). assert (Hd : shift = d * 32 + l /\ 0 <= l < 32 /\ 0 <= d) by (unfold d, l; dlia).
  destruct Hd as (Hd & Hl & Hd0). rewrite (bind_ok _ _ _ _ _ (cint_ok (mp_top o * 32 + shift) _ ltac:(lia))).
  pose proof n1_wf as W1. assert (E1 : mpobj res s1 = Some n1) by (by apply mpobj_put).
  destruct (mpbits_ok s1 res n1 (mp_top o * 32 + shift) E1 W1 ltac:(lia)) as (g & Eg & G). rewrite mp_put_put in Eg.
  rewrite (bind_ok _ _ _ _ _ Eg). clear Eg. set (t := DIGITS _) in *.
  assert (Et : t = mp_top o + d + if l =? 0 then 0 else 1).
  { unfold t. rewrite DIGITS_eq by lia. destruct (Z.eqb_spec l 0); dlia. }
  pose proof (grown_wf _ _ _ G) as Wg. pose proof (wf_top _ Wg). pose proof (wf_size _ Wg). pose proof (grown_top _ _ _ G) as Tg.
  assert (Fg : same_flags n g) by apply G. assert (Pg : plain g) by (apply (same_flags_plain n g); try done; [apply Nn|apply Nn]).
  rewrite (bind_ok _ _ _ _ _ (upd_put _ _ _ _ Hlt)). set (g1 := mp_set_top t g).
  assert (So : seg (mp_put res (Some g1) s) (b, 0) (mpd o)) by (apply (seg_put_p _ _ g); [done|done|by apply (operand_seg _ _ G)]).
  pose proof (zlen_mpd o W) as Zo.
  assert (Rm : forall i k, 0 <= i -> 0 <= k -> i + k <= t -> room (mp_put res (Some g1) s) (res, i) k).
  { intros i k Hi Hk Hik. apply room_put; try done. cbn. lia. }
  assert (X : exists X, dig X /\ zlen X = t - d /\ val X = 2 ^ l * mag o /\
    (if l =? 0 then mpleft_digits (Z.to_nat (mp_top o)) d b res
     else last ← mpleft_bits (Z.to_nat (mp_top o)) d l (32 - l) b res 0; sdig (res, d) (u32 (Z.shiftl last l)))
      (mp_put res (Some g1) s) = (Ok tt, wr (res, d) X (mp_put res (Some g1) s))).
  { rewrite <- Zo. replace (Z.to_nat (zlen (mpd o))) with (length (mpd o)) by (unfold zlen; lia). destruct (Z.eqb_spec l 0) as [E0|Hn].
    - exists (mpd o). rewrite E0. split_and!; [by apply dig_mpd|lia|unfold mag; lia|]. apply mpleft_digits_ok; [by apply dig_mpd|done|apply Rm; lia|done].
    - eexists. split_and!; [| | |apply mpleft_bits_ok; [by apply dig_mpd|done|lia|done|done|apply Rm; lia]].
      + apply digits_dig.
      + rewrite digits_zlen. unfold zlen in *. lia.
      + rewrite val_digits, Z.mul_0_r, Z.add_0_r. apply Z.mod_small. fold (mag o). replace (Z.of_nat _) with (mp_top o + 1) by (unfold zlen in *; lia).
        rewrite Z.pow_add_r, Z.pow_1_r by lia. pose proof (pow2_pos l ltac:(lia)). pose proof (pow2_pos (32 - l) ltac:(lia)). pose proof (pow2_B l ltac:(lia)).
        pose proof (Z.pow_le_mono_r 2 1 (32 - l) ltac:(lia) ltac:(lia)).
        assert (2 ^ l < B) by nia. rewrite (Z.mul_comm (B ^ _)). split; [apply Z.mul_nonneg_nonneg; lia|apply Z.mul_lt_mono_nonneg; lia]. }
  destruct X as (X & DX & ZX & VX & EX). rewrite (bind_ok _ _ _ _ _ EX). clear EX.
  pose proof (zlen_nonneg X).
  assert (Zz : zlen (replicate (Z.to_nat d) 0) = d) by (rewrite zlen_zeros; lia).
  set (Y := replicate (Z.to_nat d) 0 ++ X). assert (ZY : zlen Y = t) by (unfold Y; rewrite zlen_app; lia).
  erewrite bind_ok; [|apply zdigs_ok; [done|]]. 
  2:{ apply (room_wr _ _ _ _ (t - d)); [apply Rm; lia|done|apply Rm; lia]. }
  replace (res, d) with (padd (res, 0) (zlen (replicate (Z.to_nat d) 0))) by (rewrite Zz; done).
  rewrite wr_front by (fold Y; rewrite ZY; apply Rm; lia). fold Y. rewrite wr_put_same by done.
  replace (mp_set_p (blit 0 Y (mp_p g1)) g1) with (mp_set_top (zlen Y) (mp_set_p (blit 0 Y (mp_p g)) g)) by (rewrite ZY; done).
  destruct (shift_norm s b res g n Y) as (r & Er & R & Hz); try done; [|lia|apply plain_operand|right; by exists o|].
  { apply dig_app. split; [apply zeros_dig|done]. }
  exists r. split_and!; [done..|]. rewrite Hz. rewrite (grown_sign _ _ _ G). unfold Y. rewrite val_app, val_zeros, Zz, VX. cbn [mp_sign mp_set_sign].
  unfold mpz. rewrite Hd, Z.pow_add_r by lia. rewrite (Z.mul_comm d 32), Z.pow_mul_r by lia. change (2 ^ 32) with B. lia.
Qed.
End shifts.

(** ** mpright, mpleft *)

(** The object after [res->sign = b->sign]. *)
Lemma put_signed s b res o n : mpobj b s = Some o -> mpobj res s = Some n -> ready n -> normal o ->
  let n1 := mp_set_sign (mp_sign o) n in
  mp_upd res (mp_set_sign (mp_sign o)) s = (Ok tt, mp_put res (Some n1) s) /\
  mpobj b (mp_put res (Some n1) s) = Some o /\ mpobj res (mp_put res (Some n1) s) = Some n1 /\ ready n1.
Proof.
  intros Eo En [W P R] N n1. pose proof (mpobj_lt _ _ _ En). split_and!; [by apply mp_upd_ok| |by apply mpobj_put|].
  - destruct (decide (b = res)) as [->|Hn]; [|by rewrite mpobj_put_ne]. assert (n = o) as -> by congruence.
    rewrite mpobj_put by done. by destruct o.
  - split; [|done..]. apply set_sign_wf; [done|]. apply (wf_sign _ (normal_wf _ N)).
Qed.

(** The shift by [k] places to the left, or to the right when [k] is negative. *)
Definition shifted (o : Mpint) (k : Z) : Z := if k <? 0 then mp_sign o * (mag o / 2 ^ (- k)) else mpz o * 2 ^ k.

Section shift.
Context (s : MpStore) (b res : nat) (o n : Mpint) (shift : Z).
Context (Eo : mpobj b s = Some o) (En : mpobj res s = Some n) (N : normal o) (Nn : ready n).
Context (Hs : Z.abs shift < 2 ^ 31) (F : mp_top o * Dbits + Z.abs shift < 2 ^ 31).

Lemma shifted_zero k : mp_top o = 0 -> shifted o k = 0.
Proof using N.
  clear - N. intros Ht. apply (mag_zero _ N) in Ht. unfold shifted, mpz. rewrite Ht.
  destruct (Z.ltb_spec k 0); [|lia]. rewrite Z.div_0_l; [lia|]. pose proof (pow2_pos (- k)). lia.
Qed.
(** Zero stays zero, whatever the shift. *)
Lemma zero_shifted k : mp_top o = 0 -> exists r, mp_upd res (mp_set_top 0) (mp_put res (Some (mp_set_sign (mp_sign o) n)) s) = (Ok tt, mp_put res (Some r) s) /\
  result n r /\ mpz r = shifted o k.
Proof using All.
  intros Ht. pose proof (wf_top _ (normal_wf _ N)). change Dbits with 32 in F. rewrite shifted_zero by done.
  apply (zero_operand s b res o n 0); try done; lia.
Qed.
Lemma shifted_right k : 0 <= k -> mp_sign o * (mag o / 2 ^ k) = shifted o (- k).
Proof using.
  clear. intros Hk. unfold shifted, mpz. destruct (Z.ltb_spec (- k) 0); [by rewrite Z.opp_involutive|].
  replace k with 0 by lia. rewrite Z.div_1_r. change (- 0) with 0. lia.
Qed.

(** The shift the other way, after the sign was stored. *)
Lemma other_right : shift <= 0 -> exists r, (_ ← mp_upd res (mp_set_sign (mp_sign o)); mpright_pos b (- shift) res) s = (Ok tt, mp_put res (Some r) s) /\
  result n r /\ mpz r = shifted o shift.
Proof using All.
  intros Hk. destruct (put_signed s b res o n Eo En Nn N) as (Eu & Eo1 & En1 & R1). rewrite (bind_ok _ _ _ _ _ Eu).
  destruct (mpright_pos_ok _ b res o _ (- shift) Eo1 En1 N R1 ltac:(lia) ltac:(lia)) as (r & Er & [Nr Fr] & Hz).
  rewrite mp_put_put in Er. exists r. split_and!; [done|by split|]. by rewrite Hz, shifted_right, Z.opp_involutive by lia.
Qed.
Lemma other_left : shift < 0 -> exists r, (_ ← mp_upd res (mp_set_sign (mp_sign o)); mpleft_pos b (- shift) res) s = (Ok tt, mp_put res (Some r) s) /\
  result n r /\ mpz r = shifted o (- shift).
Proof using All.
  intros Hk. destruct (put_signed s b res o n Eo En Nn N) as (Eu & Eo1 & En1 & R1). rewrite (bind_ok _ _ _ _ _ Eu).
  destruct (mpleft_pos_ok _ b res o _ (- shift) Eo1 En1 N R1 ltac:(lia) ltac:(lia) ltac:(lia)) as (r & Er & [Nr Fr] & Hz).
  rewrite mp_put_put in Er. exists r. split_and!; [done|by split|]. rewrite Hz. unfold shifted. by destruct (Z.ltb_spec (- shift) 0); [lia|].
Qed.

Lemma mpright_ok : exists r, mpright b shift res s = (Ok tt, mp_put res (Some r) s) /\ result n r /\ mpz r = shifted o (- shift).
Proof using All.
  unfold mpright. rewrite (bind_get _ _ _ _ Eo).
  destruct (Z.eqb_spec (mp_top o) 0) as [Ht|Ht]; cbn [negb]; rewrite ?andb_false_r, ?andb_true_r.
  - unfold mpright_pos. rewrite (bind_get _ _ _ _ Eo), (bind_ok _ _ _ _ _ (mp_upd_ok _ _ _ _ En)), Ht. by apply zero_shifted.
  - destruct (Z.ltb_spec shift 0); [by apply other_left|].
    destruct (mpright_pos_ok s b res o n shift Eo En N Nn ltac:(lia) ltac:(lia)) as (r & Er & R & Hz).
    exists r. split_and!; [done..|]. by rewrite Hz, shifted_right.
Qed.
Lemma mpleft_ok : exists r, mpleft b shift res s = (Ok tt, mp_put res (Some r) s) /\ result n r /\ mpz r = shifted o shift.
Proof using All.
  unfold mpleft. rewrite (bind_get _ _ _ _ Eo).
  destruct (Z.eqb_spec (mp_top o) 0) as [Ht|Ht]; cbn [negb]; rewrite ?andb_false_r, ?andb_true_r.
  - unfold mpleft_pos. rewrite (bind_get _ _ _ _ Eo), (bind_ok _ _ _ _ _ (mp_upd_ok _ _ _ _ En)), Ht. by apply zero_shifted.
  - destruct (Z.leb_spec shift 0); [by apply other_right|].
    destruct (mpleft_pos_ok s b res o n shift Eo En N Nn ltac:(lia) ltac:(lia) ltac:(lia)) as (r & Er & R & Hz).
    exists r. split_and!; [done..|]. rewrite Hz. unfold shifted. by destruct (Z.ltb_spec shift 0); [lia|].
Qed.
End shift.
