(* ===== verification/MpDigdiv.v ===== *)
(** * Multiple precision arithmetic: the trial quotient

    [mpdigdiv] is the quotient of two digits by one, or the largest digit when
    that does not fit; and the arithmetic by which a trial quotient from the
    leading digits is at most two too large (Knuth, 4.3.1, theorem B). *)
From S2P Require Import Prelude CMonad Mp MpVal MpVec MpSafe MpShift.

(** [q |= 1<<i] for [q] with no bit up to [i]. *)
Lemma lor_bit q i : 0 <= i < 32 -> 0 <= q -> Z.lor (q * 2 ^ (i + 1)) (u32 (Z.shiftl 1 i)) = q * 2 ^ (i + 1) + 2 ^ i.
Proof.
  intros Hi Hq. pose proof (pow2_pos i ltac:(lia)). rewrite Z.shiftl_mul_pow2, Z.mul_1_l by lia.
  replace (u32 (2 ^ i)) with (2 ^ i).
  2:{ rewrite u32_mod. symmetry. apply Z.mod_small. split; [lia|]. apply Z.pow_lt_mono_r; lia. }
  assert (2 ^ i < 2 ^ (i + 1)) by (apply Z.pow_lt_mono_r; lia).
  rewrite <- Z.shiftl_mul_pow2, Z.lor_comm, lor_shiftl_add, Z.shiftl_mul_pow2 by lia. lia.
Qed.

(** One bit of the quotient: the divisor shifted as two digits [x], [y]. *)
Definition dd_x (d i : Z) : Z := d / 2 ^ (32 - i).
Definition dd_y (d i : Z) : Z := u32 (Z.shiftl d i).
Lemma dd_xy d i : 0 <= i <= 32 -> 0 <= d < B -> dd_x d i * B + dd_y d i = d * 2 ^ i /\ 0 <= dd_y d i < B /\ 0 <= dd_x d i.
Proof.
  intros Hi Hd. unfold dd_x, dd_y. rewrite u32_mod, Z.shiftl_mul_pow2 by lia.
  pose proof (pow2_pos i ltac:(lia)). pose proof (pow2_pos (32 - i) ltac:(lia)). pose proof (pow2_B i ltac:(lia)) as EB.
  split_and!; [|apply Z.mod_pos_bound, B_pos|apply Z.mod_pos_bound, B_pos|apply Z.div_pos; lia].
  replace (d / 2 ^ (32 - i)) with (d * 2 ^ i / B).
  - pose proof (Z.div_mod (d * 2 ^ i) B ltac:(done)). lia.
  - rewrite EB. apply Z.div_mul_cancel_r; lia.
Qed.
Lemma dd_x_step d i : 0 <= i < 32 -> Z.shiftr (dd_x d (i + 1)) 1 = dd_x d i.
Proof.
  intros Hi. unfold dd_x. rewrite Z.shiftr_div_pow2 by lia. rewrite Z.div_div; [|pose proof (pow2_pos (32 - (i + 1))); lia|done].
  rewrite <- Z.pow_add_r by lia. do 2 f_equal. lia.
Qed.

(** The loop keeps [dividend = divisor * q + (hi, lo)] with [q] a multiple of [2^n]. *)
Lemma mpdigdiv_loop_ok n : forall d hi lo q, (n <= 32)%nat -> 0 < d < B -> 0 <= hi < B -> 0 <= lo < B -> 0 <= q ->
  hi * B + lo < d * 2 ^ Z.of_nat n ->
  let '(lo', q') := mpdigdiv_loop n d hi lo (q * 2 ^ Z.of_nat n) (dd_x d (Z.of_nat n)) in
  0 <= lo' < B /\ 0 <= q' /\ d * q' + lo' = d * (q * 2 ^ Z.of_nat n) + hi * B + lo.
Proof.
  induction n as [|n IH]; intros d hi lo q Hn Hd Hh Hl Hq Hb; cbn [mpdigdiv_loop].
  { change (Z.of_nat 0) with 0 in *. rewrite Z.pow_0_r, Z.mul_1_r in *. assert (hi = 0) by (rewrite B_eq in *; nia). lia. }
  pose proof (pow2_pos (Z.of_nat n) ltac:(lia)) as Hp. destruct (Z.ltb_spec 0 hi) as [Hhi|Hhi]; cbn [negb].
  2:{ pose proof (pow2_pos (Z.of_nat (S n)) ltac:(lia)). assert (hi = 0) by lia. subst hi. pose proof (Z.mul_nonneg_nonneg q (2 ^ Z.of_nat (S n))). split_and!; lia. }
  set (i := Z.of_nat n) in *. replace (Z.of_nat (S n)) with (i + 1) in * by lia. rewrite dd_x_step by lia.
  destruct (dd_xy d i ltac:(lia) ltac:(lia)) as (Exy & Hy & Hx). change (u32 (Z.shiftl d i)) with (dd_y d i).
  assert (Ep : 2 ^ (i + 1) = 2 * 2 ^ i) by (rewrite Z.pow_add_r by lia; lia). rewrite Ep in Hb.
  assert (Eq : q * 2 ^ (i + 1) = 2 * q * 2 ^ i) by lia.
  assert (Skip : hi * B + lo < d * 2 ^ i -> let '(lo', q') := mpdigdiv_loop n d hi lo (q * 2 ^ (i + 1)) (dd_x d i) in
    0 <= lo' < B /\ 0 <= q' /\ d * q' + lo' = d * (q * 2 ^ (i + 1)) + hi * B + lo).
  { intros Hlt. pose proof (IH d hi lo (2 * q) ltac:(lia) Hd Hh Hl ltac:(lia) Hlt) as I. by rewrite <- Eq in I. }
  destruct (Z.ltb_spec hi (dd_x d i)) as [H1|H1]; [apply Skip; nia|].
  destruct (Z.eqb_spec (dd_x d i) hi) as [H2|H2]; cbn [andb]; [destruct (Z.ltb_spec lo (dd_y d i)) as [H3|H3]; [apply Skip; nia|]|].
  all: rewrite lor_bit by lia; replace (q * 2 ^ (i + 1) + 2 ^ i) with ((2 * q + 1) * 2 ^ i) by lia.
  - destruct (Z.ltb_spec lo (dd_y d i)); [lia|].
    replace (u32 (hi - dd_x d i)) with (hi - dd_x d i) by (rewrite u32_mod; symmetry; apply Z.mod_small; lia).
    replace (u32 (lo - dd_y d i)) with (lo - dd_y d i) by (rewrite u32_mod; symmetry; apply Z.mod_small; lia).
    pose proof (IH d (hi - dd_x d i) (lo - dd_y d i) (2 * q + 1) ltac:(lia) Hd ltac:(lia) ltac:(lia) ltac:(lia) ltac:(lia)) as I.
    revert I. match goal with |- context [mpdigdiv_loop n d ?a ?b ?c ?e] => destruct (mpdigdiv_loop n d a b c e) as [lo' q'] end. rewrite Eq. intros (I1 & I2 & I3). split_and!; lia.
  - assert (Eh : u32 ((if lo <? dd_y d i then u32 (hi - 1) else hi) - dd_x d i) = hi - dd_x d i - (if lo <? dd_y d i then 1 else 0)).
    { rewrite !u32_mod. destruct (lo <? dd_y d i); [rewrite (Z.mod_small (hi - 1)) by lia|]; rewrite Z.mod_small; lia. }
    assert (El : u32 (lo - dd_y d i) = lo - dd_y d i + (if lo <? dd_y d i then B else 0)).
    { rewrite u32_mod. destruct (Z.ltb_spec lo (dd_y d i)); [|rewrite Z.mod_small; lia].
      rewrite <- (Z.mod_add _ 1) by done. rewrite Z.mod_small; lia. }
    rewrite Eh, El. set (h' := hi - dd_x d i - _). set (l' := lo - dd_y d i + _).
    assert (Hl' : 0 <= l' < B) by (unfold l'; destruct (Z.ltb_spec lo (dd_y d i)); lia).
    assert (Hh' : 0 <= h' < B) by (unfold h'; destruct (Z.ltb_spec lo (dd_y d i)); lia).
    assert (E : h' * B + l' = hi * B + lo - d * 2 ^ i) by (unfold h', l'; destruct (Z.ltb_spec lo (dd_y d i)); lia).
    pose proof (IH d h' l' (2 * q + 1) ltac:(lia) Hd Hh' Hl' ltac:(lia) ltac:(lia)) as I.
    revert I. match goal with |- context [mpdigdiv_loop n d ?a ?b ?c ?e] => destruct (mpdigdiv_loop n d a b c e) as [lo' q'] end. rewrite Eq. intros (I1 & I2 & I3). split_and!; lia.
Qed.

Lemma mpdigdiv_ok hi lo d : 0 <= hi < B -> 0 <= lo < B -> 0 < d < B ->
  mpdigdiv hi lo d = Z.min ((hi * B + lo) / d) (B - 1).
Proof.
  intros Hh Hl Hd. unfold mpdigdiv. destruct (Z.eqb_spec d 0); [lia|]. rewrite orb_false_r.
  destruct (Z.leb_spec d hi) as [Hlt|Hlt].
  { rewrite notd_eq by done. symmetry. replace (B - 1 - 0) with (B - 1) by lia. apply Z.min_r.
    assert (B <= (hi * B + lo) / d); [|lia]. apply Z.div_le_lower_bound; nia. }
  rewrite Z.min_l by (assert ((hi * B + lo) / d < B); [apply Z.div_lt_upper_bound; nia|lia]).
  rewrite notd_eq by lia. destruct (Z.eqb_spec (B - 1 - d) 0) as [E|E].
  - assert (d = B - 1) as -> by lia. rewrite !u32_mod. 
    destruct (Z.lt_ge_cases (hi + lo) B) as [Hs|Hs].
    + rewrite (Z.mod_small (lo + hi)) by lia. destruct (Z.ltb_spec (lo + hi) hi); [lia|].
      destruct (Z.eq_dec (lo + hi) (B - 1)) as [Ee|Ee].
      * rewrite Ee. change (u32 (B - 1 + 1) =? 0) with true. cbn iota. rewrite u32_mod, Z.mod_small by lia.
        apply (Z.div_unique _ _ _ 0); lia.
      * rewrite u32_mod, (Z.mod_small (lo + hi + 1)) by lia. destruct (Z.eqb_spec (lo + hi + 1) 0); [lia|].
        apply (Z.div_unique _ _ _ (lo + hi)); lia.
    + replace ((lo + hi) mod B) with (lo + hi - B) by (apply (Z.mod_unique _ _ 1); lia).
      destruct (Z.ltb_spec (lo + hi - B) hi); [|lia]. rewrite (Z.mod_small (hi + 1)), (Z.mod_small (lo + hi - B + 1)) by lia.
      rewrite u32_mod, (Z.mod_small (lo + hi - B + 1 + 1)) by lia. destruct (Z.eqb_spec (lo + hi - B + 1 + 1) 0); [lia|].
      apply (Z.div_unique _ _ _ (lo + hi - B + 1)); lia.
  - change (Z.to_nat Dbits) with 32%nat. pose proof (mpdigdiv_loop_ok 32 d hi lo 0 ltac:(lia) Hd Hh Hl ltac:(lia) ltac:(change (2 ^ Z.of_nat 32) with B; nia)) as I.
    change (Z.of_nat 32) with 32 in I. rewrite Z.mul_0_l in I. unfold dd_x in I. change (2 ^ (32 - 32)) with 1 in I. rewrite Z.div_1_r in I.
    revert I. destruct (mpdigdiv_loop 32 d hi lo 0 d) as [lo' q']. intros (I1 & I2 & I3). rewrite Z.mul_0_r, Z.add_0_l in I3.
    assert (Eq : (hi * B + lo) / d = q' + lo' / d).
    { rewrite <- I3. rewrite Z.mul_comm, Z.div_add_l by lia. done. }
    rewrite Eq, u32_mod. apply Z.mod_small. rewrite <- Eq. split; [apply Z.div_pos; lia|]. apply Z.div_lt_upper_bound; nia.
Qed.

(** ** Trial quotients

    The divisor is [vt*M + vl] and the window of the dividend [wt*M + wl], the
    leading parts [vt] and [wt] and the rest below [M]. *)
Section trial.
Context (M vt vl wt wl : Z).
Context (HM : 0 < M) (Hvl : 0 <= vl < M) (Hwl : 0 <= wl < M) (Hvt : 0 < vt) (Hwt : 0 <= wt).
Local Notation V := (vt * M + vl).
Local Notation W := (wt * M + wl).
Local Notation q := (W / V).

Lemma trial_V : 0 < V. Proof using All. nia. Qed.
Lemma trial_div : W = V * q + W mod V /\ 0 <= W mod V < V.
Proof using All. pose proof trial_V. split; [apply Z.div_mod; lia|apply Z.mod_pos_bound; lia]. Qed.

(** Too large for the leading parts is too large. *)
Lemma trial_high d : wt < d * vt -> q < d.
Proof using All. intros H. pose proof trial_V. apply Z.div_lt_upper_bound; [lia|]. assert ((wt + 1) * M <= d * vt * M) by nia. nia. Qed.
(** The quotient is never too large for the leading parts. *)
Lemma trial_exact : q * vt <= wt.
Proof using All. destruct trial_div as [E H]. assert (0 <= q) by (apply Z.div_pos; nia). destruct (Z.le_gt_cases (q * vt) wt); [done|]. assert ((wt + 1) * M <= q * vt * M) by nia. nia. Qed.
(** What passes the test is at most one too large. *)
Lemma trial_pass d c : 0 <= d <= c -> c * M <= V -> d * vt <= wt -> d <= q + 1.
Proof using All.
  intros Hd Hc H. destruct trial_div as [E Hm]. assert (d * V <= W + V); [|nia].
  assert (d * vt * M <= wt * M) by nia. assert (d * vl <= c * M) by nia. nia.
Qed.
(** The quotient of the leading parts is not too small ... *)
Lemma trial_low : q <= wt / vt.
Proof using All. apply Z.div_le_lower_bound; [done|]. rewrite Z.mul_comm. apply trial_exact. Qed.
(** ... and at most two too large when the leading part of the divisor is large. *)
Lemma trial_two d b : d * vt <= wt -> 0 <= d < b -> b <= 2 * vt -> d <= q + 2.
Proof using All.
  intros H Hd Hb. destruct trial_div as [E Hm]. destruct (Z.le_gt_cases d (q + 2)); [done|].
  assert (H1 : d * vt * M <= wt * M) by nia. assert (H2 : W < (d - 2) * V) by nia.
  assert (H3 : d * V < d * vt * M + d * M + 1) by nia. nia.
Qed.
End trial.
