(* ===== verification/MpDiv.v ===== *)
(** * Multiple precision arithmetic: long division

    The loop of [mpdiv] (Knuth's algorithm D): each round finds the next digit
    of the quotient, with the trial quotient corrected at most twice by the test
    on the leading digits and once by the borrow of the subtraction. *)
From S2P Require Import Prelude CMonad Mp MpVal MpVec MpMul MpSafe MpInt MpAdd MpShift MpDigdiv.

(** ** D3a: the test of the trial quotient *)

Section trial_loop.
Context (vp up t : Ptr) (v2 w3 : list Z) (q : Z).
Context (Dv : dig v2) (Dw : dig w3) (Lv : zlen v2 = 2) (Lw : zlen w3 = 3) (Tv : t.1 <> vp.1) (Tu : t.1 <> up.1).
Context (Hq : 0 <= q) (Hlow : q * val v2 <= val w3) (Hhigh : forall d, val w3 < d * val v2 -> q < d).

Lemma trial_loop_ok fuel : forall s qd, q <= qd < q + Z.of_nat fuel -> qd < B ->
  seg s (padd vp (-1)) v2 -> seg s (padd up (-2)) w3 -> room s t 3 ->
  exists qd' T, trial_loop fuel vp up t qd s = (Ok qd', wr t T s) /\ q <= qd' <= qd /\ qd' * val v2 <= val w3 /\ zlen T = 3.
Proof using All.
  induction fuel as [|fuel IH]; intros s qd Hqd HB Sv Sw Rt; [lia|]. cbn [trial_loop].
  rewrite (bind_ok _ _ _ _ _ (zdigs_ok s t 3 ltac:(lia) Rt)). change (replicate (Z.to_nat 3) 0) with [0; 0; 0].
  set (s1 := wr t [0; 0; 0] s). assert (Sz : seg s1 t [0; 0; 0]) by (by apply (seg_wr_same _ _ _ 3)).
  assert (Sv1 : seg s1 (padd vp (-1)) v2) by (apply (seg_wr_other _ _ _ _ _ _ Rt); [done|left; cbn; congruence|done]).
  assert (Rt1 : room s1 t 3) by (by apply (room_wr _ _ _ _ 3)).
  assert (Lv' : length v2 = 2%nat) by (unfold zlen in Lv; lia).
  pose proof (mpvecdigmuladd_ok s1 (padd vp (-1)) v2 qd t [0; 0] Dv (zeros_dig 2) ltac:(lia) ltac:(by rewrite Lv') Sv1
    ltac:(by apply (seg_app s1 t [0; 0] [0]) in Sz as [? _]) ltac:(by rewrite Lv) ltac:(left; cbn; congruence)) as E.
  rewrite Lv, Lv' in E. rewrite (bind_ok _ _ _ _ _ E). clear E.
  change (val [0; 0]) with 0. rewrite Z.add_0_l. set (P := digits 3 (qd * val v2)).
  unfold s1. rewrite wr_wr by (done || by unfold P; rewrite digits_zlen).
  assert (Sp : seg (wr t P s) t P) by (apply (seg_wr_same _ _ _ 3); [done|by unfold P; rewrite digits_zlen]).
  assert (Sw1 : seg (wr t P s) (padd up (-2)) w3).
  { apply (seg_wr_other _ _ _ _ _ _ Rt); [by unfold P; rewrite digits_zlen|left; cbn; congruence|done]. }
  pose proof (mpveccmp_ok (wr t P s) t P (padd up (-2)) w3 (digits_dig _ _) Dw Sp Sw1) as E.
  rewrite Lw in E. replace (zlen P) with 3 in E by (unfold P; by rewrite digits_zlen). rewrite (bind_ok _ _ _ _ _ E). clear E.
  assert (VP : val P = qd * val v2).
  { unfold P. rewrite val_digits. apply Z.mod_small. pose proof (val_bound _ Dv) as Hv. rewrite Lv in Hv. change (B ^ Z.of_nat 3) with (B * B ^ 2).
    split; [apply Z.mul_nonneg_nonneg; lia|apply Z.mul_lt_mono_nonneg; lia]. }
  rewrite VP, zcmp_sgn. destruct (Z.ltb_spec 0 (Z.sgn (qd * val v2 - val w3))) as [Hc|Hc].
  - assert (Hgt : q < qd) by (apply Hhigh; lia). replace (u32 (qd - 1)) with (qd - 1) by (rewrite u32_mod; symmetry; apply Z.mod_small; lia).
    destruct (IH (wr t P s) (qd - 1)) as (qd' & T & E & Hq' & Hp & ZT); [lia|lia| |done|by apply (room_wr _ _ _ _ 3); [|by unfold P; rewrite digits_zlen|]|].
    { apply (seg_wr_other _ _ _ _ _ _ Rt); [by unfold P; rewrite digits_zlen|left; cbn; congruence|done]. }
    exists qd', T. rewrite E. split_and!; try lia. f_equal. apply wr_wr; [by rewrite ZT|unfold P; by rewrite digits_zlen, ZT].
  - exists qd, P. split_and!; try lia; [done|]. unfold P. by rewrite digits_zlen.
Qed.
End trial_loop.

(** ** D4-D6: the subtraction, and the addition back *)

Section round.
Context (u v t : nat) (lw lv : list Z) (i : Z) (d : Z) (lv' : list Z).
Context (Dw : dig lw) (Dv : dig lv) (Lw : length lw = S (length lv)) (Ev : lv = lv' ++ [d]) (Hd : B <= 2 * d).
Context (Huv : u <> v) (Htu : t <> u) (Htv : t <> v) (Hi : 0 <= i) (HW : val lw < val lv * B).
Local Notation vn := (zlen lv).
Local Notation W := (val lw).
Local Notation V := (val lv).
Local Notation q := (W / V).
Local Notation up := (u, i + vn).

Lemma round_V : 0 < V /\ B ^ (vn - 1) * d <= V < B ^ (vn - 1) * (d + 1) /\ 0 < vn.
Proof using All.
  rewrite Ev in *. apply dig_app in Dv as [D1 D2]. apply dig_cons in D2 as [D2 _]. rewrite val_snoc, zlen_app. change (zlen [d]) with 1.
  pose proof (val_bound _ D1). pose proof (zlen_nonneg lv'). replace (zlen lv' + 1 - 1) with (zlen lv') by lia.
  pose proof (Z.pow_pos_nonneg B (zlen lv') B_pos ltac:(lia)). rewrite B_eq in Hd. split_and!; nia.
Qed.
Lemma round_q : 0 <= q < B /\ 0 <= W mod V < V /\ W = V * q + W mod V.
Proof using All.
  destruct round_V as (HV & _). pose proof (val_bound _ Dw). split_and!; [apply Z.div_pos; lia|apply Z.div_lt_upper_bound; lia|apply Z.mod_pos_bound; lia..|apply Z.div_mod; lia].
Qed.

(** The window after the round: the remainder, and perhaps the carry above it. *)
Lemma sub_back s qd : q <= qd <= q + 1 -> qd < B -> seg s (v, 0) lv -> seg s (u, i) lw -> room s (u, i) (vn + 2) ->
  exists X, (sign ← mpvecdigmulsub (v, 0) vn qd (padd up (- vn));
    if sign <? 0 then
      _ ← mpvecadd (padd up (- vn)) (vn + 1) (v, 0) vn (padd up (- vn));
      mret (u32 (qd - 1))
    else mret qd) s = (Ok q, wr (u, i) (digits (length lw) (W mod V) ++ X) s) /\ dig X /\ zlen X <= 1.
Proof using All.
  intros Hq HB Sv Sw Rw. destruct round_V as (HV & HVd & Hvn). destruct round_q as (Hq0 & Hm & Em).
  assert (Eup : padd up (- vn) = (u, i)) by (unfold padd; cbn; f_equal; lia). rewrite Eup.
  rewrite (bind_ok _ _ _ _ _ (mpvecdigmulsub_ok s (v, 0) lv qd (u, i) lw Dv Dw ltac:(lia) Lw Sv Sw ltac:(left; cbn; congruence))).
  set (X0 := digits (length lw) (W - qd * V)). assert (ZX0 : zlen X0 = zlen lw) by (unfold X0; apply digits_zlen).
  assert (Zw : zlen lw = vn + 1) by (unfold zlen; rewrite Lw; lia). assert (R0 : room s (u, i) (vn + 1)) by (rewrite <- Zw; by apply seg_room).
  destruct (Z.ltb_spec W (qd * V)) as [Hlt|Hlt]; cbn [Z.ltb Z.compare].
  2:{ assert (qd = q) as -> by nia. exists []. split_and!; [|by apply Forall_nil_2|done]. unfold mret, M_ret. rewrite app_nil_r.
      do 2 f_equal. unfold X0. f_equal. lia. }
  assert (qd = q + 1) as -> by nia. set (s1 := wr (u, i) X0 s).
  assert (S1 : seg s1 (u, i) X0) by (apply (seg_wr_same _ _ _ (vn + 1)); (done || lia)).
  assert (Sv1 : seg s1 (v, 0) lv) by (apply (seg_wr_other _ _ _ _ _ _ R0); [lia|left; cbn; congruence|done]).
  assert (R1 : room s1 (u, i) (zlen X0 + 1)) by (apply (room_wr _ _ _ _ (vn + 1)); [done|lia|eapply room_eq; [exact Rw|lia]]).
  pose proof (mpvecadd_ok s1 (u, i) X0 (v, 0) lv (u, i) (digits_dig _ _) Dv ltac:(lia) S1 Sv1 R1 ltac:(right; cbn; lia) ltac:(left; cbn; congruence)) as E.
  rewrite ZX0, Zw in E. rewrite (bind_ok _ _ _ _ _ E). clear E.
  assert (VX : val X0 = B ^ zlen lw - (V - W mod V)).
  { unfold X0. rewrite val_digits. fold (zlen lw). rewrite Zw. replace (W - (q + 1) * V) with (W mod V - V) by lia.
    symmetry. apply (Z.mod_unique _ _ (-1)); [left|lia]. rewrite Z.pow_add_r, Z.pow_1_r by lia. pose proof (val_bound _ Dv). pose proof B_eq. nia. }
  exists [1]. split_and!; [|apply Forall_cons_2; [done|by apply Forall_nil_2]|done]. replace (q + 1 - 1) with q by lia.
  replace (u32 q) with q by (rewrite u32_mod; symmetry; by apply Z.mod_small). unfold mret, M_ret. f_equal.
  rewrite <- (Nat.add_1_r (length X0)). unfold X0 at 1. rewrite digits_length.
  assert (Ed : digits (length lw + 1) (val X0 + V) = digits (length lw) (W mod V) ++ [1]).
  { rewrite VX. replace (B ^ zlen lw - (V - W mod V) + V) with (W mod V + B ^ Z.of_nat (length lw) * 1) by (fold (zlen lw); lia).
    rewrite digits_add_high, digits_1. do 2 f_equal. rewrite Z.div_small; [done|]. fold (zlen lw). pose proof (val_bound _ Dv).
    pose proof (Z.pow_le_mono_r B vn (zlen lw) B_pos ltac:(lia)). lia. }
  rewrite Ed. unfold s1. set (Y := digits (length lw) (W mod V) ++ [1]).
  assert (ZY : zlen Y = vn + 2) by (unfold Y; rewrite zlen_app, digits_zlen; fold (zlen lw); change (zlen [1]) with 1; lia).
  pose proof (wr_over s (u, i) 0 Y X0 ltac:(lia) ltac:(lia) ltac:(by rewrite ZY)) as E. by rewrite padd_0 in E.
Qed.

(** The last two digits of the window. *)
Lemma window_top : exists lw1 lo hi, lw = lw1 ++ [lo; hi] /\ length lw1 = length lv'.
Proof using Lw Ev.
  clear - Lw Ev. assert (E : length lw = (length lv' + 2)%nat) by (rewrite Lw, Ev, length_app; cbn; lia).
  destruct (split_at lw (zlen lv')) as (l1 & l2 & El & Z1 & Z2); [unfold zlen; lia|].
  assert (L2 : length l2 = 2%nat) by (unfold zlen in *; lia). destruct l2 as [|lo [|hi [|]]]; try (cbn in L2; lia).
  exists l1, lo, hi. split; [done|unfold zlen in *; lia].
Qed.

(** The trial quotient is the digit of the quotient or one too large. *)
Lemma round_trial s : seg s (v, 0) lv -> seg s (u, i) lw -> room s (t, 0) 3 ->
  exists lo hi qd T, seg s up [hi] /\ seg s (padd up (-1)) [lo] /\ seg s (v, vn - 1) [d] /\ zlen T <= 3 /\
    (if 1 <? vn then trial_loop 3 (v, vn - 1) up (t, 0) (mpdigdiv hi lo d) else mret (mpdigdiv hi lo d)) s = (Ok qd, wr (t, 0) T s) /\
    q <= qd <= q + 1 /\ qd < B.
Proof using All.
  intros Sv Sw Rt. destruct round_V as (HV & HVd & Hvn). destruct round_q as (Hq0 & Hm & Em).
  destruct window_top as (lw1 & lo & hi & El & L1). exists lo, hi.
  assert (Zv : vn = zlen lv' + 1) by (rewrite Ev, zlen_app; done).
  assert (D1 : dig lw1 /\ 0 <= lo < B /\ 0 <= hi < B).
  { rewrite El in Dw. apply dig_app in Dw as [? D]. apply dig_cons in D as [? D]. apply dig_cons in D as [? _]. done. }
  assert (D2 : dig lv' /\ 0 <= d < B).
  { rewrite Ev in Dv. apply dig_app in Dv as [? D]. apply dig_cons in D as [? _]. done. }
  destruct D1 as (D1 & Dlo & Dhi), D2 as (D2 & Dd). assert (Hd0 : 0 < d) by (rewrite B_eq in *; lia).
  pose proof (mpdigdiv_ok hi lo d Dhi Dlo ltac:(lia)) as Eq0. set (qd0 := mpdigdiv hi lo d) in *.
  pose proof (val_bound _ D1) as B1. pose proof (val_bound _ D2) as B2.
  replace (zlen lw1) with (zlen lv') in B1 by (unfold zlen; lia). set (M := B ^ zlen lv') in *.
  assert (EV : V = d * M + val lv') by (rewrite Ev, val_snoc; unfold M; lia).
  assert (EW : W = (hi * B + lo) * M + val lw1).
  { rewrite El, val_app. cbn [val]. replace (zlen lw1) with (zlen lv') by (unfold zlen; lia). fold M. lia. }
  assert (HM : 0 < M) by lia.
  assert (Hnn : 0 <= hi * B + lo) by (rewrite B_eq in *; lia).
  assert (Hlow : q <= (hi * B + lo) / d).
  { rewrite EV, EW. apply trial_low; (done || lia). }
  assert (Hge : 0 <= (hi * B + lo) / d) by (apply Z.div_pos; lia).
  assert (Hqd0B : 0 <= qd0 < B) by (clear - Eq0 Hge; rewrite B_eq in *; lia).
  assert (Hqd0 : qd0 * d <= hi * B + lo).
  { pose proof (Z.mul_div_le (hi * B + lo) d Hd0) as Hdiv. assert (Hle : qd0 <= (hi * B + lo) / d) by (clear - Eq0; lia).
    pose proof (Z.mul_le_mono_nonneg_r _ _ d (Z.lt_le_incl _ _ Hd0) Hle) as Hm'. clear - Hdiv Hm'. lia. }
  assert (Htwo : qd0 <= q + 2).
  { rewrite EV, EW. apply (trial_two M d (val lv') (hi * B + lo) (val lw1)) with (b := B); (done || lia). }
  pose proof Sw as Sw0. rewrite El in Sw0. apply seg_app in Sw0 as [Sw1 Sw2]. apply seg_cons in Sw2 as [Slo Shi].
  rewrite padd_padd in Shi. replace (zlen lw1) with (zlen lv') in * by (unfold zlen; lia).
  pose proof Sv as Sv0. rewrite Ev in Sv0. apply seg_app in Sv0 as [Sv1 Sd].
  assert (Eup : padd (u, i) (zlen lv' + 1) = up) by (unfold padd; cbn; f_equal; lia). rewrite Eup in Shi.
  assert (Elo : padd (u, i) (zlen lv') = padd up (-1)) by (unfold padd; cbn; f_equal; lia). rewrite Elo in Slo.
  assert (Ed : padd (v, 0) (zlen lv') = (v, vn - 1)) by (unfold padd; cbn; f_equal; lia). rewrite Ed in Sd.
  destruct (Z.ltb_spec 1 vn) as [Hn|Hn].
  2:{ (* one digit: the trial quotient is exact *)
      exists qd0, []. rewrite wr_nil. split_and!; try done; try (change (zlen (@nil Z)) with 0; lia).
      assert (E0 : lv' = []) by (apply zlen_0_inv; pose proof (zlen_nonneg lv'); lia). unfold M in *. rewrite E0 in *. cbn [val] in *.
      change (zlen (@nil Z)) with 0 in *. rewrite Z.pow_0_r in *. assert (val lw1 = 0) by lia.
      assert (q = (hi * B + lo) / d) by (rewrite EV, EW; f_equal; lia). lia. }
  destruct (exists_last (l := lv')) as (lv0 & v0 & E0); [intros ->; change (zlen (@nil Z)) with 0 in Zv; lia|].
  destruct (exists_last (l := lw1)) as (lw0 & w0 & E1); [intros ->; rewrite E0, length_app in L1; cbn in L1; lia|].
  assert (Z0 : zlen lw0 = zlen lv0) by (rewrite E0, E1, !length_app in L1; cbn in L1; unfold zlen; lia).
  assert (Z1 : zlen lv' = zlen lv0 + 1) by (rewrite E0, zlen_app; done).
  rewrite E0 in Sv1, D2. rewrite E1 in Sw1, D1. apply dig_app in D1 as [D1 Dw0], D2 as [D2 Dv0]. apply dig_cons in Dw0 as [Dw0 _], Dv0 as [Dv0 _].
  apply seg_app in Sv1 as [_ Sv0], Sw1 as [_ Sw0].
  assert (S2 : seg s (padd (v, vn - 1) (-1)) [v0; d]).
  { apply seg_cons. split; [replace (padd (v, vn - 1) (-1)) with (padd (v, 0) (zlen lv0)) by (unfold padd; cbn; f_equal; lia); done|].
    rewrite padd_padd, padd_0. exact Sd. }
  assert (S3 : seg s (padd up (-2)) [w0; lo; hi]).
  { apply seg_cons. split; [replace (padd up (-2)) with (padd (u, i) (zlen lw0)) by (unfold padd; cbn; f_equal; lia); done|].
    apply seg_cons. rewrite !padd_padd. split; [exact Slo|rewrite padd_0; exact Shi]. }
  set (M2 := B ^ zlen lv0). assert (HM2 : 0 < M2) by (apply Z.pow_pos_nonneg; [done|apply zlen_nonneg]).
  assert (EV2 : V = (v0 + B * d) * M2 + val lv0) by (rewrite EV; unfold M; rewrite Z1, Z.pow_add_r, Z.pow_1_r, E0, val_snoc by (done || apply zlen_nonneg); fold M2; lia).
  assert (EW2 : W = (w0 + B * (lo + B * hi)) * M2 + val lw0).
  { rewrite EW; unfold M; rewrite Z1, Z.pow_add_r, Z.pow_1_r, E1, val_snoc, Z0 by (done || apply zlen_nonneg); fold M2; lia. }
  pose proof (val_bound _ D1) as C1. pose proof (val_bound _ D2) as C2. rewrite Z0 in C1. fold M2 in C1, C2.
  assert (Hnv : 0 < v0 + B * d) by (clear - Dv0 Hd0; rewrite B_eq in *; lia).
  assert (Hnw : 0 <= w0 + B * (lo + B * hi)) by (clear - Dw0 Dlo Dhi; rewrite B_eq in *; lia).
  assert (Vv : val [v0; d] = v0 + B * d) by (cbn; lia). assert (Vw : val [w0; lo; hi] = w0 + B * (lo + B * hi)) by (cbn; lia).
  assert (Hr3 : q <= qd0 < q + Z.of_nat 3) by (clear - Hlow Hq0 Htwo Eq0; lia).
  assert (Hl2 : q * val [v0; d] <= val [w0; lo; hi]).
  { rewrite Vv, Vw, EV2, EW2. apply trial_exact; (done || (clear - C1 C2; lia)). }
  assert (Hh2 : forall x, val [w0; lo; hi] < x * val [v0; d] -> q < x).
  { intros x Hx. rewrite Vv, Vw in Hx. rewrite EV2, EW2. apply trial_high; (done || (clear - C1 C2; lia)). }
  assert (G2 : dig [v0; d]) by (repeat (apply Forall_cons_2; [done|]); apply Forall_nil_2).
  assert (G3 : dig [w0; lo; hi]) by (repeat (apply Forall_cons_2; [done|]); apply Forall_nil_2).
  destruct (trial_loop_ok (v, vn - 1) up (t, 0) [v0; d] [w0; lo; hi] q G2 G3 eq_refl eq_refl Htv Htu (proj1 Hq0) Hl2 Hh2 3%nat s qd0 Hr3 (proj2 Hqd0B) S2 S3 Rt)
    as (qd & T & E & Hqd & Hpass & ZT).
  exists qd, T. split_and!; try done; [clear - ZT; lia|apply Hqd| |clear - Hqd Hqd0B; lia]. rewrite Vv, Vw in Hpass. rewrite EV2, EW2.
  assert (HBV : B * M2 <= (v0 + B * d) * M2).
  { apply Z.mul_le_mono_nonneg_r; [clear - HM2; lia|]. clear - Hd0 Dv0. rewrite B_eq in *. lia. }
  assert (Hqd' : 0 <= qd) by (clear - Hqd Hq0; lia).
  apply (trial_pass M2 (v0 + B * d) (val lv0) (w0 + B * (lo + B * hi)) (val lw0)) with (c := B); try done.
  all: clear - Hqd Hqd' HBV C1 C2 Hnv Hqd0B HM2; lia.
Qed.

(** One round of the loop: the digit of the quotient, and the remainder in the window. *)
Lemma round_ok s (f : Z -> M MpStore ()) : seg s (v, 0) lv -> seg s (u, i) lw -> room s (u, i) (vn + 2) -> room s (t, 0) 3 ->
  exists X T, (hi ← ldig up; lo ← ldig (padd up (-1)); d ← ldig (v, vn - 1);
      qd ← (if 1 <? vn then trial_loop 3 (v, vn - 1) up (t, 0) (mpdigdiv hi lo d) else mret (mpdigdiv hi lo d));
      sign ← mpvecdigmulsub (v, 0) vn qd (padd up (- vn));
      qd ← (if sign <? 0 then
              _ ← mpvecadd (padd up (- vn)) (vn + 1) (v, 0) vn (padd up (- vn));
              mret (u32 (qd - 1))
            else mret qd);
      f qd) s = f q (wr (u, i) (digits (length lw) (W mod V) ++ X) (wr (t, 0) T s)) /\ dig X /\ zlen X <= 1 /\ zlen T <= 3.
Proof using All.
  intros Sv Sw Rw Rt. destruct (round_trial s Sv Sw Rt) as (lo & hi & qd & T & Shi & Slo & Sd & ZT & E & Hq & HB).
  rewrite (bind_ok _ _ _ _ _ (ldig_ok _ _ _ Shi)), (bind_ok _ _ _ _ _ (ldig_ok _ _ _ Slo)), (bind_ok _ _ _ _ _ (ldig_ok _ _ _ Sd)), (bind_ok _ _ _ _ _ E).
  assert (RT : room s (t, 0) (zlen T)).
  { apply (room_eq _ _ _ (zlen T + (3 - zlen T))) in Rt; [|lia]. pose proof (zlen_nonneg T). by apply room_split in Rt as [? _]; [|lia..]. }
  destruct (sub_back (wr (t, 0) T s) qd) as (X & EX & DX & ZX); try done.
  - apply (seg_wr_other _ _ _ _ _ _ RT); [done|left; cbn; congruence|done].
  - apply (seg_wr_other _ _ _ _ _ _ RT); [done|left; cbn; congruence|done].
  - by apply (room_wr _ _ _ _ (zlen T)).
  - exists X, T. split_and!; try done. exact (bind_ok_assoc _ _ _ _ _ _ EX).
Qed.
End round.

