(* ===== verification/MpLoop.v ===== *)
(** * Multiple precision arithmetic: the loop of the division

    The objects of the dividend, the quotient and the scratch digits from round
    to round ([mpdiv_loop]): after [n] rounds the dividend's object holds the
    remainder and the quotient's the [n] digits of the quotient. *)
From S2P Require Import Prelude CMonad Mp MpVal MpVec MpMul MpSafe MpInt MpAdd MpShift MpDigdiv MpDiv.

Lemma blit_front (l r p : list Z) : zlen (l ++ r) <= zlen p -> blit 0 l (blit (zlen l) r p) = blit 0 (l ++ r) p.
Proof.
  intros H. pose proof (zlen_nonneg l). pose proof (zlen_nonneg r). rewrite zlen_app in H. apply list_eq. intros i.
  rewrite !lookup_blit; rewrite ?zlen_blit, ?zlen_app; try lia. unfold zlen in *. repeat case_decide; try lia.
  - by rewrite lookup_app_l by lia.
  - rewrite lookup_app_r by lia. f_equal. lia.
  - done.
Qed.

(** The stores agree but on the objects in [X]. *)
Definition frame (X : nat -> Prop) (s s' : MpStore) : Prop :=
  length (objs s') = length (objs s) /\ mpmindigits s' = mpmindigits s /\ forall b, ~ X b -> mpobj b s' = mpobj b s.
Lemma same_but_refl X s : frame X s s.
Proof. done. Qed.
Lemma same_but_trans X s s' s'' : frame X s s' -> frame X s' s'' -> frame X s s''.
Proof. intros (L1 & M1 & F1) (L2 & M2 & F2). split_and!; [congruence..|]. intros b Hb. rewrite F2, F1; done. Qed.
Lemma same_but_put (X : nat -> Prop) b o s : X b -> frame X s (mp_put b o s).
Proof. intros H. split_and!; [apply objs_put|done|]. intros b' Hb. apply mpobj_put_ne. intros ->. done. Qed.

Lemma dig_blit i l p : dig p -> dig l -> dig (blit i l p).
Proof. intros Hp Hl. apply dig_app; split; [by apply dig_take|]. apply dig_app; split; [done|by apply dig_drop]. Qed.
Lemma take_blit (n : nat) (l r p : list Z) : (n + length (l ++ r) <= length p)%nat ->
  take (n + length l) (blit (Z.of_nat n) (l ++ r) p) = take n p ++ l.
Proof.
  intros H. unfold blit. rewrite Nat2Z.id. assert (E : length (take n p) = n) by (rewrite length_take; lia).
  rewrite <- E at 1. rewrite take_app_add. f_equal. rewrite <- app_assoc. by apply take_app_length.
Qed.
Lemma blit_same (i : nat) x (p : list Z) : p !! i = Some x -> blit (Z.of_nat i) [x] p = p.
Proof.
  intros H. pose proof (lookup_lt_Some _ _ _ H). unfold blit. rewrite Nat2Z.id. cbn [length app]. rewrite Nat.add_1_r. by apply take_drop_middle.
Qed.

Section loop.
Context (u v t : nat) (q : option nat) (ov : Mpint) (lv lv' : list Z) (d : Z).
Context (Wv : wf ov) (Elv : mpd ov = lv) (Ev : lv = lv' ++ [d]) (Hd : B <= 2 * d).
Context (Huv : u <> v) (Htu : t <> u) (Htv : t <> v) (Hqu : q <> Some u) (Hqv : q <> Some v) (Hqt : q <> Some t).
Local Notation vn := (zlen lv).
Local Notation V := (val lv).
Definition changed (b : nat) : Prop := b = u \/ b = t \/ q = Some b.
(** The scratch object, and the object of the quotient with room for [n] digits. *)
Definition scratch (s : MpStore) : Prop :=
  exists ot, mpobj t s = Some ot /\ zlen (mp_p ot) = mp_size ot /\ 3 <= mp_size ot /\ Z.land (mp_flags ot) MPstatic = 0.
Definition qroom (s : MpStore) (n : nat) : Prop := forall b, q = Some b -> exists oq, mpobj b s = Some oq /\ Z.of_nat n <= zlen (mp_p oq).
(** The digits [Q] of the quotient stored from position [i]. *)
Definition qstored (s s' : MpStore) (i : nat) (Q : list Z) : Prop :=
  forall b oq, q = Some b -> mpobj b s = Some oq -> mpobj b s' = Some (mp_set_p (blit (Z.of_nat i) Q (mp_p oq)) oq).

(** Before a round with [n] digits of the quotient to come. *)
Record dstate (s : MpStore) (n : nat) (ou : Mpint) : Prop := mkdstate {
  ds_u : mpobj u s = Some ou;
  ds_wf : wf ou;
  ds_top : mp_top ou = Z.of_nat n + vn;
  ds_size : Z.of_nat n + vn + 1 <= mp_size ou;
  ds_high : val (drop n (mpd ou)) < V;
  ds_v : mpobj v s = Some ov;
  ds_t : scratch s;
  ds_q : qroom s n
}.
Definition qptr (n : nat) : option Ptr := (fun b => (b, Z.of_nat n - 1)) <$> q.

Lemma dig_lv : dig lv /\ 0 < vn /\ 0 < V.
Proof using All.
  assert (D : dig lv) by (rewrite <- Elv; by apply dig_mpd). split; [done|].
  rewrite Ev in *. rewrite zlen_app. change (zlen [d]) with 1. pose proof (zlen_nonneg lv'). split; [lia|]. rewrite val_snoc.
  apply dig_app in D as [D _]. pose proof (val_bound _ D). pose proof (Z.pow_pos_nonneg B (zlen lv') B_pos ltac:(lia)).
  assert (0 < d) by (rewrite B_eq in Hd; lia). nia.
Qed.

(** The object of the dividend after a round: the digit that is cleared is zero already. *)
Section object.
Context (n : nat) (ou : Mpint) (X : list Z).
Context (Wu : wf ou) (Ht : mp_top ou = Z.of_nat (S n) + vn) (Hs : Z.of_nat (S n) + vn + 1 <= mp_size ou) (DX : dig X) (ZX : zlen X <= 1).
Context (Hh : val (drop (S n) (mpd ou)) < V).
Local Notation W := (val (drop n (mpd ou))).
Local Notation ou1 := (mp_set_p (blit (Z.of_nat n) (digits (S (length lv)) (W mod V) ++ X) (mp_p ou)) ou).

Lemma window_bound : W < V * B.
Proof using All.
  destruct dig_lv as (D & Hvn & HV). pose proof (zlen_mpd _ Wu) as Zu.
  assert (Hl : (n < length (mpd ou))%nat) by (clear - Zu Ht Hvn; unfold zlen in *; lia).
  destruct (lookup_lt_is_Some_2 _ _ Hl) as [x Hx]. rewrite (drop_S _ _ _ Hx). cbn [val].
  assert (0 <= x < B) by (eapply Forall_lookup_1 in Hx; [exact Hx|by apply dig_mpd]).
  assert (B * val (drop (S n) (mpd ou)) <= B * (V - 1)) by (apply Z.mul_le_mono_nonneg_l; lia). lia.
Qed.
Lemma rem_digits : digits (S (length lv)) (W mod V) = digits (length lv) (W mod V) ++ [0].
Proof using All.
  destruct dig_lv as (D & Hvn & HV). pose proof (val_bound _ D) as BV.
  assert (HR : 0 <= W mod V < V) by (apply Z.mod_pos_bound; lia).
  rewrite <- Nat.add_1_r. by rewrite digits_high_zero by (unfold zlen in BV; lia).
Qed.
Lemma round_fits : (n + length (digits (length lv) (W mod V) ++ [0%Z] ++ X) <= length (mp_p ou))%nat.
Proof using All.
  pose proof (wf_size _ Wu) as Su. rewrite !length_app, digits_length. cbn. clear - Su Hs ZX. unfold zlen in *. lia.
Qed.
Lemma round_object : blit (Z.of_nat n + vn) [0] (mp_p ou1) = mp_p ou1.
Proof using All.
  cbn [mp_p mp_set_p]. replace (Z.of_nat n + vn) with (Z.of_nat (n + length lv)) by (unfold zlen; lia). apply blit_same.
  rewrite rem_digits, <- app_assoc. pose proof round_fits as Hf. unfold blit. rewrite Nat2Z.id.
  assert (E : length (take n (mp_p ou)) = n) by (rewrite length_take; clear - Hf; lia).
  rewrite lookup_app_r by lia. rewrite E. rewrite <- app_assoc. rewrite lookup_app_r by (rewrite digits_length; lia).
  rewrite digits_length. by replace (n + length lv - n - length lv)%nat with 0%nat by lia.
Qed.
Lemma round_wf : wf (mp_set_top (mp_top ou - 1) ou1).
Proof using All.
  pose proof round_fits as Hf. pose proof Wu as [Su [T1 T2] Du Ss Fu].
  assert (Zb : zlen (mp_p ou1) = zlen (mp_p ou)).
  { cbn [mp_p mp_set_p]. apply zlen_blit; [lia|]. rewrite rem_digits, <- app_assoc. unfold zlen. clear - Hf. lia. }
  cbn [mp_p mp_set_p] in Zb. split; cbn [mp_p mp_set_p mp_set_top mp_top mp_size mp_sign mp_flags]; try done; [by rewrite Zb|clear - T1 T2 Ht; pose proof (zlen_nonneg lv); lia|]. apply dig_blit; [done|]. apply dig_app. split; [apply digits_dig|done].
Qed.
Lemma round_mpd : mpd (mp_set_top (mp_top ou - 1) ou1) = take n (mpd ou) ++ digits (length lv) (W mod V).
Proof using All.
  pose proof round_fits as Hf. unfold mpd at 1. cbn [mp_p mp_top mp_set_top mp_set_p]. rewrite Ht.
  replace (Z.to_nat (Z.of_nat (S n) + vn - 1)) with (n + length (digits (length lv) (W mod V)))%nat by (rewrite digits_length; unfold zlen; lia).
  rewrite rem_digits, <- app_assoc, take_blit by done. f_equal. unfold mpd. rewrite take_take. f_equal. clear - Ht. pose proof (zlen_nonneg lv). lia.
Qed.
End object.

(** The digit of the quotient is stored. *)
Lemma store_digit s n x : qroom s (S n) -> exists s',
  (match qptr (S n) with
   | Some qp => _ ← sdig qp x; mret (Some (padd qp (-1)))
   | None => mret None
   end) s = (Ok (qptr n), s') /\ frame (fun b => q = Some b) s s' /\ qstored s s' n [x].
Proof using.
  clear. intros Hq. unfold qptr, qroom, qstored in *. destruct q as [b|]; cbn [fmap option_fmap option_map].
  2:{ exists s. split_and!; [done|apply same_but_refl|done]. }
  destruct (Hq b eq_refl) as (oq & Eq & Hl). replace (Z.of_nat (S n) - 1) with (Z.of_nat n) by lia.
  assert (R : room s (b, Z.of_nat n) 1) by (rewrite <- (mp_put_id b oq s Eq); apply room_put; [by eapply mpobj_lt|lia..]).
  rewrite (bind_ok _ _ _ _ _ (sdig_ok _ _ x R)), (wr_obj _ _ _ oq) by done. eexists. split_and!; [done|by apply same_but_put|].
  intros b' oq' [= <-] E. rewrite Eq in E. injection E as <-. by eapply mpobj_put_eq.
Qed.
Lemma frame_qroom X s s' n : frame X s s' -> (forall b, X b -> q <> Some b) -> qroom s n -> qroom s' n.
Proof using.
  clear. intros (_ & _ & F) H Hq b Eb. destruct (Hq b Eb) as (oq & E & Hl). exists oq. rewrite F by (intros HX; by apply (H b)). done.
Qed.

(** One round: the next digit of the quotient. *)
Lemma one_round s n ou : dstate s (S n) ou ->
  let W := val (drop n (mpd ou)) in
  exists s' ou', mpdiv_loop (S n) u v t vn (v, vn - 1) (u, Z.of_nat n + vn) (qptr (S n)) s =
      mpdiv_loop n u v t vn (v, vn - 1) (u, Z.of_nat n + vn - 1) (qptr n) s' /\
    dstate s' n ou' /\ mag ou' = mag ou mod (B ^ Z.of_nat n * V) /\ mp_sign ou' = mp_sign ou /\ mp_flags ou' = mp_flags ou /\
    frame changed s s' /\ qstored s s' n [W / V].
Proof using All.
  intros [Eu Wu Tu Su Hh Es_v (ot & Et & Zt & Ht & Ft) Hq] W. destruct dig_lv as (D & Hvn & HV). pose proof (wf_size _ Wu) as Zu.
  assert (Lw : length (drop n (mpd ou)) = S (length lv)).
  { pose proof (zlen_mpd _ Wu) as Zm. rewrite length_drop. clear - Zm Tu. unfold zlen in *. lia. }
  pose proof (window_bound n ou [] Wu Tu Su (Forall_nil_2 _) ltac:(done) Hh) as HW.
  assert (Sv : seg s (v, 0) lv) by (rewrite <- Elv; by apply seg_mpd).
  assert (Sw : seg s (u, Z.of_nat n) (drop n (mpd ou))).
  { pose proof (seg_mpd _ _ _ Eu) as Sm. rewrite <- (take_drop n (mpd ou)) in Sm. apply seg_app in Sm as [_ Sm].
    replace (padd (u, 0) (zlen (take n (mpd ou)))) with (u, Z.of_nat n) in Sm; [done|]. unfold padd, zlen. cbn. f_equal. rewrite length_take.
    rewrite length_drop in Lw. clear - Lw. lia. }
  assert (Rw : room s (u, Z.of_nat n) (vn + 2)) by (rewrite <- (mp_put_id u ou s Eu); apply room_put; [by eapply mpobj_lt|lia..]).
  assert (Rt : room s (t, 0) 3) by (rewrite <- (mp_put_id t ot s Et); apply room_put; [by eapply mpobj_lt|lia..]).
  destruct (round_ok u v t (drop n (mpd ou)) lv (Z.of_nat n) d lv' (dig_drop _ _ (dig_mpd _ Wu)) D Lw Ev Hd Huv Htu Htv ltac:(lia) HW s
    (fun qd => qp ← (match qptr (S n) with Some qp => _ ← sdig qp qd; mret (Some (padd qp (-1))) | None => mret None end);
      _ ← mp_upd u (fun o => mp_set_top (mp_top o - 1) o);
      _ ← sdig (u, Z.of_nat n + vn) 0;
      mpdiv_loop n u v t vn (v, vn - 1) (padd (u, Z.of_nat n + vn) (-1)) qp) Sv Sw Rw Rt) as (X & T & E & DX & ZX & ZT).
  cbn [mpdiv_loop]. rewrite E, Lw. clear E. fold W.
  rewrite (wr_obj t 0 T ot) by done. set (ot1 := mp_set_p (blit 0 T (mp_p ot)) ot).
  assert (Zt1 : zlen (mp_p ot1) = zlen (mp_p ot)) by (cbn [ot1 mp_p mp_set_p]; apply zlen_blit; [done|clear - ZT Zt Ht; lia]).
  rewrite (wr_obj u _ _ ou) by (by rewrite mpobj_put_ne). set (ou1 := mp_set_p _ ou). set (s1 := mp_put u (Some ou1) _).
  assert (F1 : frame changed s s1) by (eapply same_but_trans; apply same_but_put; unfold changed; auto).
  assert (Q1 : qroom s1 (S n)).
  { intros b Eb. destruct (Hq b Eb) as (oq & Eq & Hl). exists oq. split; [|done]. unfold s1. rewrite !mpobj_put_ne by congruence. done. }
  destruct (store_digit s1 n (W / V) Q1) as (s2 & E2 & F2 & Q2). rewrite (bind_ok _ _ _ _ _ E2). clear E2.
  assert (U2 : mpobj u s2 = Some ou1).
  { destruct F2 as (_ & _ & F2). rewrite F2 by done. apply mpobj_put. rewrite objs_put. by eapply mpobj_lt. }
  rewrite (bind_ok _ _ _ _ _ (mp_upd_ok _ _ _ _ U2)). set (ou2 := mp_set_top _ ou1).
  pose proof (round_object n ou X Wu Tu Su DX ZX Hh) as E0. pose proof (round_wf n ou X Wu Tu Su DX ZX Hh) as W2. pose proof (round_mpd n ou X Wu Tu Su DX ZX Hh) as M2.
  fold W in E0, W2, M2. fold ou1 in E0. change (wf ou2) in W2. change (mpd ou2 = take n (mpd ou) ++ digits (length lv) (W mod V)) in M2.
  set (s3 := mp_put u (Some ou2) s2). assert (U3 : mpobj u s3 = Some ou2) by (by eapply mpobj_put_eq).
  assert (R0 : room s3 (u, Z.of_nat n + vn) 1).
  { apply room_put; [by eapply mpobj_lt|lia|lia|]. rewrite <- (wf_size _ W2). clear - Su. change (mp_size ou2) with (mp_size ou). lia. }
  rewrite (bind_ok _ _ _ _ _ (sdig_ok _ _ 0 R0)), (wr_obj u _ _ ou2) by done.
  replace (mp_set_p _ ou2) with ou2 by (cbn [mp_p ou2 mp_set_top]; rewrite E0; done).
  rewrite (mp_put_id _ _ _ U3). exists s3, ou2.
  assert (HR : 0 <= W mod V < V) by (apply Z.mod_pos_bound; lia). pose proof (val_bound _ D) as BV.
  assert (Vr : val (digits (length lv) (W mod V)) = W mod V) by (rewrite val_digits; apply Z.mod_small; split; [apply HR|eapply Z.lt_trans; [apply HR|apply BV]]).
  assert (Lt : length (take n (mpd ou)) = n) by (rewrite length_take; rewrite length_drop in Lw; clear - Lw; lia).
  split_and!; try done.
  - destruct F2 as (_ & _ & F2). split; try done.
    + change (mp_top ou2) with (mp_top ou - 1). clear - Tu. lia.
    + change (mp_size ou2) with (mp_size ou). clear - Su. lia.
    + rewrite M2, drop_app_length' by done. rewrite Vr. apply HR.
    + unfold s3. rewrite mpobj_put_ne by congruence. rewrite F2 by exact Hqv. unfold s1. by rewrite !mpobj_put_ne by congruence.
    + exists ot1. split_and!; [|by rewrite Zt1|done|done]. unfold s3. rewrite mpobj_put_ne by congruence. rewrite F2 by exact Hqt. unfold s1.
      rewrite mpobj_put_ne by congruence. apply mpobj_put. by eapply mpobj_lt.
    + intros b Eb. destruct (Q1 b Eb) as (oq & Eq & Hl). exists (mp_set_p (blit (Z.of_nat n) [W / V] (mp_p oq)) oq).
      split; [unfold s3; rewrite mpobj_put_ne by congruence; by apply Q2|]. cbn [mp_p mp_set_p]. rewrite zlen_blit; [clear - Hl; lia|lia|change (zlen [W / V]) with 1; clear - Hl; lia].
  - assert (Em : val (mpd ou) = val (take n (mpd ou)) + B ^ Z.of_nat n * W).
    { rewrite <- (take_drop n (mpd ou)) at 1. rewrite val_app. unfold zlen. by rewrite Lt. }
    unfold mag. rewrite M2, val_app, Vr, Em. unfold zlen. rewrite Lt.
    pose proof (val_bound _ (dig_take n _ (dig_mpd _ Wu))) as BT. unfold zlen in BT. rewrite Lt in BT. pose proof (Bn_pos n) as Bn.
    rewrite Z.rem_mul_r by (clear - Bn HV; lia). rewrite (Z.mul_comm (B ^ _) W), Z.mod_add, Z.div_add by (clear - Bn; lia).
    rewrite (Z.mod_small _ _ BT), (Z.div_small _ _ BT), Z.add_0_l. done.
  - eapply same_but_trans; [exact F1|]. eapply same_but_trans; [|apply same_but_put; by left]. destruct F2 as (L2 & N2 & F2). split_and!; [done|done|].
    intros b Hb. apply F2. intros Eb. apply Hb. unfold changed. auto.
  - intros b oq Eb Eq. unfold s3. rewrite mpobj_put_ne by congruence. apply Q2; [done|]. unfold s1. by rewrite !mpobj_put_ne by congruence.
Qed.

(** The digits stored so far and the next one. *)
Lemma qstored_step s s1 s2 n x Q : qroom s (S n) -> length Q = n ->
  qstored s s1 n [x] -> qstored s1 s2 0 Q -> qstored s s2 0 (Q ++ [x]).
Proof using.
  clear. intros Hq HQ H1 H2 b oq Eb Eo. destruct (Hq b Eb) as (oq' & E' & Hl). rewrite Eo in E'. injection E' as <-.
  rewrite (H2 b _ Eb (H1 b oq Eb Eo)). replace (Z.of_nat n) with (zlen Q) by (unfold zlen; lia). change (Z.of_nat 0) with 0.
  rewrite <- (blit_front Q [x]); [done|]. rewrite zlen_app. change (zlen [x]) with 1. unfold zlen in *. lia.
Qed.
(** The quotient in terms of its leading digit and the quotient that is left. *)
Lemma quotient_step M n : 0 <= M -> 0 < V -> M / B ^ Z.of_nat n < V * B ->
  digits (S n) (M / V) = digits n (M mod (B ^ Z.of_nat n * V) / V) ++ [M / B ^ Z.of_nat n / V].
Proof using.
  clear. intros HM HV HW. pose proof (Bn_pos n) as Bn. rewrite <- Nat.add_1_r, digits_app, digits_1. f_equal.
  - apply digits_ext. rewrite (Z.mul_comm _ V), Z.rem_mul_r by lia. rewrite (Z.mul_comm V), Z.div_add by lia.
    rewrite (Z.div_small (M mod V)) by (apply Z.mod_pos_bound; lia). by rewrite Z.add_0_l, Z.mod_mod by lia.
  - f_equal. rewrite !Z.div_div by lia. rewrite (Z.mul_comm V). apply Z.mod_small. rewrite <- Z.div_div by lia.
    split; [apply Z.div_pos; [apply Z.div_pos|]; lia|apply Z.div_lt_upper_bound; lia].
Qed.
Lemma mod_high M n : 0 < V -> M mod (B ^ Z.of_nat n * V) mod V = M mod V.
Proof using.
  clear. intros HV. pose proof (Bn_pos n). rewrite (Z.mul_comm _ V), Z.rem_mul_r, (Z.mul_comm V), Z.mod_add, Z.mod_mod by lia. done.
Qed.

Lemma mpdiv_loop_ok n : forall s ou, dstate s n ou -> exists s' ou',
  mpdiv_loop n u v t vn (v, vn - 1) (u, Z.of_nat n + vn - 1) (qptr n) s = (Ok tt, s') /\
  dstate s' 0 ou' /\ mag ou' = mag ou mod V /\ mp_sign ou' = mp_sign ou /\ mp_flags ou' = mp_flags ou /\
  frame changed s s' /\ qstored s s' 0 (digits n (mag ou / V)).
Proof using All.
  induction n as [|n IH]; intros s ou S0; destruct dig_lv as (D & Hvn & HV).
  - exists s, ou. pose proof (mag_nonneg _ (ds_wf _ _ _ S0)). pose proof (ds_high _ _ _ S0) as Hh. rewrite drop_0 in Hh. fold (mag ou) in Hh.
    split_and!; try done; [symmetry; by apply Z.mod_small|]. intros b oq Eb Eo. cbn [digits]. change (Z.of_nat 0) with 0. by rewrite blit_nil, set_p_id.
  - destruct (one_round s n ou S0) as (s1 & ou1 & E1 & S1 & M1 & G1 & L1 & F1 & Q1).
    destruct (IH s1 ou1 S1) as (s2 & ou2 & E2 & S2 & M2 & G2 & L2 & F2 & Q2).
    pose proof (ds_wf _ _ _ S0) as Wu. pose proof (mag_nonneg _ Wu) as Hm.
    assert (EW : val (drop n (mpd ou)) = mag ou / B ^ Z.of_nat n).
    { pose proof (zlen_mpd _ Wu). pose proof (ds_top _ _ _ S0). replace n with (Z.to_nat (Z.of_nat n)) at 1 by lia. apply val_drop; [by apply dig_mpd|lia]. }
    pose proof (window_bound n ou [] Wu (ds_top _ _ _ S0) (ds_size _ _ _ S0) (Forall_nil_2 _) ltac:(done) (ds_high _ _ _ S0)) as HW. rewrite EW in HW.
    exists s2, ou2. split_and!; try congruence.
    + replace (u, Z.of_nat (S n) + vn - 1) with (u, Z.of_nat n + vn) by (f_equal; lia). by rewrite E1.
    + by rewrite M2, M1, mod_high.
    + by apply (same_but_trans _ _ s1).
    + rewrite quotient_step, <- EW, <- M1 by done. apply (qstored_step s s1 s2 n); try done; [apply S0|apply digits_length].
Qed.
End loop.
