(* ===== verification/MpSetup.v ===== *)
(** * Multiple precision arithmetic: the operands of the division

    The preparation of the operands ([mpdiv_setup]): the divisor shifted until
    its top bit is set, both in objects of their own when they must be; and that
    no operation on the way shortens an array ([growing]). *)
From S2P Require Import Prelude CMonad Mp MpVal MpVec MpMul MpSafe MpInt MpAdd MpProd MpShift.

(** ** Arrays never shrink *)

(** A run that returns leaves every object, with an array at least as long. *)
Definition growing {A} (m : M MpStore A) : Prop := forall s a s', m s = (Ok a, s') ->
  forall b o, mpobj b s = Some o -> exists o', mpobj b s' = Some o' /\ mp_size o <= mp_size o'.

Lemma growing_ret {A} (a : A) : growing (mret a).
Proof. intros s a' s' [= _ <-] b o E. by exists o. Qed.
Lemma growing_bind {A C} (m : M MpStore A) (f : A -> M MpStore C) : growing m -> (forall a, growing (f a)) -> growing (m ≫= f).
Proof.
  intros Hm Hf s c s' E b o Eo. unfold mbind, M_bind in E. destruct (m s) as [[a|x|] s1] eqn:E1; [|done..].
  destruct (Hm _ _ _ E1 _ _ Eo) as (o1 & Eo1 & H1). destruct (Hf _ _ _ _ E _ _ Eo1) as (o2 & Eo2 & H2). exists o2. split; [done|lia].
Qed.
Lemma growing_undefined {A} : growing (@undefined MpStore A).
Proof. by intros s a s' E. Qed.
Lemma growing_leave {A} x : growing (@leave MpStore A x).
Proof. by intros s a s' E. Qed.
Lemma growing_option {A} (x : option A) : growing (of_option x).
Proof. destruct x; [apply growing_ret|apply growing_undefined]. Qed.
Lemma growing_gets {A} (f : MpStore -> A) : growing (gets f).
Proof. intros s a s' [= _ <-] b o E. by exists o. Qed.
Lemma growing_get b : growing (mp_get b).
Proof. apply growing_bind; [apply growing_gets|intros; apply growing_option]. Qed.
(** A store to a field other than the size. *)
Lemma growing_store b f : (forall o, mp_size o <= mp_size (f o)) -> forall s o, mpobj b s = Some o ->
  forall b1 o1, mpobj b1 s = Some o1 -> exists o', mpobj b1 (mp_put b (Some (f o)) s) = Some o' /\ mp_size o1 <= mp_size o'.
Proof.
  intros H s o E b1 o1 E1. destruct (decide (b1 = b)) as [->|Hn].
  - rewrite E in E1. injection E1 as <-. exists (f o). split; [by eapply mpobj_put_eq|done].
  - exists o1. by rewrite mpobj_put_ne.
Qed.
Lemma growing_upd b f : (forall o, mp_size o <= mp_size (f o)) -> growing (mp_upd b f).
Proof.
  intros H s a s' E. destruct (mpobj b s) as [o|] eqn:Eo; [|unfold mp_upd, mp_get, mbind, M_bind, gets in E; by rewrite Eo in E].
  rewrite (mp_upd_ok _ _ _ _ Eo) in E. injection E as _ <-. by apply growing_store.
Qed.
Lemma growing_ldig p : growing (ldig p).
Proof. apply growing_bind; [apply growing_get|intros; apply growing_option]. Qed.
Lemma growing_put p f (c : Mpint -> bool) : (forall o, mp_size o <= mp_size (f o)) ->
  growing (o ← mp_get p; if c o then modify (mp_put p (Some (f o))) else undefined).
Proof.
  intros H s a s' E. destruct (mpobj p s) as [o|] eqn:Eo; [|unfold mp_get, mbind, M_bind, gets in E; by rewrite Eo in E].
  rewrite (bind_get _ _ _ _ Eo) in E. destruct (c o); [|done]. injection E as _ <-. by apply growing_store.
Qed.
Lemma growing_sdig p x : growing (sdig p x).
Proof. by apply (growing_put p.1 (fun o => mp_set_p (<[Z.to_nat p.2 := x]> (mp_p o)) o) (fun o => (0 <=? p.2) && (p.2 <? zlen (mp_p o)))). Qed.
Lemma growing_sdigs p l : growing (sdigs p l).
Proof. by apply (growing_put p.1 (fun o => mp_set_p (blit p.2 l (mp_p o)) o) (fun o => (0 <=? p.2) && (p.2 + zlen l <=? zlen (mp_p o)))). Qed.
Lemma growing_zdigs p n : growing (zdigs p n).
Proof. unfold zdigs. case_match; [apply growing_undefined|apply growing_sdigs]. Qed.
Lemma growing_ldigs p n : growing (ldigs p n).
Proof. apply growing_bind; [apply growing_get|]. intros o. case_match; [apply growing_ret|apply growing_undefined]. Qed.
Lemma growing_cint x : growing (cint x).
Proof. unfold cint. case_match; [apply growing_ret|apply growing_undefined]. Qed.
Lemma growing_assert c : growing (assert_ c).
Proof. unfold assert_. case_match; [apply growing_ret|apply growing_leave]. Qed.
Create HintDb growing.
#[export] Hint Resolve growing_ret growing_undefined growing_leave growing_option growing_gets growing_get growing_ldig growing_sdig growing_sdigs growing_zdigs growing_ldigs growing_cint growing_assert : growing.
(** Decompose a statement sequence into the statements above. *)
Ltac grows := repeat first
  [ progress auto with growing
  | apply growing_upd; intros ?; cbn [mp_size mp_set_sign mp_set_top mp_set_flags mp_set_p]; lia
  | apply growing_bind; [|intros ?]
  | case_match ].

Lemma growing_mpbits b m : growing (mpbits b m).
Proof.
  intros s a s' E b1 o1 E1. unfold mpbits in E. destruct (mpobj b s) as [o|] eqn:Eo; [|unfold mp_get, mbind, M_bind, gets in E; by rewrite Eo in E].
  rewrite (bind_get _ _ _ _ Eo) in E. destruct (Z.leb_spec (DIGITS m) (mp_size o)) as [H|H]; cbn [andb] in E.
  - match type of E with ?p _ = _ => assert (G : growing p) by grows end. exact (G _ _ _ E _ _ E1).
  - rewrite (bind_ok _ _ _ _ _ (mp_upd_ok _ _ _ _ Eo)) in E.
    match type of E with ?p _ = _ => assert (G : growing p) by grows end.
    destruct (decide (b1 = b)) as [->|Hn].
    + rewrite Eo in E1. injection E1 as <-. destruct (G _ _ _ E b _ (mpobj_put_eq _ _ _ _ Eo)) as (o' & E' & H'). exists o'. split; [done|]. cbn in H'. lia.
    + apply (G _ _ _ E). by rewrite mpobj_put_ne.
Qed.
Lemma growing_mpnorm_loop n b : growing (mpnorm_loop n b).
Proof. induction n; cbn [mpnorm_loop]; grows. Qed.
#[export] Hint Resolve growing_mpbits growing_mpnorm_loop : growing.
Lemma growing_mpnorm b : growing (mpnorm b).
Proof. unfold mpnorm. grows. Qed.
Lemma growing_pass b r : growing (pass_timesafe1 b r).
Proof. unfold pass_timesafe1. grows. Qed.
Lemma growing_right_digits n : forall i d b res, growing (mpright_digits n i d b res).
Proof. induction n; intros; cbn [mpright_digits]; grows. Qed.
Lemma growing_right_bits n : forall i d l r b res last, growing (mpright_bits n i d l r b res last).
Proof. induction n; intros; cbn [mpright_bits]; grows. Qed.
Lemma growing_left_digits n : forall d b res, growing (mpleft_digits n d b res).
Proof. induction n; intros; cbn [mpleft_digits]; grows. Qed.
Lemma growing_left_bits n : forall d l r b res last, growing (mpleft_bits n d l r b res last).
Proof. induction n; intros; cbn [mpleft_bits]; grows. Qed.
#[export] Hint Resolve growing_mpnorm growing_pass growing_right_digits growing_right_bits growing_left_digits growing_left_bits : growing.
Lemma growing_mpleft b k res : growing (mpleft b k res).
Proof. unfold mpleft, mpleft_pos, mpright_pos. grows. Qed.
Lemma growing_mpassign b b' : growing (mpassign b b').
Proof. unfold mpassign. grows. Qed.

(** ** The shift of the divisor *)

Lemma high_bit x : 0 <= x < 2 ^ 32 -> (Z.land x mpdighi =? 0) = (x <? 2 ^ 31).
Proof.
  intros H. change mpdighi with (2 ^ 31). assert (T : Z.testbit x 31 = negb (x <? 2 ^ 31)).
  { destruct (Z.testbit x 31) eqn:E, (Z.ltb_spec x (2 ^ 31)); try done.
    - apply Z.testbit_true in E; [|lia]. rewrite Z.div_small in E by lia. done.
    - apply Z.testbit_false in E; [|lia]. replace (x / 2 ^ 31) with 1 in E; [done|]. apply (Z.div_unique x (2 ^ 31) 1 (x - 2 ^ 31)); lia. }
  destruct (x <? 2 ^ 31) eqn:El; cbn [negb] in T.
  - apply Z.eqb_eq. apply Z.bits_inj'. intros n Hn. rewrite Z.land_spec, Z.bits_0, Z.pow2_bits_eqb by lia.
    destruct (Z.eqb_spec 31 n) as [<-|]; [by rewrite T|apply andb_false_r].
  - apply Z.eqb_neq. intros E. apply (f_equal (fun y => Z.testbit y 31)) in E. rewrite Z.land_spec, T, Z.bits_0, Z.pow2_bits_true in E by lia. done.
Qed.
Lemma high_shift_loop fuel : forall qd s, (fuel <= 32)%nat -> 2 ^ (32 - Z.of_nat fuel) <= qd < 2 ^ 32 ->
  exists k, high_shift fuel qd s = Some (s + k) /\ 0 <= k < 32 /\ 2 ^ 31 <= qd * 2 ^ k < 2 ^ 32.
Proof.
  induction fuel as [|fuel IH]; intros qd s Hf H; [lia|]. cbn [high_shift]. pose proof (Z.pow_pos_nonneg 2 (32 - Z.of_nat (S fuel)) ltac:(lia) ltac:(lia)).
  rewrite high_bit by lia. destruct (Z.ltb_spec qd (2 ^ 31)) as [Hl|Hl].
  - rewrite Z.shiftl_mul_pow2 by lia. rewrite u32_mod, Z.mod_small by (change B with (2 ^ 32); lia).
    destruct (IH (qd * 2 ^ 1) (s + 1)) as (k & E & Hk & Hq); [lia| |].
    { replace (32 - Z.of_nat fuel) with (32 - Z.of_nat (S fuel) + 1) by lia. rewrite Z.pow_add_r by lia. lia. }
    exists (k + 1). rewrite E. rewrite (Z.pow_add_r 2 k 1) by lia.
    assert (k < 31). { destruct (Z.lt_ge_cases k 31); [done|]. pose proof (Z.pow_le_mono_r 2 31 k ltac:(lia) ltac:(lia)). nia. }
    split_and!; [f_equal; lia|lia..].
  - exists 0. rewrite Z.pow_0_r. split_and!; [f_equal; lia|lia..].
Qed.
Lemma high_shift_ok qd : 0 < qd < B -> exists k, high_shift 32 qd 0 = Some k /\ 0 <= k < 32 /\ 2 ^ 31 <= qd * 2 ^ k < B.
Proof. intros H. destruct (high_shift_loop 32 qd 0 ltac:(lia)) as (k & E & H'); [change (2 ^ 32) with B; cbn; lia|]. by exists k. Qed.

(** The leading digit, from the magnitude and back. *)
Lemma top_split o : normal o -> 0 < mp_top o -> exists l d, mpd o = l ++ [d] /\ zlen l = mp_top o - 1 /\ 0 < d < B /\
  B ^ (mp_top o - 1) * d <= mag o < B ^ (mp_top o - 1) * (d + 1).
Proof.
  intros N Ht. pose proof (normal_wf _ N) as W. pose proof (zlen_mpd _ W) as Zo. pose proof (dig_mpd _ W) as D.
  destruct (exists_last (l := mpd o)) as (l & d & E); [intros E; rewrite E in Zo; change (zlen (@nil Z)) with 0 in Zo; lia|].
  exists l, d. rewrite E in D. apply dig_app in D as [D Dd]. apply dig_cons in Dd as [Dd _]. pose proof (normal_lead _ N l d E).
  rewrite E, zlen_app in Zo. change (zlen [d]) with 1 in Zo. assert (Zl : zlen l = mp_top o - 1) by lia.
  unfold mag. rewrite E, val_snoc, Zl. pose proof (val_bound _ D) as Hb. rewrite Zl in Hb. split_and!; (done || lia).
Qed.
(** The number of digits is determined by the magnitude. *)
Lemma top_unique o k : normal o -> 0 <= k -> B ^ k <= mag o < B ^ (k + 1) -> mp_top o = k + 1.
Proof.
  intros N Hk H. pose proof (normal_wf _ N) as W. pose proof (wf_top _ W). pose proof (mag_bound _ W).
  pose proof (Z.pow_pos_nonneg B k B_pos Hk).
  assert (mp_top o <> 0) by (intros E; apply (mag_zero _ N) in E; lia). pose proof (mag_lead _ N ltac:(lia)).
  destruct (Z.lt_trichotomy (mp_top o) (k + 1)) as [?|[?|?]]; [|done|].
  - pose proof (Z.pow_le_mono_r B (mp_top o) k B_pos ltac:(lia)). lia.
  - pose proof (Z.pow_le_mono_r B (k + 1) (mp_top o - 1) B_pos ltac:(lia)). lia.
Qed.
(** The divisor shifted: as many digits, the top bit set. *)
Lemma shifted_divisor oy ov k l d : normal oy -> normal ov -> mpd oy = l ++ [d] -> 2 ^ 31 <= d * 2 ^ k < B -> 0 <= k -> mag ov = mag oy * 2 ^ k ->
  mp_top ov = mp_top oy /\ exists lv' dv, mpd ov = lv' ++ [dv] /\ B <= 2 * dv.
Proof.
  intros Ny Nv Ed Hd Hk Hm. pose proof (pow2_pos k Hk) as P.
  assert (Ht : 0 < mp_top oy).
  { pose proof (zlen_mpd _ (normal_wf _ Ny)) as Zo. rewrite Ed, zlen_app in Zo. change (zlen [d]) with 1 in Zo. pose proof (zlen_nonneg l). lia. }
  destruct (top_split oy Ny Ht) as (l' & d' & Ed' & _ & Hd' & Hy). rewrite Ed in Ed'. apply app_inj_2 in Ed' as [_ [= <-]]; [|done].
  pose proof (Z.pow_pos_nonneg B (mp_top oy - 1) B_pos ltac:(lia)) as PB. set (X := B ^ (mp_top oy - 1)) in *.
  assert (Hlow : X * 2 ^ 31 <= mag ov).
  { rewrite Hm. apply Z.le_trans with (X * (d * 2 ^ k)); [apply Z.mul_le_mono_nonneg_l; lia|].
    rewrite Z.mul_assoc. apply Z.mul_le_mono_nonneg_r; lia. }
  assert (Hhigh : mag ov < X * B).
  { rewrite Hm. apply Z.lt_le_trans with (X * (d + 1) * 2 ^ k); [apply Z.mul_lt_mono_pos_r; lia|].
    rewrite <- Z.mul_assoc. apply Z.mul_le_mono_nonneg_l; [lia|]. unfold B in *.
    assert (d < 2 ^ (32 - k)).
    { apply (Z.mul_lt_mono_pos_r (2 ^ k)); [done|]. destruct (Z.le_gt_cases k 32).
      - rewrite <- Z.pow_add_r by lia. replace (32 - k + k) with 32 by lia. apply Hd.
      - pose proof (Z.pow_le_mono_r 2 32 k ltac:(lia) ltac:(lia)). nia. }
    destruct (Z.le_gt_cases k 32); [|rewrite Z.pow_neg_r in * by lia; lia].
    apply Z.le_trans with (2 ^ (32 - k) * 2 ^ k); [apply Z.mul_le_mono_nonneg_r; lia|]. rewrite <- Z.pow_add_r by lia. by replace (32 - k + k) with 32 by lia. }
  assert (Et : mp_top ov = mp_top oy).
  { rewrite (top_unique ov (mp_top oy - 1)); [lia|done|lia|]. fold X. rewrite Z.pow_add_r, Z.pow_1_r by lia. fold X.
    split; [apply Z.le_trans with (X * 2 ^ 31); [|done]|done]. rewrite <- (Z.mul_1_r X) at 1. apply Z.mul_le_mono_nonneg_l; lia. }
  split; [done|]. destruct (top_split ov Nv ltac:(lia)) as (lv' & dv & Ev & _ & Hdv & Hv). exists lv', dv. split; [done|].
  rewrite Et in Hv. fold X in Hv. destruct (Z.le_gt_cases B (2 * dv)) as [|Hlt]; [done|exfalso].
  assert (X * (dv + 1) <= X * 2 ^ 31) by (apply Z.mul_le_mono_nonneg_l; [lia|]; rewrite B_eq in Hlt; lia). lia.
Qed.

(** ** D1: the operands *)

Lemma mpobj_alloc_ne b x s : b <> length (objs s) -> mpobj b (alloc x s) = mpobj b s.
Proof.
  intros H. unfold mpobj, alloc. cbn. destruct (Nat.lt_ge_cases b (length (objs s))).
  - by rewrite lookup_app_l.
  - rewrite !lookup_ge_None_2; [done|lia|rewrite length_app; cbn; lia].
Qed.
Lemma mpobj_ge b s : (length (objs s) <= b)%nat -> mpobj b s = None.
Proof. intros H. unfold mpobj. by rewrite lookup_ge_None_2. Qed.
Lemma fresh_ready k : 0 <= k -> ready (fresh k).
Proof. intros. split; [by apply fresh_wf|done|done]. Qed.
(** A positive multiple has the same sign. *)
Lemma scaled_sign o o' k : normal o -> normal o' -> 0 < k -> mpz o' = mpz o * k -> mag o' = mag o * k /\ (0 < mag o -> mp_sign o' = mp_sign o).
Proof.
  intros N N' Hk H. destruct (mpz_sign o N) as [(E & E1 & E2)|(E & E1 & E2)], (mpz_sign o' N') as [(E' & E1' & E2')|(E' & E1' & E2')]; rewrite E, E'; nia.
Qed.

Section operands.
Context (s : MpStore) (x y : nat) (q r : option nat) (ox oy : Mpint).
Context (Ex : mpobj x s = Some ox) (Ey : mpobj y s = Some oy) (Nx : normal ox) (Ny : normal oy).
Context (Hxy : 0 < mag oy <= mag ox) (F : (mp_top ox + 3) * Dbits < 2 ^ 31).
Local Notation u := (length (objs s)).

Lemma tops : 0 < mp_top oy <= mp_top ox.
Proof using All.
  pose proof (normal_wf _ Nx) as Wx. pose proof (normal_wf _ Ny) as Wy. pose proof (wf_top _ Wx). pose proof (wf_top _ Wy).
  assert (mp_top oy <> 0) by (intros E; apply (mag_zero _ Ny) in E; lia). split; [lia|]. destruct (Z.le_gt_cases (mp_top oy) (mp_top ox)) as [|Hgt]; [done|].
  pose proof (mag_lead _ Ny ltac:(lia)). pose proof (mag_bound _ Wx). pose proof (Z.pow_le_mono_r B (mp_top ox) (mp_top oy - 1) B_pos ltac:(lia)). lia.
Qed.

(** The operands of the loop: [u] is new, [v] the divisor itself or new. *)
Record prepared (v : nat) (k : Z) (s' : MpStore) (ou ov : Mpint) : Prop := mkprepared {
  pr_u : mpobj u s' = Some ou;
  pr_v : mpobj v s' = Some ov;
  pr_k : 0 <= k < 32;
  pr_nu : normal ou;
  pr_nv : normal ov;
  pr_mu : mag ou = mag ox * 2 ^ k;
  pr_mv : mag ov = mag oy * 2 ^ k;
  pr_sign : mp_sign ou = mp_sign ox;
  pr_size : mp_top ou + 2 <= mp_size ou;
  pr_fu : Z.land (mp_flags ou) MPstatic = 0;
  pr_own : v = y /\ q <> Some y /\ r <> Some y \/ v = S u /\ Z.land (mp_flags ov) MPstatic = 0;
  pr_top : exists lv' d, mpd ov = lv' ++ [d] /\ B <= 2 * d;
  pr_min : mpmindigits s' = mpmindigits s;
  pr_old : forall b, (b < u)%nat -> mpobj b s' = mpobj b s;
  pr_new : forall b, (u <= b)%nat -> b <> u -> b <> v -> mpobj b s' = None
}.

(** A copy of [b] in a new object, shifted to the left. *)
Lemma shifted_copy σ b o k m : mpobj b σ = Some o -> normal o -> 0 < mag o -> 0 <= k < 32 -> 0 <= m -> (mp_top o + 1) * Dbits < 2 ^ 31 ->
  exists o', mpleft b k (length (objs σ)) (alloc (fresh (Z.max (DIGITS m) (mpmindigits σ))) σ) = (Ok tt, alloc o' σ) /\
    normal o' /\ mag o' = mag o * 2 ^ k /\ mp_sign o' = mp_sign o /\ Z.land (mp_flags o') MPstatic = 0 /\ DIGITS m <= mp_size o'.
Proof using.
  clear. intros Eo N Hm Hk Hb Hf. set (z := fresh _). pose proof (alloc_at z σ) as Ez.
  pose proof (DIGITS_nonneg m Hb) as Hd. assert (Rz : ready z) by (apply fresh_ready; lia). pose proof (wf_top _ (normal_wf _ N)).
  destruct (mpleft_ok (alloc z σ) b (length (objs σ)) o z k (alloc_old _ _ _ _ Eo) Ez N Rz ltac:(lia) ltac:(change Dbits with 32 in *; lia)) as (o' & E & [No Fo] & Hz).
  pose proof (growing_mpleft b k (length (objs σ)) _ _ _ E _ _ Ez) as (o1 & E1 & Hs). rewrite put_alloc_new in E, E1. rewrite alloc_at in E1. injection E1 as <-.
  exists o'. split; [done|]. unfold shifted in Hz. destruct (Z.ltb_spec k 0); [lia|].
  destruct (scaled_sign o o' (2 ^ k) N No (pow2_pos k ltac:(lia)) Hz) as [Hmag Hsg]. split_and!; try done; [by apply Hsg| |unfold z in Hs; cbn in Hs; lia].
  rewrite (same_flags_static z o') by (done || apply Rz || by apply normal_wf). done.
Qed.

Lemma plain_copy σ b o m : mpobj b σ = Some o -> normal o -> 0 <= m -> fits (mp_top o) ->
  exists o', mpassign b (length (objs σ)) (alloc (fresh (Z.max (DIGITS m) (mpmindigits σ))) σ) = (Ok tt, alloc o' σ) /\
    normal o' /\ mag o' = mag o /\ mp_sign o' = mp_sign o /\ Z.land (mp_flags o') MPstatic = 0 /\ DIGITS m <= mp_size o'.
Proof using.
  clear. intros Eo N Hb Hf. set (z := fresh _). pose proof (alloc_at z σ) as Ez.
  pose proof (DIGITS_nonneg m Hb) as Hd. assert (Rz : ready z) by (apply fresh_ready; lia).
  destruct (mpassign_ok (alloc z σ) b (length (objs σ)) o z (alloc_old _ _ _ _ Eo) Ez N (ready_wf _ Rz) (ready_plain _ Rz) Hf) as (o' & E & [No Fo] & Hm & Hs & _).
  pose proof (growing_mpassign b (length (objs σ)) _ _ _ E _ _ Ez) as (o1 & E1 & Hg). rewrite put_alloc_new in E, E1. rewrite alloc_at in E1. injection E1 as <-.
  exists o'. split_and!; try done; [|unfold z in Hg; cbn in Hg; lia]. rewrite (same_flags_static z o') by (done || apply Rz || by apply normal_wf). done.
Qed.
(** The digits of a shifted number. *)
Lemma shifted_top o o' k : normal o -> normal o' -> 0 <= k < 32 -> mag o' = mag o * 2 ^ k -> mp_top o' <= DIGITS (mp_top o * Dbits + k).
Proof using.
  clear. intros N N' Hk Hm. pose proof (wf_top _ (normal_wf _ N)). change Dbits with 32. rewrite DIGITS_eq by lia.
  pose proof (mag_bound _ (normal_wf _ N)) as Hb. pose proof (pow2_pos k ltac:(lia)). set (t := (mp_top o * 32 + k + 31) / 32).
  assert (Ht : mp_top o * 32 + k <= 32 * t) by (unfold t; dlia).
  destruct (Z.le_gt_cases (mp_top o') t) as [|Hlt]; [done|exfalso].
  assert (0 <= t) by lia. pose proof (mag_lead _ N' ltac:(lia)) as Hl. pose proof (Z.pow_le_mono_r B t (mp_top o' - 1) B_pos ltac:(lia)).
  assert (Hp : mag o * 2 ^ k < B ^ t).
  { apply Z.lt_le_trans with (B ^ mp_top o * 2 ^ k); [apply Z.mul_lt_mono_pos_r; lia|]. unfold B. rewrite <- !Z.pow_mul_r, <- Z.pow_add_r by lia. apply Z.pow_le_mono_r; lia. }
  lia.
Qed.
Lemma DIGITS_two t k : 0 <= t -> 0 <= k -> DIGITS ((t + 2) * Dbits + k) = DIGITS (t * Dbits + k) + 2.
Proof using. clear. intros. change Dbits with 32. rewrite !DIGITS_eq by lia. dlia. Qed.

Lemma mpdiv_setup_ok : exists v k s' ou ov, mpdiv_setup x y q r s = (Ok (u, v, k), s') /\ prepared v k s' ou ov.
Proof using All.
  destruct tops as [T0 T1]. destruct (top_split oy Ny T0) as (l & d & Ed & Zl & Hd & _). change Dbits with 32 in F.
  destruct (high_shift_ok d Hd) as (k & Ek & Hk & Hdk). set (m := (mp_top ox + 2) * Dbits + k).
  assert (Hm : 0 <= m < 2 ^ 31) by (unfold m; change Dbits with 32; lia). assert (Hm2 : DIGITS m = DIGITS (mp_top ox * Dbits + k) + 2) by (apply DIGITS_two; lia).
  unfold mpdiv_setup. rewrite (bind_get _ _ _ _ Ex), (bind_get _ _ _ _ Ey).
  assert (Sd : seg s (y, mp_top oy - 1) [d]).
  { pose proof (seg_mpd _ _ _ Ey) as Sy. rewrite Ed in Sy. apply seg_app in Sy as [_ Sy]. by rewrite Zl in Sy. }
  rewrite (bind_ok _ _ _ _ _ (ldig_ok _ _ _ Sd)), Ek. cbn [of_option]. rewrite bind_mret. fold m.
  rewrite (bind_ok _ _ _ _ _ (cint_ok m s ltac:(lia))), (bind_ok _ _ _ _ _ (mpnew_ok m s ltac:(lia))).
  set (z := fresh _). assert (Hx : 0 < mag ox) by lia.
  assert (Nu : x <> u) by (apply mpobj_lt in Ex; lia). assert (Nuy : y <> u) by (apply mpobj_lt in Ey; lia).
  destruct ((k =? 0) && negb (same q y) && negb (same r y)) eqn:Eown.
  - apply andb_true_iff in Eown as [Eown H3]. apply andb_true_iff in Eown as [H1 H2]. apply Z.eqb_eq in H1. apply negb_true_iff in H2, H3.
    destruct (plain_copy s x ox m Ex Nx ltac:(lia)) as (ou & E & Nou & Mu & Su & Fu & Gu); [unfold fits; change Dbits with 32; lia|].
    fold z in E. rewrite (bind_ok _ _ _ _ _ E). exists y, k, (alloc ou s), ou, oy. split; [done|]. rewrite H1 in *.
    split; try done; rewrite ?Z.pow_0_r, ?Z.mul_1_r; try done; try lia.
    + by apply alloc_at.
    + by apply alloc_old.
    + pose proof (shifted_top ox ou 0 Nx Nou ltac:(lia) ltac:(lia)). lia.
    + left. split_and!; [done|..]; intros ->; cbn in H2, H3; by rewrite Nat.eqb_refl in H2 || rewrite Nat.eqb_refl in H3.
    + exists l, d. split; [done|]. rewrite B_eq. lia.
    + intros b Hb. apply mpobj_alloc_ne. lia.
    + intros b Hb Hn _. rewrite mpobj_alloc_ne by done. by apply mpobj_ge.
  - destruct (shifted_copy s x ox k m Ex Nx Hx Hk ltac:(lia)) as (ou & E & Nou & Mu & Su & Fu & Gu); [change Dbits with 32; lia|].
    fold z in E. rewrite (bind_ok _ _ _ _ _ E). set (m2 := mp_top oy * Dbits). assert (Hm2' : 0 <= m2 < 2 ^ 31) by (unfold m2; change Dbits with 32; lia).
    rewrite (bind_ok _ _ _ _ _ (cint_ok m2 _ ltac:(lia))), (bind_ok _ _ _ _ _ (mpnew_ok m2 _ ltac:(lia))).
    destruct (shifted_copy (alloc ou s) y oy k m2 (alloc_old _ _ _ _ Ey) Ny ltac:(lia) Hk ltac:(lia)) as (ov & E2 & Nov & Mv & Sv & Fv & Gv); [change Dbits with 32; lia|].
    rewrite (bind_ok _ _ _ _ _ E2). rewrite objs_alloc. exists (S u), k, (alloc ov (alloc ou s)), ou, ov. split; [done|].
    destruct (shifted_divisor oy ov k l d Ny Nov Ed Hdk ltac:(lia) Mv) as [_ Ht].
    split; try done.
    + apply alloc_old, alloc_at.
    + rewrite <- (objs_alloc ou s). apply alloc_at.
    + pose proof (shifted_top ox ou k Nx Nou Hk Mu). lia.
    + by right.
    + intros b Hb. rewrite !mpobj_alloc_ne; rewrite ?objs_alloc; (done || lia).
    + intros b Hb Hn Hn2. rewrite !mpobj_alloc_ne; rewrite ?objs_alloc; try done. by apply mpobj_ge.
Qed.
End operands.
