(* ===== verification/MpQuot.v ===== *)
(** * Multiple precision arithmetic: the division of two numbers

    [mpdiv_general], from the prepared operands through the loop to the
    quotient, the remainder and the objects it frees. *)
From S2P Require Import Prelude CMonad Mp MpVal MpVec MpMul MpSafe MpInt MpAdd MpProd MpShift MpDigdiv MpDiv MpLoop MpSetup.

(** ** D1a: the leading digit of the dividend *)

Section leading.
Context (s : MpStore) (u v : nat) (ou ov : Mpint) (lv' : list Z) (d : Z).
Context (Eu : mpobj u s = Some ou) (Ev : mpobj v s = Some ov) (Nu : normal ou) (Nv : normal ov) (Huv : u <> v).
Context (Hmag : mag ov <= mag ou) (Hv : 0 < mag ov) (Hsize : mp_top ou + 2 <= mp_size ou) (Ed : mpd ov = lv' ++ [d]).
Local Notation vn := (mp_top ov).
Local Notation V := (mag ov).

Lemma divisor_digits : 0 < vn /\ zlen lv' = vn - 1 /\ 0 < d < B /\ B ^ (vn - 1) * d <= V.
Proof using All.
  pose proof (wf_top _ (normal_wf _ Nv)). assert (vn <> 0) by (intros E; apply (mag_zero _ Nv) in E; lia).
  destruct (top_split ov Nv ltac:(lia)) as (l & e & E & Zl & He & Hb). rewrite Ed in E. apply app_inj_2 in E as [-> [= ->]]; [|done].
  split_and!; (lia || apply Hb).
Qed.
(** A window with a smaller leading digit is less than the divisor. *)
Lemma window_lt l h : dig l -> zlen l = vn - 1 -> h < d -> val (l ++ [h]) < V.
Proof using All.
  destruct divisor_digits as (Hn & _ & Hd & HV). intros D Hl Hh. rewrite val_snoc, Hl. pose proof (val_bound _ D) as Hb. rewrite Hl in Hb.
  assert (B ^ (vn - 1) * (h + 1) <= B ^ (vn - 1) * d) by (apply Z.mul_le_mono_nonneg_l; lia). lia.
Qed.
Lemma dividend_longer : vn <= mp_top ou.
Proof using All.
  destruct (Z.le_gt_cases vn (mp_top ou)) as [|Hgt]; [done|exfalso]. pose proof (wf_top _ (normal_wf _ Nu)). pose proof (mag_bound _ (normal_wf _ Nu)).
  pose proof (mag_lead _ Nv ltac:(lia)). pose proof (Z.pow_le_mono_r B (mp_top ou) (vn - 1) B_pos ltac:(lia)). lia.
Qed.
(** The dividend's object, perhaps with a zero above its digits. *)
Record led (n : nat) (ou1 : Mpint) : Prop := mkled {
  led_wf : wf ou1;
  led_mag : mag ou1 = mag ou;
  led_top : mp_top ou1 = Z.of_nat n + vn;
  led_bound : Z.of_nat n + vn <= mp_top ou + 1;
  led_size : Z.of_nat n + vn + 1 <= mp_size ou1;
  led_high : val (drop n (mpd ou1)) < V;
  led_sign : mp_sign ou1 = mp_sign ou;
  led_flags : mp_flags ou1 = mp_flags ou
}.
Lemma led_small n ou1 : led n ou1 -> mag ou / V < B ^ Z.of_nat n.
Proof using Hv Nv.
  clear - Hv Nv. intros L. pose proof (led_wf _ _ L) as W. pose proof (zlen_mpd _ W). pose proof (led_top _ _ L). pose proof (led_high _ _ L) as Hh. pose proof (wf_top _ (normal_wf _ Nv)).
  rewrite <- (led_mag _ _ L). rewrite <- (Nat2Z.id n), val_drop in Hh by (lia || by apply dig_mpd). fold (mag ou1) in Hh. pose proof (Bn_pos n) as HB.
  apply Z.div_lt_upper_bound; [done|]. pose proof (Z.div_mod (mag ou1) (B ^ Z.of_nat n) ltac:(lia)). pose proof (Z.mod_pos_bound (mag ou1) _ HB).
  assert (B ^ Z.of_nat n * (mag ou1 / B ^ Z.of_nat n) <= B ^ Z.of_nat n * (V - 1)) by (apply Z.mul_le_mono_nonneg_l; lia). lia.
Qed.
Lemma leading_ok : exists n ou1,
  (hi ← ldig (u, mp_top ou - 1); d ← ldig (v, vn - 1);
   if d <=? hi then
     _ ← sdig (padd (u, mp_top ou - 1) 1) 0;
     _ ← mp_upd u (fun o => mp_set_top (mp_top o + 1) o);
     mret (padd (u, mp_top ou - 1) 1)
   else mret (u, mp_top ou - 1)) s = (Ok (u, Z.of_nat n + vn - 1), mp_put u (Some ou1) s) /\ led n ou1.
Proof using All.
  destruct divisor_digits as (Hn & Zl & Hd & HV). pose proof dividend_longer as Hlong. pose proof (normal_wf _ Nu) as Wu. pose proof (wf_size _ Wu) as Su.
  destruct (top_split ou Nu ltac:(lia)) as (lu & hi & Eh & Zu & Hhi & _). pose proof (dig_mpd _ Wu) as Du. rewrite Eh in Du. apply dig_app in Du as [Du _].
  assert (Sh : seg s (u, mp_top ou - 1) [hi]).
  { pose proof (seg_mpd _ _ _ Eu) as S0. rewrite Eh in S0. apply seg_app in S0 as [_ S0]. by rewrite Zu in S0. }
  assert (Sd : seg s (v, vn - 1) [d]).
  { pose proof (seg_mpd _ _ _ Ev) as S0. rewrite Ed in S0. apply seg_app in S0 as [_ S0]. by rewrite Zl in S0. }
  rewrite (bind_ok _ _ _ _ _ (ldig_ok _ _ _ Sh)), (bind_ok _ _ _ _ _ (ldig_ok _ _ _ Sd)).
  assert (Zd : forall k, 0 <= k <= zlen lu -> zlen (drop (Z.to_nat k) lu) = zlen lu - k) by (intros k Hk; unfold zlen in *; rewrite length_drop; lia).
  destruct (Z.leb_spec d hi) as [Hle|Hlt].
  - assert (R : room s (u, mp_top ou) 1) by (rewrite <- (mp_put_id u ou s Eu); apply room_put; [by eapply mpobj_lt|lia..]).
    replace (padd (u, mp_top ou - 1) 1) with (u, mp_top ou) by (unfold padd; cbn; f_equal; lia).
    rewrite (bind_ok _ _ _ _ _ (sdig_ok _ _ 0 R)), (wr_obj u _ _ ou) by done. erewrite bind_ok by (apply upd_put; by eapply mpobj_lt).
    pose (ou1 := mp_set_top (mp_top ou + 1) (mp_set_p (blit (mp_top ou) [0] (mp_p ou)) ou)). assert (Em : mpd ou1 = mpd ou ++ [0]).
    { unfold mpd at 1. cbn [ou1 mp_p mp_top mp_set_top mp_set_p]. replace (Z.to_nat (mp_top ou + 1)) with (Z.to_nat (mp_top ou) + length [0%Z])%nat by (cbn; lia).
      rewrite <- (app_nil_r [0]) at 2. rewrite <- (Z2Nat.id (mp_top ou)) at 2 by lia. apply take_blit. cbn. unfold zlen in *. lia. }
    exists (Z.to_nat (mp_top ou + 1 - vn)), ou1. split; [unfold mret, M_ret; change (mp_set_top _ _) with ou1; do 3 f_equal; lia|]. split; try done.
    + destruct Wu as [_ T D Sg Fl]. split; cbn [ou1 mp_p mp_top mp_size mp_sign mp_flags mp_set_top mp_set_p]; try done; [rewrite zlen_blit; change (zlen [0]) with 1; lia|lia|].
      apply dig_blit; [done|]. apply (zeros_dig 1).
    + unfold mag. rewrite Em, val_snoc. lia.
    + cbn [ou1 mp_top mp_set_top mp_set_p]. lia.
    + lia.
    + cbn [ou1 mp_size mp_set_top mp_set_p]. lia.
    + rewrite Em, drop_app_le by (rewrite Eh, length_app; cbn; unfold zlen in *; lia). rewrite Eh. apply window_lt; [|unfold zlen in *; rewrite length_drop, length_app; cbn; lia|lia].
      apply dig_drop. rewrite <- Eh. by apply dig_mpd.
  - exists (Z.to_nat (mp_top ou - vn)), ou. rewrite (mp_put_id _ _ _ Eu). split; [unfold mret, M_ret; do 3 f_equal; lia|]. split; try done; try lia.
    rewrite Eh, drop_app_le by (unfold zlen in *; lia). apply window_lt; [by apply dig_drop|rewrite Zd; lia|done].
Qed.
End leading.

(** ** The end of the division *)

Lemma mpfree_ok b o s : mpobj b s = Some o -> zlen (mp_p o) = mp_size o -> Z.land (mp_flags o) MPstatic = 0 -> mpfree b s = (Ok tt, mp_put b None s).
Proof.
  intros E Hz H. pose proof (mpobj_lt _ _ _ E). unfold mpfree. rewrite (bind_get _ _ _ _ E), H. cbn [Z.eqb negb]. pose proof (zlen_nonneg (mp_p o)).
  assert (R : room s (b, 0) (mp_size o)) by (rewrite <- (mp_put_id b o s E); apply room_put; (done || lia)).
  rewrite (bind_ok _ _ _ _ _ (zdigs_ok s (b, 0) (mp_size o) ltac:(lia) R)), (wr_obj _ _ _ o) by done.
  unfold free. erewrite bind_get by (by apply mpobj_put). unfold modify. by rewrite mp_put_put.
Qed.

(** The remainder is shifted back into an object of its own; the operand may have leading zeros. *)
Lemma mpright_apart s b res o n k : mpobj b s = Some o -> mpobj res s = Some n -> b <> res -> wf o -> plain o -> 0 < mp_top o -> ready n ->
  0 <= k < 32 -> mp_top o * Dbits < 2 ^ 31 ->
  exists r, mpright b k res s = (Ok tt, mp_put res (Some r) s) /\ result n r /\ mpz r = mp_sign o * (mag o / 2 ^ k).
Proof.
  intros Eo En Hb W P Ht Rn Hk F. pose proof (mpobj_lt _ _ _ En) as Hlt. change Dbits with 32 in F. unfold mpright. rewrite (bind_get _ _ _ _ Eo).
  destruct (Z.ltb_spec k 0); [lia|]. cbn [andb]. unfold mpright_pos. rewrite (bind_get _ _ _ _ Eo), (bind_ok _ _ _ _ _ (mp_upd_ok _ _ _ _ En)).
  destruct (Z.eqb_spec (mp_top o) 0) as [E0|E0]; [lia|]. destruct (Nat.eqb_spec res b) as [E1|E1]; [by subst|]. cbn [negb andb].
  set (n1 := mp_set_sign _ n). assert (W1 : wf n1) by (apply set_sign_wf; [apply Rn|apply W]).
  set (s1 := mp_put res (Some n1) s). assert (E1' : mpobj res s1 = Some n1) by (by apply mpobj_put).
  destruct (mpbits_ok s1 res n1 (mp_top o * Dbits - k) E1' W1 ltac:(change Dbits with 32; lia)) as (g & Eg & G). unfold s1 in Eg at 2. rewrite mp_put_put in Eg.
  erewrite bind_ok; [|rewrite (bind_ok _ _ _ _ _ (cint_ok (mp_top o * Dbits - k) _ ltac:(change Dbits with 32; lia))); exact Eg].
  replace (k / Dbits) with 0 by (symmetry; apply Z.div_small; change Dbits with 32; lia). cbv zeta. replace (k - 0 * Dbits) with k by lia. destruct (Z.leb_spec (mp_top o) 0); [lia|].
  replace (DIGITS (mp_top o * Dbits - k)) with (mp_top o) in G by (change Dbits with 32; rewrite DIGITS_eq by lia; dlia).
  pose proof (grown_wf _ _ _ G) as Wg. pose proof (wf_top _ Wg). pose proof (grown_top _ _ _ G) as Tg.
  assert (Fg : same_flags n g) by apply G. assert (Pg : plain g) by (apply (same_flags_plain n g); try done; apply Rn).
  assert (So : seg (mp_put res (Some g) s) (b, 0) (mpd o)) by (apply seg_mpd; by rewrite mpobj_put_ne).
  pose proof (zlen_mpd _ W) as Zo.
  destruct (right_tail s b res g n (mpd o) 0 k Hlt Wg Pg Fg (dig_mpd _ W) So) as (r & Er & R & Hz); try lia.
  { intros x _ Ex. rewrite Eo in Ex. by injection Ex as <-. } { right. by exists o. }
  exists r. rewrite Zo in Er. split_and!; [exact Er|done|]. rewrite Hz, Z.mul_0_l, Z.add_0_l. by rewrite (grown_sign _ _ _ G).
Qed.

(** The quotient's digits stored, its object in normal form. *)
Lemma quotient_object s b oq n Q : wf oq -> plain oq -> mp_top oq = Z.of_nat n -> 0 <= Q < B ^ Z.of_nat n -> mp_sign oq = 1 ->
  let oq' := mp_set_p (blit 0 (digits n Q) (mp_p oq)) oq in mpobj b s = Some oq' ->
  exists r, mpnorm b s = (Ok tt, mp_put b (Some r) s) /\ normal r /\ mpz r = Q /\ mp_flags r = Z.lor (mp_flags oq) MPnorm.
Proof.
  intros W P Ht HQ Hs oq' E. pose proof (wf_top _ W) as T. pose proof (wf_size _ W) as Sz.
  assert (W' : wf oq').
  { destruct W as [_ _ D Sg Fl]. split; cbn [oq' mp_p mp_top mp_size mp_sign mp_flags mp_set_p]; try done; [rewrite zlen_blit; rewrite ?digits_zlen; lia|].
    apply dig_blit; [done|apply digits_dig]. }
  destruct (mpnorm_ok s b oq' E W' P) as (r & Er & Nr & Hz & _ & _ & Hf). exists r. split_and!; try done.
  rewrite Hz. unfold mpz, mag, mpd. cbn [oq' mp_p mp_top mp_sign mp_set_p]. rewrite Hs, Z.mul_1_l, Ht, Nat2Z.id.
  rewrite blit_0, take_app_le by (rewrite digits_length; lia). rewrite take_ge by (rewrite digits_length; lia). rewrite val_digits. by apply Z.mod_small.
Qed.

Lemma result_ready n r : result n r -> ready r.
Proof. intros [N _]. by apply normal_ready. Qed.
(** In normal form but for the sign of zero. *)
Definition tidy (o : Mpint) : Prop := wf o /\ normal (mp_set_sign 1 o).
Lemma tidy_sign v o : normal o -> v = 1 \/ v = -1 -> tidy (mp_set_sign v o).
Proof.
  intros N H. pose proof (normal_wf _ N) as W. split; [by apply set_sign_wf|].
  split; [apply set_sign_wf; [by apply set_sign_wf|by left]|apply N|apply N|done|apply (normal_lead _ N)].
Qed.
Lemma normal_tidy o : normal o -> tidy o.
Proof. intros N. replace o with (mp_set_sign (mp_sign o) o) by (by destruct o). apply tidy_sign; [done|apply (wf_sign _ (normal_wf _ N))]. Qed.
Lemma tidy_normal o : tidy o -> mp_top o <> 0 -> normal o.
Proof. intros [W [_ P Fl _ L]] H. by split. Qed.

(** The object of the quotient before the loop. *)
Definition emptied (n : nat) (oq : Mpint) : Prop := wf oq /\ plain oq /\ mp_top oq = Z.of_nat n /\ mp_sign oq = 1.
Lemma quotient_room s q n : (forall b, q = Some b -> exists oq, mpobj b s = Some oq /\ ready oq /\ mp_sign oq = 1) -> Z.of_nat n * Dbits < 2 ^ 31 ->
  exists s', (match q with
    | Some q => bits ← cint (Z.of_nat n * Dbits); _ ← mpbits q bits; _ ← mp_upd q (mp_set_top (Z.of_nat n)); mret (Some (q, Z.of_nat n - 1))
    | None => mret None
    end) s = (Ok (qptr q n), s') /\ frame (fun b => q = Some b) s s' /\ forall b, q = Some b -> exists oq, mpobj b s' = Some oq /\ emptied n oq.
Proof.
  intros Hq F. destruct q as [b|]; [|exists s; split_and!; [done|apply same_but_refl|done]].
  destruct (Hq b eq_refl) as (oq & E & R & Hs). pose proof (mpobj_lt _ _ _ E) as Hlt. change Dbits with 32 in F.
  rewrite (bind_ok _ _ _ _ _ (cint_ok (Z.of_nat n * Dbits) _ ltac:(change Dbits with 32; lia))).
  destruct (mpbits_ok s b oq (Z.of_nat n * Dbits) E (ready_wf _ R) ltac:(change Dbits with 32; lia)) as (g & Eg & G). rewrite DIGITS_mul in G by lia.
  rewrite (bind_ok _ _ _ _ _ Eg), (bind_ok _ _ _ _ _ (upd_put _ _ _ _ Hlt)). eexists. split; [done|]. split; [by apply same_but_put|].
  intros b' [= <-]. eexists. split; [by apply mpobj_put|]. pose proof (grown_wf _ _ _ G) as [G1 [G2 G3] G4 G5 G6]. pose proof (grown_top _ _ _ G) as Gt.
  split_and!; [split; cbn; try done; lia|apply (same_flags_plain oq g); (apply R || apply G)|done|]. cbn. by rewrite (grown_sign _ _ _ G).
Qed.

(** The quotient's object after the loop: the normal form and the sign. *)
Lemma quotient_done s q x y ox oy n Q : mpobj x s = Some ox -> mpobj y s = Some oy -> q <> Some x -> q <> Some y -> 0 < Q < B ^ Z.of_nat n ->
  (forall b, q = Some b -> exists oq, emptied n oq /\ mpobj b s = Some (mp_set_p (blit 0 (digits n Q) (mp_p oq)) oq)) ->
  exists s', (match q with
    | Some q =>
      oq ← mp_get q;
      _ ← assert_ (Z.land (mp_flags oq) MPtimesafe =? 0);
      _ ← mpnorm q;
      od ← mp_get x; ov ← mp_get y;
      if negb (mp_sign od =? mp_sign ov) then mp_upd q (mp_set_sign (-1)) else mret tt
    | None => mret tt
    end) s = (Ok tt, s') /\ frame (fun b => q = Some b) s s' /\
    forall b, q = Some b -> exists o', mpobj b s' = Some o' /\ normal o' /\ mpz o' = if mp_sign ox =? mp_sign oy then Q else - Q.
Proof.
  intros Ex Ey Hx Hy HQ Hq. destruct q as [b|]; [|exists s; split_and!; [done|apply same_but_refl|done]].
  destruct (Hq b eq_refl) as (oq & (W & P & Ht & Hs) & E). pose proof (mpobj_lt _ _ _ E) as Hlt. rewrite (bind_get _ _ _ _ E). cbn [mp_flags mp_set_p]. rewrite P.
  cbn [assert_ Z.eqb]. rewrite bind_mret. destruct (quotient_object s b oq n Q W P Ht ltac:(lia) Hs E) as (o & Eo & No & Hz & _).
  rewrite (bind_ok _ _ _ _ _ Eo). rewrite (bind_get x ox), (bind_get y oy) by (rewrite mpobj_put_ne by congruence; done).
  destruct (Z.eqb_spec (mp_sign ox) (mp_sign oy)) as [Hsg|Hsg]; cbn [negb].
  - eexists. split; [done|]. split; [by apply same_but_put|]. intros b' [= <-]. exists o. split; [by apply mpobj_put|done].
  - rewrite upd_put by done. eexists. split; [done|]. split; [by apply same_but_put|]. intros b' [= <-]. eexists. split; [by apply mpobj_put|].
    destruct (mpz_sign o No) as [(Es & Em & _)|(Es & Em & Hpos)]; [|lia]. split.
    + split; [apply set_sign_wf; [apply No|by right]|apply No|apply No| |apply (normal_lead _ No)]. cbn. intros H0. apply (mag_zero _ No) in H0. lia.
    + unfold mpz, mag. rewrite set_sign_mpd. fold (mag o). cbn [mp_sign mp_set_sign]. lia.
Qed.

(** The remainder's object. *)
Lemma remainder_done s r x u ox ou k : mpobj x s = Some ox -> mpobj u s = Some ou -> wf ox -> wf ou -> plain ou -> 0 < mp_top ou -> mp_top ou * Dbits < 2 ^ 31 ->
  mp_sign ou = mp_sign ox -> 0 <= k < 32 -> (forall b, r = Some b -> u <> b /\ exists o, mpobj b s = Some o /\ ready o) ->
  exists s', (match r with
    | Some r =>
      or ← mp_get r;
      _ ← assert_ (Z.land (mp_flags or) MPtimesafe =? 0);
      _ ← mpright u k r;
      od ← mp_get x;
      mp_upd r (mp_set_sign (mp_sign od))
    | None => mret tt
    end) s = (Ok tt, s') /\ frame (fun b => r = Some b) s s' /\
    forall b, r = Some b -> exists o', mpobj b s' = Some o' /\ tidy o' /\ mpz o' = mp_sign ox * (mag ou / 2 ^ k).
Proof.
  intros Ex Eu Wx Wu Pu Ht F Hs Hk Hr. destruct r as [b|]; [|exists s; split_and!; [done|apply same_but_refl|done]].
  destruct (Hr b eq_refl) as (Hub & o & E & R). pose proof (mpobj_lt _ _ _ E) as Hlt. rewrite (bind_get _ _ _ _ E). rewrite (ready_plain _ R : Z.land _ _ = 0).
  cbn [assert_ Z.eqb]. rewrite bind_mret. destruct (mpright_apart s u b ou o k Eu E Hub Wu Pu Ht R Hk F) as (o1 & E1 & R1 & Hz). rewrite (bind_ok _ _ _ _ _ E1).
  pose proof (result_ready _ _ R1) as Ro1. pose proof (abs_mpz o1 (ready_wf _ Ro1)) as Hm. rewrite Hz, Hs in Hm.
  assert (Hq0 : 0 <= mag ou / 2 ^ k) by (apply Z.div_pos; [by apply mag_nonneg|apply pow2_pos; lia]).
  assert (Hm1 : mag o1 = mag ou / 2 ^ k) by (destruct (wf_sign _ Wx) as [Ez|Ez]; rewrite Ez in Hm; lia).
  destruct (decide (x = b)) as [->|Hn].
  - rewrite E in Ex. injection Ex as <-. erewrite bind_get by (by apply mpobj_put). rewrite upd_put by done.
    eexists. split; [done|]. split; [by apply same_but_put|]. intros b' [= <-]. eexists. split; [by apply mpobj_put|].
    replace (mp_set_sign (mp_sign o1) o1) with o1 by (by destruct o1). split; [apply normal_tidy, R1|]. by rewrite Hz, Hs.
  - rewrite (bind_get x ox) by (by rewrite mpobj_put_ne). rewrite upd_put by done. eexists. split; [done|]. split; [by apply same_but_put|].
    intros b' [= <-]. eexists. split; [by apply mpobj_put|]. split; [apply tidy_sign; [apply R1|apply Wx]|].
    unfold mpz, mag. rewrite set_sign_mpd. fold (mag o1) (mag ou). by rewrite Hm1.
Qed.

(** ** The division *)

Lemma bind_ok_assoc2 {A C D} (m1 : M MpStore A) (m2 : M MpStore C) (f : A -> C -> M MpStore D) (g : D -> M MpStore ()) s a s' :
  (x ← m1; y ← m2; f x y) s = (Ok a, s') -> (x ← m1; y ← m2; z ← f x y; g z) s = g a s'.
Proof. unfold mbind, M_bind. destruct (m1 s) as [[x|e|] s1]; [|done..]. destruct (m2 s1) as [[y|e|] s2]; [|done..]. intros ->. done. Qed.

(** What a division leaves: the quotient and the remainder, everything else as it was. *)
Record divided (s s' : MpStore) (q r : option nat) (X Y : Z) : Prop := mkdivided {
  dv_q : forall b, q = Some b -> exists o, mpobj b s' = Some o /\ normal o /\ mpz o = Z.quot X Y;
  dv_r : forall b, r = Some b -> exists o, mpobj b s' = Some o /\ tidy o /\ mpz o = Z.rem X Y;
  dv_min : mpmindigits s' = mpmindigits s;
  dv_frame : forall b, q <> Some b -> r <> Some b -> mpobj b s' = mpobj b s
}.

Section general.
Context (s : MpStore) (x y : nat) (q r : option nat) (ox oy : Mpint).
Context (Ex : mpobj x s = Some ox) (Ey : mpobj y s = Some oy) (Nx : normal ox) (Ny : normal oy).
Context (Hxy : 0 < mag oy <= mag ox) (F : (mp_top ox + 3) * Dbits < 2 ^ 31).
Context (Hqx : q <> Some x) (Hqy : q <> Some y) (Hqr : forall b, q = Some b -> r <> Some b).
Context (Hq : forall b, q = Some b -> exists oq, mpobj b s = Some oq /\ ready oq /\ mp_sign oq = 1).
Context (Hr : forall b, r = Some b -> exists o, mpobj b s = Some o /\ ready o).
Local Notation u := (length (objs s)).

Section loop.
Context (v : nat) (k : Z) (s0 : MpStore) (ou ov : Mpint) (P : prepared s y q r ox oy v k s0 ou ov).
Local Notation V := (mag ov).

(** After the loop: the remainder in [u], the digits of the quotient in its object. *)
Record looped (t : nat) (s1 : MpStore) (ou1 : Mpint) (n : nat) : Prop := mklooped {
  lp_t : (u < t)%nat /\ t <> v;
  lp_scratch : scratch t s1;
  lp_u : mpobj u s1 = Some ou1;
  lp_wf : wf ou1;
  lp_mag : mag ou1 = mag ou mod V;
  lp_top : mp_top ou1 = mp_top ov;
  lp_sign : mp_sign ou1 = mp_sign ou;
  lp_flags : mp_flags ou1 = mp_flags ou;
  lp_small : mag ou / V < B ^ Z.of_nat n;
  lp_q : forall b, q = Some b -> exists oq, emptied n oq /\ mpobj b s1 = Some (mp_set_p (blit 0 (digits n (mag ou / V)) (mp_p oq)) oq);
  lp_min : mpmindigits s1 = mpmindigits s;
  lp_frame : forall b, b <> u -> b <> t -> q <> Some b -> mpobj b s1 = mpobj b s0
}.
Lemma general_loop (f : nat -> M MpStore ()) : exists t s1 ou1 n,
  (ou ← mp_get u; ov ← mp_get v;
   let up := (u, mp_top ou - 1) in
   let vp := (v, mp_top ov - 1) in
   let vn := mp_top ov in
   hi ← ldig up; d ← ldig vp;
   up ← (if d <=? hi then
           _ ← sdig (padd up 1) 0;
           _ ← mp_upd u (fun o => mp_set_top (mp_top o + 1) o);
           mret (padd up 1)
         else mret up);
   t ← mpnew (4 * Dbits);
   ou ← mp_get u;
   qp ← (match q with
         | Some q =>
           bits ← cint ((mp_top ou - mp_top ov) * Dbits);
           _ ← mpbits q bits;
           _ ← mp_upd q (mp_set_top (mp_top ou - mp_top ov));
           mret (Some (q, mp_top ou - mp_top ov - 1))
         | None => mret None
         end);
   _ ← mpdiv_loop (Z.to_nat (mp_top ou - vn)) u v t vn vp up qp;
   f t) s0 = f t s1 /\ looped t s1 ou1 n.
Proof using All.
  destruct P as [Pu Pv Pk Nu Nv Mu Mv Ps Pz Pf Po (lv' & d & Ed & Hd) Pm Pold Pnew].
  assert (Huv : u <> v) by (destruct Po as [(-> & _)|(-> & _)]; [apply mpobj_lt in Ey; lia|lia]).
  assert (Hp2 : 0 < 2 ^ k) by (apply pow2_pos; lia).
  assert (HV : 0 < V) by (rewrite Mv; apply Z.mul_pos_pos; lia).
  assert (HVu : V <= mag ou) by (rewrite Mu, Mv; apply Z.mul_le_mono_nonneg_r; lia).
  destruct (leading_ok s0 u v ou ov lv' d Pu Pv Nu Nv Huv HVu HV Pz Ed) as (n & ou1 & E1 & L).
  rewrite (bind_get _ _ _ _ Pu), (bind_get _ _ _ _ Pv). cbv zeta. rewrite (bind_ok_assoc2 _ _ _ _ _ _ _ E1). clear E1.
  rewrite (bind_ok _ _ _ _ _ (mpnew_ok (4 * Dbits) _ ltac:(done))). set (s1 := mp_put u (Some ou1) s0). set (z := fresh _). set (t := length (objs s1)).
  assert (Htu : (u < t)%nat) by (unfold t, s1; rewrite objs_put; by eapply mpobj_lt).
  assert (Hvt : t <> v) by (intros <-; apply mpobj_lt in Pv; unfold t, s1 in Pv; rewrite objs_put in Pv; lia).
  set (s2 := alloc z s1). assert (S2 : forall b, b <> u -> b <> t -> mpobj b s2 = mpobj b s0).
  { intros b H1 H2. unfold s2. rewrite mpobj_alloc_ne by done. by apply mpobj_put_ne. }
  assert (U2 : mpobj u s2 = Some ou1) by (apply alloc_old, mpobj_put; by eapply mpobj_lt).
  assert (T2 : mpobj t s2 = Some z) by apply alloc_at.
  rewrite (bind_get _ _ _ _ U2). replace (mp_top ou1 - mp_top ov) with (Z.of_nat n) by (rewrite (led_top _ _ _ _ L); lia). rewrite Nat2Z.id.
  assert (Hold : forall b o, mpobj b s = Some o -> mpobj b s2 = Some o).
  { intros b o Eb. pose proof (mpobj_lt _ _ _ Eb). rewrite S2, Pold by lia. done. }
  destruct (quotient_room s2 q n) as (s3 & E3 & (_ & M3 & F3) & Q3).
  { intros b Eb. destruct (Hq b Eb) as (oq & Eq & H). exists oq. split; [by apply Hold|done]. }
  { pose proof (shifted_top ox ou k Nx Nu Pk Mu) as Ht. pose proof (led_bound _ _ _ _ L). pose proof (wf_top _ (normal_wf _ Nx)). pose proof (wf_top _ (normal_wf _ Nv)).
    change Dbits with 32 in *. rewrite DIGITS_eq in Ht by lia. assert ((mp_top ox * 32 + k + 31) / 32 <= mp_top ox + 1) by dlia. lia. }
  rewrite (bind_ok _ _ _ _ _ E3). clear E3.
  assert (Qne : forall b, q = Some b -> (b < u)%nat) by (intros b Eb; destruct (Hq b Eb) as (oq & Eq & _); by eapply mpobj_lt).
  assert (Hqu : q <> Some u) by (intros Eb; apply Qne in Eb; lia). assert (Hqt : q <> Some t) by (intros Eb; apply Qne in Eb; lia).
  assert (Hqv : q <> Some v) by (destruct Po as [(-> & _)|(-> & _)]; [done|intros Eb; apply Qne in Eb; lia]).
  pose proof (normal_wf _ Nv) as Wv. pose proof (zlen_mpd _ Wv) as Zv.
  assert (D3 : dstate u v t q ov (mpd ov) s3 n ou1).
  { split; rewrite ?Zv; try (apply L).
    - by rewrite F3.
    - rewrite F3, S2 by congruence. done.
    - exists z. rewrite F3 by done. unfold z, fresh. cbn. unfold zlen. rewrite length_replicate. pose proof (eq_refl : DIGITS (4 * Dbits) = 4). split_and!; [done|lia|lia|done].
    - intros b Eb. destruct (Q3 b Eb) as (oq & Eq & Wq & _ & Tq & _). exists oq. split; [done|]. pose proof (wf_top _ Wq). pose proof (wf_size _ Wq). lia. }
  destruct (mpdiv_loop_ok u v t q ov (mpd ov) lv' d Wv eq_refl Ed Hd Huv ltac:(lia) Hvt Hqu Hqv Hqt n s3 ou1 D3) as (s4 & ou2 & E4 & D4 & M4 & G4 & L4 & (_ & N4 & F4) & Q4).
  rewrite Zv in E4. rewrite (bind_ok _ _ _ _ _ E4). clear E4. exists t, s4, ou2, n. split; [done|]. fold (mag ov) in *. rewrite (led_mag _ _ _ _ L) in *.
  split; try done; try (by apply D4).
  - pose proof (ds_top _ _ _ _ _ _ _ _ _ D4). lia.
  - rewrite G4. apply L.
  - rewrite L4. apply L.
  - by apply (led_small ou ov Nv HV n ou1).
  - intros b Eb. destruct (Q3 b Eb) as (oq & Eq & Hem). exists oq. split; [done|]. by apply Q4.
  - rewrite N4, M3. done.
  - intros b H1 H2 H3. rewrite F4 by (intros [?|[?|?]]; done). rewrite F3 by done. by apply S2.
Qed.
End loop.

(** Truncated division in terms of signs and magnitudes. *)
Lemma quot_signs sx sy mx my : sx = 1 \/ sx = -1 -> sy = 1 \/ sy = -1 -> 0 <= mx -> 0 < my ->
  Z.quot (sx * mx) (sy * my) = (if sx =? sy then mx / my else - (mx / my)) /\ Z.rem (sx * mx) (sy * my) = sx * (mx mod my).
Proof using.
  clear. intros [-> | ->] [-> | ->] Hx Hy; cbn [Z.eqb Pos.eqb]; rewrite ?Z.mul_1_l, <- ?Z.opp_eq_mul_m1, ?(Z.mul_comm (-1)), <- ?Z.opp_eq_mul_m1;
    rewrite ?Z.quot_opp_l, ?Z.quot_opp_r, ?Z.rem_opp_l, ?Z.rem_opp_r by lia; rewrite ?Z.opp_involutive, Z.quot_div_nonneg, Z.rem_mod_nonneg by lia; lia.
Qed.
Lemma scale_div a b k : 0 < b -> 0 < k -> a * k / (b * k) = a / b /\ (a * k) mod (b * k) / k = a mod b.
Proof using.
  clear. intros. split; [apply Z.div_mul_cancel_r; lia|]. rewrite Z.mul_mod_distr_r by lia. apply Z.div_mul. lia.
Qed.

(** What follows the loop. *)
Definition finish (u v t : nat) (k : Z) : M MpStore () :=
  _ ← (match q with
       | Some q =>
         oq ← mp_get q;
         _ ← assert_ (Z.land (mp_flags oq) MPtimesafe =? 0);
         _ ← mpnorm q;
         od ← mp_get x; ov ← mp_get y;
         if negb (mp_sign od =? mp_sign ov) then mp_upd q (mp_set_sign (-1)) else mret tt
       | None => mret tt
       end);
  _ ← (match r with
       | Some r =>
         or ← mp_get r;
         _ ← assert_ (Z.land (mp_flags or) MPtimesafe =? 0);
         _ ← mpright u k r;
         od ← mp_get x;
         mp_upd r (mp_set_sign (mp_sign od))
       | None => mret tt
       end);
  _ ← mpfree t;
  _ ← mpfree u;
  if negb (v =? y)%nat then mpfree v else mret tt.

(** The temporary objects freed: what remains is what was there. *)
Lemma frees s1 v t ot ou ov : u <> t -> u <> v -> t <> v -> mpobj t s1 = Some ot -> mpobj u s1 = Some ou -> mpobj v s1 = Some ov ->
  zlen (mp_p ot) = mp_size ot -> zlen (mp_p ou) = mp_size ou -> zlen (mp_p ov) = mp_size ov ->
  Z.land (mp_flags ot) MPstatic = 0 -> Z.land (mp_flags ou) MPstatic = 0 -> (v <> y -> Z.land (mp_flags ov) MPstatic = 0) ->
  exists s2, (_ ← mpfree t; _ ← mpfree u; if negb (v =? y)%nat then mpfree v else mret tt) s1 = (Ok tt, s2) /\
    mpmindigits s2 = mpmindigits s1 /\ mpobj t s2 = None /\ mpobj u s2 = None /\ (v <> y -> mpobj v s2 = None) /\
    forall b, b <> t -> b <> u -> b <> v \/ v = y -> mpobj b s2 = mpobj b s1.
Proof using.
  clear. intros H1 H2 H3 Et Eu Ev Zt Zu Zv St Su Sv.
  rewrite (bind_ok _ _ _ _ _ (mpfree_ok _ _ _ Et Zt St)).
  assert (Eu1 : mpobj u (mp_put t None s1) = Some ou) by (by rewrite mpobj_put_ne by done).
  rewrite (bind_ok _ _ _ _ _ (mpfree_ok _ _ _ Eu1 Zu Su)). set (s2 := mp_put u None _).
  assert (T2 : mpobj t s2 = None) by (unfold s2; rewrite mpobj_put_ne by done; by eapply mpobj_put_eq).
  assert (U2 : mpobj u s2 = None) by (by eapply mpobj_put_eq).
  assert (O2 : forall b, b <> t -> b <> u -> mpobj b s2 = mpobj b s1) by (intros b Hb Hb2; unfold s2; by rewrite !mpobj_put_ne by done).
  destruct (Nat.eqb_spec v y) as [E|E]; cbn [negb].
  - exists s2. split_and!; try done. intros b Hb Hb2 _. by apply O2.
  - assert (Ev2 : mpobj v s2 = Some ov) by (by rewrite O2). rewrite (mpfree_ok _ _ _ Ev2 Zv (Sv E)). eexists. split; [done|].
    split_and!; [done|by rewrite mpobj_put_ne..|intros _; by eapply mpobj_put_eq|].
    intros b Hb Hb2 [Hb3|?]; [|done]. rewrite mpobj_put_ne by done. by apply O2.
Qed.

Lemma finish_ok v k s0 ou ov t s1 ou1 n : prepared s y q r ox oy v k s0 ou ov -> looped v s0 ou ov t s1 ou1 n ->
  exists s', finish u v t k s1 = (Ok tt, s') /\ divided s s' q r (mpz ox) (mpz oy).
Proof using All.
  intros [Pu Pv Pk Nu Nv Mu Mv Ps Pz Pf Po _ Pm Pold Pnew] [[Lt Ltv] (ot & Lo & Lz & _ & Lf) Lu Lw Lm Ltop Ls Lfl Lsm Lq Lmin Lfr].
  pose proof (pow2_pos k ltac:(lia)) as Hp2. destruct (scale_div (mag ox) (mag oy) (2 ^ k) ltac:(lia) Hp2) as [D1 D2]. rewrite <- Mu, <- Mv in D1, D2. rewrite D1 in *. rewrite <- Lm in D2.
  pose proof (normal_wf _ Nx) as Wx. pose proof (normal_wf _ Ny) as Wy.
  destruct (quot_signs (mp_sign ox) (mp_sign oy) (mag ox) (mag oy) (wf_sign _ Wx) (wf_sign _ Wy) ltac:(lia) ltac:(lia)) as [Eq Er].
  assert (Qlt : forall b, q = Some b -> (b < u)%nat) by (intros b Eb; destruct (Hq b Eb) as (o & Eo & _); by eapply mpobj_lt).
  assert (Rlt : forall b, r = Some b -> (b < u)%nat) by (intros b Eb; destruct (Hr b Eb) as (o & Eo & _); by eapply mpobj_lt).
  assert (Hold : forall b o, mpobj b s = Some o -> q <> Some b -> mpobj b s1 = Some o).
  { intros b o Eb Hb. pose proof (mpobj_lt _ _ _ Eb). rewrite Lfr, Pold by (done || lia). done. }
  assert (HQ : 0 < mag ox / mag oy) by (apply Z.div_str_pos; lia).
  destruct (quotient_done s1 q x y ox oy n (mag ox / mag oy) (Hold _ _ Ex Hqx) (Hold _ _ Ey Hqy) Hqx Hqy ltac:(lia) Lq) as (s2 & E2 & (_ & M2 & F2) & Q2).
  unfold finish. rewrite (bind_ok _ _ _ _ _ E2). clear E2.
  assert (Quv : forall b, q = Some b -> b <> u /\ b <> t /\ b <> v).
  { intros b Eb. pose proof (Qlt b Eb). split_and!; [lia..|]. destruct Po as [(-> & _)|(-> & _)]; [by intros ->|lia]. }
  assert (Ruv : forall b, r = Some b -> b <> u /\ b <> t /\ b <> v).
  { intros b Eb. pose proof (Rlt b Eb). split_and!; [lia..|]. destruct Po as [(-> & _ & Hy)|(-> & _)]; [by intros ->|lia]. }
  assert (Huv : u <> v) by (destruct Po as [(-> & _)|(-> & _)]; [apply mpobj_lt in Ey; lia|lia]).
  assert (Ex2 : mpobj x s2 = Some ox) by (rewrite F2 by done; by apply Hold).
  assert (Eu2 : mpobj u s2 = Some ou1) by (rewrite F2; [done|intros Eb; by apply Quv in Eb as [? _]]).
  assert (Pl : plain ou1) by (unfold plain; rewrite Lfl; apply Nu).
  assert (Tov : 0 < mp_top ou1 /\ mp_top ou1 * Dbits < 2 ^ 31).
  { pose proof (tops s x y q r ox oy Ex Ey Nx Ny Hxy F) as [T0 T1]. rewrite Ltop.
    pose proof (shifted_top oy ov k Ny Nv Pk Mv) as Ht. change Dbits with 32 in *. rewrite DIGITS_eq in Ht by lia. assert ((mp_top oy * 32 + k + 31) / 32 <= mp_top oy + 1) by dlia.
    split; [|lia]. pose proof (wf_top _ (normal_wf _ Nv)). assert (mp_top ov <> 0); [|lia]. intros E0. apply (mag_zero _ Nv) in E0. nia. }
  destruct (remainder_done s2 r x u ox ou1 k Ex2 Eu2 Wx Lw Pl (proj1 Tov) (proj2 Tov) ltac:(congruence) Pk) as (s3 & E3 & (_ & M3 & F3) & R3).
  { intros b Eb. split; [intros <-; by apply Ruv in Eb as [? _]|]. destruct (Hr b Eb) as (o & Eo & Ro). exists o. split; [|done].
    assert (q <> Some b) by (intros Eq'; by apply (Hqr b)). rewrite F2 by done. by apply Hold. }
  rewrite (bind_ok _ _ _ _ _ E3). clear E3.
  assert (Keep : forall b, b = t \/ b = u \/ b = v -> mpobj b s3 = mpobj b s1).
  { intros b Hb. rewrite F3, F2; [done|intros Eb; apply Quv in Eb; tauto|intros Eb; apply Ruv in Eb; tauto]. }
  destruct (frees s3 v t ot ou1 ov) as (s4 & E4 & M4 & T4 & U4 & V4 & F4); try done; try lia.
  - rewrite Keep by tauto. done.
  - rewrite Keep by tauto. done.
  - rewrite Keep by tauto. rewrite Lfr; [done|congruence|congruence|]. intros Eb. by apply Quv in Eb as (_ & _ & ?).
  - symmetry. apply Lw.
  - symmetry. apply (wf_size _ (normal_wf _ Nv)).
  - by rewrite Lfl.
  - exists s4. split; [done|]. split.
    + intros b Eb. destruct (Q2 b Eb) as (o & Eo & No & Hz). exists o. destruct (Quv b Eb) as (H1 & H2 & H3). rewrite F4 by tauto. rewrite F3 by (by apply Hqr).
      split_and!; [done..|]. unfold mpz at 2 3. by rewrite Eq.
    + intros b Eb. destruct (R3 b Eb) as (o & Eo & No & Hz). exists o. destruct (Ruv b Eb) as (H1 & H2 & H3). rewrite F4 by tauto.
      split_and!; [done..|]. unfold mpz at 2 3. by rewrite Er, Hz, D2.
    + congruence.
    + intros b Hb1 Hb2. destruct (Nat.lt_ge_cases b u) as [Hlt|Hge].
      * assert (Hv : b <> v \/ v = y) by (destruct Po as [(-> & _)|(-> & _)]; [by right|left; lia]). rewrite F4 by (done || lia). rewrite F3, F2, Lfr by (done || lia). by apply Pold.
      * rewrite (mpobj_ge b s) by done. destruct (decide (b = t)) as [->|Ht]; [done|]. destruct (decide (b = u)) as [->|Hu]; [done|].
        destruct (decide (b = v)) as [->|Hv]; [apply V4; intros ->; apply mpobj_lt in Ey; lia|]. rewrite F4 by tauto. rewrite F3, F2, Lfr by done. by apply Pnew.
Qed.
Lemma mpdiv_general_ok : exists s', mpdiv_general x y q r s = (Ok tt, s') /\ divided s s' q r (mpz ox) (mpz oy).
Proof using All.
  destruct (mpdiv_setup_ok s x y q r ox oy Ex Ey Nx Ny Hxy F) as (v & k & s0 & ou & ov & E0 & P).
  unfold mpdiv_general. rewrite (bind_ok _ _ _ _ _ E0). cbn beta iota.
  destruct (general_loop v k s0 ou ov P (fun t => finish u v t k)) as (t & s1 & ou1 & n & E1 & L).
  destruct (finish_ok v k s0 ou ov t s1 ou1 n P L) as (s' & Es & D). exists s'. split; [exact (eq_trans E1 Es)|done].
Qed.
End general.
