(* ===== verification/MpRem.v ===== *)
(** * Multiple precision arithmetic: mpdiv and mpmod

    The short paths of [mpdiv] (a divisor that is a power of two of one digit, a
    dividend smaller than the divisor), the whole of it, and [mpmod]. *)
From S2P Require Import Prelude CMonad Mp MpVal MpVec MpMul MpSafe MpInt MpAdd MpProd MpShift MpDigdiv MpDiv MpLoop MpSetup MpQuot.

(** ** vtomp *)

Lemma vtomp_digits v : 0 <= v < B ^ 2 -> digits 2 v = [u32 v; u32 (Z.shiftr v (Dbytes * 8))].
Proof. intros H. cbn [digits]. rewrite !u32_mod. change (Dbytes * 8) with 32. by rewrite Z.shiftr_div_pow2. Qed.

Lemma vtomp_ok s b o v : mpobj b s = Some o -> ready o -> 2 <= mp_size o -> Z.abs v < 2 ^ 63 ->
  exists r, vtomp v b s = (Ok tt, mp_put b (Some r) s) /\ normal r /\ mpz r = v.
Proof.
  intros E R Hs Hv. pose proof (mpobj_lt _ _ _ E) as Hlt. unfold vtomp. change (VLDIGITS * Dbytes) with 8. change VLDIGITS with 2.
  destruct (mpbits_ok s b o 8 E (ready_wf _ R) ltac:(lia)) as (g & Eg & G). rewrite (bind_ok _ _ _ _ _ Eg).
  pose proof (growing_mpbits b 8 _ _ _ Eg _ _ E) as (g' & Eg' & Hg). rewrite mpobj_put in Eg' by done. injection Eg' as <-.
  set (sign := if v <? 0 then -1 else 1). assert (Hsg : sign = 1 \/ sign = -1) by (unfold sign; case_match; auto).
  assert (Ha : v * sign = Z.abs v) by (unfold sign; destruct (Z.ltb_spec v 0); lia). rewrite Ha.
  rewrite (bind_ok _ _ _ _ _ (upd_put _ _ _ _ Hlt)). set (g1 := mp_set_sign sign g).
  replace (u64 (Z.abs v)) with (Z.abs v) by (unfold u64; symmetry; apply Z.mod_small; lia).
  assert (R2 : room (mp_put b (Some g1) s) (b, 0) 2) by (apply room_put; [done|lia|lia|cbn; rewrite <- (wf_size _ (grown_wf _ _ _ G)); lia]).
  assert (EL : vtomp_loop (Z.to_nat 2) 0 (Z.abs v) b (mp_put b (Some g1) s) = (Ok tt, wr (b, 0) (digits 2 (Z.abs v)) (mp_put b (Some g1) s))).
  { change (Z.to_nat 2) with 2%nat. cbn [vtomp_loop]. destruct (room_next _ _ 1 (u32 (Z.abs v)) ltac:(lia) R2) as [RA RB].
    rewrite (bind_ok _ _ _ _ _ (sdig_ok _ _ _ RA)). change (0 + 1) with 1. change (padd (b, 0) 1) with (b, 1) in RB.
    rewrite (bind_ok _ _ _ _ _ (sdig_ok _ _ _ RB)). unfold mret, M_ret. f_equal. rewrite vtomp_digits by (unfold B; lia).
    change (b, 1) with (padd (b, 0) 1). by apply (wr_cons _ _ _ _ 2). }
  rewrite (bind_ok _ _ _ _ _ EL), wr_put_same by done. rewrite (bind_ok _ _ _ _ _ (upd_put _ _ _ _ Hlt)).
  assert (W1 : wf g1) by (apply set_sign_wf; [apply G|done]). change (mp_size g) with (mp_size g1) in Hg.
  set (o2 := mp_set_top 2 _). assert (W2 : wf o2) by (apply blit_wf; [done|apply digits_dig|rewrite digits_zlen; lia]).
  assert (P2 : plain o2) by (apply (same_flags_plain o g); [apply R|apply G|apply G|apply R]).
  destruct (mpnorm_ok (mp_put b (Some o2) s) b o2 ltac:(by apply mpobj_put) W2 P2) as (r & Er & Nr & Hz & _). rewrite mp_put_put in Er.
  exists r. split_and!; [done..|]. rewrite Hz. unfold mpz, mag, o2. change 2 with (zlen (digits 2 (Z.abs v))). rewrite blit_mpd by (done || (rewrite digits_zlen; lia)).
  rewrite val_digits, Z.mod_small by (unfold B; lia). cbn [mp_sign mp_set_top mp_set_p g1 mp_set_sign]. rewrite <- Ha. destruct Hsg as [Hsg|Hsg]; rewrite Hsg; lia.
Qed.

(** ** Division by a power of two of one digit *)

Lemma power_of_two p : 0 < p < B -> Z.land p (p - 1) = 0 -> exists k, p = 2 ^ k /\ 0 <= k < 32.
Proof.
  intros Hp H. set (k := Z.log2 p). assert (Hk : 0 <= k) by apply Z.log2_nonneg. pose proof (Z.log2_spec p ltac:(lia)) as Hl. fold k in Hl.
  assert (Hk32 : k < 32) by (apply (Z.pow_lt_mono_r_iff 2); [lia|lia|unfold B in Hp; lia]).
  exists k. split; [|lia]. destruct (Z.eq_dec p (2 ^ k)) as [|Hn]; [done|exfalso].
  assert (B1 : Z.testbit p k = true) by (apply Z.bit_log2; lia).
  assert (B2 : Z.testbit (p - 1) k = true).
  { replace k with (Z.log2 (p - 1)) at 1; [apply Z.bit_log2; pose proof (Z.pow_pos_nonneg 2 k ltac:(lia) Hk); lia|].
    apply Z.log2_unique; [done|]. rewrite Z.pow_succ_r in * by done. lia. }
  apply (f_equal (fun n => Z.testbit n k)) in H. rewrite Z.land_spec, B1, B2, Z.bits_0 in H. done.
Qed.
Lemma low_bit_ok k : 0 <= k < 32 -> low_bit 32 (2 ^ k) 0 = Some k.
Proof.
  intros H. assert (A : Forall (fun k => low_bit 32 (2 ^ k) 0 = Some k) (seqZ 0 32)) by (vm_compute; repeat (apply Forall_cons_2; [done|]); apply Forall_nil_2).
  rewrite Forall_forall in A. apply (A k). apply list_elem_of_In, elem_of_seqZ. lia.
Qed.

(** What a zero leaves in its first digit, which [mpdiv] reads. *)
Definition clean (o : Mpint) : Prop := mp_top o = 0 -> exists l, mp_p o = 0 :: l.
Lemma first_digit s x o k : mpobj x s = Some o -> normal o -> clean o -> 0 <= k < 32 ->
  exists p, ldig (x, 0) s = (Ok p, s) /\ 0 <= p < B /\ p mod 2 ^ k = mag o mod 2 ^ k.
Proof.
  intros E N C Hk. pose proof (normal_wf _ N) as W. pose proof (zlen_mpd _ W) as Z0. pose proof (wf_top _ W) as T.
  destruct (Z.eq_dec (mp_top o) 0) as [Ht|Ht].
  - destruct (C Ht) as (l & El). exists 0. split_and!; [|done|done|].
    + apply ldig_ok. exists o. split; [done|]. rewrite El. split_and!; [done|cbn; unfold zlen; cbn; lia|]. by intros [|i] Hi; [|cbn in Hi; lia].
    + apply (mag_zero _ N) in Ht. by rewrite Ht.
  - destruct (mpd o) as [|p l] eqn:El; [change (zlen (@nil Z)) with 0 in Z0; lia|]. exists p. pose proof (dig_mpd _ W) as D. rewrite El in D. apply dig_cons in D as [Dp D].
    split_and!; [|lia|lia|].
    + apply ldig_ok. pose proof (seg_mpd _ _ _ E) as S0. rewrite El in S0. by apply seg_cons in S0 as [S0 _].
    + unfold mag. rewrite El. cbn [val]. rewrite (pow2_B k) by lia. rewrite (Z.mul_comm (2 ^ (32 - k))), <- Z.mul_assoc, Z.mul_comm.
      pose proof (pow2_pos k ltac:(lia)). rewrite (Z.mul_comm _ (2 ^ k)), (Z.mul_comm (2 ^ k)), Z.mod_add by lia. done.
Qed.

(** ** mpdiv *)

Section mpdiv.
Context (s : MpStore) (x y : nat) (q r : option nat) (ox oy : Mpint).
Context (Ex : mpobj x s = Some ox) (Ey : mpobj y s = Some oy) (Nx : normal ox) (Ny : normal oy) (Hy : 0 < mag oy) (Cx : clean ox).
Context (F : (mp_top ox + 3) * Dbits < 2 ^ 31) (Hsign : mp_sign oy = -1 -> 1 < mp_top oy).
Context (Hqx : q <> Some x) (Hqy : q <> Some y) (Hqr : forall b, q = Some b -> r <> Some b) (Hone : q <> None \/ r <> None).
Context (Hz : has_zero s) (Hq0 : q <> Some mpzero) (Hr0 : r <> Some mpzero).
Context (Hq : forall b, q = Some b -> exists oq, mpobj b s = Some oq /\ ready oq /\ mp_sign oq = 1).
Context (Hr : forall b, r = Some b -> exists o, mpobj b s = Some o /\ ready o /\ 2 <= mp_size o).

(** Results in two different objects. *)
Lemma divided_put s1 (oq or : option Mpint) X Y :
  s1 = (match r, or with Some b, Some o => mp_put b (Some o) | _, _ => id end) ((match q, oq with Some b, Some o => mp_put b (Some o) | _, _ => id end) s) ->
  (forall b, q = Some b -> exists o, oq = Some o /\ normal o /\ mpz o = Z.quot X Y) ->
  (forall b, r = Some b -> exists o, or = Some o /\ tidy o /\ mpz o = Z.rem X Y) -> divided s s1 q r X Y.
Proof using Hqr Hq Hr.
  clear - Hqr Hq Hr. intros -> Q R. split.
  - intros b Eb. destruct (Q b Eb) as (o & -> & H). exists o. split; [|done]. rewrite Eb. destruct (Hq b Eb) as (oq' & Eq & _). apply mpobj_lt in Eq.
    destruct r as [b'|] eqn:Er; [|by apply mpobj_put]. destruct or; [|by apply mpobj_put]. rewrite mpobj_put_ne; [by apply mpobj_put|]. intros <-. by apply (Hqr b' Eb).
  - intros b Eb. destruct (R b Eb) as (o & -> & H). exists o. split; [|done]. rewrite Eb. destruct (Hr b Eb) as (o' & Eo & _). apply mpobj_lt in Eo.
    apply mpobj_put. destruct q, oq; rewrite ?objs_put; done.
  - destruct r, or, q, oq; done.
  - intros b H1 H2. destruct r as [b1|], or; cbn; [rewrite mpobj_put_ne by congruence|..]; destruct q as [b2|], oq; cbn; try done; rewrite mpobj_put_ne by congruence; done.
Qed.

(** A dividend smaller than the divisor. *)
Lemma mpdiv_less : mag ox < mag oy -> exists s',
  (_ ← (match r with Some r => mpassign x r | None => mret tt end);
   match q with Some q => mpassign mpzero q | None => mret tt end) s = (Ok tt, s') /\ divided s s' q r (mpz ox) (mpz oy).
Proof using All.
  intros Hlt. pose proof (normal_wf _ Nx) as Wx. pose proof (normal_wf _ Ny) as Wy. pose proof (mag_nonneg _ Wx).
  destruct (quot_signs (mp_sign ox) (mp_sign oy) (mag ox) (mag oy) (wf_sign _ Wx) (wf_sign _ Wy) ltac:(lia) Hy) as [Eq Er].
  fold (mpz ox) (mpz oy) in Eq, Er. rewrite Z.div_small in Eq by lia. rewrite Z.mod_small in Er by lia. fold (mpz ox) in Er.
  assert (Eq0 : Z.quot (mpz ox) (mpz oy) = 0) by (rewrite Eq; by case_match). clear Eq.
  assert (Fx : fits (mp_top ox)) by (unfold fits; change Dbits with 32 in *; lia).
  assert (A1 : exists s1 or, (match r with Some r => mpassign x r | None => mret tt end) s = (Ok tt, s1) /\
    s1 = (match r, or with Some b, Some o => mp_put b (Some o) s | _, _ => s end) /\ (forall b, r = Some b -> exists o, or = Some o /\ tidy o /\ mpz o = mpz ox)).
  { destruct r as [b|] eqn:Eb; [|by exists s, None]. destruct (Hr b eq_refl) as (o & Eo & [Wo Po _] & _).
    destruct (mpassign_ok s x b ox o Ex Eo Nx Wo Po Fx) as (o' & E & R' & Hm & Hs & _). eexists _, (Some o'). split; [exact E|]. split; [done|].
    intros b' _. exists o'. split_and!; [done|apply normal_tidy, R'|]. unfold mpz. by rewrite Hm, Hs. }
  destruct A1 as (s1 & or & E1 & Es1 & R1). rewrite (bind_ok _ _ _ _ _ E1).
  destruct Hz as (z & Ez & Nz & Mz).
  assert (Hs1 : forall b o, mpobj b s = Some o -> r <> Some b -> mpobj b s1 = Some o).
  { intros b o Eo Hb. rewrite Es1. destruct r as [b'|], or; try done. rewrite mpobj_put_ne by congruence. done. }
  assert (A2 : exists s2 oq, (match q with Some q => mpassign mpzero q | None => mret tt end) s1 = (Ok tt, s2) /\
    s2 = (match q, oq with Some b, Some o => mp_put b (Some o) s1 | _, _ => s1 end) /\ (forall b, q = Some b -> exists o, oq = Some o /\ normal o /\ mpz o = 0)).
  { destruct q as [b|] eqn:Eb; [|by exists s1, None]. destruct (Hq b eq_refl) as (o & Eo & [Wo Po _] & _).
    assert (Fz : fits (mp_top z)) by (apply (mag_zero _ Nz) in Mz; rewrite Mz; done).
    destruct (mpassign_ok s1 mpzero b z o (Hs1 _ _ Ez Hr0) (Hs1 _ _ Eo (Hqr b eq_refl)) Nz Wo Po Fz) as (o' & E & R' & Hm & Hs & _). eexists _, (Some o'). split; [exact E|]. split; [done|].
    intros b' _. exists o'. split_and!; [done|apply R'|]. unfold mpz. rewrite Hm, Mz. lia. }
  destruct A2 as (s2 & oq & E2 & Es2 & R2). exists s2. split; [done|]. apply (divided_put s2 oq or).
  - rewrite Es2, Es1. destruct q as [b|] eqn:Eqb, oq as [o|], r as [b'|] eqn:Erb, or as [o'|]; cbn; try done. apply mp_put_comm. intros ->. by apply (Hqr b').
  - intros b Eb. destruct (R2 b Eb) as (o & H1 & H2 & H3). exists o. by rewrite Eq0.
  - intros b Eb. destruct (R1 b Eb) as (o & H1 & H2 & H3). exists o. by rewrite Er.
Qed.

(** A divisor that is a power of two of one digit. *)
Lemma mpdiv_power k : 0 <= k < 32 -> mag oy = 2 ^ k -> mp_sign oy = 1 -> exists s',
  (od ← mp_get x;
   x0 ← ldig (x, 0);
   let r0 := mp_sign od * Z.land x0 (u32 (2 ^ k - 1)) in
   _ ← (match q with Some q => s ← of_option (low_bit 32 (2 ^ k) 0); mpright x s q | None => mret tt end);
   match r with Some r => _ ← pass_timesafe1 x r; vtomp r0 r | None => mret tt end) s = (Ok tt, s') /\ divided s s' q r (mpz ox) (mpz oy).
Proof using All.
  intros Hk Hm Hs. pose proof (normal_wf _ Nx) as Wx. pose proof (mag_nonneg _ Wx). pose proof (pow2_pos k ltac:(lia)) as Hp. change Dbits with 32 in F.
  pose proof (Z.pow_lt_mono_r 2 k 32 ltac:(lia) ltac:(lia) ltac:(lia)) as Hp32.
  destruct (quot_signs (mp_sign ox) 1 (mag ox) (mag oy) (wf_sign _ Wx) ltac:(by left) ltac:(lia) Hy) as [Eq Er]. rewrite <- Hs in Eq at 1. rewrite <- Hs in Er at 1.
  fold (mpz ox) (mpz oy) in Eq, Er. rewrite Hm in Eq, Er.
  destruct (first_digit s x ox k Ex Nx Cx Hk) as (p & Ep & Dp & Hpk). rewrite (bind_get _ _ _ _ Ex), (bind_ok _ _ _ _ _ Ep). cbv zeta.
  replace (u32 (2 ^ k - 1)) with (Z.ones k) by (rewrite u32_mod, Z.mod_small, Z.ones_equiv by (unfold B; lia); lia). rewrite Z.land_ones, Hpk by lia.
  rewrite low_bit_ok by done. cbn [of_option].
  assert (A1 : exists s1 oq, (match q with Some q => s ← mret k; mpright x s q | None => mret tt end) s = (Ok tt, s1) /\
    s1 = (match q, oq with Some b, Some o => mp_put b (Some o) s | _, _ => s end) /\ (forall b, q = Some b -> exists o, oq = Some o /\ normal o /\ mpz o = Z.quot (mpz ox) (mpz oy))).
  { destruct q as [b|] eqn:Eb; [|by exists s, None]. destruct (Hq b eq_refl) as (o & Eo & Ro & _). rewrite bind_mret.
    destruct (mpright_ok s x b ox o k Ex Eo Nx Ro ltac:(lia) ltac:(change Dbits with 32; lia)) as (o' & E & R' & Hz').
    eexists _, (Some o'). split; [exact E|]. split; [done|]. intros b' _. exists o'. split_and!; [done|apply R'|]. rewrite Hz', <- shifted_right by lia.
    rewrite Eq. destruct (wf_sign _ Wx) as [Ez|Ez]; rewrite Ez; cbn [Z.eqb Pos.eqb]; lia. }
  destruct A1 as (s1 & oq & E1 & Es1 & Q1). rewrite (bind_ok _ _ _ _ _ E1).
  assert (Hs1 : forall b o, mpobj b s = Some o -> q <> Some b -> mpobj b s1 = Some o).
  { intros b o Eo Hb. rewrite Es1. destruct q as [b'|], oq; try done. rewrite mpobj_put_ne by congruence. done. }
  assert (A2 : exists s2 or, (match r with Some r => _ ← pass_timesafe1 x r; vtomp (mp_sign ox * (mag ox mod 2 ^ k)) r | None => mret tt end) s1 = (Ok tt, s2) /\
    s2 = (match r, or with Some b, Some o => mp_put b (Some o) s1 | _, _ => s1 end) /\ (forall b, r = Some b -> exists o, or = Some o /\ tidy o /\ mpz o = Z.rem (mpz ox) (mpz oy))).
  { destruct r as [b|] eqn:Eb; [|by exists s1, None]. destruct (Hr b eq_refl) as (o & Eo & Ro & So). assert (Hqb : q <> Some b) by (intros Eqb; by apply (Hqr b)).
    pose proof (Hs1 _ _ Eo Hqb) as Eo1. pose proof (Hs1 _ _ Ex Hqx) as Ex1. pose proof (mpobj_lt _ _ _ Eo1) as Hlt.
    pose proof (pass_timesafe1_ok s1 x b o Hlt (ready_plain _ Ro)) as EP. rewrite (mp_put_id _ _ _ Eo1) in EP.
    rewrite (bind_ok _ _ _ _ _ (EP ltac:(intros o1 _ Eo2; rewrite Ex1 in Eo2; injection Eo2 as <-; apply Nx) ltac:(right; by exists ox))).
    pose proof (Z.mod_pos_bound (mag ox) (2 ^ k) Hp) as Hb.
    destruct (vtomp_ok s1 b o (mp_sign ox * (mag ox mod 2 ^ k)) Eo1 Ro So) as (o' & E & No & Hz'); [destruct (wf_sign _ Wx) as [Ez|Ez]; rewrite Ez; lia|].
    eexists _, (Some o'). split; [exact E|]. split; [done|]. intros b' _. exists o'. split_and!; [done|by apply normal_tidy|]. by rewrite Hz', Er. }
  destruct A2 as (s2 & or & E2 & Es2 & R2). exists s2. split; [done|]. apply (divided_put s2 oq or); try done.
  rewrite Es2, Es1. by destruct r, or, q, oq.
Qed.

Lemma mpdiv_ok : exists s', mpdiv x y q r s = (Ok tt, s') /\ divided s s' q r (mpz ox) (mpz oy).
Proof using All.
  unfold mpdiv. pose proof (normal_wf _ Ny) as Wy. pose proof (wf_top _ Wy) as Ty.
  assert (Hty : mp_top oy <> 0) by (intros E; apply (mag_zero _ Ny) in E; lia).
  assert (EA : (match q, r with Some q, Some r => negb (q =? r)%nat | None, None => false | _, _ => true end) = true).
  { destruct q as [b|], r as [b'|]; try done; [|by destruct Hone]. apply negb_true_iff, Nat.eqb_neq. intros ->. by apply (Hqr b'). }
  rewrite EA. cbn [assert_]. rewrite bind_mret, (bind_get _ _ _ _ Ey), (normal_flag _ Ny). cbn [Z.eqb MPnorm negb assert_]. rewrite bind_mret.
  destruct (Z.eqb_spec (mp_top oy) 0) as [|_]; [done|].
  destruct (mpd oy) as [|p l] eqn:Ed; [pose proof (zlen_mpd _ Wy) as Z0; rewrite Ed in Z0; change (zlen (@nil Z)) with 0 in Z0; lia|].
  assert (Sp : seg s (y, 0) [p]) by (pose proof (seg_mpd _ _ _ Ey) as S0; rewrite Ed in S0; by apply seg_cons in S0 as [S0 _]).
  rewrite (bind_ok _ _ _ _ _ (ldig_ok _ _ _ Sp)). destruct ((mp_top oy =? 1) && (Z.land p (u32 (p - 1)) =? 0)) eqn:Ec.
  - apply andb_true_iff in Ec as [E1 E2]. apply Z.eqb_eq in E1, E2. destruct (top_split oy Ny ltac:(lia)) as (l' & d & Ed' & Zl & Hd & _).
    rewrite E1 in Zl. apply zlen_0_inv in Zl as ->. rewrite Ed in Ed'. injection Ed' as -> ->.
    rewrite u32_mod, Z.mod_small in E2 by lia. destruct (power_of_two d Hd E2) as (k & -> & Hk). apply mpdiv_power; [done| |].
    + unfold mag. rewrite Ed. cbn [val]. lia.
    + destruct (wf_sign _ Wy) as [|E]; [done|]. apply Hsign in E. lia.
  - rewrite (bind_get _ _ _ _ Ex), (normal_plain _ Nx : Z.land _ _ = 0). cbn [assert_ Z.eqb]. rewrite bind_mret.
    destruct (mpmagcmp_ok s x y ox oy Ex Ey Nx Ny) as (c & Ecmp & Hc). rewrite (bind_ok _ _ _ _ _ Ecmp). destruct (Z.ltb_spec c 0) as [Hlt|Hge].
    + apply mpdiv_less. lia.
    + apply (mpdiv_general_ok s x y q r ox oy); try done; [lia|]. intros b Eb. destruct (Hr b Eb) as (o & Eo & Ro & _). by exists o.
Qed.
End mpdiv.

(** ** mpmod *)

(** Nothing to subtract: a copy. *)
Lemma mpmagsub_zero s b1 b2 o1 o2 : mpobj b1 s = Some o1 -> mpobj b2 s = Some o2 -> normal o1 -> tidy o2 -> 0 < mp_top o1 -> mp_top o2 = 0 -> mp_sign o1 = 1 ->
  fits (mp_top o1) -> exists r, mpmagsub b1 b2 b2 s = (Ok tt, mp_put b2 (Some r) s) /\ normal r /\ mpz r = mpz o1.
Proof.
  intros E1 E2 N1 [W2 N2] T1 T2 S1 F. pose proof (mpobj_lt _ _ _ E2) as Hlt. assert (P2 : plain o2) by apply N2.
  unfold mpmagsub. assert (C : mpmagcmp b1 b2 s = (Ok (mp_top o1), s)).
  { unfold mpmagcmp. rewrite (bind_get _ _ _ _ E1), (bind_get _ _ _ _ E2). rewrite land_lor_plain by (apply N1 || done). rewrite land_lor_norm by apply N1.
    cbn [Z.eqb negb andb]. rewrite T2, Z.sub_0_r. by destruct (Z.eqb_spec (mp_top o1) 0); [lia|]. }
  rewrite (bind_ok _ _ _ _ _ C). destruct (Z.ltb_spec (mp_top o1) 0); [lia|].
  erewrite bind_ok; [|rewrite (bind_ok _ _ _ _ _ (pass_timesafe_ok _ _ _ _ _ _ _ E1 E2 E2 (normal_plain _ N1) P2)); done].
  cbn beta iota. rewrite (bind_get _ _ _ _ E1), (bind_get _ _ _ _ E2), T2. cbn [Z.eqb].
  destruct (mpassign_ok s b1 b2 o1 o2 E1 E2 N1 W2 P2 F) as (r & Er & [Nr _] & Hm & Hs & _). rewrite (bind_ok _ _ _ _ _ Er), upd_put by done.
  exists r. replace (mp_set_sign 1 r) with r by (rewrite <- S1, <- Hs; by destruct r). split_and!; [done..|]. unfold mpz. by rewrite Hm, Hs.
Qed.

Section mpmod.
Context (s : MpStore) (x n r : nat) (ox on o : Mpint).
Context (Ex : mpobj x s = Some ox) (En : mpobj n s = Some on) (Er : mpobj r s = Some o) (Nx : normal ox) (Nn : normal on) (Hn : 0 < mpz on) (Cx : clean ox).
Context (F : (Z.max (mp_top ox) (mp_top on) + 3) * Dbits < 2 ^ 31) (Ff : Z.land (mp_flags on) MPfield = 0).
Context (Hz : has_zero s) (Hr0 : r <> mpzero) (Hrn : r <> n) (Ro : ready o) (So : 2 <= mp_size o).

Lemma modulus_positive : mp_sign on = 1 /\ mpz on = mag on /\ 0 < mp_top on.
Proof using All.
  destruct (mpz_sign on Nn) as [(E & E1 & E2)|(E & E1 & E2)]; [|lia]. split_and!; [done..|].
  pose proof (wf_top _ (normal_wf _ Nn)). assert (mp_top on <> 0); [|lia]. intros E0. apply (mag_zero _ Nn) in E0. lia.
Qed.
(** The residue, except that a negative multiple of the modulus gives the modulus. *)
Lemma mpmod_ok : exists s' o', mpmod x n r s = (Ok tt, s') /\ mpobj r s' = Some o' /\ tidy o' /\
  mpz o' = (if (mpz ox <? 0) && (mpz ox mod mpz on =? 0) then mpz on else mpz ox mod mpz on) /\
  mpmindigits s' = mpmindigits s /\ forall b, b <> r -> mpobj b s' = mpobj b s.
Proof using All.
  destruct modulus_positive as (Sn & Zn & Tn). pose proof (normal_wf _ Nx) as Wx. change Dbits with 32 in F.
  unfold mpmod. rewrite (bind_get _ _ _ _ Ex), (bind_get _ _ _ _ En), Ff. cbn [assert_ Z.eqb]. rewrite bind_mret.
  destruct (mpdiv_ok s x n None (Some r) ox on Ex En Nx Nn ltac:(lia) Cx ltac:(change Dbits with 32; lia) ltac:(lia)) as (s1 & E1 & [_ R1 M1 F1]); try done.
  { by right. } { congruence. } { intros b [= <-]. by exists o. }
  rewrite (bind_ok _ _ _ _ _ E1). destruct (R1 r eq_refl) as (o1 & Eo1 & To1 & Hz1).
  assert (En1 : mpobj n s1 = Some on) by (rewrite F1; [done|done|congruence]).
  destruct (mpz_sign ox Nx) as [(Sx & Zx & Hx)|(Sx & Zx & Hx)]; rewrite Sx; cbn [Z.ltb Z.compare].
  - exists s1, o1. destruct (Z.ltb_spec (mpz ox) 0); [lia|]. cbn [andb]. split_and!; try done; [|intros b Hb; apply F1; congruence].
    rewrite Hz1. apply Z.rem_mod_nonneg; lia.
  - destruct (Z.ltb_spec (mpz ox) 0); [|lia]. cbn [andb].
    assert (Hm1 : mag o1 = mag ox mod mag on).
    { rewrite <- (abs_mpz o1) by apply To1. rewrite Hz1, Zx, Zn, Z.rem_opp_l, Z.rem_mod_nonneg by lia. pose proof (Z.mod_pos_bound (mag ox) (mag on) ltac:(lia)). lia. }
    assert (Fin : forall r', mp_put r (Some r') s1 = mp_put r (Some r') s1 /\ mpmindigits (mp_put r (Some r') s1) = mpmindigits s /\
      forall b, b <> r -> mpobj b (mp_put r (Some r') s1) = mpobj b s).
    { intros r'. split_and!; [done|done|]. intros b Hb. rewrite mpobj_put_ne by done. apply F1; congruence. }
    rewrite Zx, Zn. destruct (Z.eq_dec (mag ox mod mag on) 0) as [E0|E0].
    + assert (T1 : mp_top o1 = 0). { destruct (Z.eq_dec (mp_top o1) 0) as [|Hne]; [done|]. pose proof (tidy_normal _ To1 Hne) as N1. apply (mag_zero _ N1). lia. }
      destruct (mpmagsub_zero s1 n r on o1 En1 Eo1 Nn To1 Tn T1 Sn) as (r' & Es & Nr & Hzr); [unfold fits; change Dbits with 32; lia|].
      exists (mp_put r (Some r') s1), r'. split_and!; [done|by eapply mpobj_put_eq|by apply normal_tidy| |apply Fin..].
      rewrite Z.mod_opp_l_z by lia. cbn [Z.eqb]. lia.
    + pose proof (Z.mod_pos_bound (mag ox) (mag on) ltac:(lia)).
      assert (T1 : mp_top o1 <> 0). { intros T1. destruct To1 as [W1 N1]. pose proof (proj1 (mag_zero _ N1) T1) as M0. unfold mag in M0. rewrite set_sign_mpd in M0. fold (mag o1) in M0. lia. }
      pose proof (tidy_normal _ To1 T1) as N1. assert (Ft : mp_top o1 <= mp_top on).
      { destruct (Z.le_gt_cases (mp_top o1) (mp_top on)) as [|Hgt]; [done|]. pose proof (mag_lead _ N1 ltac:(lia)). pose proof (mag_bound _ (normal_wf _ Nn)).
        pose proof (Z.pow_le_mono_r B (mp_top on) (mp_top o1 - 1) B_pos ltac:(lia)). lia. }
      destruct (mpmagsub_ok s1 n r r on o1 o1 En1 Eo1 Eo1 Nn N1 (normal_wf _ N1) (normal_plain _ N1)) as (r' & Es & [Nr _] & Hzr); [unfold fits; change Dbits with 32; lia|].
      exists (mp_put r (Some r') s1), r'. split_and!; [done|by eapply mpobj_put_eq|by apply normal_tidy| |apply Fin..].
      rewrite Z.mod_opp_l_nz by lia. destruct (Z.eqb_spec (mag on - mag ox mod mag on) 0); lia.
Qed.
End mpmod.
