(* ===== verification/MpProps.v ===== *)
(** * Multiple precision arithmetic: the properties

    On numbers in normal form every operation is exact, its result is in normal
    form again, and nothing else in the store changes; the optimised and the
    constant-time routines agree with the plain ones, but for the comparison of
    equal numbers of different lengths. *)
From S2P Require Import Prelude CMonad Mp MpVal MpVec MpMul MpSafe MpInt MpAdd MpProd MpShift MpDigdiv.

(** ** Concrete stores for the witnesses *)

Definition digb (l : list Z) : bool := forallb (fun x => (0 <=? x) && (x <? B)) l.
Definition wfb (o : Mpint) : bool :=
  (mp_size o =? zlen (mp_p o)) && (0 <=? mp_top o) && (mp_top o <=? mp_size o) && digb (mp_p o) &&
  ((mp_sign o =? 1) || (mp_sign o =? -1)) && (0 <=? mp_flags o) && (mp_flags o <? 16).
Definition normalb (o : Mpint) : bool :=
  wfb o && (Z.land (mp_flags o) MPtimesafe =? 0) && (Z.land (mp_flags o) MPnorm =? MPnorm) &&
  (negb (mp_top o =? 0) || (mp_sign o =? 1)) && (match list.last (mpd o) with Some x => negb (x =? 0) | None => true end).

Lemma digb_ok l : digb l = true -> dig l.
Proof.
  unfold digb, dig. induction l as [|x l IH]; [constructor|]. cbn. rewrite andb_true_iff. intros [H1 H2].
  apply Forall_cons_2; [lia|by apply IH].
Qed.
Lemma wfb_ok o : wfb o = true -> wf o.
Proof.
  unfold wfb. rewrite !andb_true_iff, orb_true_iff. intros [[[[[[H1 H2] H3] H4] H5] H6] H7].
  split; [lia|lia|by apply digb_ok|lia|lia].
Qed.
Lemma normalb_ok o : normalb o = true -> normal o.
Proof.
  unfold normalb. rewrite !andb_true_iff, orb_true_iff. intros [[[[H1 H2] H3] H4] H5].
  split; [by apply wfb_ok|by apply Z.eqb_eq|by apply Z.eqb_eq| |].
  - intros E. rewrite E in H4. cbn in H4. destruct H4 as [?|H4]; [done|by apply Z.eqb_eq].
  - intros l x E. rewrite E, last_snoc in H5. intros ->. done.
Qed.

(** The constants, then a number of each sign, a long one, and a result. *)
Definition num (sign : Z) (p : list Z) : Mpint := mkMpint sign (zlen p) (zlen p) p MPnorm.
Definition mpstore : MpStore :=
  mkMpStore (objs mpinit ++ [Some (num 1 [5; 7]); Some (num (-1) [4294967295; 4294967295; 1]); Some (num 1 [9])]) 33.

Lemma mpstore_zero : has_zero mpstore.
Proof. exists (mkMpint 1 1 0 [0] (Z.lor MPstatic MPnorm)). split_and!; [done|by apply normalb_ok|done]. Qed.

(** ** Normal form *)

(** C37. Normal form.  [mpnorm] of a number that is not marked constant-time
    leaves the same integer in normal form, changing nothing else, and normal
    forms are unique: of two numbers with the same value it leaves the same
    sign and the same digits. *)
Theorem mpnorm_canonical s b1 b2 o1 o2 :
  mpobj b1 s = Some o1 -> mpobj b2 s = Some o2 -> wf o1 -> wf o2 -> plain o1 -> plain o2 -> mpz o1 = mpz o2 ->
  exists r1 r2, mpnorm b1 s = (Ok tt, mp_put b1 (Some r1) s) /\ mpnorm b2 s = (Ok tt, mp_put b2 (Some r2) s) /\
    normal r1 /\ normal r2 /\ mpz r1 = mpz o1 /\ mpz r2 = mpz o2 /\
    mp_sign r1 = mp_sign r2 /\ mp_top r1 = mp_top r2 /\ mpd r1 = mpd r2.
Proof.
  intros E1 E2 W1 W2 P1 P2 Hv.
  destruct (mpnorm_ok s b1 o1 E1 W1 P1) as (r1 & R1 & N1 & Z1 & _). destruct (mpnorm_ok s b2 o2 E2 W2 P2) as (r2 & R2 & N2 & Z2 & _).
  exists r1, r2. pose proof (normal_wf _ N1) as V1. pose proof (normal_wf _ N2) as V2.
  assert (Em : mag r1 = mag r2) by (rewrite <- !abs_mpz by done; congruence).
  assert (Et : forall x y, normal x -> normal y -> mag x = mag y -> mp_top x <= mp_top y).
  { intros x y Nx Ny E. pose proof (wf_top _ (normal_wf _ Ny)). destruct (Z.le_gt_cases (mp_top x) (mp_top y)) as [|Hgt]; [done|].
    pose proof (mag_lead _ Nx ltac:(lia)). pose proof (mag_bound _ (normal_wf _ Ny)).
    pose proof (Z.pow_le_mono_r B (mp_top y) (mp_top x - 1) B_pos ltac:(lia)). lia. }
  assert (T : mp_top r1 = mp_top r2) by (apply Z.le_antisymm; by apply Et).
  split_and!; try done.
  - destruct (mpz_sign _ N1) as [(-> & X1 & ?)|(-> & X1 & ?)], (mpz_sign _ N2) as [(-> & X2 & ?)|(-> & X2 & ?)]; (done || lia).
  - apply val_inj; [by apply dig_mpd..| |done]. pose proof (zlen_mpd _ V1). pose proof (zlen_mpd _ V2). unfold zlen in *. lia.
Qed.
Definition loose : MpStore := mkMpStore [Some (mkMpint (-1) 3 3 [6; 0; 0] 0); Some (mkMpint (-1) 2 1 [6; 8] MPnorm)] 33.
Lemma mpnorm_canonical_witness :
  exists r1 r2, mpnorm 0 loose = (Ok tt, mp_put 0 (Some r1) loose) /\ mpnorm 1 loose = (Ok tt, mp_put 1 (Some r2) loose) /\
    normal r1 /\ normal r2 /\ mpz r1 = -6 /\ mpz r2 = -6 /\
    mp_sign r1 = mp_sign r2 /\ mp_top r1 = mp_top r2 /\ mpd r1 = mpd r2.
Proof.
  apply (mpnorm_canonical loose 0 1 (mkMpint (-1) 3 3 [6; 0; 0] 0) (mkMpint (-1) 2 1 [6; 8] MPnorm)); try reflexivity; by apply wfb_ok.
Defined.

(** ** Sums, differences, comparison *)

(** C36. [mpadd] and [mpsub] on any two normal numbers put the exact sum and
    difference, in normal form, in any object that is not constant-time, also
    in one of the operands, and change no other object. *)
Theorem mpadd_mpsub_exact s b1 b2 r o1 o2 n :
  mpobj b1 s = Some o1 -> mpobj b2 s = Some o2 -> mpobj r s = Some n ->
  normal o1 -> normal o2 -> wf n -> plain n -> has_zero s -> fits (Z.max (mp_top o1) (mp_top o2)) ->
  (exists y, mpadd b1 b2 r s = (Ok tt, mp_put r (Some y) s) /\ normal y /\ mpz y = mpz o1 + mpz o2) /\
  (exists y, mpsub b1 b2 r s = (Ok tt, mp_put r (Some y) s) /\ normal y /\ mpz y = mpz o1 - mpz o2).
Proof.
  intros E1 E2 En N1 N2 W P Hz F. split.
  - destruct (mpadd_ok s b1 b2 r o1 o2 n) as (y & E & [N _] & Hy); try done. eauto.
  - destruct (mpsub_ok s b1 b2 r o1 o2 n) as (y & E & [N _] & Hy); try done. eauto.
Qed.
Lemma mpadd_mpsub_exact_witness :
  (exists y, mpadd 3 4 3 mpstore = (Ok tt, mp_put 3 (Some y) mpstore) /\ normal y /\
     mpz y = 5 + 7 * B + - (B - 1 + (B - 1) * B + B * B)) /\
  (exists y, mpsub 3 4 3 mpstore = (Ok tt, mp_put 3 (Some y) mpstore) /\ normal y /\
     mpz y = 5 + 7 * B - - (B - 1 + (B - 1) * B + B * B)).
Proof.
  apply (mpadd_mpsub_exact mpstore 3 4 3 (num 1 [5; 7]) (num (-1) [4294967295; 4294967295; 1]) (num 1 [5; 7]));
    try reflexivity; [by apply normalb_ok..|by apply wfb_ok|apply mpstore_zero].
Defined.

(** [mpcmp] on normal numbers changes nothing and returns an integer with
    the sign of the difference, so that it is zero exactly on equal numbers. *)
Theorem mpcmp_order s b1 b2 o1 o2 :
  mpobj b1 s = Some o1 -> mpobj b2 s = Some o2 -> normal o1 -> normal o2 ->
  exists c, mpcmp b1 b2 s = (Ok c, s) /\ (c < 0 <-> mpz o1 < mpz o2) /\ (c = 0 <-> mpz o1 = mpz o2) /\ (0 < c <-> mpz o2 < mpz o1).
Proof.
  intros E1 E2 N1 N2. destruct (mpcmp_ok s b1 b2 o1 o2 E1 E2 N1 N2) as (c & Ec & Hc). exists c. split_and!; (done || lia).
Qed.
Lemma mpcmp_order_witness :
  exists c, mpcmp 3 4 mpstore = (Ok c, mpstore) /\ (c < 0 <-> mpz (num 1 [5; 7]) < mpz (num (-1) [4294967295; 4294967295; 1])) /\
    (c = 0 <-> mpz (num 1 [5; 7]) = mpz (num (-1) [4294967295; 4294967295; 1])) /\
    (0 < c <-> mpz (num (-1) [4294967295; 4294967295; 1]) < mpz (num 1 [5; 7])).
Proof.
  apply (mpcmp_order mpstore 3 4 (num 1 [5; 7]) (num (-1) [4294967295; 4294967295; 1])); try reflexivity; by apply normalb_ok.
Defined.

(** C39. The constant-time comparison.  On any two digit vectors [mpvectscmp]
    returns what [mpveccmp] returns, the sign of the difference, except that
    for equal numbers of which the second has more digits it returns 1. *)
Theorem mpvectscmp_agrees s a la b lb : dig la -> dig lb -> seg s a la -> seg s b lb ->
  mpveccmp a (zlen la) b (zlen lb) s = (Ok (Z.sgn (val la - val lb)), s) /\
  mpvectscmp a (zlen la) b (zlen lb) s =
    (Ok (if (zlen la <? zlen lb) && (val la =? val lb) then 1 else Z.sgn (val la - val lb)), s).
Proof.
  intros Ha Hb Sa Sb. rewrite <- zcmp_sgn. split; [by apply mpveccmp_ok|]. rewrite mpvectscmp_ok by done. done.
Qed.
Definition padded : MpStore := mkMpStore [Some (num 1 [5]); Some (num 1 [5; 0])] 33.
Lemma mpvectscmp_agrees_witness :
  mpveccmp (0%nat, 0) 1 (1%nat, 0) 2 padded = (Ok 0, padded) /\ mpvectscmp (0%nat, 0) 1 (1%nat, 0) 2 padded = (Ok 1, padded).
Proof.
  apply (mpvectscmp_agrees padded (0%nat, 0) [5] (1%nat, 0) [5; 0]); try (by apply digb_ok).
  - exists (num 1 [5]). split; [done|apply pts_all].
  - exists (num 1 [5; 0]). split; [done|apply pts_all].
Defined.

(** ** Products *)

(** C35. [mpvecmul], which splits long operands by Karatsuba's identity through
    [mpkaratsuba] to any depth, and [mpvectsmul], which multiplies row by row,
    leave the same digits, those of the product, for operands of any lengths;
    the recursion ends and the scratch arrays are freed. *)
Theorem mpvecmul_schoolbook s a la b lb p :
  dig la -> dig lb -> seg s a la -> seg s b lb -> seg s p (replicate (length la + length lb) 0) ->
  apart a (zlen la) p (zlen la + zlen lb) -> apart b (zlen lb) p (zlen la + zlen lb) ->
  exists s' k, mpvecmul a (zlen la) b (zlen lb) p s = (Ok tt, grow k s') /\ mpvectsmul a (zlen la) b (zlen lb) p s = (Ok tt, s') /\
    seg s' p (digits (length la + length lb) (val la * val lb)) /\ seg s' a la /\ seg s' b lb.
Proof.
  intros Ha Hb Sa Sb Sp Aa Ab. destruct (mpvecmul_ok s a la b lb p) as [k Ek]; try done.
  exists (wr p (digits (length la + length lb) (val la * val lb)) s), k.
  assert (R : room s p (zlen la + zlen lb)).
  { eapply room_eq; [by apply seg_room|]. rewrite zlen_zeros. unfold zlen. lia. }
  assert (Zd : zlen (digits (length la + length lb) (val la * val lb)) = zlen la + zlen lb) by (rewrite digits_zlen; unfold zlen; lia).
  split_and!; [done|by apply mpvectsmul_ok|by apply (seg_wr_same _ _ _ _ R)|by apply (seg_wr_other _ _ _ _ _ _ R)..].
Qed.
Definition long : list Z := replicate 40 4294967295.
Definition longs : MpStore := mkMpStore [Some (num 1 long); Some (num 1 (replicate 80 0))] 33.
Lemma mpvecmul_schoolbook_witness :
  exists s' k, mpvecmul (0%nat, 0) 40 (0%nat, 0) 40 (1%nat, 0) longs = (Ok tt, grow k s') /\
    mpvectsmul (0%nat, 0) 40 (0%nat, 0) 40 (1%nat, 0) longs = (Ok tt, s') /\
    seg s' (1%nat, 0) (digits 80 ((B ^ 40 - 1) * (B ^ 40 - 1))) /\ seg s' (0%nat, 0) long /\ seg s' (0%nat, 0) long.
Proof.
  apply (mpvecmul_schoolbook longs (0%nat, 0) long (0%nat, 0) long (1%nat, 0)); try (by apply digb_ok); try (by left).
  - exists (num 1 long). split; [done|apply pts_all].
  - exists (num 1 long). split; [done|apply pts_all].
  - exists (num 1 (replicate 80 0)). split; [done|apply pts_all].
Defined.

(** C33. [mpmul] on any two normal numbers puts their exact product, in normal
    form, in any object that is neither constant-time nor static, also in one
    of the operands; the objects it allocates are freed and no other changes. *)
Theorem mpmul_exact s b1 b2 prod o1 o2 n :
  mpobj b1 s = Some o1 -> mpobj b2 s = Some o2 -> mpobj prod s = Some n ->
  normal o1 -> normal o2 -> wf n -> plain n -> Z.land (mp_flags n) MPstatic = 0 -> (mp_top o1 + mp_top o2 + 1) * Dbits < 2 ^ 31 ->
  exists y k, mpmul b1 b2 prod s = (Ok tt, grow k (mp_put prod (Some y) s)) /\ normal y /\ mpz y = mpz o1 * mpz o2.
Proof.
  intros E1 E2 En N1 N2 W P St F. destruct (mpmul_ok s b1 b2 prod o1 o2 n) as (y & k & E & [N _] & Hy); try done. eauto.
Qed.
Lemma mpmul_exact_witness :
  exists y k, mpmul 3 4 4 mpstore = (Ok tt, grow k (mp_put 4 (Some y) mpstore)) /\ normal y /\
    mpz y = (5 + 7 * B) * - (B - 1 + (B - 1) * B + B * B).
Proof.
  apply (mpmul_exact mpstore 3 4 4 (num 1 [5; 7]) (num (-1) [4294967295; 4294967295; 1]) (num (-1) [4294967295; 4294967295; 1]));
    try reflexivity; [by apply normalb_ok..|by apply wfb_ok].
Defined.

(** ** Shifts *)

Lemma top_le o n : normal o -> 0 <= n -> mag o < B ^ n -> mp_top o <= n.
Proof.
  intros N Hn Hm. destruct (Z.le_gt_cases (mp_top o) n) as [|Hgt]; [done|].
  pose proof (mag_lead _ N ltac:(lia)). pose proof (Z.pow_le_mono_r B n (mp_top o - 1) B_pos ltac:(lia)). lia.
Qed.

(** C40. Shifting a normal number [k] places to the left multiplies it by [2^k],
    in normal form, and shifting the result back, in place, restores it. *)
Theorem mpright_mpleft s b r o n k :
  mpobj b s = Some o -> mpobj r s = Some n -> normal o -> normal n -> 0 <= k -> (mp_top o + k / 32 + 1) * Dbits + k < 2 ^ 31 ->
  exists y z, mpleft b k r s = (Ok tt, mp_put r (Some y) s) /\ normal y /\ mpz y = mpz o * 2 ^ k /\
    mpright r k r (mp_put r (Some y) s) = (Ok tt, mp_put r (Some z) s) /\ normal z /\ mpz z = mpz o.
Proof.
  intros Eo En No Nn Hk F. pose proof (wf_top _ (normal_wf _ No)). change Dbits with 32 in *.
  assert (Hd : 0 <= k / 32 /\ k < (k / 32 + 1) * 32) by dlia.
  destruct (mpleft_ok s b r o n k) as (y & Ey & [Ny Fy] & Hy); try done; [by apply normal_ready|lia|change Dbits with 32; lia|].
  unfold shifted in Hy. destruct (Z.ltb_spec k 0); [lia|]. pose proof (mpobj_lt _ _ _ En) as Hlt. pose proof (pow2_pos k Hk) as Hp.
  assert (My : mag y = mag o * 2 ^ k).
  { rewrite <- !abs_mpz, Hy, Z.abs_mul by (by apply normal_wf). f_equal. lia. }
  assert (Ty : mp_top y <= mp_top o + k / 32 + 1).
  { apply top_le; [done|lia|]. rewrite My, <- Z.add_assoc, Z.pow_add_r by lia. pose proof (mag_bound _ (normal_wf _ No)).
    apply Z.mul_lt_mono_nonneg; [lia|lia|lia|]. unfold B. rewrite <- Z.pow_mul_r by lia. apply Z.pow_lt_mono_r; lia. }
  assert (Er : mpobj r (mp_put r (Some y) s) = Some y) by (by apply mpobj_put).
  destruct (mpright_ok (mp_put r (Some y) s) r r y y k) as (z & Ez & [Nz Fz] & Hz); try done; [by apply normal_ready|lia|change Dbits with 32; lia|].
  rewrite mp_put_put in Ez. exists y, z. split_and!; try done. rewrite Hz. rewrite <- shifted_right by done. rewrite My, Z.div_mul by lia.
  assert (Sy : mp_sign y * mag y = mp_sign o * mag y) by (unfold mpz in Hy; rewrite My in *; lia).
  rewrite My in Sy. unfold mpz. apply (Z.mul_cancel_r _ _ (2 ^ k)); lia.
Qed.
Lemma mpright_mpleft_witness :
  exists y z, mpleft 4 70 5 mpstore = (Ok tt, mp_put 5 (Some y) mpstore) /\ normal y /\ mpz y = - (B - 1 + (B - 1) * B + B * B) * 2 ^ 70 /\
    mpright 5 70 5 (mp_put 5 (Some y) mpstore) = (Ok tt, mp_put 5 (Some z) mpstore) /\ normal z /\ mpz z = - (B - 1 + (B - 1) * B + B * B).
Proof.
  apply (mpright_mpleft mpstore 4 5 (num (-1) [4294967295; 4294967295; 1]) (num 1 [9]) 70); try reflexivity; (by apply normalb_ok) || done.
Defined.

(** ** The trial quotient *)

(** [mpdigdiv]: for any two digits and any divisor the quotient when it fits
    a digit, and the largest digit when it does not or the divisor is zero. *)
Theorem mpdigdiv_quotient hi lo d : 0 <= hi < B -> 0 <= lo < B -> 0 <= d < B ->
  mpdigdiv hi lo d = (if d =? 0 then B - 1 else Z.min ((hi * B + lo) / d) (B - 1)) /\ 0 <= mpdigdiv hi lo d < B.
Proof.
  intros Hh Hl Hd. destruct (Z.eqb_spec d 0) as [->|Hn].
  - unfold mpdigdiv. rewrite orb_true_r. done.
  - rewrite mpdigdiv_ok by lia. split; [done|]. assert (0 <= (hi * B + lo) / d); [|rewrite B_eq in *; lia].
    apply Z.div_pos; [|lia]. rewrite B_eq in *. lia.
Qed.
Lemma mpdigdiv_quotient_witness :
  mpdigdiv 6 4294967290 7 = 4294967295 /\ 0 <= mpdigdiv 6 4294967290 7 < B.
Proof. apply (mpdigdiv_quotient 6 4294967290 7); vm_compute; split; done. Defined.
