(* ===== verification/MpDivProps.v ===== *)
(** * Multiple precision arithmetic: the properties of the division

    [mpdiv] is truncated division and [mpmod] the residue, on every path:
    powers of two of one digit, a smaller dividend, and the long division. *)
From S2P Require Import Prelude CMonad Mp MpVal MpInt MpAdd MpShift MpQuot MpRem MpProps.

(** Operands of three and two digits, a quotient and a remainder, and a small number. *)
Definition divstore : MpStore :=
  mkMpStore (objs mpinit ++ [Some (num (-1) [5; 7; 3]); Some (num 1 [4294967295; 2]); Some (num 1 [1; 1; 1]); Some (num 1 [2; 2; 2]); Some (num 1 [8])]) 33.

(** C34. Division.  For normal operands, the divisor not zero, [mpdiv] stops with
    the truncated quotient in normal form and the remainder, which has the sign
    of the dividend or is zero; every other object is as it was, and what it
    allocates is freed.  The remainder may be an operand.  The hypotheses
    exclude what [mpdiv] gets wrong: a negative power of two of one digit as
    divisor, a quotient that held a negative number or is an operand, a zero
    whose array holds a stale digit, and a remainder with an array of one
    digit. *)
Theorem mpdiv_divides s x y q r ox oy :
  mpobj x s = Some ox -> mpobj y s = Some oy -> normal ox -> normal oy -> mpz oy <> 0 -> clean ox ->
  (mp_top ox + 3) * Dbits < 2 ^ 31 -> (mp_sign oy = -1 -> 1 < mp_top oy) ->
  q <> Some x -> q <> Some y -> (forall b, q = Some b -> r <> Some b) -> q <> None \/ r <> None ->
  has_zero s -> q <> Some mpzero -> r <> Some mpzero ->
  (forall b, q = Some b -> exists oq, mpobj b s = Some oq /\ ready oq /\ mp_sign oq = 1) ->
  (forall b, r = Some b -> exists o, mpobj b s = Some o /\ ready o /\ 2 <= mp_size o) ->
  exists s', mpdiv x y q r s = (Ok tt, s') /\ divided s s' q r (mpz ox) (mpz oy).
Proof.
  intros Ex Ey Nx Ny Hy. pose proof (mag_nonneg _ (normal_wf _ Ny)). assert (0 < mag oy) by (unfold mpz in Hy; destruct (Z.eq_dec (mag oy) 0); [nia|lia]).
  intros. by apply mpdiv_ok.
Qed.
Lemma mpdiv_divides_witness : exists s', mpdiv 3 4 (Some 5%nat) (Some 6%nat) divstore = (Ok tt, s') /\
  divided divstore s' (Some 5%nat) (Some 6%nat) (mpz (num (-1) [5; 7; 3])) (mpz (num 1 [4294967295; 2])).
Proof.
  apply (mpdiv_divides divstore 3 4); try reflexivity; try done; try (by apply normalb_ok); try (by right).
  - intros b [= <-]. done.
  - exists (mkMpint 1 1 0 [0] (Z.lor MPstatic MPnorm)). split_and!; [done|by apply normalb_ok|done].
  - intros b [= <-]. exists (num 1 [1; 1; 1]). split_and!; [done|by apply normal_ready, normalb_ok|done].
  - intros b [= <-]. exists (num 1 [2; 2; 2]). split_and!; [done|by apply normal_ready, normalb_ok|done].
Defined.

(** C38. Residues.  For a positive modulus [mpmod] leaves the residue between
    zero and the modulus, in an object that may be the number's, and changes
    nothing else; except that for a negative multiple of the modulus it leaves
    the modulus itself. *)
Theorem mpmod_residue s x n r ox on o :
  mpobj x s = Some ox -> mpobj n s = Some on -> mpobj r s = Some o -> normal ox -> normal on -> 0 < mpz on -> clean ox ->
  (Z.max (mp_top ox) (mp_top on) + 3) * Dbits < 2 ^ 31 -> Z.land (mp_flags on) MPfield = 0 ->
  has_zero s -> r <> mpzero -> r <> n -> ready o -> 2 <= mp_size o ->
  exists s' o', mpmod x n r s = (Ok tt, s') /\ mpobj r s' = Some o' /\ tidy o' /\
    mpz o' = (if (mpz ox <? 0) && (mpz ox mod mpz on =? 0) then mpz on else mpz ox mod mpz on) /\
    mpmindigits s' = mpmindigits s /\ forall b, b <> r -> mpobj b s' = mpobj b s.
Proof. intros. by eapply mpmod_ok. Qed.
Lemma mpmod_residue_witness : exists s' o', mpmod 3 7 3 divstore = (Ok tt, s') /\ mpobj 3 s' = Some o' /\ tidy o' /\ mpz o' = 3 /\
  mpmindigits s' = 33 /\ forall b, b <> 3%nat -> mpobj b s' = mpobj b divstore.
Proof.
  apply (mpmod_residue divstore 3 7 3 (num (-1) [5; 7; 3]) (num 1 [8]) (num (-1) [5; 7; 3])); try reflexivity; try done; try (by apply normalb_ok).
  - exists (mkMpint 1 1 0 [0] (Z.lor MPstatic MPnorm)). split_and!; [done|by apply normalb_ok|done].
  - by apply normal_ready, normalb_ok.
Defined.
